(** * goiam/policy: IAM policy documents, their builders and their JSON form

    A shallow embedding of [policy.go].  Go values are modelled by their
    contents:
    - a [string] is a sequence of bytes ([String.string], one [ascii] per
      byte);
    - a pointer [*T] is [option T] ([None] is the nil pointer); the package
      never shares a pointee between two owners, so the pointee is stored in
      place;
    - a slice [[]T] is [option (list T)] ([None] is the nil slice); what the
      backing array holds past the length of a slice shows only while
      [LoadPolicy] decodes, and is modelled there ([decoder.slice]);
    - a [map[K]V] is [option (gmap K V)] ([None] is the nil map, which can be
      read but not written).
    A call that panics in Go returns [Panic] here. *)

From Stdlib Require Import String Ascii List NArith ZArith Lia Bool.
From stdpp Require Import base option list gmap strings fin_maps sorting.
Import ListNotations.

Open Scope string_scope.
Open Scope list_scope.

(** ** Errors *)

(** The errors [LoadPolicy] can return: the two error types of the package,
    and the two kinds of error [encoding/json] reports by itself. *)
Inductive error : Type :=
| InvalidPolicyVersionError (s : string)
| InvalidEffectError (s : string)
| SyntaxError
| UnmarshalTypeError (value : string) (type : string).

(** [func (s InvalidPolicyVersionError) Version() string] *)
Definition Version_of (e : error) : option string :=
  match e with
  | InvalidPolicyVersionError s => Some s
  | _ => None
  end.

(** [func (s ...Error) Error() string] *)
Definition Error (e : error) : string :=
  match e with
  | InvalidPolicyVersionError s => "Invalid Policy Version " ++ s
  | InvalidEffectError s => "Invalid Effect " ++ s
  | SyntaxError => "invalid JSON"
  | UnmarshalTypeError v t =>
      "json: cannot unmarshal " ++ v ++ " into Go value of type " ++ t
  end.

(** The outcome of a Go call returning [(T, error)]. *)
Inductive result (A : Type) : Type :=
| Ok (a : A)
| Err (e : error).
Arguments Ok {A} a.
Arguments Err {A} e.

(** The outcome of a Go call that may panic. *)
Inductive outcome (A : Type) : Type :=
| Returns (a : A)
| Panic (msg : string).
Arguments Returns {A} a.
Arguments Panic {A} msg.

(** ** PolicyVersion *)

(** [type PolicyVersion struct{}] *)
Inductive PolicyVersion : Type := mkPolicyVersion.

Definition quote_char : ascii := Ascii.ascii_of_nat 34.

(** The text between double quotes, as a Go raw string literal
    [`"..."`] denotes it. *)
Definition lit (s : string) : string :=
  String quote_char (s ++ String quote_char EmptyString).

Module PolicyVersionJSON.

(** [func (_ PolicyVersion) MarshalJSON() ([]byte, error)] *)
Definition MarshalJSON (v : PolicyVersion) : result string :=
  Ok (lit "2012-10-17").

(** [func (_ PolicyVersion) UnmarshalJSON(b []byte) error]; the receiver
    is a value of an empty struct, so the call has no effect but its
    error. *)
Definition UnmarshalJSON (v : PolicyVersion) (b : string) : option error :=
  let s := b in
  if (s =? lit "2012-10-17") || (s =? lit "2008-10-17") then None
  else Some (InvalidPolicyVersionError s).

End PolicyVersionJSON.

(** ** Effect *)

(** [type Effect bool] *)
Definition Effect : Type := bool.
Definition Allow : Effect := true.
Definition Deny : Effect := false.

Module EffectJSON.

(** [func (e Effect) MarshalJSON() ([]byte, error)] *)
Definition MarshalJSON (e : Effect) : result string :=
  if e then Ok (lit "Allow") else Ok (lit "Deny").

(** [func (e *Effect) UnmarshalJSON(b []byte) error]: the new value of
    [*e] and the error. *)
Definition UnmarshalJSON (e : Effect) (b : string) : Effect * option error :=
  let s := b in
  if s =? lit "Allow" then (true, None)
  else if s =? lit "Deny" then (false, None)
  else (e, Some (InvalidEffectError s)).

End EffectJSON.

(** ** Go slices, maps and the panicking calls *)

Definition obind {A B : Type} (x : outcome A) (k : A -> outcome B) : outcome B :=
  match x with
  | Returns a => k a
  | Panic msg => Panic msg
  end.

Notation "x <~ e ;; k" := (obind e (fun x => k))
  (at level 100, e at next level, right associativity).

(** [append(s, x)]: appending to the nil slice allocates. *)
Definition append {A : Type} (s : option (list A)) (x : A) : option (list A) :=
  match s with
  | None => Some [x]
  | Some l => Some (l ++ [x])
  end.

(** [len(s)] of a slice or map. *)
Definition slice_len {A : Type} (s : option (list A)) : nat :=
  match s with
  | None => 0
  | Some l => length l
  end.

(** [v, ok := m[k]]: a nil map reads as an empty one. *)
Definition map_get {V : Type} (m : option (gmap string V)) (k : string) : option V :=
  match m with
  | None => None
  | Some g => g !! k
  end.

(** [m[k] = v]: writing to a nil map panics. *)
Definition map_set {V : Type} (m : option (gmap string V)) (k : string) (v : V)
  : outcome (option (gmap string V)) :=
  match m with
  | None => Panic "assignment to entry in nil map"
  | Some g => Returns (Some (<[k:=v]> g))
  end.

Definition map_len {V : Type} (m : option (gmap string V)) : nat :=
  match m with
  | None => 0
  | Some g => size g
  end.

(** ** Principal, Statement, Policy *)

(** [type Principal struct { Aws []string `json:"AWS"` }] *)
Record Principal : Type := mkPrincipal { Aws : option (list string) }.

(** [func NewPrincipal() *Principal] *)
Definition NewPrincipal : Principal := {| Aws := Some [] |}.

(** [type ConditionType string], [type ConditionVariable string] *)
Definition ConditionType : Type := string.
Definition ConditionVariable : Type := string.

Definition ConditionStringEquals : ConditionType := "StringEquals".
Definition ConditionStringNotEquals : ConditionType := "StringNotEquals".
Definition ConditionStringEqualsIgnoreCase : ConditionType := "StringEqualsIgnoreCase".
Definition ConditionStringNotEqualsIgnoreCase : ConditionType := "StringNotEqualsIgnoreCase".
Definition ConditionStringLike : ConditionType := "StringLike".
Definition ConditionStringNotLike : ConditionType := "StringNotLike".
Definition ConditionNumericEquals : ConditionType := "NumericEquals".
Definition ConditionNumericNotEquals : ConditionType := "NumericNotEquals".
Definition ConditionNumericLessThan : ConditionType := "NumericLessThan".
Definition ConditionNumericLessThanEquals : ConditionType := "NumericLessThanEquals".
Definition ConditionNumericGreaterThan : ConditionType := "NumericGreaterThan".
Definition ConditionNumericGreaterThanEquals : ConditionType := "NumericGreaterThanEquals".
Definition ConditionDateEquals : ConditionType := "DateEquals".
Definition ConditionDateNotEquals : ConditionType := "DateNotEquals".
Definition ConditionDateLessThan : ConditionType := "DateLessThan".
Definition ConditionDateLessThanEquals : ConditionType := "DateLessThanEquals".
Definition ConditionDateGreaterThan : ConditionType := "DateGreaterThan".
Definition ConditionDateGreaterThanEquals : ConditionType := "DateGreaterThanEquals".
Definition ConditionBool : ConditionType := "Bool".
Definition ConditionIpAddress : ConditionType := "IpAddress".
Definition ConditionNotIpAddress : ConditionType := "NotIpAddress".
Definition ConditionArnEquals : ConditionType := "ArnEquals".
Definition ConditionArnNotEquals : ConditionType := "ArnNotEquals".
Definition ConditionArnLike : ConditionType := "ArnLike".
Definition ConditionArnNotLike : ConditionType := "ArnNotLike".
Definition ConditionNull : ConditionType := "Null".

Definition VarCurrentTime : ConditionVariable := "aws:CurrentTime".
Definition VarEpochTime : ConditionVariable := "aws:EpochTime".
Definition VarMultiFactorAuthAge : ConditionVariable := "aws:MultiFactorAuthAge".
Definition VarPrincipalType : ConditionVariable := "aws:principaltype".
Definition VarSecureTransport : ConditionVariable := "aws:SecureTransport".
Definition VarSourceArn : ConditionVariable := "aws:SourceArn".
Definition VarSourceIp : ConditionVariable := "aws:SourceIp".
Definition VarUserAgent : ConditionVariable := "aws:UserAgent".
Definition VarUsedId : ConditionVariable := "aws:userid".
Definition VarUsername : ConditionVariable := "aws:username".

(** [map[ConditionVariable][]string] and
    [map[ConditionType]map[ConditionVariable][]string] *)
Abbreviation VariableMap := (option (gmap string (option (list string)))).
Abbreviation ConditionMap :=
  (option (gmap string (option (gmap string (option (list string)))))).

(** [type Statement struct] *)
Record Statement : Type := mkStatement {
  stSid : option string;
  stEffect : Effect;
  stPrincipal : option Principal;
  stNotPrincipal : option Principal;
  stAction : option (list string);
  stNotAction : option (list string);
  stResource : string;
  stCondition : ConditionMap
}.

Definition setSid (s : Statement) v : Statement :=
  mkStatement v (stEffect s) (stPrincipal s) (stNotPrincipal s) (stAction s)
    (stNotAction s) (stResource s) (stCondition s).
Definition setEffect (s : Statement) v : Statement :=
  mkStatement (stSid s) v (stPrincipal s) (stNotPrincipal s) (stAction s)
    (stNotAction s) (stResource s) (stCondition s).
Definition setPrincipal (s : Statement) v : Statement :=
  mkStatement (stSid s) (stEffect s) v (stNotPrincipal s) (stAction s)
    (stNotAction s) (stResource s) (stCondition s).
Definition setNotPrincipal (s : Statement) v : Statement :=
  mkStatement (stSid s) (stEffect s) (stPrincipal s) v (stAction s)
    (stNotAction s) (stResource s) (stCondition s).
Definition setAction (s : Statement) v : Statement :=
  mkStatement (stSid s) (stEffect s) (stPrincipal s) (stNotPrincipal s) v
    (stNotAction s) (stResource s) (stCondition s).
Definition setNotAction (s : Statement) v : Statement :=
  mkStatement (stSid s) (stEffect s) (stPrincipal s) (stNotPrincipal s)
    (stAction s) v (stResource s) (stCondition s).
Definition setResource (s : Statement) v : Statement :=
  mkStatement (stSid s) (stEffect s) (stPrincipal s) (stNotPrincipal s)
    (stAction s) (stNotAction s) v (stCondition s).
Definition setCondition (s : Statement) v : Statement :=
  mkStatement (stSid s) (stEffect s) (stPrincipal s) (stNotPrincipal s)
    (stAction s) (stNotAction s) (stResource s) v.

(** The zero value [Statement{}]. *)
Definition zeroStatement : Statement :=
  mkStatement None false None None None None "" None.

(** [func (s *Statement) SetSid(id string)] *)
Definition SetSid (s : Statement) (id : string) : Statement :=
  setSid s (Some id).

(** [func (s *Statement) AddPrincipal(p string)]; [s.Principal.Aws]
    dereferences the pointer. *)
Definition AddPrincipal (s : Statement) (p : string) : outcome Statement :=
  match stPrincipal s with
  | None => Panic "invalid memory address or nil pointer dereference"
  | Some pr => Returns (setPrincipal s (Some {| Aws := append (Aws pr) p |}))
  end.

(** [func (s *Statement) AddNotPrincipal(p string)] *)
Definition AddNotPrincipal (s : Statement) (p : string) : Statement :=
  let np :=
    match stNotPrincipal s with
    | None => NewPrincipal
    | Some np => np
    end in
  setNotPrincipal s (Some {| Aws := append (Aws np) p |}).

(** [func (s *Statement) AddAction(a string)] *)
Definition AddAction (s : Statement) (a : string) : Statement :=
  setAction s (append (stAction s) a).

(** [func (s *Statement) AddNotAction(a string)] *)
Definition AddNotAction (s : Statement) (a : string) : Statement :=
  setNotAction s (append (stNotAction s) a).

(** [func (s *Statement) AddCondition(t ConditionType, key ConditionVariable,
    value string)].  Maps are references: the inner map written through
    [s.Condition[t][key] = ...] is the one the outer map holds, which the
    last [map_set] on the outer map records. *)
Definition AddCondition (s : Statement) (t : ConditionType)
    (key : ConditionVariable) (value : string) : outcome Statement :=
  (* if _, ok := s.Condition[t]; !ok { s.Condition[t] = make(...) } *)
  c1 <~ match map_get (stCondition s) t with
        | None => map_set (stCondition s) t (Some ∅)
        | Some _ => Returns (stCondition s)
        end ;;
  let inner := default None (map_get c1 t) in
  (* if _, ok := s.Condition[t][key]; !ok { s.Condition[t][key] = make(...) } *)
  inner1 <~ match map_get inner key with
            | None => map_set inner key (Some [])
            | Some _ => Returns inner
            end ;;
  (* s.Condition[t][key] = append(s.Condition[t][key], value) *)
  let cur := default None (map_get inner1 key) in
  inner2 <~ map_set inner1 key (append cur value) ;;
  c2 <~ map_set c1 t inner2 ;;
  Returns (setCondition s c2).

(** [type Policy struct] *)
Record Policy : Type := mkPolicy {
  polVersion : PolicyVersion;
  polId : option string;
  polStatement : option (list (option Statement))
}.

(** The zero value [Policy{}]. *)
Definition zeroPolicy : Policy := mkPolicy mkPolicyVersion None None.

(** [func NewPolicy() *Policy] *)
Definition NewPolicy : Policy := mkPolicy mkPolicyVersion None (Some []).

(** [func (p *Policy) SetId(id string)] *)
Definition SetId (p : Policy) (id : string) : Policy :=
  mkPolicy (polVersion p) (Some id) (polStatement p).

(** The statement [AddStatement] allocates. *)
Definition newStatement : Statement :=
  mkStatement None false (Some NewPrincipal) None (Some []) None "" (Some ∅).

(** [func (p *Policy) AddStatement() *Statement]: the policy, and the
    returned pointer as the position of its pointee in [p.Statement]. *)
Definition AddStatement (p : Policy) : Policy * nat :=
  (mkPolicy (polVersion p) (polId p) (append (polStatement p) (Some newStatement)),
   slice_len (polStatement p)).

(** The statement a pointer held in [p.Statement] points to. *)
Definition statementAt (p : Policy) (i : nat) : option Statement :=
  match polStatement p with
  | None => None
  | Some l => match l !! i with Some (Some s) => Some s | _ => None end
  end.

(** A call on the statement at position [i], seen from the policy. *)
Definition onStatement (p : Policy) (i : nat) (f : Statement -> outcome Statement)
  : outcome Policy :=
  match polStatement p with
  | None => Panic "index out of range"
  | Some l =>
      match l !! i with
      | None => Panic "index out of range"
      | Some None => Panic "invalid memory address or nil pointer dereference"
      | Some (Some s) =>
          s' <~ f s ;;
          Returns (mkPolicy (polVersion p) (polId p) (Some (<[i:=Some s']> l)))
      end
  end.

(** [s[n:]] and [s[:n]], clipped to the length of [s]. *)
Fixpoint string_drop (n : nat) (s : string) : string :=
  match n, s with
  | S n', String _ t => string_drop n' t
  | _, _ => s
  end.

Fixpoint string_take (n : nat) (s : string) : string :=
  match n, s with
  | S n', String c t => String c (string_take n' t)
  | _, _ => EmptyString
  end.

(** ** unicode/utf8 *)

Module utf8.

Definition RuneError : N := 65533.
Definition RuneSelf : N := 128.

(** The table [first] with [acceptRanges]: for a leading byte, the length
    of the sequence and the range the second byte must lie in; [None] for
    the bytes that start no sequence ([xx]).  ASCII bytes ([as]) are
    handled before the table is read. *)
Definition first (b : N) : option (nat * (N * N)) :=
  (if b <? 194 then None
   else if b <? 224 then Some (2%nat, (128, 191))
   else if b =? 224 then Some (3%nat, (160, 191))
   else if b <? 237 then Some (3%nat, (128, 191))
   else if b =? 237 then Some (3%nat, (128, 159))
   else if b <? 240 then Some (3%nat, (128, 191))
   else if b =? 240 then Some (4%nat, (144, 191))
   else if b <? 244 then Some (4%nat, (128, 191))
   else if b =? 244 then Some (4%nat, (128, 143))
   else None)%N.

(** A continuation byte: [locb <= b <= hicb]. *)
Definition cont (b : N) : bool := ((128 <=? b) && (b <=? 191))%N.

(** [func DecodeRuneInString(s string) (rune, int)] *)
Definition DecodeRuneInString (s : string) : N * nat :=
  match s with
  | EmptyString => (RuneError, 0)
  | String c0 t0 =>
      let s0 := N_of_ascii c0 in
      if (s0 <? RuneSelf)%N then (s0, 1)
      else
        match first s0 with
        | None => (RuneError, 1)
        | Some (sz, (lo, hi)) =>
            if (String.length s <? sz)%nat then (RuneError, 1)
            else
              match t0 with
              | EmptyString => (RuneError, 1)
              | String c1 t1 =>
                  let s1 := N_of_ascii c1 in
                  if ((s1 <? lo) || (hi <? s1))%N then (RuneError, 1)
                  else if (sz <=? 2)%nat then
                    (N.lor (N.shiftl (N.land s0 31) 6) (N.land s1 63), 2)
                  else
                    match t1 with
                    | EmptyString => (RuneError, 1)
                    | String c2 t2 =>
                        let s2 := N_of_ascii c2 in
                        if negb (cont s2) then (RuneError, 1)
                        else if (sz <=? 3)%nat then
                          (N.lor (N.shiftl (N.land s0 15) 12)
                             (N.lor (N.shiftl (N.land s1 63) 6) (N.land s2 63)), 3)
                        else
                          match t2 with
                          | EmptyString => (RuneError, 1)
                          | String c3 _ =>
                              let s3 := N_of_ascii c3 in
                              if negb (cont s3) then (RuneError, 1)
                              else
                                (N.lor (N.shiftl (N.land s0 7) 18)
                                   (N.lor (N.shiftl (N.land s1 63) 12)
                                      (N.lor (N.shiftl (N.land s2 63) 6)
                                         (N.land s3 63))), 4)
                          end
                    end
              end
        end
  end.

Definition byte (n : N) : ascii := ascii_of_N n.

(** [func AppendRune(p []byte, r rune) []byte], as the bytes appended;
    surrogates and values above [MaxRune] encode [RuneError]. *)
Definition EncodeRune (r : N) : string :=
  (if r <=? 127 then String (byte r) EmptyString
   else if r <=? 2047 then
     String (byte (N.lor 192 (N.shiftr r 6)))
       (String (byte (N.lor 128 (N.land r 63))) EmptyString)
   else if (1114111 <? r) || ((55296 <=? r) && (r <=? 57343)) then
     String (byte 239) (String (byte 191) (String (byte 189) EmptyString))
   else if r <=? 65535 then
     String (byte (N.lor 224 (N.shiftr r 12)))
       (String (byte (N.lor 128 (N.land (N.shiftr r 6) 63)))
          (String (byte (N.lor 128 (N.land r 63))) EmptyString))
   else
     String (byte (N.lor 240 (N.shiftr r 18)))
       (String (byte (N.lor 128 (N.land (N.shiftr r 12) 63)))
          (String (byte (N.lor 128 (N.land (N.shiftr r 6) 63)))
             (String (byte (N.lor 128 (N.land r 63))) EmptyString))))%N.

(** [func ValidString(s string) bool]: no position decodes to
    [(RuneError, 1)]. *)
Fixpoint ValidString_loop (fuel : nat) (s : string) : bool :=
  match fuel with
  | O => true
  | S fuel' =>
      match s with
      | EmptyString => true
      | String c0 t0 =>
          if (N_of_ascii c0 <? RuneSelf)%N then ValidString_loop fuel' t0
          else
            match DecodeRuneInString s with
            | (_, 1%nat) => false
            | (_, size) => ValidString_loop fuel' (string_drop size s)
            end
      end
  end.

Definition ValidString (s : string) : bool :=
  ValidString_loop (String.length s) s.

End utf8.

(** ** encoding/json: Marshal

    The part of [encoding/json] the package calls, specialised to the types
    of the package: the encoders [Marshal] selects for [Policy] by
    reflection (struct fields in declaration order under their tag names,
    [omitempty], pointers and slices with [null] for nil, maps with their
    keys sorted, strings quoted by [appendString], and [MarshalJSON] for the
    two types that implement [Marshaler]). *)

Definition rbind {A B : Type} (x : result A) (k : A -> result B) : result B :=
  match x with
  | Ok a => k a
  | Err e => Err e
  end.

Notation "x <- e ;; k" := (rbind e (fun x => k))
  (at level 100, e at next level, right associativity).

Fixpoint rsequence {A : Type} (l : list (result A)) : result (list A) :=
  match l with
  | [] => Ok []
  | x :: l' => a <- x ;; r <- rsequence l' ;; Ok (a :: r)
  end.

(** The order [strings.Compare] gives map keys: bytewise. *)
Definition key_le {V : Type} (a b : string * V) : Prop :=
  String.le (fst a) (fst b).

#[global] Instance key_le_dec {V : Type} : RelDecision (@key_le V).
Proof. intros a b. unfold key_le. apply _. Defined.

Module json.

Definition hex : string := "0123456789abcdef".

Definition hexdigit (n : N) : ascii :=
  default Ascii.zero (String.get (N.to_nat n) hex).

Definition backslash : ascii := Ascii.ascii_of_nat 92.

(** [htmlSafeSet[b]], for [b < utf8.RuneSelf]. *)
Definition htmlSafe (b : N) : bool :=
  ((32 <=? b) && negb (b =? 34) && negb (b =? 38) && negb (b =? 60)
   && negb (b =? 62) && negb (b =? 92))%N.

(** The [switch b] of [appendString]. *)
Definition escapeByte (c : ascii) : string :=
  let b := N_of_ascii c in
  (if (b =? 92) || (b =? 34) then String backslash (String c EmptyString)
   else if b =? 8 then String backslash "b"
   else if b =? 12 then String backslash "f"
   else if b =? 10 then String backslash "n"
   else if b =? 13 then String backslash "r"
   else if b =? 9 then String backslash "t"
   else
     String backslash
       ("u00" +:+ String (hexdigit (N.shiftr b 4))
                    (String (hexdigit (N.land b 15)) EmptyString)))%N.

(** The loop of [appendString], from position [i] on ([src] is
    [src[i:]]); [fuel] bounds the number of iterations. *)
Fixpoint appendString_loop (fuel : nat) (src : string) : string :=
  match fuel with
  | O => EmptyString
  | S fuel' =>
      match src with
      | EmptyString => EmptyString
      | String c rest =>
          let b := N_of_ascii c in
          if (b <? utf8.RuneSelf)%N then
            if htmlSafe b then String c (appendString_loop fuel' rest)
            else escapeByte c +:+ appendString_loop fuel' rest
          else
            let '(r, size) := utf8.DecodeRuneInString src in
            if (r =? utf8.RuneError)%N && (size =? 1)%nat then
              String backslash "ufffd" +:+ appendString_loop fuel' rest
            else if ((r =? 8232) || (r =? 8233))%N then
              String backslash
                ("u202" +:+ String (hexdigit (N.land r 15)) EmptyString)
              +:+ appendString_loop fuel' (string_drop size src)
            else
              string_take size src
              +:+ appendString_loop fuel' (string_drop size src)
      end
  end.

(** [func appendString(dst []byte, src string, escapeHTML bool) []byte]
    with [escapeHTML] set, as [Marshal] calls it: the bytes appended. *)
Definition appendString (src : string) : string :=
  String quote_char
    (appendString_loop (String.length src) src
     +:+ String quote_char EmptyString).

Definition join (sep : string) (l : list string) : string :=
  String.concat sep l.

(** [stringEncoder] *)
Definition stringEncoder (s : string) : result string :=
  Ok (appendString s).

(** [ptrEncoder] *)
Definition ptrEncoder {A : Type} (enc : A -> result string) (p : option A)
  : result string :=
  match p with
  | None => Ok "null"
  | Some a => enc a
  end.

(** [arrayEncoder] *)
Definition arrayEncoder {A : Type} (enc : A -> result string) (l : list A)
  : result string :=
  bs <- rsequence (map enc l) ;;
  Ok ("[" +:+ join "," bs +:+ "]").

(** [sliceEncoder] *)
Definition sliceEncoder {A : Type} (enc : A -> result string)
    (s : option (list A)) : result string :=
  match s with
  | None => Ok "null"
  | Some l => arrayEncoder enc l
  end.

(** [mapEncoder]: the keys are sorted before they are written. *)
Definition mapEncoder {V : Type} (enc : V -> result string)
    (m : option (gmap string V)) : result string :=
  match m with
  | None => Ok "null"
  | Some g =>
      let sv := merge_sort key_le (map_to_list g) in
      bs <- rsequence
              (map (fun kv : string * V =>
                      b <- enc (snd kv) ;; Ok (appendString (fst kv) +:+ ":" +:+ b))
                 sv) ;;
      Ok ("{" +:+ join "," bs +:+ "}")
  end.

(** One field of [structEncoder]: skipped when it has [omitempty] and
    [isEmptyValue] holds of it. *)
Definition field (name : string) (omitted : bool) (v : result string)
  : option (result string) :=
  if omitted then None
  else Some (b <- v ;; Ok (lit name +:+ ":" +:+ b)).

(** [structEncoder] *)
Definition structEncoder (fields : list (option (result string)))
  : result string :=
  bs <- rsequence (omap id fields) ;;
  Ok ("{" +:+ join "," bs +:+ "}").

(** [marshalerEncoder]: the bytes [MarshalJSON] returns are compacted;
    those the two marshalers of the package return are compact. *)
Definition marshalerEncoder (r : result string) : result string := r.

Definition isNil {A : Type} (p : option A) : bool :=
  match p with None => true | Some _ => false end.

Definition encodeStrings : option (list string) -> result string :=
  sliceEncoder stringEncoder.

Definition encodePrincipal (p : Principal) : result string :=
  structEncoder [field "AWS" false (encodeStrings (Aws p))].

Definition encodeCondition : ConditionMap -> result string :=
  mapEncoder (mapEncoder encodeStrings).

Definition encodeStatement (s : Statement) : result string :=
  structEncoder
    [field "Sid" (isNil (stSid s)) (ptrEncoder stringEncoder (stSid s));
     field "Effect" false
       (marshalerEncoder (EffectJSON.MarshalJSON (stEffect s)));
     field "Principal" false (ptrEncoder encodePrincipal (stPrincipal s));
     field "NotPrincipal" (isNil (stNotPrincipal s))
       (ptrEncoder encodePrincipal (stNotPrincipal s));
     field "Action" false (encodeStrings (stAction s));
     field "NotAction" (slice_len (stNotAction s) =? 0)%nat
       (encodeStrings (stNotAction s));
     field "Resource" false (stringEncoder (stResource s));
     field "Condition" (map_len (stCondition s) =? 0)%nat
       (encodeCondition (stCondition s))].

Definition encodePolicy (p : Policy) : result string :=
  structEncoder
    [field "Version" false
       (marshalerEncoder (PolicyVersionJSON.MarshalJSON (polVersion p)));
     field "Id" (isNil (polId p)) (ptrEncoder stringEncoder (polId p));
     field "Statement" false
       (sliceEncoder (ptrEncoder encodeStatement) (polStatement p))].

(** [func Marshal(v any) ([]byte, error)] at [*Policy]. *)
Definition Marshal (p : Policy) : result string := encodePolicy p.

End json.

(** [func (p *Policy) Get() ([]byte, error)] *)
Definition Get (p : Policy) : result string := json.Marshal p.


(** ** encoding/json: Unmarshal

    [Unmarshal] first checks that the whole input is one well-formed JSON
    value ([checkValid]) and then stores it into the target, guided by the
    type of the target.  The model separates the two: [parse] reads the
    input into a tree that keeps, at every node, the text it was read from;
    the decoders below walk the tree the way [decodeState] walks the
    text. *)

#[warnings="-register-all"]
Inductive value : Type :=
| Literal (item : string)
| Array (raw : string) (elems : list value)
| Object (raw : string) (members : list (string * value)).

Module scanner.

Definition isSpace (c : ascii) : bool :=
  let b := N_of_ascii c in
  ((b =? 32) || (b =? 9) || (b =? 13) || (b =? 10))%N.

Fixpoint skipSpace (s : string) : string :=
  match s with
  | EmptyString => EmptyString
  | String c t => if isSpace c then skipSpace t else s
  end.

Definition isDigit (c : ascii) : bool :=
  let b := N_of_ascii c in ((48 <=? b) && (b <=? 57))%N.

Definition isHex (c : ascii) : bool :=
  let b := N_of_ascii c in
  (((48 <=? b) && (b <=? 57)) || ((97 <=? b) && (b <=? 102))
   || ((65 <=? b) && (b <=? 70)))%N.

(** The characters that may follow a backslash, [u] apart. *)
Definition isEscape (c : ascii) : bool :=
  let b := N_of_ascii c in
  ((b =? 98) || (b =? 102) || (b =? 110) || (b =? 114) || (b =? 116)
   || (b =? 92) || (b =? 47) || (b =? 34))%N.

(** A string literal after its opening quote: the text up to and
    including the closing quote, and what follows it ([stateInString]
    and the states of the escapes). *)
Fixpoint scanString (s : string) : option (string * string) :=
  match s with
  | EmptyString => None
  | String c t =>
      if Ascii.eqb c quote_char then Some (String c EmptyString, t)
      else if Ascii.eqb c json.backslash then
        match t with
        | EmptyString => None
        | String e t1 =>
            if isEscape e then
              match scanString t1 with
              | Some (l, r) => Some (String c (String e l), r)
              | None => None
              end
            else if Ascii.eqb e "u" then
              match t1 with
              | String h1 (String h2 (String h3 (String h4 t2))) =>
                  if isHex h1 && isHex h2 && isHex h3 && isHex h4 then
                    match scanString t2 with
                    | Some (l, r) =>
                        Some (String c (String e (String h1 (String h2
                                (String h3 (String h4 l))))), r)
                    | None => None
                    end
                  else None
              | _ => None
              end
            else None
        end
      else if (N_of_ascii c <? 32)%N then None
      else
        match scanString t with
        | Some (l, r) => Some (String c l, r)
        | None => None
        end
  end.

(** The longest prefix of digits, and what follows it. *)
Fixpoint spanDigits (s : string) : string * string :=
  match s with
  | EmptyString => (EmptyString, EmptyString)
  | String c t =>
      if isDigit c then let '(d, r) := spanDigits t in (String c d, r)
      else (EmptyString, s)
  end.

(** At least one digit. *)
Definition scanDigits1 (s : string) : option (string * string) :=
  match spanDigits s with
  | (EmptyString, _) => None
  | (d, r) => Some (d, r)
  end.

(** The exponent of a number, if there is one ([stateE], [stateESign],
    [stateE0]). *)
Definition scanExp (s : string) : option (string * string) :=
  match s with
  | String c t =>
      if Ascii.eqb c "e" || Ascii.eqb c "E" then
        match t with
        | String g t1 =>
            if Ascii.eqb g "+" || Ascii.eqb g "-" then
              match scanDigits1 t1 with
              | Some (d, r) => Some (String c (String g d), r)
              | None => None
              end
            else
              match scanDigits1 t with
              | Some (d, r) => Some (String c d, r)
              | None => None
              end
        | EmptyString => None
        end
      else Some (EmptyString, s)
  | EmptyString => Some (EmptyString, s)
  end.

(** The fraction and exponent of a number ([stateDot], [stateDot0]). *)
Definition scanFrac (s : string) : option (string * string) :=
  match s with
  | String c t =>
      if Ascii.eqb c "." then
        match scanDigits1 t with
        | Some (d, r) =>
            match scanExp r with
            | Some (e, r') => Some (String c (d +:+ e), r')
            | None => None
            end
        | None => None
        end
      else scanExp s
  | EmptyString => Some (EmptyString, s)
  end.

(** The digits of a number after its sign ([stateNeg], [state0],
    [state1]). *)
Definition scanInt (s : string) : option (string * string) :=
  match s with
  | String c t =>
      if Ascii.eqb c "0" then
        match scanFrac t with
        | Some (f, r) => Some (String c f, r)
        | None => None
        end
      else if isDigit c then
        let '(d, r) := spanDigits t in
        match scanFrac r with
        | Some (f, r') => Some (String c (d +:+ f), r')
        | None => None
        end
      else None
  | EmptyString => None
  end.

Definition scanNumber (s : string) : option (string * string) :=
  match s with
  | String c t =>
      if Ascii.eqb c "-" then
        match scanInt t with
        | Some (n, r) => Some (String c n, r)
        | None => None
        end
      else scanInt s
  | EmptyString => None
  end.

(** [s] starts with the word [w]: the word and what follows it. *)
Definition scanWord (w s : string) : option (string * string) :=
  if String.prefix w s then Some (w, string_drop (String.length w) s)
  else None.

(** The text read between [s] and its suffix [r]. *)
Definition consumed (s r : string) : string :=
  string_take (String.length s - String.length r) s.

(** [const maxNestingDepth = 10000]: how many objects and arrays may be
    open at once. *)
Definition maxNestingDepth : N := 10000.

(** [pushParseState] with [depth] objects and arrays open: the new one
    is refused ("exceeded max depth") when it is one too many. *)
Definition mayPush (depth : N) : bool := (depth + 1 <=? maxNestingDepth)%N.

(** One value at the head of [s], and what follows it, inside [depth]
    open objects and arrays.  Every call reads at least one byte, so
    [fuel] above the length of [s] is never used up. *)
Fixpoint parseValue (fuel : nat) (depth : N) (s : string)
  : option (value * string) :=
  match fuel with
  | O => None
  | S fuel' =>
      match s with
      | EmptyString => None
      | String c t =>
          if Ascii.eqb c "{" then
            if mayPush depth then
              match skipSpace t with
              | EmptyString => None
              | String c1 t1 =>
                  if Ascii.eqb c1 "}" then
                    Some (Object (consumed s t1) [], t1)
                  else
                    match parseMembers fuel' (depth + 1) (String c1 t1) with
                    | Some (ms, r) => Some (Object (consumed s r) ms, r)
                    | None => None
                    end
              end
            else None
          else if Ascii.eqb c "[" then
            if mayPush depth then
              match skipSpace t with
              | EmptyString => None
              | String c1 t1 =>
                  if Ascii.eqb c1 "]" then
                    Some (Array (consumed s t1) [], t1)
                  else
                    match parseElems fuel' (depth + 1) (String c1 t1) with
                    | Some (vs, r) => Some (Array (consumed s r) vs, r)
                    | None => None
                    end
              end
            else None
          else if Ascii.eqb c quote_char then
            match scanString t with
            | Some (l, r) => Some (Literal (String c l), r)
            | None => None
            end
          else
            match
              (if Ascii.eqb c "n" then scanWord "null" s
               else if Ascii.eqb c "t" then scanWord "true" s
               else if Ascii.eqb c "f" then scanWord "false" s
               else scanNumber s)
            with
            | Some (l, r) => Some (Literal l, r)
            | None => None
            end
      end
  end
with parseElems (fuel : nat) (depth : N) (s : string)
  : option (list value * string) :=
  match fuel with
  | O => None
  | S fuel' =>
      match parseValue fuel' depth s with
      | None => None
      | Some (v, r) =>
          match skipSpace r with
          | EmptyString => None
          | String c t =>
              if Ascii.eqb c "," then
                match parseElems fuel' depth (skipSpace t) with
                | Some (vs, r') => Some (v :: vs, r')
                | None => None
                end
              else if Ascii.eqb c "]" then Some ([v], t)
              else None
          end
      end
  end
with parseMembers (fuel : nat) (depth : N) (s : string)
  : option (list (string * value) * string) :=
  match fuel with
  | O => None
  | S fuel' =>
      match s with
      | EmptyString => None
      | String q t =>
          if Ascii.eqb q quote_char then
            match scanString t with
            | None => None
            | Some (k, r) =>
                match skipSpace r with
                | EmptyString => None
                | String c r1 =>
                    if Ascii.eqb c ":" then
                      match parseValue fuel' depth (skipSpace r1) with
                      | None => None
                      | Some (v, r2) =>
                          match skipSpace r2 with
                          | EmptyString => None
                          | String c2 r3 =>
                              if Ascii.eqb c2 "," then
                                match parseMembers fuel' depth (skipSpace r3) with
                                | Some (ms, r') => Some ((String q k, v) :: ms, r')
                                | None => None
                                end
                              else if Ascii.eqb c2 "}" then
                                Some ([(String q k, v)], r3)
                              else None
                          end
                      end
                    else None
                end
            end
          else None
      end
  end.

(** [checkValid]: the input is one value between optional spaces, with
    nowhere more than [maxNestingDepth] objects and arrays open. *)
Definition parse (data : string) : option value :=
  match parseValue (S (String.length data)) 0 (skipSpace data) with
  | Some (v, r) =>
      match skipSpace r with
      | EmptyString => Some v
      | _ => None
      end
  | None => None
  end.

End scanner.

Module utf16.

(** [func IsSurrogate(r rune) bool] *)
Definition IsSurrogate (r : N) : bool := ((55296 <=? r) && (r <? 57344))%N.

(** [func DecodeRune(r1, r2 rune) rune] *)
Definition DecodeRune (r1 r2 : N) : N :=
  (if (55296 <=? r1) && (r1 <? 56320) && (56320 <=? r2) && (r2 <? 57344)
   then N.lor (N.shiftl (r1 - 55296) 10) (r2 - 56320) + 65536
   else 65533)%N.

End utf16.

Module decode.

Definition hexval (c : ascii) : option N :=
  let b := N_of_ascii c in
  (if (48 <=? b) && (b <=? 57) then Some (b - 48)
   else if (97 <=? b) && (b <=? 102) then Some (b - 97 + 10)
   else if (65 <=? b) && (b <=? 70) then Some (b - 65 + 10)
   else None)%N.

(** [func getu4(s []byte) rune]; [None] for [-1]. *)
Definition getu4 (s : string) : option N :=
  match s with
  | String b (String u (String h1 (String h2 (String h3 (String h4 _))))) =>
      if Ascii.eqb b json.backslash && Ascii.eqb u "u" then
        match hexval h1, hexval h2, hexval h3, hexval h4 with
        | Some a, Some b, Some c, Some d =>
            Some (((a * 16 + b) * 16 + c) * 16 + d)%N
        | _, _, _, _ => None
        end
      else None
  | _ => None
  end.

(** The loop of [unquoteBytes] over the text between the quotes, from
    position [r] on; [None] for [ok == false].  (The first loop of
    [unquoteBytes] only spares the copy when nothing has to be
    rewritten.) *)
Fixpoint unquote_loop (fuel : nat) (s : string) : option string :=
  match fuel with
  | O => match s with EmptyString => Some EmptyString | _ => None end
  | S fuel' =>
      match s with
      | EmptyString => Some EmptyString
      | String c t =>
          let b := N_of_ascii c in
          if Ascii.eqb c json.backslash then
            match t with
            | EmptyString => None
            | String e t1 =>
                let out (x : ascii) :=
                  option_map (String x) (unquote_loop fuel' t1) in
                if Ascii.eqb e quote_char || Ascii.eqb e json.backslash
                   || Ascii.eqb e "/" || Ascii.eqb e "'" then out e
                else if Ascii.eqb e "b" then out (ascii_of_N 8)
                else if Ascii.eqb e "f" then out (ascii_of_N 12)
                else if Ascii.eqb e "n" then out (ascii_of_N 10)
                else if Ascii.eqb e "r" then out (ascii_of_N 13)
                else if Ascii.eqb e "t" then out (ascii_of_N 9)
                else if Ascii.eqb e "u" then
                  match getu4 s with
                  | None => None
                  | Some rr =>
                      let s6 := string_drop 6 s in
                      if utf16.IsSurrogate rr then
                        match getu4 s6 with
                        | Some rr1 =>
                            let dec := utf16.DecodeRune rr rr1 in
                            if negb (dec =? 65533)%N then
                              option_map (String.append (utf8.EncodeRune dec))
                                (unquote_loop fuel' (string_drop 6 s6))
                            else
                              option_map (String.append (utf8.EncodeRune 65533))
                                (unquote_loop fuel' s6)
                        | None =>
                            option_map (String.append (utf8.EncodeRune 65533))
                              (unquote_loop fuel' s6)
                        end
                      else
                        option_map (String.append (utf8.EncodeRune rr))
                          (unquote_loop fuel' s6)
                  end
                else None
            end
          else if Ascii.eqb c quote_char || (b <? 32)%N then None
          else if (b <? utf8.RuneSelf)%N then
            option_map (String c) (unquote_loop fuel' t)
          else
            let '(rr, size) := utf8.DecodeRuneInString s in
            option_map (String.append (utf8.EncodeRune rr))
              (unquote_loop fuel' (string_drop size s))
      end
  end.

(** [func unquoteBytes(s []byte) (t []byte, ok bool)] *)
Definition unquoteBytes (s : string) : option string :=
  let n := String.length s in
  if (n <? 2)%nat then None
  else if negb (Ascii.eqb (default Ascii.zero (String.get 0 s)) quote_char)
          || negb (Ascii.eqb (default Ascii.zero (String.get (n - 1) s)) quote_char)
  then None
  else
    let body := string_take (n - 2) (string_drop 1 s) in
    unquote_loop (String.length body) body.

(** The text a node was read from ([d.data[start:d.readIndex()]]). *)
Definition rawOf (v : value) : string :=
  match v with
  | Literal item => item
  | Array raw _ => raw
  | Object raw _ => raw
  end.

Definition isNull (item : string) : bool :=
  match item with
  | String c _ => Ascii.eqb c "n"
  | EmptyString => false
  end.

(** The [Value] field of an [UnmarshalTypeError]. *)
Definition describe (v : value) : string :=
  match v with
  | Array _ _ => "array"
  | Object _ _ => "object"
  | Literal item =>
      match item with
      | String c _ =>
          if Ascii.eqb c quote_char then "string"
          else if Ascii.eqb c "t" || Ascii.eqb c "f" then "bool"
          else if Ascii.eqb c "n" then "null"
          else "number"
      | EmptyString => "number"
      end
  end.

(** The state of a decoder: the first [UnmarshalTypeError] saved by
    [d.saveError], after which decoding goes on.  An error returned by an
    [UnmarshalJSON] method ends decoding at once ([Err]). *)
Definition D (A : Type) : Type := option error -> result (A * option error).

Definition ret {A : Type} (a : A) : D A := fun saved => Ok (a, saved).

Definition bind {A B : Type} (x : D A) (k : A -> D B) : D B :=
  fun saved =>
    match x saved with
    | Ok (a, saved') => k a saved'
    | Err e => Err e
    end.

Definition saveError (e : error) : D unit :=
  fun saved =>
    Ok (tt, match saved with None => Some e | Some _ => saved end).

Definition abort {A : Type} (e : error) : D A := fun _ => Err e.

End decode.

Notation "x <<- e ;; k" := (decode.bind e (fun x => k))
  (at level 100, e at next level, right associativity).

Module decoder.
Import decode.

(** *** Slices and structs in memory

    [d.array] stores element [i] of a JSON array into element [i] of the
    slice, and extends the slice first when it is shorter.  Within the
    capacity of the slice that brings back what the backing array holds
    there: what an earlier member of the document stored and a second
    member (the same key once more, with a shorter array) cut off is seen
    again by a third.  A [slice] is the elements of a slice with those its
    backing array holds past its length, as far as any was ever stored; the
    array holds zero values after them.  (The slice grows to a new backing
    array only when its length is its capacity, and then nothing is lost.)
    The structs of the package follow with such slices: they are what
    [Unmarshal] fills, and what [LoadPolicy] returns of them is their
    value, the elements of each slice up to its length. *)
Record slice (A : Type) : Type := mkSlice {
  upToLen : option (list A);
  pastLen : list A
}.
Arguments mkSlice {A} _ _.
Arguments upToLen {A} _.
Arguments pastLen {A} _.

(** The nil slice. *)
Definition nilSlice {A : Type} : slice A := mkSlice None [].

(** The backing array as far as anything was stored in it. *)
Definition backing {A : Type} (s : slice A) : list A :=
  default [] (upToLen s) ++ pastLen s.

Record PrincipalMem : Type := mkPrincipalMem { memAws : slice string }.

Record StatementMem : Type := mkStatementMem {
  memSid : option string;
  memEffect : Effect;
  memPrincipal : option PrincipalMem;
  memNotPrincipal : option PrincipalMem;
  memAction : slice string;
  memNotAction : slice string;
  memResource : string;
  memCondition : ConditionMap
}.

Record PolicyMem : Type := mkPolicyMem {
  memVersion : PolicyVersion;
  memId : option string;
  memStatement : slice (option StatementMem)
}.

(** The values of the structs in memory. *)
Definition valueOfPrincipal (p : PrincipalMem) : Principal :=
  {| Aws := upToLen (memAws p) |}.

Definition valueOfStatement (s : StatementMem) : Statement :=
  mkStatement (memSid s) (memEffect s)
    (option_map valueOfPrincipal (memPrincipal s))
    (option_map valueOfPrincipal (memNotPrincipal s))
    (upToLen (memAction s)) (upToLen (memNotAction s))
    (memResource s) (memCondition s).

Definition valueOfPolicy (p : PolicyMem) : Policy :=
  mkPolicy (memVersion p) (memId p)
    (option_map (map (option_map valueOfStatement))
       (upToLen (memStatement p))).

(** The zero values [Principal{}], [Statement{}] and [Policy{}] in
    memory. *)
Definition zeroPrincipalMem : PrincipalMem := mkPrincipalMem nilSlice.

Definition zeroStatementMem : StatementMem :=
  mkStatementMem None false None None nilSlice nilSlice "" None.

Definition zeroPolicyMem : PolicyMem :=
  mkPolicyMem mkPolicyVersion None nilSlice.

(** [foldName]: the ASCII letters in upper case; the two runes outside
    ASCII whose case orbit contains an ASCII letter (U+017F, U+212A) as
    that letter.  Any other rune folds to a rune outside ASCII, which no
    field name of the package contains; it is left as it is. *)
Fixpoint foldName (s : string) : string :=
  match s with
  | EmptyString => EmptyString
  | String c t =>
      let b := N_of_ascii c in
      if ((97 <=? b) && (b <=? 122))%N then
        String (ascii_of_N (b - 32)) (foldName t)
      else
        match t with
        | String c1 t1 =>
            if ((b =? 197) && (N_of_ascii c1 =? 191))%N then
              String "S" (foldName t1)
            else
              match t1 with
              | String c2 t2 =>
                  if ((b =? 226) && (N_of_ascii c1 =? 132)
                      && (N_of_ascii c2 =? 170))%N
                  then String "K" (foldName t2)
                  else String c (foldName t)
              | EmptyString => String c (foldName t)
              end
        | EmptyString => String c (foldName t)
        end
  end.

(** The field a key selects: the one of that name, else the first whose
    folded name is the folded key ([byExactName], [byFoldedName]). *)
Definition findField (names : list string) (key : string) : option string :=
  match List.find (String.eqb key) names with
  | Some f => Some f
  | None =>
      List.find (fun f => String.eqb (foldName f) (foldName key)) names
  end.

Definition typeError {A : Type} (v : value) (type : string) (cur : A) : D A :=
  _ <<- saveError (UnmarshalTypeError (describe v) type) ;; ret cur.

(** [literalStore] into a [string]. *)
Definition decodeString (cur : string) (v : value) : D string :=
  match v with
  | Literal item =>
      if isNull item then ret cur
      else if String.prefix (String quote_char EmptyString) item then
        match unquoteBytes item with
        | Some s => ret s
        | None => abort SyntaxError
        end
      else typeError v "string" cur
  | _ => typeError v "string" cur
  end.

(** Into a pointer: [null] stores nil; anything else is stored into the
    pointee, allocated by [indirect] when the pointer is nil. *)
Definition decodePtr {A : Type} (zero : A) (dec : A -> value -> D A)
    (cur : option A) (v : value) : D (option A) :=
  match v with
  | Literal item =>
      if isNull item then ret None
      else a <<- dec (default zero cur) v ;; ret (Some a)
  | _ => a <<- dec (default zero cur) v ;; ret (Some a)
  end.

(** The elements of an array, each stored into the element the backing
    array holds at that position, a zero element where it holds none. *)
Fixpoint decodeElems {A : Type} (zero : A) (dec : A -> value -> D A)
    (old : list A) (elems : list value) : D (list A) :=
  match elems with
  | [] => ret []
  | e :: es =>
      a <<- dec (hd zero old) e ;;
      r <<- decodeElems zero dec (tl old) es ;;
      ret (a :: r)
  end.

(** [d.array] into a slice: the slice is cut or extended to the length
    of the array, and keeps its backing array unless the array is empty,
    for which a new empty slice is stored; [null] stores the nil slice. *)
Definition decodeSlice {A : Type} (type : string) (zero : A)
    (dec : A -> value -> D A) (cur : slice A) (v : value) : D (slice A) :=
  match v with
  | Literal item => if isNull item then ret nilSlice else typeError v type cur
  | Object _ _ => typeError v type cur
  | Array _ elems =>
      l <<- decodeElems zero dec (backing cur) elems ;;
      ret (match elems with
           | [] => mkSlice (Some []) []
           | _ => mkSlice (Some l) (drop (length elems) (backing cur))
           end)
  end.

(** [d.array] into the element of a map, which is a new zero value every
    time: a slice over no backing array. *)
Definition decodeNewSlice {A : Type} (type : string) (zero : A)
    (dec : A -> value -> D A) (cur : option (list A)) (v : value)
  : D (option (list A)) :=
  s <<- decodeSlice type zero dec (mkSlice cur []) v ;; ret (upToLen s).

(** The members of an object, stored one after the other. *)
Fixpoint decodeMembers {A : Type} (step : A -> string -> value -> D A)
    (cur : A) (members : list (string * value)) : D A :=
  match members with
  | [] => ret cur
  | (k, val) :: ms =>
      match unquoteBytes k with
      | None => abort SyntaxError
      | Some key =>
          cur' <<- step cur key val ;; decodeMembers step cur' ms
      end
  end.

Definition storeEntry {V : Type} (zero : V) (dec : V -> value -> D V)
    (g : gmap string V) (key : string) (val : value) : D (gmap string V) :=
  x <<- dec zero val ;; ret (<[key:=x]> g).

(** [d.object] into a map with string keys: a nil map is allocated,
    and every member is decoded into a new zero element, which is then
    stored under its key. *)
Definition decodeMap {V : Type} (type : string) (zero : V)
    (dec : V -> value -> D V) (cur : option (gmap string V)) (v : value)
  : D (option (gmap string V)) :=
  match v with
  | Literal item => if isNull item then ret None else typeError v type cur
  | Array _ _ => typeError v type cur
  | Object _ members =>
      g <<- decodeMembers (storeEntry zero dec) (default ∅ cur) members ;;
      ret (Some g)
  end.

(** [d.object] into a struct: a member whose key selects no field is
    skipped. *)
Definition storeMember {A : Type} (names : list string)
    (store : string -> A -> value -> D A) (cur : A) (key : string) (val : value)
  : D A :=
  match findField names key with
  | Some f => store f cur val
  | None => ret cur
  end.

Definition decodeStruct {A : Type} (type : string) (names : list string)
    (store : string -> A -> value -> D A) (cur : A) (v : value) : D A :=
  match v with
  | Literal item => if isNull item then ret cur else typeError v type cur
  | Array _ _ => typeError v type cur
  | Object _ members => decodeMembers (storeMember names store) cur members
  end.

(** Into a value whose pointer implements [Unmarshaler]: the method is
    called on the text of the value, whatever it is. *)
Definition decodeEffect (cur : Effect) (v : value) : D Effect :=
  match EffectJSON.UnmarshalJSON cur (rawOf v) with
  | (e, None) => ret e
  | (_, Some err) => abort err
  end.

Definition decodePolicyVersion (cur : PolicyVersion) (v : value)
  : D PolicyVersion :=
  match PolicyVersionJSON.UnmarshalJSON cur (rawOf v) with
  | None => ret cur
  | Some err => abort err
  end.

Definition decodeStrings : slice string -> value -> D (slice string) :=
  decodeSlice "[]string" EmptyString decodeString.

Definition storePrincipal (f : string) (cur : PrincipalMem) (val : value)
  : D PrincipalMem :=
  if String.eqb f "AWS" then
    aws <<- decodeStrings (memAws cur) val ;; ret (mkPrincipalMem aws)
  else ret cur.

Definition decodePrincipal : PrincipalMem -> value -> D PrincipalMem :=
  decodeStruct "policy.Principal" ["AWS"] storePrincipal.

Definition decodeCondition : ConditionMap -> value -> D ConditionMap :=
  decodeMap "map[policy.ConditionType]map[policy.ConditionVariable][]string"
    None
    (decodeMap "map[policy.ConditionVariable][]string" None
       (decodeNewSlice "[]string" EmptyString decodeString)).

Definition statementFields : list string :=
  ["Sid"; "Effect"; "Principal"; "NotPrincipal"; "Action"; "NotAction";
   "Resource"; "Condition"].

Definition putSid (s : StatementMem) v : StatementMem :=
  mkStatementMem v (memEffect s) (memPrincipal s) (memNotPrincipal s)
    (memAction s) (memNotAction s) (memResource s) (memCondition s).
Definition putEffect (s : StatementMem) v : StatementMem :=
  mkStatementMem (memSid s) v (memPrincipal s) (memNotPrincipal s)
    (memAction s) (memNotAction s) (memResource s) (memCondition s).
Definition putPrincipal (s : StatementMem) v : StatementMem :=
  mkStatementMem (memSid s) (memEffect s) v (memNotPrincipal s)
    (memAction s) (memNotAction s) (memResource s) (memCondition s).
Definition putNotPrincipal (s : StatementMem) v : StatementMem :=
  mkStatementMem (memSid s) (memEffect s) (memPrincipal s) v
    (memAction s) (memNotAction s) (memResource s) (memCondition s).
Definition putAction (s : StatementMem) v : StatementMem :=
  mkStatementMem (memSid s) (memEffect s) (memPrincipal s) (memNotPrincipal s)
    v (memNotAction s) (memResource s) (memCondition s).
Definition putNotAction (s : StatementMem) v : StatementMem :=
  mkStatementMem (memSid s) (memEffect s) (memPrincipal s) (memNotPrincipal s)
    (memAction s) v (memResource s) (memCondition s).
Definition putResource (s : StatementMem) v : StatementMem :=
  mkStatementMem (memSid s) (memEffect s) (memPrincipal s) (memNotPrincipal s)
    (memAction s) (memNotAction s) v (memCondition s).
Definition putCondition (s : StatementMem) v : StatementMem :=
  mkStatementMem (memSid s) (memEffect s) (memPrincipal s) (memNotPrincipal s)
    (memAction s) (memNotAction s) (memResource s) v.

Definition storeStatement (f : string) (cur : StatementMem) (val : value)
  : D StatementMem :=
  if String.eqb f "Sid" then
    x <<- decodePtr EmptyString decodeString (memSid cur) val ;;
    ret (putSid cur x)
  else if String.eqb f "Effect" then
    x <<- decodeEffect (memEffect cur) val ;; ret (putEffect cur x)
  else if String.eqb f "Principal" then
    x <<- decodePtr zeroPrincipalMem decodePrincipal (memPrincipal cur) val ;;
    ret (putPrincipal cur x)
  else if String.eqb f "NotPrincipal" then
    x <<- decodePtr zeroPrincipalMem decodePrincipal (memNotPrincipal cur) val ;;
    ret (putNotPrincipal cur x)
  else if String.eqb f "Action" then
    x <<- decodeStrings (memAction cur) val ;; ret (putAction cur x)
  else if String.eqb f "NotAction" then
    x <<- decodeStrings (memNotAction cur) val ;; ret (putNotAction cur x)
  else if String.eqb f "Resource" then
    x <<- decodeString (memResource cur) val ;; ret (putResource cur x)
  else if String.eqb f "Condition" then
    x <<- decodeCondition (memCondition cur) val ;; ret (putCondition cur x)
  else ret cur.

Definition decodeStatement : StatementMem -> value -> D StatementMem :=
  decodeStruct "policy.Statement" statementFields storeStatement.

Definition policyFields : list string := ["Version"; "Id"; "Statement"].

Definition storePolicy (f : string) (cur : PolicyMem) (val : value)
  : D PolicyMem :=
  if String.eqb f "Version" then
    x <<- decodePolicyVersion (memVersion cur) val ;;
    ret (mkPolicyMem x (memId cur) (memStatement cur))
  else if String.eqb f "Id" then
    x <<- decodePtr EmptyString decodeString (memId cur) val ;;
    ret (mkPolicyMem (memVersion cur) x (memStatement cur))
  else if String.eqb f "Statement" then
    x <<- decodeSlice "[]*policy.Statement" None
            (decodePtr zeroStatementMem decodeStatement)
            (memStatement cur) val ;;
    ret (mkPolicyMem (memVersion cur) (memId cur) x)
  else ret cur.

Definition decodePolicy : PolicyMem -> value -> D PolicyMem :=
  decodeStruct "policy.Policy" policyFields storePolicy.

(** [func Unmarshal(data []byte, v any) error] at [*Policy]: what is
    stored in the policy and the error returned. *)
Definition Unmarshal (data : string) (p : PolicyMem)
  : PolicyMem * option error :=
  match scanner.parse data with
  | None => (p, Some SyntaxError)
  | Some v =>
      match decodePolicy p v None with
      | Err e => (p, Some e)
      | Ok (p', saved) => (p', saved)
      end
  end.

End decoder.

(** [func LoadPolicy(b []byte)], returning a [*Policy] and an [error]:
    [p := Policy{}] is a new zero policy, and the policy returned is what
    [Unmarshal] left in it. *)
Definition LoadPolicy (b : string) : result Policy :=
  let p := decoder.zeroPolicyMem in
  match decoder.Unmarshal b p with
  | (_, Some err) => Err err
  | (p', None) => Ok (decoder.valueOfPolicy p')
  end.

(** JSON text written with an apostrophe for every double quote. *)
Fixpoint dq (s : string) : string :=
  match s with
  | EmptyString => EmptyString
  | String c t => String (if Ascii.eqb c "'" then quote_char else c) (dq t)
  end.

(** ** Building policies *)

(** What a caller can do to a statement it holds: the mutators, and the
    two fields that are assigned directly. *)
Inductive StatementOp : Type :=
| OpSetSid (id : string)
| OpSetEffect (e : Effect)
| OpAddPrincipal (p : string)
| OpAddNotPrincipal (p : string)
| OpAddAction (a : string)
| OpAddNotAction (a : string)
| OpSetResource (r : string)
| OpAddCondition (t : ConditionType) (key : ConditionVariable) (value : string).

Definition applyOp (o : StatementOp) (s : Statement) : outcome Statement :=
  match o with
  | OpSetSid id => Returns (SetSid s id)
  | OpSetEffect e => Returns (setEffect s e)
  | OpAddPrincipal p => AddPrincipal s p
  | OpAddNotPrincipal p => Returns (AddNotPrincipal s p)
  | OpAddAction a => Returns (AddAction s a)
  | OpAddNotAction a => Returns (AddNotAction s a)
  | OpSetResource r => Returns (setResource s r)
  | OpAddCondition t key value => AddCondition s t key value
  end.

(** The policies built from [NewPolicy] by [SetId], [AddStatement] and
    calls on the statements [AddStatement] returned. *)
Inductive Built : Policy -> Prop :=
| Built_NewPolicy : Built NewPolicy
| Built_SetId p id : Built p -> Built (SetId p id)
| Built_AddStatement p : Built p -> Built (fst (AddStatement p))
| Built_op p i o p' :
    Built p -> onStatement p i (applyOp o) = Returns p' -> Built p'.

(** Successive [AddCondition] calls with one operator and variable. *)
Fixpoint AddConditions (s : Statement) (t : ConditionType)
    (key : ConditionVariable) (values : list string) : outcome Statement :=
  match values with
  | [] => Returns s
  | v :: vs => s' <~ AddCondition s t key v ;; AddConditions s' t key vs
  end.

(** [s.Condition[t][key]], as the list of its values. *)
Definition conditionValues (s : Statement) (t : ConditionType)
    (key : ConditionVariable) : list string :=
  default []
    (default None (map_get (default None (map_get (stCondition s) t)) key)).

(** [AddCondition] can write under operator [t]: the condition map is
    allocated, and so is the map it holds for [t], if it holds one. *)
Definition writable (s : Statement) (t : ConditionType) : Prop :=
  exists g, stCondition s = Some g /\ g !! t <> Some None.

(** ** The tree of an encoded policy

    The tree [scanner.parse] reads from the bytes [Get] writes: the
    encoders of [json.Marshal], with a node in place of its text. *)

Module tree.

Definition arrayText (es : list value) : string :=
  "[" +:+ json.join "," (map decode.rawOf es) +:+ "]".

Definition mkArray (es : list value) : value := Array (arrayText es) es.

Definition memberText (m : string * value) : string :=
  fst m +:+ ":" +:+ decode.rawOf (snd m).

Definition objectText (ms : list (string * value)) : string :=
  "{" +:+ json.join "," (map memberText ms) +:+ "}".

Definition mkObject (ms : list (string * value)) : value :=
  Object (objectText ms) ms.

Definition null : value := Literal "null".

Definition str (s : string) : value := Literal (json.appendString s).

Definition ofPtr {A : Type} (f : A -> value) (p : option A) : value :=
  match p with
  | None => null
  | Some a => f a
  end.

Definition ofSlice {A : Type} (f : A -> value) (s : option (list A)) : value :=
  match s with
  | None => null
  | Some l => mkArray (map f l)
  end.

(** The entries of a map in the order of their keys. *)
Definition sortedEntries {V : Type} (g : gmap string V) : list (string * V) :=
  merge_sort key_le (map_to_list g).

Definition ofMap {V : Type} (f : V -> value) (m : option (gmap string V))
  : value :=
  match m with
  | None => null
  | Some g =>
      mkObject
        (map (fun kv : string * V => (json.appendString (fst kv), f (snd kv)))
           (sortedEntries g))
  end.

Definition member (name : string) (omitted : bool) (v : value)
  : option (string * value) :=
  if omitted then None else Some (lit name, v).

Definition ofStrings : option (list string) -> value := ofSlice str.

Definition ofPrincipal (p : Principal) : value :=
  mkObject (omap id [member "AWS" false (ofStrings (Aws p))]).

Definition ofCondition : ConditionMap -> value := ofMap (ofMap ofStrings).

Definition ofEffect (e : Effect) : value :=
  Literal (if e then lit "Allow" else lit "Deny").

Definition ofStatement (s : Statement) : value :=
  mkObject
    (omap id
       [member "Sid" (json.isNil (stSid s)) (ofPtr str (stSid s));
        member "Effect" false (ofEffect (stEffect s));
        member "Principal" false (ofPtr ofPrincipal (stPrincipal s));
        member "NotPrincipal" (json.isNil (stNotPrincipal s))
          (ofPtr ofPrincipal (stNotPrincipal s));
        member "Action" false (ofStrings (stAction s));
        member "NotAction" (slice_len (stNotAction s) =? 0)%nat
          (ofStrings (stNotAction s));
        member "Resource" false (str (stResource s));
        member "Condition" (map_len (stCondition s) =? 0)%nat
          (ofCondition (stCondition s))]).

Definition ofPolicy (p : Policy) : value :=
  mkObject
    (omap id
       [member "Version" false (Literal (lit "2012-10-17"));
        member "Id" (json.isNil (polId p)) (ofPtr str (polId p));
        member "Statement" false
          (ofSlice (ofPtr ofStatement) (polStatement p))]).

(** The member of an object under a name, and the kinds of value. *)
Definition lookup (name : string) (v : value) : option value :=
  match v with
  | Object _ ms =>
      option_map snd
        (List.find (fun m : string * value => String.eqb (fst m) (lit name)) ms)
  | _ => None
  end.

Definition isArray (v : value) : bool :=
  match v with Array _ _ => true | _ => false end.

Definition isObject (v : value) : bool :=
  match v with Object _ _ => true | _ => false end.

Definition isNullValue (v : value) : bool :=
  match v with Literal item => String.eqb item "null" | _ => false end.

Definition elements (v : value) : list value :=
  match v with Array _ es => es | _ => [] end.

Definition keys (v : value) : list string :=
  match v with Object _ ms => map fst ms | _ => [] end.

End tree.

(** ** Notions used in the proofs *)

(** A byte the scanner reads as an ordinary character of a string. *)
Definition plainChar (c : ascii) : bool :=
  negb (Ascii.eqb c quote_char) && negb (Ascii.eqb c json.backslash)
  && negb (N_of_ascii c <? 32)%N.

Definition highChar (c : ascii) : bool := negb (N_of_ascii c <? 128)%N.

Fixpoint allChars (P : ascii -> bool) (s : string) : bool :=
  match s with
  | EmptyString => true
  | String c t => P c && allChars P t
  end.

(** The runes [DecodeRuneInString] reads from two, three and four bytes. *)
Definition rune2 (s0 s1 : N) : N :=
  N.lor (N.shiftl (N.land s0 31) 6) (N.land s1 63).

Definition rune3 (s0 s1 s2 : N) : N :=
  N.lor (N.shiftl (N.land s0 15) 12)
    (N.lor (N.shiftl (N.land s1 63) 6) (N.land s2 63)).

Definition rune4 (s0 s1 s2 s3 : N) : N :=
  N.lor (N.shiftl (N.land s0 7) 18)
    (N.lor (N.shiftl (N.land s1 63) 12)
       (N.lor (N.shiftl (N.land s2 63) 6) (N.land s3 63))).

(** The bytes [pre] are the encoding of the rune [r]: bytes outside
    ASCII that [EncodeRune] writes for [r] and that [DecodeRuneInString]
    reads as [r] before any other text. *)
Definition encodes (pre : string) (r : N) : Prop :=
  2 <= String.length pre
  /\ allChars highChar pre = true
  /\ utf8.EncodeRune r = pre
  /\ forall t, utf8.DecodeRuneInString (pre +:+ t) = (r, String.length pre).

(** [P] holds of every number below [n]. *)
Fixpoint below (n : nat) (P : N -> bool) : bool :=
  match n with
  | O => true
  | S k => P (N.of_nat k) && below k P
  end.

(** The first byte of the text of a tree [Marshal] writes. *)
Definition startsValue (s : string) : bool :=
  match s with
  | String c _ =>
      Ascii.eqb c "n" || Ascii.eqb c quote_char || Ascii.eqb c "["
      || Ascii.eqb c "{"
  | EmptyString => false
  end.

(** The trees [Marshal] writes: no space, keys and strings quoted by
    [appendString], no number and no boolean. *)
#[warnings="-register-all"]
Inductive compact : value -> Prop :=
| compact_null : compact tree.null
| compact_str s : compact (tree.str s)
| compact_array es : Forall compact es -> compact (tree.mkArray es)
| compact_object ms :
    Forall (fun m : string * value =>
              (exists k, fst m = json.appendString k) /\ compact (snd m)) ms ->
    compact (tree.mkObject ms).

(** The text between the brackets of an array and of an object. *)
Definition elemsText (es : list value) : string :=
  json.join "," (map decode.rawOf es).

Definition membersText (ms : list (string * value)) : string :=
  json.join "," (map tree.memberText ms).

Definition compactMember (m : string * value) : Prop :=
  (exists k, fst m = json.appendString k) /\ compact (snd m).

(** The objects and arrays that are open at once while a value is read,
    the value itself counted. *)
Fixpoint nesting (v : value) : N :=
  match v with
  | Literal _ => 0
  | Array _ es => 1 + fold_right N.max 0%N (map nesting es)
  | Object _ ms =>
      1 + fold_right N.max 0%N
            (map (fun m : string * value => nesting (snd m)) ms)
  end.

(** A decoder stores [a] and saves no error. *)
Definition runs {A : Type} (d : decode.D A) (a : A) : Prop :=
  forall saved, d saved = Ok (a, saved).

(** A principal, a statement and a policy in memory with nothing past
    the length of their slices, as [Unmarshal] leaves them when it read no
    key twice. *)
Definition memOfPrincipal (p : Principal) : decoder.PrincipalMem :=
  decoder.mkPrincipalMem (decoder.mkSlice (Aws p) []).

Definition memOfStatement (s : Statement) : decoder.StatementMem :=
  decoder.mkStatementMem (stSid s) (stEffect s)
    (option_map memOfPrincipal (stPrincipal s))
    (option_map memOfPrincipal (stNotPrincipal s))
    (decoder.mkSlice (stAction s) []) (decoder.mkSlice (stNotAction s) [])
    (stResource s) (stCondition s).

Definition memOfPolicy (p : Policy) : decoder.PolicyMem :=
  decoder.mkPolicyMem (polVersion p) (polId p)
    (decoder.mkSlice
       (option_map (map (option_map memOfStatement)) (polStatement p)) []).

(** ** Valid UTF-8 throughout a policy *)

Definition validOpt (s : option string) : bool :=
  match s with
  | None => true
  | Some s => utf8.ValidString s
  end.

Definition validList (l : option (list string)) : bool :=
  forallb utf8.ValidString (default [] l).

Definition validPrincipal (p : option Principal) : bool :=
  match p with
  | None => true
  | Some p => validList (Aws p)
  end.

Definition validMap {V : Type} (validV : V -> bool) (m : option (gmap string V))
  : bool :=
  match m with
  | None => true
  | Some g =>
      forallb (fun kv : string * V => utf8.ValidString (fst kv) && validV (snd kv))
        (map_to_list g)
  end.

Definition validCondition : ConditionMap -> bool :=
  validMap (validMap validList).

Definition validStatement (s : Statement) : bool :=
  validOpt (stSid s) && validPrincipal (stPrincipal s)
  && validPrincipal (stNotPrincipal s) && validList (stAction s)
  && validList (stNotAction s) && utf8.ValidString (stResource s)
  && validCondition (stCondition s).

Definition validPolicy (p : Policy) : bool :=
  validOpt (polId p)
  && forallb (fun o : option Statement =>
                match o with
                | None => true
                | Some s => validStatement s
                end)
       (default [] (polStatement p)).

(** ** What a policy becomes when it is encoded and decoded *)

(** The fields with [omitempty] that hold an empty slice or map are not
    written, and so are read back as nil. *)
Definition normalizeStatement (s : Statement) : Statement :=
  setCondition
    (setNotAction s
       (if (slice_len (stNotAction s) =? 0)%nat then None else stNotAction s))
    (if (map_len (stCondition s) =? 0)%nat then None else stCondition s).

Definition normalizePolicy (p : Policy) : Policy :=
  mkPolicy (polVersion p) (polId p)
    (option_map (map (option_map normalizeStatement)) (polStatement p)).

(** A statement with its condition map set to nil if it is empty. *)
Definition dropEmptyCondition (s : Statement) : Statement :=
  if (map_len (stCondition s) =? 0)%nat then setCondition s None else s.

Definition dropEmptyConditions (p : Policy) : Policy :=
  mkPolicy (polVersion p) (polId p)
    (option_map (map (option_map dropEmptyCondition)) (polStatement p)).

(** ** What holds of every built policy *)

(** The statements [AddStatement] returns, after any calls on them: the
    principal and the actions are allocated, the not-principal and the
    not-actions are nil or hold a value, and every map of conditions is
    allocated. *)
Definition builtStatement (s : Statement) : Prop :=
  (exists l, stPrincipal s = Some {| Aws := Some l |})
  /\ (exists l, stAction s = Some l)
  /\ (stNotPrincipal s = None
      \/ exists l, l <> [] /\ stNotPrincipal s = Some {| Aws := Some l |})
  /\ (stNotAction s = None \/ exists l, l <> [] /\ stNotAction s = Some l)
  /\ (exists g, stCondition s = Some g /\ forall t, g !! t <> Some None).

Definition builtPolicy (p : Policy) : Prop :=
  exists l,
    polStatement p = Some l
    /\ Forall (fun o : option Statement =>
                 exists s, o = Some s /\ builtStatement s) l.

(** ** Reading the tree of an encoded policy *)

Definition statementsOf (doc : value) : list value :=
  match tree.lookup "Statement" doc with
  | Some arr => tree.elements arr
  | None => []
  end.

Definition isCollection (v : value) : bool :=
  tree.isObject v || tree.isArray v.

(** The statement [o] of an encoded policy has the members Principal and
    Action, and both hold a collection. *)
Definition hasCollections (o : value) : bool :=
  match tree.lookup "Principal" o, tree.lookup "Action" o with
  | Some pr, Some act => isCollection pr && isCollection act
  | _, _ => false
  end.

(** The member [name] of [o] is present and holds [null]. *)
Definition holdsNull (name : string) (o : value) : bool :=
  match tree.lookup name o with
  | Some v => tree.isNullValue v
  | None => false
  end.

Definition absent (name : string) (o : value) : bool :=
  match tree.lookup name o with
  | Some _ => false
  | None => true
  end.

(** What the encoding [v] of a statement pointer shows of it: [null] for a
    nil pointer; else Principal and Action present, [null] exactly when
    nil, and the members with [omitempty] absent exactly when nil or
    empty. *)
Definition showsStatement (o : option Statement) (v : value) : Prop :=
  match o with
  | None => tree.isNullValue v = true
  | Some s =>
      absent "Principal" v = false
      /\ absent "Action" v = false
      /\ holdsNull "Principal" v = json.isNil (stPrincipal s)
      /\ holdsNull "Action" v = json.isNil (stAction s)
      /\ absent "Sid" v = json.isNil (stSid s)
      /\ absent "NotPrincipal" v = json.isNil (stNotPrincipal s)
      /\ absent "NotAction" v = (slice_len (stNotAction s) =? 0)%nat
      /\ absent "Condition" v = (map_len (stCondition s) =? 0)%nat
  end.

(** The encoding [v] of a statement holds collections under Principal and
    Action: an object with an array under AWS, and an array. *)
Definition showsCollections (v : value) : Prop :=
  hasCollections v = true
  /\ (exists aws,
        tree.lookup "Principal" v
        = Some (tree.mkObject [(lit "AWS", tree.mkArray aws)]))
  /\ (exists acts, tree.lookup "Action" v = Some (tree.mkArray acts)).


(** The value under operator [t], variable [key] after [AddCondition]:
    what [AddCondition] leaves in the condition map [g]. *)
Definition addToMap (g : gmap string (option (gmap string (option (list string)))))
    (t key v : string)
  : gmap string (option (gmap string (option (list string)))) :=
  let h := default ∅ (default None (g !! t)) in
  <[t:=Some (<[key:=append (default None (h !! key)) v]> h)]> g.

(** ** Example policies *)

(** Successive calls on the statement at position [i]. *)
Fixpoint runOps (p : Policy) (i : nat) (ops : list StatementOp) : outcome Policy :=
  match ops with
  | [] => Returns p
  | o :: ops' => p' <~ onStatement p i (applyOp o) ;; runOps p' i ops'
  end.

(** The calls of [ExampleNewPolicy]. *)
Definition exampleOps : list StatementOp :=
  [OpSetSid "statement-id"; OpSetEffect Allow; OpAddPrincipal "*";
   OpAddAction "Describe*"; OpSetResource "*";
   OpAddCondition ConditionArnEquals VarSourceIp "10.0.0.0/8"].

Definition examplePolicy : Policy :=
  match runOps (fst (AddStatement (SetId NewPolicy "policy-id"))) 0 exampleOps with
  | Returns p => p
  | Panic _ => NewPolicy
  end.

(** A policy with one statement, and nothing done to it. *)
Definition emptyStatementPolicy : Policy := fst (AddStatement NewPolicy).

(** ** Notions used in the further properties *)

(** The member of an encoded statement a call writes. *)
Definition opMember (o : StatementOp) : string :=
  match o with
  | OpSetSid _ => "Sid"
  | OpSetEffect _ => "Effect"
  | OpAddPrincipal _ => "Principal"
  | OpAddNotPrincipal _ => "NotPrincipal"
  | OpAddAction _ => "Action"
  | OpAddNotAction _ => "NotAction"
  | OpSetResource _ => "Resource"
  | OpAddCondition _ _ _ => "Condition"
  end.

(** The persons a principal pointer lists. *)
Definition principals (p : option Principal) : list string :=
  match p with
  | Some pr => default [] (Aws pr)
  | None => []
  end.

(** Successive [AddPrincipal] calls. *)
Fixpoint AddPrincipals (s : Statement) (ps : list string) : outcome Statement :=
  match ps with
  | [] => Returns s
  | p :: ps' => s' <~ AddPrincipal s p ;; AddPrincipals s' ps'
  end.

(** A text that opens [k] arrays before anything else. *)
Fixpoint opening (k : nat) (rest : string) : string :=
  match k with
  | O => rest
  | S k' => String "[" (opening k' rest)
  end.

(** ** encoding/json: the scanner, byte by byte, and Indent

    [MarshalIndent] is [Marshal] followed by [Indent], which feeds the
    text to the scanner one byte at a time and copies it with new lines and
    indentation around the punctuation the scanner reports.  The scanner is
    the state machine of [scanner.go]: a step function per state and a stack
    of the objects and arrays that are open, of which there may be
    [scanner.maxNestingDepth] at most. *)

Module scan.

(** What a step reports of the byte it read. *)
Inductive code : Type :=
| scanContinue
| scanBeginLiteral
| scanBeginObject
| scanObjectKey
| scanObjectValue
| scanEndObject
| scanBeginArray
| scanArrayValue
| scanEndArray
| scanSkipSpace
| scanEnd
| scanError.

(** What is being read of the innermost open object or array. *)
Inductive parse : Type :=
| parseObjectKey
| parseObjectValue
| parseArrayValue.

(** The step functions. *)
Inductive state : Type :=
| stateBeginValueOrEmpty
| stateBeginValue
| stateBeginStringOrEmpty
| stateBeginString
| stateEndValue
| stateEndTop
| stateInString
| stateInStringEsc
| stateInStringEscU
| stateInStringEscU1
| stateInStringEscU12
| stateInStringEscU123
| stateNeg
| state1
| state0
| stateDot
| stateDot0
| stateE
| stateESign
| stateE0
| stateT
| stateTr
| stateTru
| stateF
| stateFa
| stateFal
| stateFals
| stateN
| stateNu
| stateNul
| stateError.

(** [type scanner struct]: the top of the stack [parseState] is the head
    of the list; [err] records that an error was set. *)
Record scanner : Type := mkScanner {
  step : state;
  parseState : list parse;
  endTop : bool;
  err : bool
}.

Definition setStep (s : scanner) (st : state) : scanner :=
  mkScanner st (parseState s) (endTop s) (err s).

(** [func (s *scanner) reset()] *)
Definition reset : scanner := mkScanner stateBeginValue [] false false.

(** [func (s *scanner) error(c byte, context string) int] *)
Definition error (s : scanner) : scanner * code :=
  (mkScanner stateError (parseState s) (endTop s) true, scanError).

(** [func (s *scanner) pushParseState(c byte, newParseState int,
    successState int) int] *)
Definition pushParseState (s : scanner) (p : parse) (success : code)
  : scanner * code :=
  let s1 := mkScanner (step s) (p :: parseState s) (endTop s) (err s) in
  if (N.of_nat (length (parseState s1)) <=? scanner.maxNestingDepth)%N
  then (s1, success)
  else error s1.

(** [func (s *scanner) popParseState()] *)
Definition popParseState (s : scanner) : scanner :=
  match tl (parseState s) with
  | [] => mkScanner stateEndTop [] true (err s)
  | ps => mkScanner stateEndValue ps (endTop s) (err s)
  end.

Definition byteIs (c : ascii) (d : string) : bool :=
  match d with
  | String d0 _ => Ascii.eqb c d0
  | EmptyString => false
  end.

(** [func stateEndTop(s *scanner, c byte) int] *)
Definition doEndTop (s : scanner) (c : ascii) : scanner * code :=
  if negb (scanner.isSpace c) then (fst (error s), scanEnd)
  else (s, scanEnd).

(** [func stateEndValue(s *scanner, c byte) int] *)
Definition doEndValue (s : scanner) (c : ascii) : scanner * code :=
  match parseState s with
  | [] => doEndTop (mkScanner stateEndTop [] true (err s)) c
  | ps :: rest =>
      if scanner.isSpace c then (setStep s stateEndValue, scanSkipSpace)
      else
        match ps with
        | parseObjectKey =>
            if byteIs c ":" then
              (mkScanner stateBeginValue (parseObjectValue :: rest)
                 (endTop s) (err s), scanObjectKey)
            else error s
        | parseObjectValue =>
            if byteIs c "," then
              (mkScanner stateBeginString (parseObjectKey :: rest)
                 (endTop s) (err s), scanObjectValue)
            else if byteIs c "}" then (popParseState s, scanEndObject)
            else error s
        | parseArrayValue =>
            if byteIs c "," then (setStep s stateBeginValue, scanArrayValue)
            else if byteIs c "]" then (popParseState s, scanEndArray)
            else error s
        end
  end.

(** [func stateBeginValue(s *scanner, c byte) int] *)
Definition doBeginValue (s : scanner) (c : ascii) : scanner * code :=
  if scanner.isSpace c then (s, scanSkipSpace)
  else if byteIs c "{" then
    pushParseState (setStep s stateBeginStringOrEmpty) parseObjectKey
      scanBeginObject
  else if byteIs c "[" then
    pushParseState (setStep s stateBeginValueOrEmpty) parseArrayValue
      scanBeginArray
  else if Ascii.eqb c quote_char then (setStep s stateInString, scanBeginLiteral)
  else if byteIs c "-" then (setStep s stateNeg, scanBeginLiteral)
  else if byteIs c "0" then (setStep s state0, scanBeginLiteral)
  else if byteIs c "t" then (setStep s stateT, scanBeginLiteral)
  else if byteIs c "f" then (setStep s stateF, scanBeginLiteral)
  else if byteIs c "n" then (setStep s stateN, scanBeginLiteral)
  else if ((49 <=? N_of_ascii c) && (N_of_ascii c <=? 57))%N then
    (setStep s state1, scanBeginLiteral)
  else error s.

(** [func stateBeginString(s *scanner, c byte) int] *)
Definition doBeginString (s : scanner) (c : ascii) : scanner * code :=
  if scanner.isSpace c then (s, scanSkipSpace)
  else if Ascii.eqb c quote_char then (setStep s stateInString, scanBeginLiteral)
  else error s.

(** A state that accepts one byte and goes on to the state [next]. *)
Definition expect (s : scanner) (c : ascii) (d : string) (next : state)
  : scanner * code :=
  if byteIs c d then (setStep s next, scanContinue) else error s.

Definition hexTo (s : scanner) (c : ascii) (next : state) : scanner * code :=
  if scanner.isHex c then (setStep s next, scanContinue) else error s.

(** [func state0(s *scanner, c byte) int] *)
Definition do0 (s : scanner) (c : ascii) : scanner * code :=
  if byteIs c "." then (setStep s stateDot, scanContinue)
  else if byteIs c "e" || byteIs c "E" then (setStep s stateE, scanContinue)
  else doEndValue s c.

(** [func stateESign(s *scanner, c byte) int] *)
Definition doESign (s : scanner) (c : ascii) : scanner * code :=
  if scanner.isDigit c then (setStep s stateE0, scanContinue) else error s.

(** [s.step(s, c)]: the step function of the state the scanner is in. *)
Definition stepWith (s : scanner) (c : ascii) : scanner * code :=
  match step s with
  | stateBeginValueOrEmpty =>
      if scanner.isSpace c then (s, scanSkipSpace)
      else if byteIs c "]" then doEndValue s c
      else doBeginValue s c
  | stateBeginValue => doBeginValue s c
  | stateBeginStringOrEmpty =>
      if scanner.isSpace c then (s, scanSkipSpace)
      else if byteIs c "}" then
        doEndValue
          (mkScanner (step s) (parseObjectValue :: tl (parseState s))
             (endTop s) (err s)) c
      else doBeginString s c
  | stateBeginString => doBeginString s c
  | stateEndValue => doEndValue s c
  | stateEndTop => doEndTop s c
  | stateInString =>
      if Ascii.eqb c quote_char then (setStep s stateEndValue, scanContinue)
      else if Ascii.eqb c json.backslash then
        (setStep s stateInStringEsc, scanContinue)
      else if (N_of_ascii c <? 32)%N then error s
      else (s, scanContinue)
  | stateInStringEsc =>
      if scanner.isEscape c then (setStep s stateInString, scanContinue)
      else if byteIs c "u" then (setStep s stateInStringEscU, scanContinue)
      else error s
  | stateInStringEscU => hexTo s c stateInStringEscU1
  | stateInStringEscU1 => hexTo s c stateInStringEscU12
  | stateInStringEscU12 => hexTo s c stateInStringEscU123
  | stateInStringEscU123 => hexTo s c stateInString
  | stateNeg =>
      if byteIs c "0" then (setStep s state0, scanContinue)
      else if ((49 <=? N_of_ascii c) && (N_of_ascii c <=? 57))%N then
        (setStep s state1, scanContinue)
      else error s
  | state1 =>
      if scanner.isDigit c then (setStep s state1, scanContinue) else do0 s c
  | state0 => do0 s c
  | stateDot =>
      if scanner.isDigit c then (setStep s stateDot0, scanContinue)
      else error s
  | stateDot0 =>
      if scanner.isDigit c then (s, scanContinue)
      else if byteIs c "e" || byteIs c "E" then (setStep s stateE, scanContinue)
      else doEndValue s c
  | stateE =>
      if byteIs c "+" || byteIs c "-" then (setStep s stateESign, scanContinue)
      else doESign s c
  | stateESign => doESign s c
  | stateE0 =>
      if scanner.isDigit c then (s, scanContinue) else doEndValue s c
  | stateT => expect s c "r" stateTr
  | stateTr => expect s c "u" stateTru
  | stateTru => expect s c "e" stateEndValue
  | stateF => expect s c "a" stateFa
  | stateFa => expect s c "l" stateFal
  | stateFal => expect s c "s" stateFals
  | stateFals => expect s c "e" stateEndValue
  | stateN => expect s c "u" stateNu
  | stateNu => expect s c "l" stateNul
  | stateNul => expect s c "l" stateEndValue
  | stateError => (s, scanError)
  end.

(** [func (s *scanner) eof() int], as the scanner it leaves and whether
    it returns [scanEnd]. *)
Definition eof (s : scanner) : bool :=
  if err s then false
  else if endTop s then true
  else endTop (fst (stepWith s " ")).

End scan.

Module indent.

(** [func newline(dst *bytes.Buffer, prefix, indent string, depth int)]:
    the bytes written. *)
Definition newline (prefix indent : string) (depth : Z) : string :=
  String (ascii_of_N 10)
    (prefix +:+ String.concat "" (repeat indent (Z.to_nat depth))).

Definition isEnd (v : scan.code) : bool :=
  match v with
  | scan.scanEndObject | scan.scanEndArray => true
  | _ => false
  end.

(** The loop of [Indent] over the bytes of [src] that are left: the
    scanner and the buffer when the loop ends. *)
Fixpoint loop (prefix indent : string) (src : string) (s : scan.scanner)
    (needIndent : bool) (depth : Z) (dst : string) : scan.scanner * string :=
  match src with
  | EmptyString => (s, dst)
  | String c rest =>
      let '(s1, v) := scan.stepWith s c in
      match v with
      | scan.scanSkipSpace => loop prefix indent rest s1 needIndent depth dst
      | scan.scanError => (s1, dst)
      | _ =>
          let '(needIndent1, depth1, dst1) :=
            if needIndent && negb (isEnd v) then
              (false, (depth + 1)%Z,
               dst +:+ newline prefix indent (depth + 1))
            else (needIndent, depth, dst) in
          match v with
          | scan.scanContinue =>
              loop prefix indent rest s1 needIndent1 depth1
                (dst1 +:+ String c EmptyString)
          | _ =>
              if scan.byteIs c "{" || scan.byteIs c "[" then
                loop prefix indent rest s1 true depth1
                  (dst1 +:+ String c EmptyString)
              else if scan.byteIs c "," then
                loop prefix indent rest s1 needIndent1 depth1
                  (dst1 +:+ String c EmptyString
                   +:+ newline prefix indent depth1)
              else if scan.byteIs c ":" then
                loop prefix indent rest s1 needIndent1 depth1
                  (dst1 +:+ String c " ")
              else if scan.byteIs c "}" || scan.byteIs c "]" then
                if needIndent1 then
                  loop prefix indent rest s1 false depth1
                    (dst1 +:+ String c EmptyString)
                else
                  loop prefix indent rest s1 needIndent1 (depth1 - 1)%Z
                    (dst1 +:+ newline prefix indent (depth1 - 1)
                     +:+ String c EmptyString)
              else
                loop prefix indent rest s1 needIndent1 depth1
                  (dst1 +:+ String c EmptyString)
          end
      end
  end.

(** [func Indent(dst *bytes.Buffer, src []byte, prefix, indent string)
    error], into an empty buffer: the bytes written, or the error. *)
Definition Indent (src prefix indent : string) : result string :=
  let '(s, dst) := loop prefix indent src scan.reset false 0 EmptyString in
  if scan.eof s then Ok dst else Err SyntaxError.

(** [func MarshalIndent(v any, prefix, indent string) ([]byte, error)]
    at [*Policy]. *)
Definition MarshalIndent (p : Policy) (prefix indent : string) : result string :=
  b <- json.Marshal p ;; Indent b prefix indent.

End indent.

(** [func (p *Policy) String() string]: the error of [MarshalIndent] is
    dropped, and the string of the nil slice an error comes with is the
    empty string. *)
Definition Policy_String (p : Policy) : string :=
  match indent.MarshalIndent p "" "    " with
  | Ok result => result
  | Err _ => EmptyString
  end.

(** ** The indented text of a tree *)

(** The text of a tree with every element and member on a line of its
    own, indented by its depth; an array or object that holds nothing is
    written without a line break. *)
Fixpoint indented (prefix ind : string) (depth : Z) (v : value) : string :=
  match v with
  | Literal item => item
  | Array _ es =>
      match es with
      | [] => "[]"
      | _ =>
          "[" +:+ indent.newline prefix ind (depth + 1)
          +:+ String.concat ("," +:+ indent.newline prefix ind (depth + 1))
                (map (indented prefix ind (depth + 1)) es)
          +:+ indent.newline prefix ind depth +:+ "]"
      end
  | Object _ ms =>
      match ms with
      | [] => "{}"
      | _ =>
          "{" +:+ indent.newline prefix ind (depth + 1)
          +:+ String.concat ("," +:+ indent.newline prefix ind (depth + 1))
                (map (fun m : string * value =>
                        fst m +:+ ": "
                        +:+ indented prefix ind (depth + 1) (snd m)) ms)
          +:+ indent.newline prefix ind depth +:+ "}"
      end
  end.

(** The scanner after it read a value: at the end of a value, or at the
    end of the text when the value is an array or an object that is not
    inside another. *)
Definition afterValue (ps : list scan.parse) (et er : bool) (v : value)
  : scan.scanner :=
  match v, ps with
  | Literal _, _ => scan.mkScanner scan.stateEndValue ps et er
  | _, [] => scan.mkScanner scan.stateEndTop [] true er
  | _, _ => scan.mkScanner scan.stateEndValue ps et er
  end.

(** What [Indent] does before the first byte of a value when an indent is
    due: the depth and the bytes written. *)
Definition dueDepth (needIndent : bool) (depth : Z) : Z :=
  if needIndent then (depth + 1)%Z else depth.

Definition dueDst (prefix ind : string) (needIndent : bool) (depth : Z)
    (dst : string) : string :=
  if needIndent then dst +:+ indent.newline prefix ind (depth + 1) else dst.

(** [Indent] copies the text of [v], indented: from any state in which the
    scanner expects a value and has room for the objects and arrays of [v],
    the loop reads the text and leaves the buffer with the indented text
    added. *)
Definition indentsValue (prefix ind : string) (v : value) : Prop :=
  forall rest st ps et er needIndent depth dst,
    st = scan.stateBeginValue \/ st = scan.stateBeginValueOrEmpty ->
    (N.of_nat (length ps) + nesting v <= scanner.maxNestingDepth)%N ->
    indent.loop prefix ind (decode.rawOf v +:+ rest)
      (scan.mkScanner st ps et er) needIndent depth dst
    = indent.loop prefix ind rest (afterValue ps et er v) false
        (dueDepth needIndent depth)
        (dueDst prefix ind needIndent depth dst
         +:+ indented prefix ind (dueDepth needIndent depth) v).

(** The text of a member of an object, indented. *)
Definition indentedMember (prefix ind : string) (depth : Z)
    (m : string * value) : string :=
  fst m +:+ ": " +:+ indented prefix ind depth (snd m).

(** ** Reading the indented text *)

(** The tree the scanner reads from the indented text of a tree: the
    same values, and for each array and object the indented text it was
    read from. *)
Fixpoint indentedTree (prefix ind : string) (depth : Z) (v : value) : value :=
  match v with
  | Literal item => Literal item
  | Array raw es =>
      Array (indented prefix ind depth (Array raw es))
        (map (indentedTree prefix ind (depth + 1)) es)
  | Object raw ms =>
      Object (indented prefix ind depth (Object raw ms))
        (map (fun m : string * value =>
                (fst m, indentedTree prefix ind (depth + 1) (snd m))) ms)
  end.

(** The text of an array or of an object does not start with a quote. *)
Definition unquoted (raw : string) : bool :=
  match raw with
  | String c _ => negb (Ascii.eqb c quote_char)
  | EmptyString => true
  end.

(** Two trees hold the same values: they differ at most in the layout of
    the texts their arrays and objects were read from. *)
#[warnings="-register-all"]
Inductive sameShape : value -> value -> Prop :=
| sameLiteral item : sameShape (Literal item) (Literal item)
| sameArray raw raw' es es' :
    unquoted raw = true -> unquoted raw' = true ->
    Forall2 sameShape es es' ->
    sameShape (Array raw es) (Array raw' es')
| sameObject raw raw' ms ms' :
    unquoted raw = true -> unquoted raw' = true ->
    Forall2 (fun m m' : string * value =>
               fst m = fst m' /\ sameShape (snd m) (snd m')) ms ms' ->
    sameShape (Object raw ms) (Object raw' ms').

(** Two results are the same, or both are errors. *)
Definition agree {A : Type} (r r' : result A) : Prop :=
  r = r' \/ exists e e', r = Err e /\ r' = Err e'.

(** A decoder makes nothing of the layout of the text. *)
Definition layoutFree {A : Type} (dec : A -> value -> decode.D A) : Prop :=
  forall v v', sameShape v v' ->
  forall cur saved, agree (dec cur v saved) (dec cur v' saved).

(** A text of spaces only. *)
Definition blank (s : string) : bool := allChars scanner.isSpace s.

(** ** Bytes that are safe in HTML *)

(** A byte that is no control character and none of [<], [>] and [&]. *)
Definition safeByte (c : ascii) : bool :=
  let b := N_of_ascii c in
  ((32 <=? b) && negb (b =? 38) && negb (b =? 60) && negb (b =? 62))%N.

(** ** One call on a fresh statement *)

(** The policy of the tests: a new policy, one statement added, and one
    call on it. *)
Definition afterCall (o : StatementOp) : outcome Policy :=
  onStatement (fst (AddStatement NewPolicy)) 0 (applyOp o).

(** The encoding of the one statement the tests expect after the call,
    for any strings: a string [x] stands in it as the encoder quotes it. *)
Definition expectedStatement (o : StatementOp) : string :=
  let q := json.appendString in
  match o with
  | OpSetSid id =>
      dq "{'Sid':" +:+ q id
      +:+ dq ",'Effect':'Deny','Principal':{'AWS':[]},'Action':[],'Resource':''}"
  | OpSetEffect e =>
      dq "{'Effect':" +:+ (if e then lit "Allow" else lit "Deny")
      +:+ dq ",'Principal':{'AWS':[]},'Action':[],'Resource':''}"
  | OpAddPrincipal p =>
      dq "{'Effect':'Deny','Principal':{'AWS':[" +:+ q p
      +:+ dq "]},'Action':[],'Resource':''}"
  | OpAddNotPrincipal p =>
      dq "{'Effect':'Deny','Principal':{'AWS':[]},'NotPrincipal':{'AWS':["
      +:+ q p +:+ dq "]},'Action':[],'Resource':''}"
  | OpAddAction a =>
      dq "{'Effect':'Deny','Principal':{'AWS':[]},'Action':[" +:+ q a
      +:+ dq "],'Resource':''}"
  | OpAddNotAction a =>
      dq "{'Effect':'Deny','Principal':{'AWS':[]},'Action':[],'NotAction':["
      +:+ q a +:+ dq "],'Resource':''}"
  | OpSetResource r =>
      dq "{'Effect':'Deny','Principal':{'AWS':[]},'Action':[],'Resource':"
      +:+ q r +:+ "}"
  | OpAddCondition t key v =>
      dq "{'Effect':'Deny','Principal':{'AWS':[]},'Action':[],'Resource':'','Condition':{"
      +:+ q t +:+ ":{" +:+ q key +:+ ":[" +:+ q v +:+ "]}}}"
  end.

(** ** Valid UTF-8 in what is decoded *)

(** A text that [ValidString] accepts however far it is allowed to
    look. *)
Definition wellFormed (s : string) : Prop :=
  forall fuel, utf8.ValidString_loop fuel s = true.

(** A decoder stores valid values over valid ones. *)
Definition keepsValid {A : Type} (valid : A -> bool)
    (dec : A -> value -> decode.D A) : Prop :=
  forall cur v saved a saved',
    valid cur = true -> dec cur v saved = Ok (a, saved') -> valid a = true.

(** What is valid of a slice in memory holds of the elements past its
    length too, which may be seen again; and so for the structs. *)
Definition validSlice {A : Type} (valid : A -> bool) (s : decoder.slice A)
  : bool :=
  forallb valid (decoder.backing s).

Definition validPrincipalMem (p : option decoder.PrincipalMem) : bool :=
  match p with
  | None => true
  | Some p => validSlice utf8.ValidString (decoder.memAws p)
  end.

Definition validStatementMem (s : decoder.StatementMem) : bool :=
  validOpt (decoder.memSid s) && validPrincipalMem (decoder.memPrincipal s)
  && validPrincipalMem (decoder.memNotPrincipal s)
  && validSlice utf8.ValidString (decoder.memAction s)
  && validSlice utf8.ValidString (decoder.memNotAction s)
  && utf8.ValidString (decoder.memResource s)
  && validCondition (decoder.memCondition s).

Definition validPolicyMem (p : decoder.PolicyMem) : bool :=
  validOpt (decoder.memId p)
  && validSlice (fun o : option decoder.StatementMem =>
                   match o with
                   | None => true
                   | Some s => validStatementMem s
                   end)
       (decoder.memStatement p).

(** * Properties *)

(** ** Version and effect *)

Lemma eqb_lit_iff (s t : string) : (s =? t)%string = true <-> s = t.
Proof. apply String.eqb_eq. Qed.

(** C4: decoding a version succeeds exactly on the two accepted literals;
    on any other text it fails with [InvalidPolicyVersionError] carrying
    that text, as it does on the literal for 2009-10-17, also through
    [LoadPolicy]. *)
Theorem version_decode_accepts_exactly (v : PolicyVersion) (b : string) :
  (PolicyVersionJSON.UnmarshalJSON v b = None
   <-> b = lit "2012-10-17" \/ b = lit "2008-10-17")
  /\ (PolicyVersionJSON.UnmarshalJSON v b = None
      \/ PolicyVersionJSON.UnmarshalJSON v b = Some (InvalidPolicyVersionError b)
         /\ Version_of (InvalidPolicyVersionError b) = Some b)
  /\ PolicyVersionJSON.UnmarshalJSON v (lit "2009-10-17")
     = Some (InvalidPolicyVersionError (lit "2009-10-17"))
  /\ LoadPolicy (dq "{'Version':'2009-10-17','Statement':[]}")
     = Err (InvalidPolicyVersionError (lit "2009-10-17"))
  /\ LoadPolicy (dq "{'Version':'2008-10-17','Statement':[]}") = Ok NewPolicy
  /\ LoadPolicy (dq "{'Version':'2012-10-17','Statement':[]}") = Ok NewPolicy.
Proof.
  unfold PolicyVersionJSON.UnmarshalJSON.
  repeat split; try reflexivity.
  - destruct (b =? lit "2012-10-17")%string eqn:E1;
      [apply eqb_lit_iff in E1; auto|].
    destruct (b =? lit "2008-10-17")%string eqn:E2;
      [apply eqb_lit_iff in E2; auto|].
    discriminate.
  - intros [-> | ->]; reflexivity.
  - destruct ((b =? lit "2012-10-17")%string || (b =? lit "2008-10-17")%string);
      [left | right]; auto.
Qed.

(** C6: [Allow] encodes to the literal Allow and [Deny] to the literal
    Deny; these two literals decode to [Allow] and [Deny]; any other text
    fails with [InvalidEffectError] carrying that text. *)
Theorem effect_encode_decode (e : Effect) (b : string) :
  EffectJSON.MarshalJSON Allow = Ok (lit "Allow")
  /\ EffectJSON.MarshalJSON Deny = Ok (lit "Deny")
  /\ EffectJSON.UnmarshalJSON e (lit "Allow") = (Allow, None)
  /\ EffectJSON.UnmarshalJSON e (lit "Deny") = (Deny, None)
  /\ (b = lit "Allow" \/ b = lit "Deny"
      \/ EffectJSON.UnmarshalJSON e b = (e, Some (InvalidEffectError b))).
Proof.
  repeat split; try reflexivity.
  unfold EffectJSON.UnmarshalJSON.
  destruct (b =? lit "Allow")%string eqn:E1; [apply eqb_lit_iff in E1; auto|].
  destruct (b =? lit "Deny")%string eqn:E2; [apply eqb_lit_iff in E2; auto|].
  auto.
Qed.

(** ** The encoding of freshly built policies *)

(** C7: a policy to which one statement was added, and nothing else done,
    encodes to exactly the expected bytes. *)
Theorem empty_statement_encoding :
  Get (fst (AddStatement NewPolicy))
  = Ok (dq "{'Version':'2012-10-17','Statement':[{'Effect':'Deny','Principal':{'AWS':[]},'Action':[],'Resource':''}]}").
Proof. vm_compute. reflexivity. Qed.

(** C9: after [AddNotPrincipal("*")] on a fresh statement the encoding is
    that of the fresh statement with the member NotPrincipal, holding the
    one value, inserted after Principal, which still holds the empty
    list. *)
Theorem not_principal_encoding :
  let p := fst (AddStatement NewPolicy) in
  let pre := dq "{'Version':'2012-10-17','Statement':[{'Effect':'Deny','Principal':{'AWS':[]}," in
  let post := dq "'Action':[],'Resource':''}]}" in
  stNotPrincipal newStatement = None
  /\ Get p = Ok (pre +:+ post)
  /\ exists p',
       onStatement p 0 (fun s => Returns (AddNotPrincipal s "*")) = Returns p'
       /\ Get p' = Ok (pre +:+ dq "'NotPrincipal':{'AWS':['*']}," +:+ post).
Proof.
  repeat split. eexists. split; [reflexivity|]. vm_compute. reflexivity.
Qed.

(** ** AddCondition *)

Lemma AddCondition_returns (s : Statement) (t key v : string) :
  writable s t ->
  exists s',
    AddCondition s t key v = Returns s'
    /\ conditionValues s' t key = conditionValues s t key ++ [v]
    /\ writable s' t.
Proof.
  intros (g & Hg & Ht). unfold AddCondition, conditionValues, writable.
  rewrite Hg. cbn [map_get].
  destruct (g !! t) as [[h|]|] eqn:Egt; [|exfalso; apply Ht; exact Egt|].
  - cbn. rewrite Egt. cbn.
    destruct (h !! key) as [cur|] eqn:Ehk.
    + cbn. rewrite Ehk. cbn.
      eexists. split; [reflexivity|]. cbn.
      rewrite !lookup_insert_eq. cbn. rewrite !lookup_insert_eq. cbn.
      split.
      * destruct cur; reflexivity.
      * eexists. split; [reflexivity|]. rewrite lookup_insert_eq. congruence.
    + cbn. rewrite lookup_insert_eq. cbn.
      eexists. split; [reflexivity|]. cbn.
      rewrite !lookup_insert_eq. cbn. rewrite !lookup_insert_eq. cbn.
      split; [reflexivity|].
      eexists. split; [reflexivity|]. rewrite lookup_insert_eq. congruence.
  - cbn. rewrite lookup_insert_eq. cbn. rewrite lookup_empty. cbn.
    rewrite lookup_insert_eq. cbn.
    eexists. split; [reflexivity|]. cbn.
    rewrite !lookup_insert_eq. cbn. rewrite !lookup_insert_eq. cbn.
    split; [reflexivity|].
    eexists. split; [reflexivity|]. rewrite lookup_insert_eq. congruence.
Qed.

Lemma newStatement_writable (t : string) : writable newStatement t.
Proof. exists ∅. split; [reflexivity|]. rewrite lookup_empty. congruence. Qed.

Lemma builtStatement_writable (s : Statement) (t : string) :
  builtStatement s -> writable s t.
Proof.
  intros (_ & _ & _ & _ & g & Hg & Hnil). exists g. split; [exact Hg | apply Hnil].
Qed.

(** Where [AddCondition] can write under the operator, as on every
    statement [AddStatement] returns, successive calls with one operator
    and variable all return, and leave under them the values that were
    there followed by the values added, in the order of the calls and with
    their repetitions. *)
Theorem AddCondition_accumulates (s : Statement) (t key : string)
    (values : list string) :
  writable s t ->
  exists s',
    AddConditions s t key values = Returns s'
    /\ conditionValues s' t key = conditionValues s t key ++ values
    /\ writable s' t.
Proof.
  revert s. induction values as [|v vs IH]; intros s Hw.
  - exists s. cbn. rewrite app_nil_r. auto.
  - destruct (AddCondition_returns s t key v Hw) as (s1 & E1 & V1 & W1).
    destruct (IH s1 W1) as (s' & E' & V' & W').
    exists s'. cbn [AddConditions]. rewrite E1. cbn [obind].
    split; [exact E'|]. split; [|exact W'].
    rewrite V', V1, <- app_assoc. reflexivity.
Qed.

Lemma AddCondition_accumulates_witness :
  writable newStatement "ArnEquals"
  /\ exists s',
       AddConditions newStatement "ArnEquals" "aws:SourceArn"
         ["arn:sns:foo"; "arn:sns:bar"; "arn:sns:foo"] = Returns s'
       /\ conditionValues s' "ArnEquals" "aws:SourceArn"
          = conditionValues newStatement "ArnEquals" "aws:SourceArn"
            ++ ["arn:sns:foo"; "arn:sns:bar"; "arn:sns:foo"]
       /\ writable s' "ArnEquals".
Proof.
  split; [apply newStatement_writable|].
  apply (AddCondition_accumulates newStatement "ArnEquals" "aws:SourceArn"
           ["arn:sns:foo"; "arn:sns:bar"; "arn:sns:foo"]).
  apply newStatement_writable.
Defined.

(** C8: the calls do not accumulate on every statement.  On the
    statement of a policy that was encoded by [Get] and read back by
    [LoadPolicy] the condition map is nil, which [AddCondition] does not
    allocate: of two successive calls the first panics, and no value is
    kept. *)
Lemma AddConditions_panic_after_load :
  exists b p s,
    Get (fst (AddStatement NewPolicy)) = Ok b
    /\ LoadPolicy b = Ok p
    /\ statementAt p 0 = Some s
    /\ ~ writable s "ArnEquals"
    /\ AddConditions s "ArnEquals" "aws:SourceArn" ["arn:sns:foo"; "arn:sns:bar"]
       = Panic "assignment to entry in nil map".
Proof.
  eexists. eexists. eexists.
  split; [vm_compute; reflexivity|].
  split; [vm_compute; reflexivity|].
  split; [reflexivity|].
  split; [|reflexivity].
  intros (g & Hg & _). discriminate Hg.
Qed.

(** C2: the statement of a policy that was encoded by [Get] and read back
    by [LoadPolicy] has a nil condition map, and [AddCondition] on it
    panics, whatever its arguments. *)
Theorem AddCondition_panics_after_load (t key v : string) :
  exists b p s,
    Get (fst (AddStatement NewPolicy)) = Ok b
    /\ LoadPolicy b = Ok p
    /\ statementAt p 0 = Some s
    /\ stCondition s = None
    /\ AddCondition s t key v = Panic "assignment to entry in nil map"
    /\ onStatement p 0 (applyOp (OpAddCondition t key v))
       = Panic "assignment to entry in nil map".
Proof.
  eexists. eexists. eexists.
  split; [vm_compute; reflexivity|].
  split; [vm_compute; reflexivity|].
  split; [reflexivity|].
  repeat split.
Qed.

(** ** Marshal writes the text of the tree *)

Section EncodersWriteTrees.

Import decode.

Lemma rsequence_map_Ok {A B : Type} (f : A -> result B) (g : A -> B) (l : list A) :
  (forall x, f x = Ok (g x)) -> rsequence (map f l) = Ok (map g l).
Proof.
  intros Hf. induction l as [|x l IH]; [reflexivity|].
  cbn [map rsequence]. rewrite Hf, IH. reflexivity.
Qed.

Lemma sliceEncoder_tree {A : Type} (enc : A -> result string) (f : A -> value)
    (s : option (list A)) :
  (forall x, enc x = Ok (rawOf (f x))) ->
  json.sliceEncoder enc s = Ok (rawOf (tree.ofSlice f s)).
Proof.
  intros Henc. destruct s as [l|]; [|reflexivity].
  unfold json.sliceEncoder, json.arrayEncoder.
  rewrite (rsequence_map_Ok enc (fun x => rawOf (f x))) by exact Henc.
  cbn. unfold tree.arrayText. rewrite map_map. reflexivity.
Qed.

Lemma ptrEncoder_tree {A : Type} (enc : A -> result string) (f : A -> value)
    (p : option A) :
  (forall x, enc x = Ok (rawOf (f x))) ->
  json.ptrEncoder enc p = Ok (rawOf (tree.ofPtr f p)).
Proof. intros Henc. destruct p; [apply Henc | reflexivity]. Qed.

Lemma mapEncoder_tree {V : Type} (enc : V -> result string) (f : V -> value)
    (m : option (gmap string V)) :
  (forall x, enc x = Ok (rawOf (f x))) ->
  json.mapEncoder enc m = Ok (rawOf (tree.ofMap f m)).
Proof.
  intros Henc. destruct m as [g|]; [|reflexivity].
  unfold json.mapEncoder, tree.ofMap, tree.sortedEntries.
  rewrite (rsequence_map_Ok _
             (fun kv : string * V =>
                json.appendString (fst kv) +:+ ":" +:+ rawOf (f (snd kv)))).
  - cbn. unfold tree.objectText. rewrite map_map. reflexivity.
  - intros kv. rewrite Henc. reflexivity.
Qed.

Lemma stringEncoder_tree (s : string) :
  json.stringEncoder s = Ok (rawOf (tree.str s)).
Proof. reflexivity. Qed.

Lemma encodeStrings_tree (l : option (list string)) :
  json.encodeStrings l = Ok (rawOf (tree.ofStrings l)).
Proof. apply sliceEncoder_tree, stringEncoder_tree. Qed.

Lemma encodePrincipal_tree (p : Principal) :
  json.encodePrincipal p = Ok (rawOf (tree.ofPrincipal p)).
Proof.
  unfold json.encodePrincipal. rewrite encodeStrings_tree. reflexivity.
Qed.

Lemma encodeCondition_tree (c : ConditionMap) :
  json.encodeCondition c = Ok (rawOf (tree.ofCondition c)).
Proof.
  apply mapEncoder_tree. intros m. apply mapEncoder_tree, encodeStrings_tree.
Qed.

Lemma encodeEffect_tree (e : Effect) :
  json.marshalerEncoder (EffectJSON.MarshalJSON e) = Ok (rawOf (tree.ofEffect e)).
Proof. destruct e; reflexivity. Qed.

Lemma encodeStatement_tree (s : Statement) :
  json.encodeStatement s = Ok (rawOf (tree.ofStatement s)).
Proof.
  unfold json.encodeStatement, tree.ofStatement.
  rewrite !(ptrEncoder_tree _ _ _ stringEncoder_tree),
    !(ptrEncoder_tree _ _ _ encodePrincipal_tree),
    !encodeStrings_tree, encodeCondition_tree, encodeEffect_tree,
    stringEncoder_tree.
  destruct (json.isNil (stSid s)), (json.isNil (stNotPrincipal s)),
    (slice_len (stNotAction s) =? 0)%nat, (map_len (stCondition s) =? 0)%nat;
    reflexivity.
Qed.

Lemma encodePolicy_tree (p : Policy) :
  json.encodePolicy p = Ok (rawOf (tree.ofPolicy p)).
Proof.
  unfold json.encodePolicy, tree.ofPolicy.
  rewrite (ptrEncoder_tree _ _ _ stringEncoder_tree),
    (sliceEncoder_tree _ _ _ (fun x => ptrEncoder_tree _ _ x encodeStatement_tree)).
  destruct (polVersion p), (json.isNil (polId p)); reflexivity.
Qed.

End EncodersWriteTrees.

Lemma Get_tree (p : Policy) : Get p = Ok (decode.rawOf (tree.ofPolicy p)).
Proof. apply encodePolicy_tree. Qed.

(** ** Strings *)

Lemma sapp_cons (c : ascii) (s t : string) :
  String c s +:+ t = String c (s +:+ t).
Proof. reflexivity. Qed.

Lemma sapp_nil_l (s : string) : "" +:+ s = s.
Proof. reflexivity. Qed.

Lemma sapp_nil_r (s : string) : s +:+ "" = s.
Proof. induction s as [|c s IH]; [reflexivity|]. rewrite sapp_cons, IH. reflexivity. Qed.

Lemma sapp_assoc (s t u : string) : (s +:+ t) +:+ u = s +:+ (t +:+ u).
Proof.
  induction s as [|c s IH]; [reflexivity|]. rewrite !sapp_cons, IH. reflexivity.
Qed.

Lemma slength_app (s t : string) :
  String.length (s +:+ t) = String.length s + String.length t.
Proof.
  induction s as [|c s IH]; [reflexivity|].
  rewrite sapp_cons. cbn [String.length]. rewrite IH. reflexivity.
Qed.

Lemma string_take_app (s t : string) :
  string_take (String.length s) (s +:+ t) = s.
Proof.
  induction s as [|c s IH]; [destruct t; reflexivity|].
  rewrite sapp_cons. cbn [String.length string_take]. rewrite IH. reflexivity.
Qed.

Lemma string_drop_app (s t : string) :
  string_drop (String.length s) (s +:+ t) = t.
Proof.
  induction s as [|c s IH]; [destruct t; reflexivity|].
  rewrite sapp_cons. cbn [String.length string_drop]. exact IH.
Qed.

Lemma consumed_app (s t : string) : scanner.consumed (s +:+ t) t = s.
Proof.
  unfold scanner.consumed. rewrite slength_app.
  replace (String.length s + String.length t - String.length t)
    with (String.length s) by lia.
  apply string_take_app.
Qed.

(** ** The scanner on quoted strings *)

Lemma ascii_eqb_N (c d : ascii) :
  Ascii.eqb c d = (N_of_ascii c =? N_of_ascii d)%N.
Proof.
  destruct (Ascii.eqb_spec c d) as [->|Hne].
  - rewrite N.eqb_refl. reflexivity.
  - symmetry. apply N.eqb_neq. intros H. apply Hne.
    rewrite <- (ascii_N_embedding c), <- (ascii_N_embedding d), H. reflexivity.
Qed.

(** Case analysis on the comparisons of byte values in the goal. *)
Ltac byte_cases :=
  repeat match goal with
         | |- context [(?a =? ?b)%N] => destruct (N.eqb_spec a b)
         | |- context [(?a <? ?b)%N] => destruct (N.ltb_spec a b)
         | |- context [(?a <=? ?b)%N] => destruct (N.leb_spec a b)
         end;
  cbn [andb orb negb]; try reflexivity; try discriminate; try lia.

Lemma plainChar_N (c : ascii) :
  plainChar c
  = (negb (N_of_ascii c =? 34) && negb (N_of_ascii c =? 92)
     && negb (N_of_ascii c <? 32))%N.
Proof. unfold plainChar. rewrite !ascii_eqb_N. reflexivity. Qed.

Lemma scanString_plain (c : ascii) (t : string) :
  plainChar c = true ->
  scanner.scanString (String c t)
  = match scanner.scanString t with
    | Some (l, r) => Some (String c l, r)
    | None => None
    end.
Proof.
  unfold plainChar. intros H.
  apply andb_prop in H as [H H3]. apply andb_prop in H as [H1 H2].
  apply negb_true_iff in H1, H2, H3.
  cbn [scanner.scanString]. rewrite H1, H2, H3. reflexivity.
Qed.

Lemma scanString_plain_prefix (pre t : string) :
  allChars plainChar pre = true ->
  scanner.scanString (pre +:+ t)
  = match scanner.scanString t with
    | Some (l, r) => Some (pre +:+ l, r)
    | None => None
    end.
Proof.
  induction pre as [|c pre IH]; intros H.
  - rewrite sapp_nil_l. destruct (scanner.scanString t) as [[l r]|]; reflexivity.
  - cbn [allChars] in H. apply andb_prop in H as [Hc Hpre].
    rewrite sapp_cons, scanString_plain by exact Hc.
    rewrite IH by exact Hpre.
    destruct (scanner.scanString t) as [[l r]|]; reflexivity.
Qed.

Lemma htmlSafe_plain (c : ascii) :
  json.htmlSafe (N_of_ascii c) = true -> plainChar c = true.
Proof.
  rewrite plainChar_N. unfold json.htmlSafe.
  generalize (N_of_ascii c). intros b. byte_cases.
Qed.

Lemma highChar_plain (c : ascii) : highChar c = true -> plainChar c = true.
Proof.
  rewrite plainChar_N. unfold highChar.
  generalize (N_of_ascii c). intros b. byte_cases.
Qed.

Lemma allChars_high_plain (s : string) :
  allChars highChar s = true -> allChars plainChar s = true.
Proof.
  induction s as [|c s IH]; [reflexivity|]. cbn [allChars].
  intros H. apply andb_prop in H as [Hc Hs].
  rewrite (highChar_plain c Hc), (IH Hs). reflexivity.
Qed.

Lemma below_spec (n : nat) (P : N -> bool) :
  below n P = true -> forall x, (x < N.of_nat n)%N -> P x = true.
Proof.
  induction n as [|k IH]; intros H x Hx; [lia|].
  cbn [below] in H. apply andb_prop in H as [Hk Hrest].
  destruct (N.eq_dec x (N.of_nat k)) as [->|Hne]; [exact Hk|].
  apply IH; [exact Hrest | lia].
Qed.

Lemma isHex_hexdigit (n : N) :
  (n < 16)%N -> scanner.isHex (json.hexdigit n) = true.
Proof.
  apply (below_spec 16 (fun n => scanner.isHex (json.hexdigit n))).
  vm_compute. reflexivity.
Qed.

Lemma scanString_escape (e : ascii) (t : string) :
  scanner.isEscape e = true ->
  scanner.scanString (String json.backslash (String e t))
  = match scanner.scanString t with
    | Some (l, r) => Some (String json.backslash (String e l), r)
    | None => None
    end.
Proof.
  intros H. cbn [scanner.scanString].
  change (Ascii.eqb json.backslash quote_char) with false.
  change (Ascii.eqb json.backslash json.backslash) with true.
  cbv iota. rewrite H. reflexivity.
Qed.

Lemma scanString_u (h1 h2 h3 h4 : ascii) (t : string) :
  scanner.isHex h1 = true -> scanner.isHex h2 = true ->
  scanner.isHex h3 = true -> scanner.isHex h4 = true ->
  scanner.scanString
    (String json.backslash
       (String "u" (String h1 (String h2 (String h3 (String h4 t))))))
  = match scanner.scanString t with
    | Some (l, r) =>
        Some (String json.backslash
                (String "u" (String h1 (String h2 (String h3 (String h4 l))))),
              r)
    | None => None
    end.
Proof.
  intros H1 H2 H3 H4. cbn [scanner.scanString].
  change (Ascii.eqb json.backslash quote_char) with false.
  change (Ascii.eqb json.backslash json.backslash) with true.
  change (scanner.isEscape "u") with false.
  change (Ascii.eqb "u" "u") with true.
  cbv iota. rewrite H1, H2, H3, H4. reflexivity.
Qed.

Lemma isEscape_N (c : ascii) (b : N) :
  N_of_ascii c = b ->
  ((b =? 98) || (b =? 102) || (b =? 110) || (b =? 114) || (b =? 116)
   || (b =? 92) || (b =? 47) || (b =? 34))%N = true ->
  scanner.isEscape c = true.
Proof. intros <- H. exact H. Qed.

Lemma scanString_escapeByte (c : ascii) (t : string) :
  (N_of_ascii c <? utf8.RuneSelf)%N = true ->
  json.htmlSafe (N_of_ascii c) = false ->
  scanner.scanString (json.escapeByte c +:+ t)
  = match scanner.scanString t with
    | Some (l, r) => Some (json.escapeByte c +:+ l, r)
    | None => None
    end.
Proof.
  intros Hlt Hsafe. unfold json.escapeByte.
  apply N.ltb_lt in Hlt. change utf8.RuneSelf with 128%N in Hlt.
  destruct ((N_of_ascii c =? 92) || (N_of_ascii c =? 34))%N eqn:E1.
  { rewrite !sapp_cons, !sapp_nil_l. apply scanString_escape.
    apply (isEscape_N c _ eq_refl).
    apply orb_prop in E1 as [E|E]; apply N.eqb_eq in E; rewrite E; reflexivity. }
  destruct (N_of_ascii c =? 8)%N;
    [rewrite !sapp_cons, !sapp_nil_l; apply scanString_escape; reflexivity|].
  destruct (N_of_ascii c =? 12)%N;
    [rewrite !sapp_cons, !sapp_nil_l; apply scanString_escape; reflexivity|].
  destruct (N_of_ascii c =? 10)%N;
    [rewrite !sapp_cons, !sapp_nil_l; apply scanString_escape; reflexivity|].
  destruct (N_of_ascii c =? 13)%N;
    [rewrite !sapp_cons, !sapp_nil_l; apply scanString_escape; reflexivity|].
  destruct (N_of_ascii c =? 9)%N;
    [rewrite !sapp_cons, !sapp_nil_l; apply scanString_escape; reflexivity|].
  rewrite !sapp_cons, !sapp_nil_l.
  apply scanString_u; try reflexivity; apply isHex_hexdigit.
  - rewrite N.shiftr_div_pow2. change (2 ^ 4)%N with 16%N.
    apply N.Div0.div_lt_upper_bound. lia.
  - change 15%N with (N.ones 4). rewrite N.land_ones.
    apply N.mod_lt. discriminate.
Qed.

(** ** UTF-8 *)

Ltac nlia := zify; Z.to_euclidean_division_equations; lia.

Lemma lor_add (a d k : N) :
  (d < 2 ^ k)%N -> N.lor (a * 2 ^ k) d = (a * 2 ^ k + d)%N.
Proof.
  intros Hd. rewrite <- N.lxor_lor, <- N.add_nocarry_lxor; try reflexivity.
  all: apply N.bits_inj; intros i; rewrite N.land_spec, N.bits_0;
    rewrite <- N.shiftl_mul_pow2;
    destruct (N.lt_ge_cases i k) as [Hi|Hi];
    [rewrite N.shiftl_spec_low by exact Hi; reflexivity|];
    destruct (N.eq_dec d 0%N) as [->|Hd0];
    [rewrite N.bits_0; apply andb_false_r|];
    rewrite (N.bits_above_log2 d i), andb_false_r; [reflexivity|];
    apply N.lt_le_trans with k; [|exact Hi];
    apply N.log2_lt_pow2; [lia | exact Hd].
Qed.

Lemma land_31 (x : N) : N.land x 31 = (x mod 32)%N.
Proof. change 31%N with (N.ones 5). apply N.land_ones. Qed.
Lemma land_63 (x : N) : N.land x 63 = (x mod 64)%N.
Proof. change 63%N with (N.ones 6). apply N.land_ones. Qed.
Lemma land_15 (x : N) : N.land x 15 = (x mod 16)%N.
Proof. change 15%N with (N.ones 4). apply N.land_ones. Qed.
Lemma land_7 (x : N) : N.land x 7 = (x mod 8)%N.
Proof. change 7%N with (N.ones 3). apply N.land_ones. Qed.

Lemma lor_shiftl_6 (a d : N) :
  (d < 64)%N -> N.lor (N.shiftl a 6) d = (a * 64 + d)%N.
Proof. intros H. rewrite N.shiftl_mul_pow2. apply (lor_add a d 6). exact H. Qed.
Lemma lor_shiftl_12 (a d : N) :
  (d < 4096)%N -> N.lor (N.shiftl a 12) d = (a * 4096 + d)%N.
Proof. intros H. rewrite N.shiftl_mul_pow2. apply (lor_add a d 12). exact H. Qed.
Lemma lor_shiftl_18 (a d : N) :
  (d < 262144)%N -> N.lor (N.shiftl a 18) d = (a * 262144 + d)%N.
Proof. intros H. rewrite N.shiftl_mul_pow2. apply (lor_add a d 18). exact H. Qed.

Lemma lor_128 (x : N) : (x < 64)%N -> N.lor 128 x = (128 + x)%N.
Proof. intros H. apply (lor_add 2 x 6). exact H. Qed.
Lemma lor_192 (x : N) : (x < 64)%N -> N.lor 192 x = (192 + x)%N.
Proof. intros H. apply (lor_add 3 x 6). exact H. Qed.
Lemma lor_224 (x : N) : (x < 32)%N -> N.lor 224 x = (224 + x)%N.
Proof. intros H. apply (lor_add 7 x 5). exact H. Qed.
Lemma lor_240 (x : N) : (x < 16)%N -> N.lor 240 x = (240 + x)%N.
Proof. intros H. apply (lor_add 15 x 4). exact H. Qed.

Lemma shiftr_6 (x : N) : N.shiftr x 6 = (x / 64)%N.
Proof. apply N.shiftr_div_pow2. Qed.
Lemma shiftr_12 (x : N) : N.shiftr x 12 = (x / 4096)%N.
Proof. apply N.shiftr_div_pow2. Qed.
Lemma shiftr_18 (x : N) : N.shiftr x 18 = (x / 262144)%N.
Proof. apply N.shiftr_div_pow2. Qed.

(** The runes of two, three and four bytes, in arithmetic. *)
Lemma rune2_arith (s0 s1 : N) :
  N.lor (N.shiftl (N.land s0 31) 6) (N.land s1 63)
  = (s0 mod 32 * 64 + s1 mod 64)%N.
Proof. rewrite land_31, land_63. apply lor_shiftl_6. nlia. Qed.

Lemma rune3_arith (s0 s1 s2 : N) :
  N.lor (N.shiftl (N.land s0 15) 12)
    (N.lor (N.shiftl (N.land s1 63) 6) (N.land s2 63))
  = (s0 mod 16 * 4096 + (s1 mod 64 * 64 + s2 mod 64))%N.
Proof.
  rewrite land_15, !land_63, (lor_shiftl_6 _ (s2 mod 64)) by nlia.
  apply lor_shiftl_12. nlia.
Qed.

Lemma rune4_arith (s0 s1 s2 s3 : N) :
  N.lor (N.shiftl (N.land s0 7) 18)
    (N.lor (N.shiftl (N.land s1 63) 12)
       (N.lor (N.shiftl (N.land s2 63) 6) (N.land s3 63)))
  = (s0 mod 8 * 262144 + (s1 mod 64 * 4096 + (s2 mod 64 * 64 + s3 mod 64)))%N.
Proof.
  rewrite land_7, !land_63, (lor_shiftl_6 _ (s3 mod 64)) by nlia.
  rewrite (lor_shiftl_12 _ (s2 mod 64 * 64 + s3 mod 64)) by nlia.
  apply lor_shiftl_18. nlia.
Qed.

Ltac pick := solve [ lia | reflexivity | split; pick | left; pick | right; pick ].

Lemma first_inv (b : N) (sz : nat) (lo hi : N) :
  utf8.first b = Some (sz, (lo, hi)) ->
  (sz = 2%nat /\ 194 <= b < 224 /\ lo = 128 /\ hi = 191)%N
  \/ (sz = 3%nat
      /\ ((b = 224 /\ lo = 160 /\ hi = 191)
          \/ (225 <= b < 237 /\ lo = 128 /\ hi = 191)
          \/ (b = 237 /\ lo = 128 /\ hi = 159)
          \/ (238 <= b < 240 /\ lo = 128 /\ hi = 191)))%N
  \/ (sz = 4%nat
      /\ ((b = 240 /\ lo = 144 /\ hi = 191)
          \/ (241 <= b < 244 /\ lo = 128 /\ hi = 191)
          \/ (b = 244 /\ lo = 128 /\ hi = 143)))%N.
Proof.
  unfold utf8.first.
  repeat match goal with
         | |- context [(?a =? ?b)%N] => destruct (N.eqb_spec a b)
         | |- context [(?a <? ?b)%N] => destruct (N.ltb_spec a b)
         end;
    intros Heq; inversion Heq; subst; pick.
Qed.

Lemma byte_eq (c : ascii) (n : N) : N_of_ascii c = n -> utf8.byte n = c.
Proof. intros <-. apply ascii_N_embedding. Qed.

Lemma highChar_N (c : ascii) : (128 <= N_of_ascii c)%N -> highChar c = true.
Proof. intros H. unfold highChar. apply negb_true_iff, N.ltb_ge. exact H. Qed.

Lemma encode2 (c0 c1 : ascii) (s0 s1 : N) :
  N_of_ascii c0 = s0 -> N_of_ascii c1 = s1 ->
  (194 <= s0 < 224)%N -> (128 <= s1 <= 191)%N ->
  utf8.EncodeRune (rune2 s0 s1) = String c0 (String c1 EmptyString).
Proof.
  intros E0 E1 H0 H1. unfold rune2. rewrite rune2_arith.
  set (r := (s0 mod 32 * 64 + s1 mod 64)%N).
  assert (Hr : (128 <= r < 2048)%N) by (subst r; nlia).
  unfold utf8.EncodeRune.
  destruct (N.leb_spec r 127); [lia|].
  destruct (N.leb_spec r 2047); [|lia].
  rewrite shiftr_6, land_63, lor_192, lor_128 by nlia.
  f_equal; [|f_equal]; apply byte_eq; subst r; nlia.
Qed.

Lemma encode3 (c0 c1 c2 : ascii) (s0 s1 s2 lo hi : N) :
  N_of_ascii c0 = s0 -> N_of_ascii c1 = s1 -> N_of_ascii c2 = s2 ->
  ((s0 = 224 /\ lo = 160 /\ hi = 191)
   \/ (225 <= s0 < 237 /\ lo = 128 /\ hi = 191)
   \/ (s0 = 237 /\ lo = 128 /\ hi = 159)
   \/ (238 <= s0 < 240 /\ lo = 128 /\ hi = 191))%N ->
  (lo <= s1 <= hi)%N -> (128 <= s2 <= 191)%N ->
  utf8.EncodeRune (rune3 s0 s1 s2) = String c0 (String c1 (String c2 EmptyString)).
Proof.
  intros E0 E1 E2 H0 H1 H2. unfold rune3. rewrite rune3_arith.
  set (r := (s0 mod 16 * 4096 + (s1 mod 64 * 64 + s2 mod 64))%N).
  assert (Hr : (2048 <= r < 65536 /\ (r < 55296 \/ 57343 < r))%N)
    by (subst r; nlia).
  unfold utf8.EncodeRune.
  destruct (N.leb_spec r 127); [lia|].
  destruct (N.leb_spec r 2047); [lia|].
  destruct (N.ltb_spec 1114111 r); [lia|].
  destruct (N.leb_spec 55296 r), (N.leb_spec r 57343); try lia;
    cbn [andb orb];
    (destruct (N.leb_spec r 65535); [|lia]);
    rewrite shiftr_6, shiftr_12, !land_63, lor_224, !lor_128 by nlia;
    (f_equal; [|f_equal; [|f_equal]]); apply byte_eq; subst r; nlia.
Qed.

Lemma encode4 (c0 c1 c2 c3 : ascii) (s0 s1 s2 s3 lo hi : N) :
  N_of_ascii c0 = s0 -> N_of_ascii c1 = s1 -> N_of_ascii c2 = s2 ->
  N_of_ascii c3 = s3 ->
  ((s0 = 240 /\ lo = 144 /\ hi = 191)
   \/ (241 <= s0 < 244 /\ lo = 128 /\ hi = 191)
   \/ (s0 = 244 /\ lo = 128 /\ hi = 143))%N ->
  (lo <= s1 <= hi)%N -> (128 <= s2 <= 191)%N -> (128 <= s3 <= 191)%N ->
  utf8.EncodeRune (rune4 s0 s1 s2 s3)
  = String c0 (String c1 (String c2 (String c3 EmptyString))).
Proof.
  intros E0 E1 E2 E3 H0 H1 H2 H3. unfold rune4. rewrite rune4_arith.
  set (r := (s0 mod 8 * 262144
             + (s1 mod 64 * 4096 + (s2 mod 64 * 64 + s3 mod 64)))%N).
  assert (Hr : (65536 <= r <= 1114111)%N) by (subst r; nlia).
  unfold utf8.EncodeRune.
  destruct (N.leb_spec r 127); [lia|].
  destruct (N.leb_spec r 2047); [lia|].
  destruct (N.ltb_spec 1114111 r); [lia|].
  destruct (N.leb_spec 55296 r), (N.leb_spec r 57343); try lia;
    cbn [andb orb];
    (destruct (N.leb_spec r 65535); [lia|]);
    rewrite shiftr_6, shiftr_12, shiftr_18, !land_63, lor_240, !lor_128 by nlia;
    (f_equal; [|f_equal; [|f_equal; [|f_equal]]]); apply byte_eq; subst r; nlia.
Qed.


Lemma range_test (x lo hi : N) :
  ((x <? lo) || (hi <? x))%N = false -> (lo <= x <= hi)%N.
Proof.
  intros H. apply orb_false_elim in H as [H1 H2].
  apply N.ltb_ge in H1, H2. lia.
Qed.

Lemma range_test_false (x lo hi : N) :
  (lo <= x <= hi)%N -> ((x <? lo) || (hi <? x))%N = false.
Proof.
  intros H. apply orb_false_intro; apply N.ltb_ge; lia.
Qed.

Lemma cont_range (x : N) : utf8.cont x = true -> (128 <= x <= 191)%N.
Proof.
  unfold utf8.cont. intros H. apply andb_prop in H as [H1 H2].
  apply N.leb_le in H1, H2. lia.
Qed.

Lemma cont_range_true (x : N) : (128 <= x <= 191)%N -> utf8.cont x = true.
Proof.
  intros H. unfold utf8.cont. apply andb_true_intro.
  split; apply N.leb_le; lia.
Qed.

Lemma decode2 (c0 c1 : ascii) (t : string) (lo hi : N) :
  (N_of_ascii c0 <? utf8.RuneSelf)%N = false ->
  utf8.first (N_of_ascii c0) = Some (2, (lo, hi)) ->
  (lo <= N_of_ascii c1 <= hi)%N ->
  utf8.DecodeRuneInString (String c0 (String c1 t))
  = (rune2 (N_of_ascii c0) (N_of_ascii c1), 2).
Proof.
  intros H0 F H1. unfold utf8.DecodeRuneInString.
  rewrite H0, F. cbn [String.length Nat.ltb Nat.leb].
  rewrite (range_test_false _ _ _ H1). reflexivity.
Qed.

Lemma decode3 (c0 c1 c2 : ascii) (t : string) (lo hi : N) :
  (N_of_ascii c0 <? utf8.RuneSelf)%N = false ->
  utf8.first (N_of_ascii c0) = Some (3, (lo, hi)) ->
  (lo <= N_of_ascii c1 <= hi)%N ->
  (128 <= N_of_ascii c2 <= 191)%N ->
  utf8.DecodeRuneInString (String c0 (String c1 (String c2 t)))
  = (rune3 (N_of_ascii c0) (N_of_ascii c1) (N_of_ascii c2), 3).
Proof.
  intros H0 F H1 H2. unfold utf8.DecodeRuneInString.
  rewrite H0, F. cbn [String.length Nat.ltb Nat.leb].
  rewrite (range_test_false _ _ _ H1), (cont_range_true _ H2). reflexivity.
Qed.

Lemma decode4 (c0 c1 c2 c3 : ascii) (t : string) (lo hi : N) :
  (N_of_ascii c0 <? utf8.RuneSelf)%N = false ->
  utf8.first (N_of_ascii c0) = Some (4, (lo, hi)) ->
  (lo <= N_of_ascii c1 <= hi)%N ->
  (128 <= N_of_ascii c2 <= 191)%N ->
  (128 <= N_of_ascii c3 <= 191)%N ->
  utf8.DecodeRuneInString (String c0 (String c1 (String c2 (String c3 t))))
  = (rune4 (N_of_ascii c0) (N_of_ascii c1) (N_of_ascii c2) (N_of_ascii c3), 4).
Proof.
  intros H0 F H1 H2 H3. unfold utf8.DecodeRuneInString.
  rewrite H0, F. cbn [String.length Nat.ltb Nat.leb].
  rewrite (range_test_false _ _ _ H1), (cont_range_true _ H2),
    (cont_range_true _ H3). reflexivity.
Qed.

Lemma decode_high (c0 : ascii) (t0 : string) (r : N) (size : nat) :
  (N_of_ascii c0 <? utf8.RuneSelf)%N = false ->
  utf8.DecodeRuneInString (String c0 t0) = (r, size) ->
  (r = utf8.RuneError /\ size = 1)
  \/ exists pre rest,
       String c0 t0 = pre +:+ rest /\ String.length pre = size
       /\ encodes pre r.
Proof.
  intros H0 D.
  assert (Hh0 : (128 <= N_of_ascii c0)%N) by (apply N.ltb_ge in H0; exact H0).
  unfold utf8.DecodeRuneInString in D. rewrite H0 in D.
  destruct (utf8.first (N_of_ascii c0)) as [[sz [lo hi]]|] eqn:F;
    [|left; inversion D; auto].
  destruct (String.length (String c0 t0) <? sz)%nat;
    [left; inversion D; auto|].
  destruct t0 as [|c1 t1]; [left; inversion D; auto|].
  destruct ((N_of_ascii c1 <? lo) || (hi <? N_of_ascii c1))%N eqn:R1;
    [left; inversion D; auto|].
  apply range_test in R1.
  destruct (first_inv _ _ _ _ F) as [(-> & B & -> & ->)|[(-> & B)|(-> & B)]].
  - cbn [Nat.leb] in D. inversion D; subst. right.
    exists (String c0 (String c1 EmptyString)), t1.
    split; [reflexivity|]. split; [reflexivity|].
    split; [cbn; lia|]. split.
    { cbn [allChars]. rewrite !highChar_N by lia. reflexivity. }
    split; [apply (encode2 c0 c1 _ _ eq_refl eq_refl); lia|].
    intros t. rewrite !sapp_cons, sapp_nil_l.
    apply (decode2 c0 c1 t 128 191); auto.
  - cbn [Nat.leb] in D.
    destruct t1 as [|c2 t2]; [left; inversion D; auto|].
    destruct (utf8.cont (N_of_ascii c2)) eqn:R2;
      [|left; inversion D; auto].
    apply cont_range in R2.
    cbn [negb] in D. inversion D; subst. right.
    exists (String c0 (String c1 (String c2 EmptyString))), t2.
    split; [reflexivity|]. split; [reflexivity|].
    split; [cbn; lia|]. split.
    { cbn [allChars]. rewrite !highChar_N by lia. reflexivity. }
    split; [apply (encode3 c0 c1 c2 _ _ _ lo hi eq_refl eq_refl eq_refl); auto|].
    intros t. rewrite !sapp_cons, sapp_nil_l.
    apply (decode3 c0 c1 c2 t lo hi); auto.
  - cbn [Nat.leb] in D.
    destruct t1 as [|c2 t2]; [left; inversion D; auto|].
    destruct (utf8.cont (N_of_ascii c2)) eqn:R2;
      [|left; inversion D; auto].
    apply cont_range in R2. cbn [negb] in D.
    destruct t2 as [|c3 t3]; [left; inversion D; auto|].
    destruct (utf8.cont (N_of_ascii c3)) eqn:R3;
      [|left; inversion D; auto].
    apply cont_range in R3. cbn [negb] in D.
    inversion D; subst. right.
    exists (String c0 (String c1 (String c2 (String c3 EmptyString)))), t3.
    split; [reflexivity|]. split; [reflexivity|].
    split; [cbn; lia|]. split.
    { cbn [allChars]. rewrite !highChar_N by lia. reflexivity. }
    split; [apply (encode4 c0 c1 c2 c3 _ _ _ _ lo hi eq_refl eq_refl eq_refl eq_refl); auto|].
    intros t. rewrite !sapp_cons, sapp_nil_l.
    apply (decode4 c0 c1 c2 c3 t lo hi); auto.
Qed.

(** ** Quoted strings are read back *)

Lemma appendString_loop_cons (fuel : nat) (c : ascii) (rest : string) :
  json.appendString_loop (S fuel) (String c rest)
  = if (N_of_ascii c <? utf8.RuneSelf)%N then
      if json.htmlSafe (N_of_ascii c)
      then String c (json.appendString_loop fuel rest)
      else json.escapeByte c +:+ json.appendString_loop fuel rest
    else
      let '(r, size) := utf8.DecodeRuneInString (String c rest) in
      if (r =? utf8.RuneError)%N && (size =? 1)%nat then
        String json.backslash "ufffd" +:+ json.appendString_loop fuel rest
      else if ((r =? 8232) || (r =? 8233))%N then
        String json.backslash
          ("u202" +:+ String (json.hexdigit (N.land r 15)) EmptyString)
        +:+ json.appendString_loop fuel (string_drop size (String c rest))
      else
        string_take size (String c rest)
        +:+ json.appendString_loop fuel (string_drop size (String c rest)).
Proof. reflexivity. Qed.

Ltac snorm := repeat first [rewrite sapp_cons | rewrite sapp_nil_l].

Lemma scanString_quote (rest : string) :
  scanner.scanString (String quote_char rest)
  = Some (String quote_char EmptyString, rest).
Proof. reflexivity. Qed.

Lemma land_15_lt (r : N) : (N.land r 15 < 16)%N.
Proof. rewrite land_15. apply N.mod_lt. discriminate. Qed.

(** The scanner reads the text [appendString] writes up to its closing
    quote, whatever the string. *)
Lemma scanString_appendString_loop (fuel : nat) (s rest : string) :
  scanner.scanString (json.appendString_loop fuel s +:+ String quote_char rest)
  = Some (json.appendString_loop fuel s +:+ String quote_char EmptyString, rest).
Proof.
  revert s. induction fuel as [|fuel IH]; intros s.
  - cbn [json.appendString_loop]. rewrite !sapp_nil_l. apply scanString_quote.
  - destruct s as [|c t].
    { cbn [json.appendString_loop]. rewrite !sapp_nil_l. apply scanString_quote. }
    rewrite appendString_loop_cons.
    destruct (N_of_ascii c <? utf8.RuneSelf)%N eqn:Hc.
    + destruct (json.htmlSafe (N_of_ascii c)) eqn:Hs.
      * rewrite !sapp_cons, scanString_plain by (apply htmlSafe_plain; exact Hs).
        rewrite IH. reflexivity.
      * rewrite !sapp_assoc, scanString_escapeByte by assumption.
        rewrite IH. reflexivity.
    + destruct (utf8.DecodeRuneInString (String c t)) as [r size] eqn:D.
      destruct (decode_high c t r size Hc D)
        as [[-> ->]|(pre & rest' & E & Hlen & Hpre)].
      * change ((utf8.RuneError =? utf8.RuneError)%N && (1 =? 1)%nat) with true.
        cbv iota. rewrite !sapp_cons, !sapp_nil_l.
        rewrite (scanString_u "f" "f" "f" "d") by reflexivity.
        rewrite IH. reflexivity.
      * destruct Hpre as (Hge & Hhigh & _ & _).
        replace (size =? 1)%nat with false
          by (symmetry; apply Nat.eqb_neq; lia).
        rewrite andb_false_r.
        rewrite E. rewrite <- Hlen, string_take_app, string_drop_app.
        destruct ((r =? 8232) || (r =? 8233))%N.
        -- snorm.
           rewrite (scanString_u "2" "0" "2" (json.hexdigit (N.land r 15)));
             [| reflexivity | reflexivity | reflexivity
              | apply isHex_hexdigit, land_15_lt].
           rewrite IH. reflexivity.
        -- rewrite !sapp_assoc.
           rewrite scanString_plain_prefix by (apply allChars_high_plain, Hhigh).
           rewrite IH. reflexivity.
Qed.

Lemma scanString_appendString (s rest : string) :
  exists body,
    json.appendString s = String quote_char body
    /\ scanner.scanString (body +:+ rest) = Some (body, rest).
Proof.
  exists (json.appendString_loop (String.length s) s +:+ String quote_char "").
  split; [reflexivity|].
  rewrite sapp_assoc, sapp_cons, sapp_nil_l.
  apply scanString_appendString_loop.
Qed.

(** ** The parser reads back the trees Marshal writes *)

Section ParseCompact.

Import scanner decode.

Lemma parseValue_array (fuel : nat) (d : N) (t : string) :
  mayPush d = true ->
  parseValue (S fuel) d (String "[" t)
  = match skipSpace t with
    | EmptyString => None
    | String c1 t1 =>
        if Ascii.eqb c1 "]" then Some (Array (consumed (String "[" t) t1) [], t1)
        else
          match parseElems fuel (d + 1) (String c1 t1) with
          | Some (vs, r) => Some (Array (consumed (String "[" t) r) vs, r)
          | None => None
          end
    end.
Proof.
  intros H. cbn [parseValue]. change (Ascii.eqb "[" "{") with false.
  change (Ascii.eqb "[" "[") with true. cbv iota. rewrite H. reflexivity.
Qed.

Lemma parseValue_object (fuel : nat) (d : N) (t : string) :
  mayPush d = true ->
  parseValue (S fuel) d (String "{" t)
  = match skipSpace t with
    | EmptyString => None
    | String c1 t1 =>
        if Ascii.eqb c1 "}" then Some (Object (consumed (String "{" t) t1) [], t1)
        else
          match parseMembers fuel (d + 1) (String c1 t1) with
          | Some (ms, r) => Some (Object (consumed (String "{" t) r) ms, r)
          | None => None
          end
    end.
Proof.
  intros H. cbn [parseValue]. change (Ascii.eqb "{" "{") with true.
  cbv iota. rewrite H. reflexivity.
Qed.

Lemma parseValue_string (fuel : nat) (d : N) (t : string) :
  parseValue (S fuel) d (String quote_char t)
  = match scanString t with
    | Some (l, r) => Some (Literal (String quote_char l), r)
    | None => None
    end.
Proof. reflexivity. Qed.

Lemma parseValue_null (fuel : nat) (d : N) (rest : string) :
  parseValue (S fuel) d ("null" +:+ rest) = Some (Literal "null", rest).
Proof.
  snorm. cbn. destruct rest; reflexivity.
Qed.

(** A value that fits under the bound lets its array or object be
    opened, and its elements fit one level further in. *)
Lemma fold_max_le (b : N) (l : list N) :
  (fold_right N.max 0%N l <= b)%N -> Forall (fun n => (n <= b)%N) l.
Proof.
  induction l as [|n l IH]; [constructor|].
  cbn [fold_right]. intros H. constructor; [lia|]. apply IH. lia.
Qed.

Lemma nesting_Array (d : N) (raw : string) (es : list value) :
  (d + nesting (Array raw es) <= maxNestingDepth)%N ->
  mayPush d = true
  /\ Forall (fun e => (d + 1 + nesting e <= maxNestingDepth)%N) es.
Proof.
  cbn [nesting]. intros H. split; [apply N.leb_le; lia|].
  assert (Hl : Forall (fun n => (n <= maxNestingDepth - d - 1)%N)
                 (map nesting es)) by (apply fold_max_le; lia).
  rewrite List.Forall_map in Hl. revert Hl. apply List.Forall_impl.
  intros e He. lia.
Qed.

Lemma nesting_Object (d : N) (raw : string) (ms : list (string * value)) :
  (d + nesting (Object raw ms) <= maxNestingDepth)%N ->
  mayPush d = true
  /\ Forall (fun m : string * value =>
               (d + 1 + nesting (snd m) <= maxNestingDepth)%N) ms.
Proof.
  cbn [nesting]. intros H. split; [apply N.leb_le; lia|].
  assert (Hl : Forall (fun n => (n <= maxNestingDepth - d - 1)%N)
                 (map (fun m : string * value => nesting (snd m)) ms))
    by (apply fold_max_le; lia).
  rewrite List.Forall_map in Hl. revert Hl. apply List.Forall_impl.
  intros e He. lia.
Qed.

Lemma parseElems_S (fuel : nat) (d : N) (s : string) :
  parseElems (S fuel) d s
  = match parseValue fuel d s with
    | None => None
    | Some (v, r) =>
        match skipSpace r with
        | EmptyString => None
        | String c t =>
            if Ascii.eqb c "," then
              match parseElems fuel d (skipSpace t) with
              | Some (vs, r') => Some (v :: vs, r')
              | None => None
              end
            else if Ascii.eqb c "]" then Some ([v], t)
            else None
        end
    end.
Proof. reflexivity. Qed.

Lemma parseMembers_S (fuel : nat) (d : N) (t : string) :
  parseMembers (S fuel) d (String quote_char t)
  = match scanString t with
    | None => None
    | Some (k, r) =>
        match skipSpace r with
        | EmptyString => None
        | String c r1 =>
            if Ascii.eqb c ":" then
              match parseValue fuel d (skipSpace r1) with
              | None => None
              | Some (v, r2) =>
                  match skipSpace r2 with
                  | EmptyString => None
                  | String c2 r3 =>
                      if Ascii.eqb c2 "," then
                        match parseMembers fuel d (skipSpace r3) with
                        | Some (ms, r') =>
                            Some ((String quote_char k, v) :: ms, r')
                        | None => None
                        end
                      else if Ascii.eqb c2 "}" then
                        Some ([(String quote_char k, v)], r3)
                      else None
                  end
              end
            else None
        end
    end.
Proof. reflexivity. Qed.

(** The text of a value starts with no space and closes no bracket. *)
Lemma startsValue_head (s : string) :
  startsValue s = true ->
  exists c t,
    s = String c t /\ skipSpace s = s
    /\ Ascii.eqb c "]" = false /\ Ascii.eqb c "}" = false.
Proof.
  destruct s as [|c t]; [discriminate|]. cbn [startsValue].
  intros H. exists c, t. split; [reflexivity|].
  cbn [skipSpace]. unfold isSpace.
  rewrite !ascii_eqb_N in *.
  change (N_of_ascii "n") with 110%N in H.
  change (N_of_ascii quote_char) with 34%N in H.
  change (N_of_ascii "[") with 91%N in H.
  change (N_of_ascii "{") with 123%N in H.
  change (N_of_ascii "]") with 93%N.
  change (N_of_ascii "}") with 125%N.
  revert H. generalize (N_of_ascii c). intros b H.
  assert (Hb : (b = 110 \/ b = 34 \/ b = 91 \/ b = 123)%N).
  { repeat (apply orb_prop in H as [H|H]); apply N.eqb_eq in H; lia. }
  repeat split.
  - replace ((b =? 32) || (b =? 9) || (b =? 13) || (b =? 10))%N with false;
      [reflexivity|].
    symmetry. repeat (apply orb_false_intro); apply N.eqb_neq; lia.
  - apply N.eqb_neq; lia.
  - apply N.eqb_neq; lia.
Qed.

Lemma startsValue_sapp (s t : string) :
  startsValue s = true -> startsValue (s +:+ t) = true.
Proof. destruct s; [discriminate|]. intros H. exact H. Qed.

Lemma compact_startsValue (v : value) :
  compact v -> startsValue (rawOf v) = true.
Proof. intros []; reflexivity. Qed.

Lemma join_cons2 (x y : string) (l : list string) :
  json.join "," (x :: y :: l) = x +:+ "," +:+ json.join "," (y :: l).
Proof. reflexivity. Qed.

Lemma join_length_le (x : string) (l : list string) :
  String.length x <= String.length (json.join "," (x :: l)).
Proof.
  destruct l; [cbn; lia|]. rewrite join_cons2, slength_app. lia.
Qed.

Lemma elemsText_starts (e : value) (es : list value) :
  compact e -> startsValue (elemsText (e :: es)) = true.
Proof.
  intros He. unfold elemsText. cbn [map]. destruct (map rawOf es).
  - apply compact_startsValue, He.
  - rewrite join_cons2. apply startsValue_sapp, compact_startsValue, He.
Qed.

Lemma consumed_bracket (o : ascii) (body c rest : string) :
  consumed (String o (body +:+ c +:+ rest)) rest
  = String o EmptyString +:+ body +:+ c.
Proof.
  replace (String o (body +:+ c +:+ rest))
    with ((String o EmptyString +:+ body +:+ c) +:+ rest)
    by (rewrite !sapp_assoc; reflexivity).
  apply consumed_app.
Qed.

Lemma parse_compact (fuel : nat) :
  (forall v rest d,
      compact v -> String.length (rawOf v) < fuel ->
      (d + nesting v <= maxNestingDepth)%N ->
      parseValue fuel d (rawOf v +:+ rest) = Some (v, rest))
  /\ (forall es rest d,
         es <> [] -> Forall compact es ->
         String.length (elemsText es) + 1 < fuel ->
         Forall (fun e => (d + nesting e <= maxNestingDepth)%N) es ->
         parseElems fuel d (elemsText es +:+ "]" +:+ rest) = Some (es, rest))
  /\ (forall ms rest d,
         ms <> [] -> Forall compactMember ms ->
         String.length (membersText ms) + 1 < fuel ->
         Forall (fun m : string * value =>
                   (d + nesting (snd m) <= maxNestingDepth)%N) ms ->
         parseMembers fuel d (membersText ms +:+ "}" +:+ rest)
         = Some (ms, rest)).
Proof.
  induction fuel as [|fuel (IHv & IHe & IHm)].
  { repeat split; intros; lia. }
  split; [|split].
  - intros v rest d Hv Hlen Hd. destruct Hv as [|s|es Hes|ms Hms].
    + apply parseValue_null.
    + cbn [rawOf tree.str].
      destruct (scanString_appendString s rest) as (body & E & Hscan).
      unfold tree.str. rewrite E.
      rewrite sapp_cons, parseValue_string, Hscan. reflexivity.
    + cbn [rawOf tree.mkArray] in *. unfold tree.arrayText in *.
      fold (elemsText es) in *. rewrite !sapp_assoc. rewrite sapp_cons, sapp_nil_l.
      destruct (nesting_Array _ _ _ Hd) as [Hpush Hin].
      rewrite (parseValue_array _ _ _ Hpush).
      destruct es as [|e es].
      * unfold elemsText. cbn [map json.join String.concat]. snorm.
        cbn [skipSpace]. change (isSpace "]") with false.
        change (Ascii.eqb "]" "]") with true. cbv iota.
        change (String "[" (String "]" rest)) with ("[]" +:+ rest).
        rewrite consumed_app. reflexivity.
      * inversion Hes as [|? ? He Hes']; subst.
        destruct (startsValue_head (elemsText (e :: es) +:+ "]" +:+ rest))
          as (c1 & t1 & E & Hskip & Hc1 & _).
        { apply startsValue_sapp, elemsText_starts, He. }
        rewrite Hskip, E, Hc1, <- E.
        rewrite IHe; [|discriminate|exact Hes| |exact Hin].
        -- rewrite consumed_bracket. reflexivity.
        -- rewrite !slength_app in Hlen. cbn [String.length] in Hlen. lia.
    + cbn [rawOf tree.mkObject] in *. unfold tree.objectText in *.
      fold (membersText ms) in *. rewrite !sapp_assoc. rewrite sapp_cons, sapp_nil_l.
      destruct (nesting_Object _ _ _ Hd) as [Hpush Hin].
      rewrite (parseValue_object _ _ _ Hpush).
      destruct ms as [|m ms].
      * unfold membersText. cbn [map json.join String.concat]. snorm.
        cbn [skipSpace]. change (isSpace "}") with false.
        change (Ascii.eqb "}" "}") with true. cbv iota.
        change (String "{" (String "}" rest)) with ("{}" +:+ rest).
        rewrite consumed_app. reflexivity.
      * inversion Hms as [|? ? Hm Hms']; subst.
        destruct (startsValue_head (membersText (m :: ms) +:+ "}" +:+ rest))
          as (c1 & t1 & E & Hskip & _ & Hc1).
        { apply startsValue_sapp. unfold membersText. cbn [map].
          destruct Hm as [[k Hk] _]. destruct m as [key val]. cbn in Hk. subst key.
          destruct (map tree.memberText ms); [reflexivity|].
          rewrite join_cons2. reflexivity. }
        rewrite Hskip, E, Hc1, <- E.
        rewrite IHm; [|discriminate|exact Hms| |exact Hin].
        -- rewrite consumed_bracket. reflexivity.
        -- rewrite !slength_app in Hlen. cbn [String.length] in Hlen. lia.
  - intros es rest d Hne Hes Hlen Hd.
    destruct es as [|e es]; [congruence|].
    inversion Hes as [|? ? He Hes']; subst.
    inversion Hd as [|? ? Hde Hd']; subst.
    rewrite parseElems_S.
    destruct es as [|e2 es].
    + unfold elemsText in *. cbn [map json.join String.concat] in *.
      rewrite IHv; [|exact He|lia|exact Hde].
      snorm. cbn [skipSpace]. reflexivity.
    + unfold elemsText in Hlen |- *. cbn [map] in Hlen |- *.
      rewrite join_cons2 in Hlen |- *. rewrite !sapp_assoc.
      rewrite !slength_app in Hlen. cbn [String.length] in Hlen.
      rewrite IHv; [|exact He|lia|exact Hde].
      snorm. cbn [skipSpace].
      change (isSpace ",") with false. change (Ascii.eqb "," ",") with true.
      cbv iota.
      inversion Hes' as [|? ? He2 _]; subst.
      destruct (startsValue_head
                  (json.join "," (rawOf e2 :: map rawOf es) +:+ String "]" rest))
        as (c1 & t1 & E & Hskip & _ & _).
      { apply startsValue_sapp. apply (elemsText_starts e2 es He2). }
      rewrite Hskip.
      change (String "]" rest) with ("]" +:+ rest).
      change (json.join "," (rawOf e2 :: map rawOf es))
        with (elemsText (e2 :: es)).
      rewrite IHe; [reflexivity|discriminate|exact Hes'| |exact Hd'].
      unfold elemsText. cbn [map]. lia.
  - intros ms rest d Hne Hms Hlen Hd.
    destruct ms as [|m ms]; [congruence|].
    inversion Hms as [|? ? Hm Hms']; subst.
    inversion Hd as [|? ? Hde Hd']; subst.
    destruct m as [key val]. destruct Hm as [[k Hk] Hval]. cbn in Hk, Hval.
    subst key.
    assert (Hstep : forall tail,
               String.length (rawOf val) < fuel ->
               exists body,
                 json.appendString k = String quote_char body
                 /\ scanString (body +:+ ":" +:+ rawOf val +:+ tail)
                    = Some (body, ":" +:+ rawOf val +:+ tail)).
    { intros tail _.
      destruct (scanString_appendString k (":" +:+ rawOf val +:+ tail))
        as (body & E & Hscan).
      exists body. split; assumption. }
    destruct ms as [|m2 ms].
    + unfold membersText in *. cbn [map json.join String.concat] in *.
      unfold tree.memberText in *. cbn [fst snd] in *.
      rewrite !slength_app in Hlen. cbn [String.length] in Hlen.
      destruct (Hstep ("}" +:+ rest)) as (body & E & Hscan); [lia|].
      rewrite E in *. rewrite !sapp_assoc, sapp_cons.
      rewrite parseMembers_S, Hscan.
      snorm. cbn [skipSpace].
      change (isSpace ":") with false. change (Ascii.eqb ":" ":") with true.
      cbv iota.
      destruct (startsValue_head (rawOf val +:+ String "}" rest))
        as (c1 & t1 & Ev & Hskip & _ & _).
      { apply startsValue_sapp, compact_startsValue, Hval. }
      rewrite Hskip.
      rewrite IHv; [|exact Hval|lia|exact Hde].
      cbn [skipSpace]. reflexivity.
    + unfold membersText in Hlen |- *. cbn [map] in Hlen |- *.
      rewrite join_cons2 in Hlen |- *.
      unfold tree.memberText at 1 in Hlen. unfold tree.memberText at 1.
      cbn [fst snd] in Hlen |- *.
      rewrite !slength_app in Hlen. cbn [String.length] in Hlen.
      set (M := json.join "," (tree.memberText m2 :: map tree.memberText ms)) in *.
      destruct (Hstep ("," +:+ M +:+ "}" +:+ rest)) as (body & E & Hscan); [lia|].
      rewrite E in *. rewrite !sapp_assoc, sapp_cons.
      rewrite parseMembers_S, Hscan.
      snorm. cbn [skipSpace].
      change (isSpace ":") with false. change (Ascii.eqb ":" ":") with true.
      cbv iota.
      destruct (startsValue_head
                  (rawOf val +:+ String "," (M +:+ String "}" rest)))
        as (c1 & t1 & Ev & Hskip & _ & _).
      { apply startsValue_sapp, compact_startsValue, Hval. }
      rewrite Hskip.
      rewrite IHv; [|exact Hval|lia|exact Hde].
      cbn [skipSpace].
      change (isSpace ",") with false. change (Ascii.eqb "," ",") with true.
      cbv iota.
      inversion Hms' as [|? ? Hm2 _]; subst.
      assert (HM : startsValue (M +:+ String "}" rest) = true).
      { apply startsValue_sapp. subst M.
        destruct Hm2 as [[k2 Hk2] _]. destruct m2 as [key2 val2].
        cbn in Hk2. subst key2.
        destruct (map tree.memberText ms); [reflexivity|].
        rewrite join_cons2. reflexivity. }
      destruct (startsValue_head _ HM) as (c2 & t2 & EM & HskipM & _ & _).
      rewrite HskipM.
      change (String "}" rest) with ("}" +:+ rest).
      change M with (membersText (m2 :: ms)).
      rewrite IHm; [reflexivity|discriminate|exact Hms'| |exact Hd'].
      unfold membersText. cbn [map]. fold M. lia.
Qed.

(** What the parser accepts is nowhere deeper than [maxNestingDepth]. *)
Lemma fold_max_Forall (b : N) (l : list N) :
  Forall (fun n => (n <= b)%N) l -> (fold_right N.max 0%N l <= b)%N.
Proof.
  induction 1 as [|n l Hn _ IH]; cbn [fold_right]; lia.
Qed.

Lemma parse_nesting (fuel : nat) :
  (forall d s v r,
      (d <= maxNestingDepth)%N -> parseValue fuel d s = Some (v, r) ->
      (d + nesting v <= maxNestingDepth)%N)
  /\ (forall d s vs r,
         (d <= maxNestingDepth)%N -> parseElems fuel d s = Some (vs, r) ->
         Forall (fun e => (d + nesting e <= maxNestingDepth)%N) vs)
  /\ (forall d s ms r,
         (d <= maxNestingDepth)%N -> parseMembers fuel d s = Some (ms, r) ->
         Forall (fun m : string * value =>
                   (d + nesting (snd m) <= maxNestingDepth)%N) ms).
Proof.
  induction fuel as [|fuel (IHv & IHe & IHm)].
  { repeat split; intros; discriminate. }
  assert (Hin : forall (d : N) (l : list N),
             (d + 1 <= maxNestingDepth)%N ->
             Forall (fun n => (d + 1 + n <= maxNestingDepth)%N) l ->
             (d + (1 + fold_right N.max 0%N l) <= maxNestingDepth)%N).
  { intros d l Hd Hl.
    assert (fold_right N.max 0%N l <= maxNestingDepth - d - 1)%N; [|lia].
    apply fold_max_Forall. revert Hl. apply List.Forall_impl. intros; lia. }
  split; [|split].
  - intros d s v r Hd H. cbn [parseValue] in H.
    destruct s as [|c t]; [discriminate H|].
    destruct (Ascii.eqb c "{").
    { destruct (mayPush d) eqn:Hp; [|discriminate H].
      apply N.leb_le in Hp.
      destruct (skipSpace t) as [|c1 t1]; [discriminate H|].
      destruct (Ascii.eqb c1 "}").
      { injection H as <- _. cbn. lia. }
      destruct (parseMembers fuel (d + 1) (String c1 t1)) as [[ms r']|] eqn:E;
        [|discriminate H].
      injection H as <- _. cbn [nesting]. apply Hin; [exact Hp|].
      rewrite List.Forall_map. apply (IHm _ _ _ _ Hp E). }
    destruct (Ascii.eqb c "[").
    { destruct (mayPush d) eqn:Hp; [|discriminate H].
      apply N.leb_le in Hp.
      destruct (skipSpace t) as [|c1 t1]; [discriminate H|].
      destruct (Ascii.eqb c1 "]").
      { injection H as <- _. cbn. lia. }
      destruct (parseElems fuel (d + 1) (String c1 t1)) as [[vs r']|] eqn:E;
        [|discriminate H].
      injection H as <- _. cbn [nesting]. apply Hin; [exact Hp|].
      rewrite List.Forall_map. apply (IHe _ _ _ _ Hp E). }
    destruct (Ascii.eqb c quote_char).
    { destruct (scanString t) as [[l r']|]; [|discriminate H].
      injection H as <- _. cbn. lia. }
    match type of H with
    | match ?x with _ => _ end = _ => destruct x as [[l r']|]
    end; [|discriminate H].
    injection H as <- _. cbn. lia.
  - intros d s vs r Hd H. rewrite parseElems_S in H.
    destruct (parseValue fuel d s) as [[v r1]|] eqn:Ev; [|discriminate H].
    pose proof (IHv _ _ _ _ Hd Ev) as Hv.
    destruct (skipSpace r1) as [|c t]; [discriminate H|].
    destruct (Ascii.eqb c ",").
    { destruct (parseElems fuel d (skipSpace t)) as [[vs' r']|] eqn:E;
        [|discriminate H].
      injection H as <- _. constructor; [exact Hv | apply (IHe _ _ _ _ Hd E)]. }
    destruct (Ascii.eqb c "]"); [|discriminate H].
    injection H as <- _. constructor; [exact Hv | constructor].
  - intros d s ms r Hd H. cbn [parseMembers] in H.
    destruct s as [|q t]; [discriminate H|].
    destruct (Ascii.eqb q quote_char); [|discriminate H].
    destruct (scanString t) as [[k r0]|]; [|discriminate H].
    destruct (skipSpace r0) as [|c r1]; [discriminate H|].
    destruct (Ascii.eqb c ":"); [|discriminate H].
    destruct (parseValue fuel d (skipSpace r1)) as [[v r2]|] eqn:Ev;
      [|discriminate H].
    pose proof (IHv _ _ _ _ Hd Ev) as Hv.
    destruct (skipSpace r2) as [|c2 r3]; [discriminate H|].
    destruct (Ascii.eqb c2 ",").
    { destruct (parseMembers fuel d (skipSpace r3)) as [[ms' r']|] eqn:E;
        [|discriminate H].
      injection H as <- _. constructor; [exact Hv | apply (IHm _ _ _ _ Hd E)]. }
    destruct (Ascii.eqb c2 "}"); [|discriminate H].
    injection H as <- _. constructor; [exact Hv | constructor].
Qed.

End ParseCompact.

(** [scanner.parse] refuses what is nested deeper than
    [maxNestingDepth]. *)
Lemma parse_bounded (data : string) (v : value) :
  scanner.parse data = Some v -> (nesting v <= scanner.maxNestingDepth)%N.
Proof.
  unfold scanner.parse. intros H.
  destruct (scanner.parseValue (S (String.length data)) 0
              (scanner.skipSpace data)) as [[v' r]|] eqn:E; [|discriminate H].
  destruct (scanner.skipSpace r); [|discriminate H]. injection H as <-.
  destruct (parse_nesting (S (String.length data))) as [Hv _].
  apply (Hv 0%N _ _ _ (ltac:(unfold scanner.maxNestingDepth; lia)) E).
Qed.

(** ** The trees of policies are compact, and are read back *)

Lemma parse_compact_value (v : value) :
  compact v -> (nesting v <= scanner.maxNestingDepth)%N ->
  scanner.parse (decode.rawOf v) = Some v.
Proof.
  intros Hv Hd. unfold scanner.parse.
  destruct (startsValue_head _ (compact_startsValue v Hv))
    as (c & t & E & Hskip & _ & _).
  rewrite Hskip.
  rewrite <- (sapp_nil_r (decode.rawOf v)) at 2.
  destruct (parse_compact (S (String.length (decode.rawOf v)))) as [Hp _].
  rewrite Hp; [reflexivity | exact Hv | lia | lia].
Qed.

Lemma compact_ofPtr {A : Type} (f : A -> value) (p : option A) :
  (forall x, compact (f x)) -> compact (tree.ofPtr f p).
Proof. intros Hf. destruct p; [apply Hf | constructor]. Qed.

Lemma compact_ofSlice {A : Type} (f : A -> value) (s : option (list A)) :
  (forall x, compact (f x)) -> compact (tree.ofSlice f s).
Proof.
  intros Hf. destruct s as [l|]; [|constructor].
  apply compact_array. apply Forall_forall. intros v Hv.
  apply list_elem_of_In, in_map_iff in Hv as (x & <- & _). apply Hf.
Qed.

Lemma compact_ofMap {V : Type} (f : V -> value) (m : option (gmap string V)) :
  (forall x, compact (f x)) -> compact (tree.ofMap f m).
Proof.
  intros Hf. destruct m as [g|]; [|constructor].
  apply compact_object. apply Forall_forall. intros kv Hkv.
  apply list_elem_of_In, in_map_iff in Hkv as (x & <- & _).
  split; [eexists; reflexivity | apply Hf].
Qed.

Lemma compact_ofStrings (l : option (list string)) : compact (tree.ofStrings l).
Proof. apply compact_ofSlice. intros s. constructor. Qed.

Lemma compactMember_member (name : string) (omitted : bool) (v : value)
    (m : string * value) :
  lit name = json.appendString name -> compact v ->
  tree.member name omitted v = Some m -> compactMember m.
Proof.
  intros Hname Hv. unfold tree.member. destruct omitted; [discriminate|].
  intros [= <-]. split; [exists name; exact Hname | exact Hv].
Qed.

Lemma compact_fields (fields : list (option (string * value))) :
  Forall (fun o => forall m, o = Some m -> compactMember m) fields ->
  compact (tree.mkObject (omap id fields)).
Proof.
  intros H. apply compact_object.
  induction H as [|o fields Ho _ IH]; [constructor|].
  cbn [omap]. destruct o as [m|]; cbn; [constructor; [apply Ho; reflexivity|]|];
    exact IH.
Qed.

Ltac compact_members :=
  repeat first
    [ apply List.Forall_nil
    | apply List.Forall_cons;
      [intros m; apply compactMember_member; [reflexivity|]|] ].

Lemma compact_ofPrincipal (p : Principal) : compact (tree.ofPrincipal p).
Proof.
  apply compact_fields. compact_members. apply compact_ofStrings.
Qed.

Lemma compact_ofCondition (c : ConditionMap) : compact (tree.ofCondition c).
Proof.
  apply compact_ofMap. intros m. apply compact_ofMap, compact_ofStrings.
Qed.

Lemma compact_ofEffect (e : Effect) : compact (tree.ofEffect e).
Proof.
  destruct e; [apply (compact_str "Allow") | apply (compact_str "Deny")].
Qed.

Lemma compact_ofStatement (s : Statement) : compact (tree.ofStatement s).
Proof.
  apply compact_fields. compact_members.
  - apply compact_ofPtr. intros x. constructor.
  - apply compact_ofEffect.
  - apply compact_ofPtr, compact_ofPrincipal.
  - apply compact_ofPtr, compact_ofPrincipal.
  - apply compact_ofStrings.
  - apply compact_ofStrings.
  - constructor.
  - apply compact_ofCondition.
Qed.

Lemma compact_ofPolicy (p : Policy) : compact (tree.ofPolicy p).
Proof.
  apply compact_fields. compact_members.
  - apply (compact_str "2012-10-17").
  - apply compact_ofPtr. intros x. constructor.
  - apply compact_ofSlice. intros s. apply compact_ofPtr, compact_ofStatement.
Qed.

(** The tree of a policy is six objects and arrays deep at most: the
    policy, its statements, a statement, its conditions, the conditions of
    an operator, the values of a variable. *)
Lemma nesting_ofPtr {A : Type} (f : A -> value) (p : option A) (n : N) :
  (forall x, (nesting (f x) <= n)%N) -> (nesting (tree.ofPtr f p) <= n)%N.
Proof. intros Hf. destruct p; [apply Hf | cbn; lia]. Qed.

Lemma nesting_ofSlice {A : Type} (f : A -> value) (s : option (list A))
    (n : N) :
  (forall x, (nesting (f x) <= n)%N) ->
  (nesting (tree.ofSlice f s) <= 1 + n)%N.
Proof.
  intros Hf. destruct s as [l|]; [|cbn; lia].
  cbn [tree.ofSlice tree.mkArray nesting].
  apply N.add_le_mono_l, fold_max_Forall.
  rewrite !List.Forall_map. apply List.Forall_forall. intros x _. apply Hf.
Qed.

Lemma nesting_ofMap {V : Type} (f : V -> value) (m : option (gmap string V))
    (n : N) :
  (forall x, (nesting (f x) <= n)%N) ->
  (nesting (tree.ofMap f m) <= 1 + n)%N.
Proof.
  intros Hf. destruct m as [g|]; [|cbn; lia].
  cbn [tree.ofMap tree.mkObject nesting].
  apply N.add_le_mono_l, fold_max_Forall.
  rewrite !List.Forall_map. apply List.Forall_forall. intros x _. apply Hf.
Qed.

Lemma nesting_fields (fields : list (option (string * value))) (n : N) :
  Forall (fun o => forall m, o = Some m -> (nesting (snd m) <= n)%N) fields ->
  (nesting (tree.mkObject (omap id fields)) <= 1 + n)%N.
Proof.
  intros H. cbn [tree.mkObject nesting].
  apply N.add_le_mono_l, fold_max_Forall. rewrite List.Forall_map.
  induction H as [|o fields Ho _ IH]; [constructor|].
  cbn [omap]. destruct o as [m|]; cbn;
    [constructor; [apply Ho; reflexivity|]|]; exact IH.
Qed.

Lemma nesting_member (name : string) (omitted : bool) (v : value)
    (m : string * value) (n : N) :
  (nesting v <= n)%N ->
  tree.member name omitted v = Some m -> (nesting (snd m) <= n)%N.
Proof.
  intros Hv. unfold tree.member. destruct omitted; [discriminate|].
  intros [= <-]. exact Hv.
Qed.

Ltac nesting_members :=
  repeat first
    [ apply List.Forall_nil
    | apply List.Forall_cons; [intros m; apply nesting_member|] ].

Lemma nesting_ofStrings (l : option (list string)) :
  (nesting (tree.ofStrings l) <= 1)%N.
Proof. apply (nesting_ofSlice tree.str l 0). intros x. cbn. lia. Qed.

Lemma nesting_ofPrincipal (p : Principal) :
  (nesting (tree.ofPrincipal p) <= 2)%N.
Proof.
  apply (nesting_fields _ 1). nesting_members. apply nesting_ofStrings.
Qed.

Lemma nesting_ofCondition (c : ConditionMap) :
  (nesting (tree.ofCondition c) <= 3)%N.
Proof.
  apply (nesting_ofMap _ c 2). intros m.
  apply (nesting_ofMap _ m 1), nesting_ofStrings.
Qed.

Lemma nesting_ofStatement (s : Statement) :
  (nesting (tree.ofStatement s) <= 4)%N.
Proof.
  apply (nesting_fields _ 3). nesting_members.
  - apply nesting_ofPtr. intros x. cbn. lia.
  - cbn. lia.
  - apply nesting_ofPtr. intros x. pose proof (nesting_ofPrincipal x). lia.
  - apply nesting_ofPtr. intros x. pose proof (nesting_ofPrincipal x). lia.
  - pose proof (nesting_ofStrings (stAction s)). lia.
  - pose proof (nesting_ofStrings (stNotAction s)). lia.
  - cbn. lia.
  - apply nesting_ofCondition.
Qed.

Lemma nesting_ofPolicy (p : Policy) : (nesting (tree.ofPolicy p) <= 6)%N.
Proof.
  apply (nesting_fields _ 5). nesting_members.
  - cbn. lia.
  - apply nesting_ofPtr. intros x. cbn. lia.
  - apply (nesting_ofSlice _ _ 4). intros s.
    apply nesting_ofPtr, nesting_ofStatement.
Qed.

Lemma parse_ofPolicy (p : Policy) :
  scanner.parse (decode.rawOf (tree.ofPolicy p)) = Some (tree.ofPolicy p).
Proof.
  apply parse_compact_value; [apply compact_ofPolicy|].
  pose proof (nesting_ofPolicy p). unfold scanner.maxNestingDepth. lia.
Qed.

(** [Get] returns, for every policy, a text that [scanner.parse] reads as
    the tree of the policy. *)
Lemma Get_parse (p : Policy) :
  exists b, Get p = Ok b /\ scanner.parse b = Some (tree.ofPolicy p).
Proof.
  exists (decode.rawOf (tree.ofPolicy p)).
  split; [apply Get_tree | apply parse_ofPolicy].
Qed.

(** ** Valid strings are unquoted to themselves *)

Section Unquote.

Import decode.

Lemma unquote_loop_nil (fuel : nat) : unquote_loop fuel "" = Some "".
Proof. destruct fuel; reflexivity. Qed.

(** An ordinary ASCII character is copied. *)
Lemma unquote_loop_ascii (fuel : nat) (c : ascii) (t : string) :
  plainChar c = true -> (N_of_ascii c <? utf8.RuneSelf)%N = true ->
  unquote_loop (S fuel) (String c t)
  = option_map (String c) (unquote_loop fuel t).
Proof.
  unfold plainChar. intros H Hc.
  apply andb_prop in H as [H H3]. apply andb_prop in H as [H1 H2].
  apply negb_true_iff in H1, H2, H3.
  cbn [unquote_loop]. rewrite H2, H1, H3. cbn [orb]. rewrite Hc. reflexivity.
Qed.

(** A sequence outside ASCII is decoded and encoded again. *)
Lemma unquote_loop_high (fuel : nat) (c : ascii) (t : string) :
  (N_of_ascii c <? utf8.RuneSelf)%N = false ->
  unquote_loop (S fuel) (String c t)
  = let '(rr, size) := utf8.DecodeRuneInString (String c t) in
    option_map (String.append (utf8.EncodeRune rr))
      (unquote_loop fuel (string_drop size (String c t))).
Proof.
  intros Hc.
  assert (Hp : plainChar c = true)
    by (apply highChar_plain, highChar_N; apply N.ltb_ge; exact Hc).
  unfold plainChar in Hp.
  apply andb_prop in Hp as [H H3]. apply andb_prop in H as [H1 H2].
  apply negb_true_iff in H1, H2, H3.
  cbn [unquote_loop]. rewrite H2, H1, H3. cbn [orb]. rewrite Hc. reflexivity.
Qed.

(** A two-character escape. *)
Lemma unquote_loop_escape (fuel : nat) (e x : ascii) (t : string) :
  (if Ascii.eqb e quote_char || Ascii.eqb e json.backslash
      || Ascii.eqb e "/" || Ascii.eqb e "'" then Some e
   else if Ascii.eqb e "b" then Some (ascii_of_N 8)
   else if Ascii.eqb e "f" then Some (ascii_of_N 12)
   else if Ascii.eqb e "n" then Some (ascii_of_N 10)
   else if Ascii.eqb e "r" then Some (ascii_of_N 13)
   else if Ascii.eqb e "t" then Some (ascii_of_N 9)
   else None) = Some x ->
  unquote_loop (S fuel) (String json.backslash (String e t))
  = option_map (String x) (unquote_loop fuel t).
Proof.
  intros H. cbn [unquote_loop].
  change (Ascii.eqb json.backslash json.backslash) with true. cbv iota.
  destruct (Ascii.eqb e quote_char || Ascii.eqb e json.backslash
            || Ascii.eqb e "/" || Ascii.eqb e "'");
    [inversion H; reflexivity|].
  destruct (Ascii.eqb e "b"); [inversion H; reflexivity|].
  destruct (Ascii.eqb e "f"); [inversion H; reflexivity|].
  destruct (Ascii.eqb e "n"); [inversion H; reflexivity|].
  destruct (Ascii.eqb e "r"); [inversion H; reflexivity|].
  destruct (Ascii.eqb e "t"); [inversion H; reflexivity|].
  discriminate H.
Qed.

(** An escape of four hexadecimal digits that is no surrogate. *)
Lemma unquote_loop_u (fuel : nat) (h1 h2 h3 h4 : ascii) (t : string) (rr : N) :
  getu4 (String json.backslash
           (String "u" (String h1 (String h2 (String h3 (String h4 t))))))
  = Some rr ->
  utf16.IsSurrogate rr = false ->
  unquote_loop (S fuel)
    (String json.backslash
       (String "u" (String h1 (String h2 (String h3 (String h4 t))))))
  = option_map (String.append (utf8.EncodeRune rr)) (unquote_loop fuel t).
Proof.
  intros G S. cbn [unquote_loop].
  change (Ascii.eqb json.backslash json.backslash) with true. cbv iota.
  change (Ascii.eqb "u" quote_char || Ascii.eqb "u" json.backslash
          || Ascii.eqb "u" "/" || Ascii.eqb "u" "'") with false.
  change (Ascii.eqb "u" "b") with false.
  change (Ascii.eqb "u" "f") with false.
  change (Ascii.eqb "u" "n") with false.
  change (Ascii.eqb "u" "r") with false.
  change (Ascii.eqb "u" "t") with false.
  change (Ascii.eqb "u" "u") with true.
  cbv iota. rewrite G, S. reflexivity.
Qed.


Lemma hexval_hexdigit (n : N) :
  (n < 16)%N -> hexval (json.hexdigit n) = Some n.
Proof.
  intros H.
  assert (E : (match hexval (json.hexdigit n) with
               | Some m => N.eqb m n
               | None => false
               end) = true).
  { revert n H.
    apply (below_spec 16
             (fun n => match hexval (json.hexdigit n) with
                       | Some m => N.eqb m n
                       | None => false
                       end)).
    vm_compute. reflexivity. }
  destruct (hexval (json.hexdigit n)) as [m|]; [|discriminate].
  apply N.eqb_eq in E. subst. reflexivity.
Qed.

Lemma ascii_of_N_eq (c : ascii) (n : N) : N_of_ascii c = n -> c = ascii_of_N n.
Proof. intros <-. symmetry. apply ascii_N_embedding. Qed.

Lemma unquote_loop_escapeByte (fuel : nat) (c : ascii) (t : string) :
  (N_of_ascii c <? utf8.RuneSelf)%N = true ->
  json.htmlSafe (N_of_ascii c) = false ->
  unquote_loop (S fuel) (json.escapeByte c +:+ t)
  = option_map (String c) (unquote_loop fuel t).
Proof.
  intros Hlt Hsafe. unfold json.escapeByte.
  apply N.ltb_lt in Hlt. change utf8.RuneSelf with 128%N in Hlt.
  destruct ((N_of_ascii c =? 92) || (N_of_ascii c =? 34))%N eqn:E1.
  { snorm. apply unquote_loop_escape.
    rewrite !ascii_eqb_N.
    change (N_of_ascii quote_char) with 34%N.
    change (N_of_ascii json.backslash) with 92%N.
    rewrite (orb_comm (N_of_ascii c =? 34)%N), E1. reflexivity. }
  destruct (N.eqb_spec (N_of_ascii c) 8) as [E|_];
    [snorm; rewrite (ascii_of_N_eq c 8 E);
     apply unquote_loop_escape; reflexivity|].
  destruct (N.eqb_spec (N_of_ascii c) 12) as [E|_];
    [snorm; rewrite (ascii_of_N_eq c 12 E);
     apply unquote_loop_escape; reflexivity|].
  destruct (N.eqb_spec (N_of_ascii c) 10) as [E|_];
    [snorm; rewrite (ascii_of_N_eq c 10 E);
     apply unquote_loop_escape; reflexivity|].
  destruct (N.eqb_spec (N_of_ascii c) 13) as [E|_];
    [snorm; rewrite (ascii_of_N_eq c 13 E);
     apply unquote_loop_escape; reflexivity|].
  destruct (N.eqb_spec (N_of_ascii c) 9) as [E|_];
    [snorm; rewrite (ascii_of_N_eq c 9 E);
     apply unquote_loop_escape; reflexivity|].
  snorm.
  set (b := N_of_ascii c) in *.
  rewrite (unquote_loop_u fuel "0" "0" (json.hexdigit (N.shiftr b 4))
             (json.hexdigit (N.land b 15)) t b).
  - assert (Eb : utf8.EncodeRune b = String c EmptyString).
    { unfold utf8.EncodeRune. destruct (N.leb_spec b 127); [|lia].
      f_equal. apply byte_eq. reflexivity. }
    rewrite Eb. destruct (unquote_loop fuel t); reflexivity.
  - unfold getu4.
    change (Ascii.eqb json.backslash json.backslash && Ascii.eqb "u" "u")
      with true. cbv iota.
    change (hexval "0") with (Some 0%N).
    rewrite !hexval_hexdigit.
    + f_equal. rewrite N.shiftr_div_pow2, land_15. change (2 ^ 4)%N with 16%N.
      nlia.
    + apply land_15_lt.
    + rewrite N.shiftr_div_pow2. change (2 ^ 4)%N with 16%N. nlia.
  - unfold utf16.IsSurrogate. apply andb_false_intro1, N.leb_gt. lia.
Qed.

(** [unquoteBytes] gives back a string of valid UTF-8 from the text
    [appendString] wrote for it. *)
Lemma unquote_appendString_loop (fuel : nat) :
  forall (s : string) (f2 : nat),
    String.length s <= fuel ->
    utf8.ValidString_loop fuel s = true ->
    String.length (json.appendString_loop fuel s) <= f2 ->
    unquote_loop f2 (json.appendString_loop fuel s) = Some s.
Proof.
  induction fuel as [|fuel IH]; intros s f2 Hlen Hvalid Hf2.
  { destruct s; [|cbn in Hlen; lia]. apply unquote_loop_nil. }
  destruct s as [|c t]; [apply unquote_loop_nil|].
  cbn [String.length] in Hlen.
  rewrite appendString_loop_cons in *.
  cbn [utf8.ValidString_loop] in Hvalid.
  destruct (N_of_ascii c <? utf8.RuneSelf)%N eqn:Hc.
  - destruct (json.htmlSafe (N_of_ascii c)) eqn:Hs.
    + cbn [String.length] in Hf2. destruct f2 as [|f2]; [lia|].
      rewrite unquote_loop_ascii; [|apply htmlSafe_plain, Hs|exact Hc].
      rewrite IH; [reflexivity|lia|exact Hvalid|lia].
    + rewrite slength_app in Hf2.
      assert (2 <= String.length (json.escapeByte c)).
      { unfold json.escapeByte.
        repeat match goal with
               | |- context [if ?b then _ else _] => destruct b
               end; snorm; cbn [String.length]; lia. }
      destruct f2 as [|f2]; [lia|].
      rewrite unquote_loop_escapeByte by assumption.
      rewrite IH; [reflexivity|lia|exact Hvalid|lia].
  - destruct (utf8.DecodeRuneInString (String c t)) as [r size] eqn:D.
    destruct (decode_high c t r size Hc D)
      as [[-> ->]|(pre & rest' & E & Hsize & Hge & Hhigh & Henc & Hdec)].
    { discriminate Hvalid. }
    assert (Hsz : 2 <= size) by lia.
    replace (size =? 1)%nat with false in *
      by (symmetry; apply Nat.eqb_neq; lia).
    rewrite andb_false_r in *.
    assert (Hv' : utf8.ValidString_loop fuel (string_drop size (String c t)) = true).
    { destruct size as [|[|n]]; [lia|lia|exact Hvalid]. }
    rewrite E in Hv', Hf2 |- *. clear Hvalid.
    rewrite <- Hsize in Hv', Hf2 |- *.
    rewrite string_drop_app in Hv', Hf2 |- *.
    rewrite string_take_app in Hf2 |- *.
    assert (Hl : String.length rest' <= fuel).
    { assert (String.length (String c t) = String.length (pre +:+ rest'))
        by (rewrite E; reflexivity).
      rewrite slength_app in H. cbn [String.length] in H. lia. }
    destruct ((r =? 8232) || (r =? 8233))%N eqn:E28.
    + assert (Hr : r = 8232%N \/ r = 8233%N).
      { apply orb_prop in E28 as [H|H]; apply N.eqb_eq in H; auto. }
      snorm. rewrite !slength_app in Hf2. cbn [String.length] in Hf2.
      destruct f2 as [|f2]; [lia|].
      rewrite (unquote_loop_u f2 "2" "0" "2" (json.hexdigit (N.land r 15)) _ r).
      * rewrite Henc, IH; [reflexivity|exact Hl|exact Hv'|lia].
      * destruct Hr as [-> | ->]; reflexivity.
      * destruct Hr as [-> | ->]; reflexivity.
    + rewrite slength_app in Hf2.
      destruct f2 as [|f2]; [lia|].
      destruct pre as [|c' pre']; [cbn in Hge; lia|].
      assert (Ec : c' = c) by (rewrite sapp_cons in E; congruence).
      subst c'.
      rewrite sapp_cons, unquote_loop_high by exact Hc.
      rewrite <- sapp_cons, Hdec, string_drop_app, Henc.
      rewrite IH; [reflexivity|exact Hl|exact Hv'|].
      cbn [String.length] in Hf2. lia.
Qed.

Lemma sget_app (s t : string) (c : ascii) :
  String.get (String.length s) (s +:+ String c t) = Some c.
Proof. induction s as [|x s IH]; [reflexivity|]. rewrite sapp_cons. exact IH. Qed.

Lemma unquoteBytes_appendString (s : string) :
  utf8.ValidString s = true -> unquoteBytes (json.appendString s) = Some s.
Proof.
  intros Hvalid. unfold unquoteBytes, json.appendString.
  set (body := json.appendString_loop (String.length s) s).
  cbn [String.length]. rewrite slength_app. cbn [String.length].
  replace (S (String.length body + 1) <? 2)%nat with false
    by (symmetry; apply Nat.ltb_ge; lia).
  cbn [String.get].
  replace (S (String.length body + 1) - 1) with (S (String.length body)) by lia.
  cbn [String.get]. rewrite sget_app. cbn [default from_option id].
  rewrite Ascii.eqb_refl. cbn [negb orb].
  replace (S (String.length body + 1) - 2) with (String.length body) by lia.
  cbn [string_drop]. rewrite string_take_app.
  subst body. apply unquote_appendString_loop;
    [apply Nat.le_refl | exact Hvalid | apply Nat.le_refl].
Qed.

End Unquote.

(** ** The decoders on the trees of policies *)

Lemma omap_cons_Some {A : Type} (m : A) (l : list (option A)) :
  omap id (Some m :: l) = m :: omap id l.
Proof. reflexivity. Qed.

Lemma omap_cons_None {A : Type} (l : list (option A)) :
  omap id (None :: l) = omap id l.
Proof. reflexivity. Qed.

Lemma omap_nil {A : Type} : omap id (@nil (option A)) = [].
Proof. reflexivity. Qed.

Ltac members :=
  cbn [tree.member];
  repeat first
    [rewrite omap_cons_Some | rewrite omap_cons_None | rewrite omap_nil].

Section DecodeTrees.

Import decode decoder.

Lemma runs_ret {A : Type} (a : A) : runs (ret a) a.
Proof. intros saved. reflexivity. Qed.

Lemma runs_bind {A B : Type} (x : D A) (k : A -> D B) (a : A) (b : B) :
  runs x a -> runs (k a) b -> runs (bind x k) b.
Proof. intros Hx Hk saved. unfold bind. rewrite Hx. apply Hk. Qed.

Lemma isNull_appendString (s : string) : isNull (json.appendString s) = false.
Proof. reflexivity. Qed.

Lemma decodeString_str (cur s : string) :
  utf8.ValidString s = true -> runs (decodeString cur (tree.str s)) s.
Proof.
  intros Hs. unfold decodeString, tree.str.
  rewrite isNull_appendString.
  replace (String.prefix (String quote_char "") (json.appendString s)) with true.
  - rewrite unquoteBytes_appendString by exact Hs. apply runs_ret.
  - unfold json.appendString. cbn [String.prefix].
    destruct (ascii_dec quote_char quote_char) as [_|Hne]; [|congruence].
    destruct (json.appendString_loop _ _ +:+ _); reflexivity.
Qed.

Lemma decodePtr_null {A : Type} (zero : A) (dec : A -> value -> D A)
    (cur : option A) :
  runs (decodePtr zero dec cur tree.null) None.
Proof. apply runs_ret. Qed.

Lemma decodePtr_str (cur : option string) (s : string) :
  utf8.ValidString s = true ->
  runs (decodePtr EmptyString decodeString cur (tree.str s)) (Some s).
Proof.
  intros Hs. unfold decodePtr, tree.str. rewrite isNull_appendString.
  eapply runs_bind; [apply (decodeString_str _ s Hs) | apply runs_ret].
Qed.

Lemma decodePtr_object {A : Type} (zero : A) (dec : A -> value -> D A)
    (cur : option A) (ms : list (string * value)) (a : A) :
  runs (dec (default zero cur) (tree.mkObject ms)) a ->
  runs (decodePtr zero dec cur (tree.mkObject ms)) (Some a).
Proof.
  intros H. unfold decodePtr, tree.mkObject.
  eapply runs_bind; [exact H | apply runs_ret].
Qed.

Lemma decodeElems_map {A B : Type} (zero : A) (dec : A -> value -> D A)
    (f : B -> value) (g : B -> A) (P : B -> Prop) (l : list B) :
  (forall x, P x -> runs (dec zero (f x)) (g x)) ->
  Forall P l ->
  runs (decodeElems zero dec [] (map f l)) (map g l).
Proof.
  intros Hdec Hl. induction Hl as [|x l Hx _ IH]; [apply runs_ret|].
  cbn [map decodeElems hd tl].
  eapply runs_bind; [apply Hdec, Hx|].
  eapply runs_bind; [exact IH | apply runs_ret].
Qed.

Lemma decodeSlice_tree {A B : Type} (type : string) (zero : A)
    (dec : A -> value -> D A) (f : B -> value) (g : B -> A) (P : B -> Prop)
    (s : option (list B)) :
  (forall x, P x -> runs (dec zero (f x)) (g x)) ->
  Forall P (default [] s) ->
  runs (decodeSlice type zero dec nilSlice (tree.ofSlice f s))
    (mkSlice (option_map (map g) s) []).
Proof.
  intros Hdec Hs. destruct s as [l|]; [|apply runs_ret].
  unfold decodeSlice, tree.ofSlice, tree.mkArray, backing, nilSlice.
  cbn [default from_option id upToLen pastLen app].
  eapply runs_bind; [apply (decodeElems_map zero dec f g P l Hdec Hs)|].
  destruct l; apply runs_ret.
Qed.

Lemma decodeNewSlice_tree {A : Type} (type : string) (zero : A)
    (dec : A -> value -> D A) (f : A -> value) (P : A -> Prop)
    (s : option (list A)) :
  (forall x, P x -> runs (dec zero (f x)) x) ->
  Forall P (default [] s) ->
  runs (decodeNewSlice type zero dec None (tree.ofSlice f s)) s.
Proof.
  intros Hdec Hs. unfold decodeNewSlice.
  eapply runs_bind;
    [apply (decodeSlice_tree type zero dec f (fun x => x) P s Hdec Hs)|].
  cbn [upToLen]. destruct s as [l|]; cbn [option_map];
    [rewrite map_id|]; apply runs_ret.
Qed.

Lemma decodeMembers_cons {A : Type} (step : A -> string -> value -> D A)
    (cur : A) (k key : string) (val : value) (ms : list (string * value)) :
  unquoteBytes k = Some key ->
  decodeMembers step cur ((k, val) :: ms)
  = bind (step cur key val) (fun cur' => decodeMembers step cur' ms).
Proof. intros H. cbn [decodeMembers]. rewrite H. reflexivity. Qed.

Lemma decodeMembers_entries {V : Type} (zero : V) (dec : V -> value -> D V)
    (f : V -> value) (P : V -> Prop) (l : list (string * V)) :
  (forall x, P x -> runs (dec zero (f x)) x) ->
  Forall (fun kv : string * V =>
            utf8.ValidString (fst kv) = true /\ P (snd kv)) l ->
  forall g0,
    runs (decodeMembers (storeEntry zero dec) g0
            (map (fun kv : string * V => (json.appendString (fst kv), f (snd kv))) l))
      (fold_left (fun g (kv : string * V) => <[fst kv:=snd kv]> g) l g0).
Proof.
  intros Hdec Hl. induction Hl as [|[k x] l [Hk Hx] _ IH]; intros g0.
  - apply runs_ret.
  - cbn [map fold_left fst snd] in *.
    rewrite (decodeMembers_cons _ _ _ k)
      by (apply unquoteBytes_appendString, Hk).
    eapply runs_bind; [|apply IH].
    unfold storeEntry. eapply runs_bind; [apply Hdec, Hx | apply runs_ret].
Qed.

Lemma fold_left_insert_list_to_map {V : Type} (l : list (string * V)) :
  fold_left (fun g (kv : string * V) => <[fst kv:=snd kv]> g) l ∅
  = (list_to_map (rev l) : gmap string V).
Proof.
  rewrite <- fold_left_rev_right.
  generalize (rev l). intros l'.
  induction l' as [|[k x] l' IH]; [reflexivity|].
  cbn [fold_right list_to_map]. rewrite IH. reflexivity.
Qed.

Lemma sortedEntries_Permutation {V : Type} (g : gmap string V) :
  tree.sortedEntries g ≡ₚ map_to_list g.
Proof. apply merge_sort_Permutation. Qed.

Lemma fold_left_insert_sortedEntries {V : Type} (g : gmap string V) :
  fold_left (fun g (kv : string * V) => <[fst kv:=snd kv]> g)
    (tree.sortedEntries g) ∅ = g.
Proof.
  rewrite fold_left_insert_list_to_map.
  rewrite <- (list_to_map_to_list g) at 2.
  assert (HP : rev (tree.sortedEntries g) ≡ₚ map_to_list g).
  { etransitivity; [symmetry; apply Permutation_rev|].
    apply sortedEntries_Permutation. }
  apply list_to_map_proper; [|exact HP].
  rewrite HP. apply NoDup_fst_map_to_list.
Qed.


Lemma forallb_Forall {A : Type} (f : A -> bool) (l : list A) :
  forallb f l = true -> Forall (fun x => f x = true) l.
Proof.
  induction l as [|x l IH]; [constructor|]. cbn [forallb].
  intros H. apply andb_prop in H as [Hx Hl]. constructor; auto.
Qed.

Lemma decodeMap_tree {V : Type} (type : string) (zero : V)
    (dec : V -> value -> D V) (f : V -> value) (validV : V -> bool)
    (m : option (gmap string V)) :
  (forall x, validV x = true -> runs (dec zero (f x)) x) ->
  validMap validV m = true ->
  runs (decodeMap type zero dec None (tree.ofMap f m)) m.
Proof.
  intros Hdec Hm. destruct m as [g|]; [|apply runs_ret].
  unfold decodeMap, tree.ofMap, tree.mkObject. cbn [default from_option id].
  eapply runs_bind.
  - apply (decodeMembers_entries zero dec f (fun x => validV x = true)).
    + exact Hdec.
    + rewrite sortedEntries_Permutation.
      cbn [validMap] in Hm. apply forallb_Forall in Hm.
      eapply Forall_impl; [exact Hm|].
      intros kv H. apply andb_prop in H. exact H.
  - rewrite fold_left_insert_sortedEntries. apply runs_ret.
Qed.

Lemma decodeStrings_tree (l : option (list string)) :
  validList l = true ->
  runs (decodeStrings nilSlice (tree.ofStrings l)) (mkSlice l []).
Proof.
  intros Hl.
  assert (H := decodeSlice_tree "[]string" EmptyString decodeString tree.str
                 (fun x => x) (fun s => utf8.ValidString s = true) l
                 (fun x Hx => decodeString_str EmptyString x Hx)
                 (forallb_Forall _ _ Hl)).
  replace (option_map (map (fun x : string => x)) l) with l in H;
    [exact H|].
  destruct l as [l'|]; [|reflexivity]. cbn. rewrite map_id. reflexivity.
Qed.

Lemma decodeNewStrings_tree (l : option (list string)) :
  validList l = true ->
  runs (decodeNewSlice "[]string" EmptyString decodeString None
          (tree.ofStrings l)) l.
Proof.
  intros Hl.
  apply (decodeNewSlice_tree "[]string" EmptyString decodeString tree.str
           (fun s => utf8.ValidString s = true) l
           (fun x Hx => decodeString_str EmptyString x Hx)
           (forallb_Forall _ _ Hl)).
Qed.

Lemma decodePrincipal_tree (p : Principal) :
  validList (Aws p) = true ->
  runs (decodePrincipal zeroPrincipalMem (tree.ofPrincipal p))
    (memOfPrincipal p).
Proof.
  intros Hp. unfold decodePrincipal, decodeStruct, tree.ofPrincipal, tree.mkObject.
  members.
  rewrite (decodeMembers_cons _ _ _ "AWS") by (vm_compute; reflexivity).
  change (storeMember ["AWS"] storePrincipal zeroPrincipalMem "AWS"
            (tree.ofStrings (Aws p)))
    with (bind (decodeStrings nilSlice (tree.ofStrings (Aws p)))
            (fun aws => ret (mkPrincipalMem aws))).
  eapply runs_bind.
  - eapply runs_bind; [apply decodeStrings_tree, Hp | apply runs_ret].
  - destruct p. apply runs_ret.
Qed.

Lemma decodePtr_principal (p : option Principal) :
  validPrincipal p = true ->
  runs (decodePtr zeroPrincipalMem decodePrincipal None
          (tree.ofPtr tree.ofPrincipal p)) (option_map memOfPrincipal p).
Proof.
  intros Hp. destruct p as [pr|]; [|apply decodePtr_null].
  apply decodePtr_object, decodePrincipal_tree, Hp.
Qed.

Lemma decodePtr_string (cur s : option string) :
  validOpt s = true ->
  json.isNil s = false ->
  runs (decodePtr EmptyString decodeString cur (tree.ofPtr tree.str s)) s.
Proof.
  intros Hs Hnil. destruct s as [x|]; [|discriminate].
  apply decodePtr_str, Hs.
Qed.

Lemma decodeCondition_tree (c : ConditionMap) :
  validCondition c = true ->
  runs (decodeCondition None (tree.ofCondition c)) c.
Proof.
  apply decodeMap_tree. intros m Hm.
  apply (decodeMap_tree _ _ _ _ validList); [|exact Hm].
  intros l Hl. apply decodeNewStrings_tree, Hl.
Qed.

Lemma decodeEffect_tree (cur e : Effect) :
  runs (decodeEffect cur (tree.ofEffect e)) e.
Proof. destruct e; intros saved; reflexivity. Qed.

Lemma decodePolicyVersion_tree (cur : PolicyVersion) :
  runs (decodePolicyVersion cur (Literal (lit "2012-10-17"))) cur.
Proof. intros saved. reflexivity. Qed.

End DecodeTrees.

(** ** Statements and policies are read back *)

(** One member of a statement: the key is a field name, and the value is
    stored in the field. *)
Ltac member name step_lemma :=
  rewrite (decodeMembers_cons _ _ _ name) by (vm_compute; reflexivity);
  rewrite step_lemma;
  eapply runs_bind; [eapply runs_bind; [|apply runs_ret]|].

Section DecodePolicy.

Import decode decoder.

Lemma step_Sid cur val :
  storeMember statementFields storeStatement cur "Sid" val
  = bind (decodePtr EmptyString decodeString (memSid cur) val)
      (fun x => ret (putSid cur x)).
Proof. reflexivity. Qed.

Lemma step_Effect cur val :
  storeMember statementFields storeStatement cur "Effect" val
  = bind (decodeEffect (memEffect cur) val) (fun x => ret (putEffect cur x)).
Proof. reflexivity. Qed.

Lemma step_Principal cur val :
  storeMember statementFields storeStatement cur "Principal" val
  = bind (decodePtr zeroPrincipalMem decodePrincipal (memPrincipal cur) val)
      (fun x => ret (putPrincipal cur x)).
Proof. reflexivity. Qed.

Lemma step_NotPrincipal cur val :
  storeMember statementFields storeStatement cur "NotPrincipal" val
  = bind (decodePtr zeroPrincipalMem decodePrincipal (memNotPrincipal cur) val)
      (fun x => ret (putNotPrincipal cur x)).
Proof. reflexivity. Qed.

Lemma step_Action cur val :
  storeMember statementFields storeStatement cur "Action" val
  = bind (decodeStrings (memAction cur) val) (fun x => ret (putAction cur x)).
Proof. reflexivity. Qed.

Lemma step_NotAction cur val :
  storeMember statementFields storeStatement cur "NotAction" val
  = bind (decodeStrings (memNotAction cur) val)
      (fun x => ret (putNotAction cur x)).
Proof. reflexivity. Qed.

Lemma step_Resource cur val :
  storeMember statementFields storeStatement cur "Resource" val
  = bind (decodeString (memResource cur) val)
      (fun x => ret (putResource cur x)).
Proof. reflexivity. Qed.

Lemma step_Condition cur val :
  storeMember statementFields storeStatement cur "Condition" val
  = bind (decodeCondition (memCondition cur) val)
      (fun x => ret (putCondition cur x)).
Proof. reflexivity. Qed.

Lemma validStatement_fields (s : Statement) :
  validStatement s = true ->
  validOpt (stSid s) = true /\ validPrincipal (stPrincipal s) = true
  /\ validPrincipal (stNotPrincipal s) = true /\ validList (stAction s) = true
  /\ validList (stNotAction s) = true
  /\ utf8.ValidString (stResource s) = true
  /\ validCondition (stCondition s) = true.
Proof.
  unfold validStatement. intros H.
  repeat (apply andb_prop in H as [H ?]). auto 10.
Qed.

Lemma decodeStatement_tree (s : Statement) :
  validStatement s = true ->
  runs (decodeStatement zeroStatementMem (tree.ofStatement s))
    (memOfStatement (normalizeStatement s)).
Proof.
  intros Hs.
  destruct (validStatement_fields s Hs)
    as (HSid & HPr & HNPr & HAct & HNAct & HRes & HCond).
  unfold decodeStatement, decodeStruct, tree.ofStatement, tree.mkObject.
  destruct s as [sid eff pr npr act nact res cond].
  cbn [stSid stEffect stPrincipal stNotPrincipal stAction stNotAction
       stResource stCondition] in *.
  unfold normalizeStatement.
  cbn [stSid stEffect stPrincipal stNotPrincipal stAction stNotAction
       stResource stCondition setCondition setNotAction].
  destruct sid as [sid|]; cbn [json.isNil]; members.
  1: member "Sid" step_Sid; [apply decodePtr_str, HSid|].
  all: member "Effect" step_Effect; [apply decodeEffect_tree|].
  all: member "Principal" step_Principal; [apply decodePtr_principal, HPr|].
  all: destruct npr as [npr|]; cbn [json.isNil]; members.
  1,3: member "NotPrincipal" step_NotPrincipal;
         [apply decodePtr_principal, HNPr|].
  all: member "Action" step_Action; [apply decodeStrings_tree, HAct|].
  all: destruct (slice_len nact =? 0)%nat eqn:ENA; members.
  2,4,6,8: member "NotAction" step_NotAction;
         [apply decodeStrings_tree, HNAct|].
  all: member "Resource" step_Resource; [apply decodeString_str, HRes|].
  all: destruct (map_len cond =? 0)%nat eqn:EC; members.
  all: try (member "Condition" step_Condition;
            [apply decodeCondition_tree, HCond|]).
  all: apply runs_ret.
Qed.

Lemma decodePtr_statement (o : option Statement) :
  match o with None => true | Some s => validStatement s end = true ->
  runs (decodePtr zeroStatementMem decodeStatement None
          (tree.ofPtr tree.ofStatement o))
    (option_map (fun s => memOfStatement (normalizeStatement s)) o).
Proof.
  intros Ho. destruct o as [s|]; [|apply decodePtr_null].
  apply (decodePtr_object zeroStatementMem decodeStatement None).
  apply decodeStatement_tree, Ho.
Qed.

Lemma step_Version cur val :
  storeMember policyFields storePolicy cur "Version" val
  = bind (decodePolicyVersion (memVersion cur) val)
      (fun x => ret (mkPolicyMem x (memId cur) (memStatement cur))).
Proof. reflexivity. Qed.

Lemma step_Id cur val :
  storeMember policyFields storePolicy cur "Id" val
  = bind (decodePtr EmptyString decodeString (memId cur) val)
      (fun x => ret (mkPolicyMem (memVersion cur) x (memStatement cur))).
Proof. reflexivity. Qed.

Lemma step_Statement cur val :
  storeMember policyFields storePolicy cur "Statement" val
  = bind (decodeSlice "[]*policy.Statement" None
            (decodePtr zeroStatementMem decodeStatement) (memStatement cur) val)
      (fun x => ret (mkPolicyMem (memVersion cur) (memId cur) x)).
Proof. reflexivity. Qed.

Lemma memOfPolicy_normalize (p : Policy) :
  memOfPolicy (normalizePolicy p)
  = mkPolicyMem (polVersion p) (polId p)
      (mkSlice
         (option_map
            (map (option_map (fun s => memOfStatement (normalizeStatement s))))
            (polStatement p)) []).
Proof.
  unfold memOfPolicy, normalizePolicy. cbn [polVersion polId polStatement].
  do 2 f_equal. destruct (polStatement p) as [l|]; [|reflexivity].
  cbn [option_map]. f_equal. rewrite map_map. apply map_ext.
  intros [x|]; reflexivity.
Qed.

Lemma decodePolicy_tree (p : Policy) :
  validPolicy p = true ->
  runs (decodePolicy zeroPolicyMem (tree.ofPolicy p))
    (memOfPolicy (normalizePolicy p)).
Proof.
  intros Hp. unfold validPolicy in Hp. apply andb_prop in Hp as [HId HSt].
  apply forallb_Forall in HSt. rewrite memOfPolicy_normalize.
  unfold decodePolicy, decodeStruct, tree.ofPolicy, tree.mkObject.
  destruct p as [[] id sts]. cbn [polVersion polId polStatement] in *.
  members.
  member "Version" step_Version; [apply decodePolicyVersion_tree|].
  destruct id as [id|]; cbn [json.isNil]; members.
  1: member "Id" step_Id; [apply decodePtr_str, HId|].
  all: member "Statement" step_Statement;
    [apply (decodeSlice_tree _ None (decodePtr zeroStatementMem decodeStatement)
              (tree.ofPtr tree.ofStatement)
              (option_map (fun s => memOfStatement (normalizeStatement s)))
              (fun o : option Statement =>
                 match o with None => true | Some s => validStatement s end
                 = true)
              sts);
     [intros o Ho; apply decodePtr_statement, Ho | exact HSt]
    | apply runs_ret].
Qed.

(** The value of what is in memory after a policy was stored there. *)
Lemma valueOf_memOfPrincipal (p : Principal) :
  valueOfPrincipal (memOfPrincipal p) = p.
Proof. destruct p. reflexivity. Qed.

Lemma valueOf_memOfStatement (s : Statement) :
  valueOfStatement (memOfStatement s) = s.
Proof.
  destruct s as [sid e pr npr act nact res cond].
  unfold valueOfStatement, memOfStatement.
  cbn [memSid memEffect memPrincipal memNotPrincipal memAction memNotAction
       memResource memCondition stSid stEffect stPrincipal stNotPrincipal
       stAction stNotAction stResource stCondition upToLen].
  destruct pr as [x|], npr as [y|]; cbn [option_map];
    rewrite ?valueOf_memOfPrincipal; reflexivity.
Qed.

Lemma valueOf_memOfPolicy (p : Policy) :
  valueOfPolicy (memOfPolicy p) = p.
Proof.
  destruct p as [v id sts]. unfold valueOfPolicy, memOfPolicy.
  cbn [memVersion memId memStatement polVersion polId polStatement upToLen].
  f_equal. destruct sts as [l|]; [|reflexivity]. cbn [option_map]. f_equal.
  rewrite map_map. rewrite <- (map_id l) at 2. apply map_ext.
  intros [s|]; cbn [option_map]; [rewrite valueOf_memOfStatement|];
    reflexivity.
Qed.

End DecodePolicy.

(** ** Encoding and decoding a policy *)

(** What [LoadPolicy] returns on the bytes [Get] returns, for any policy
    whose strings are valid UTF-8. *)
Lemma LoadPolicy_Get (p : Policy) :
  validPolicy p = true ->
  exists b, Get p = Ok b /\ LoadPolicy b = Ok (normalizePolicy p).
Proof.
  intros Hp. exists (decode.rawOf (tree.ofPolicy p)).
  split; [apply Get_tree|].
  unfold LoadPolicy, decoder.Unmarshal.
  rewrite (parse_ofPolicy p).
  rewrite (decodePolicy_tree p Hp None), valueOf_memOfPolicy. reflexivity.
Qed.

(** *** Built policies *)

Lemma newStatement_built : builtStatement newStatement.
Proof.
  unfold builtStatement, newStatement.
  cbn [stPrincipal stAction stNotPrincipal stNotAction stCondition].
  split; [eexists; reflexivity|]. split; [eexists; reflexivity|].
  split; [left; reflexivity|]. split; [left; reflexivity|].
  exists ∅. split; [reflexivity|]. intros t. rewrite lookup_empty. congruence.
Qed.

Lemma append_nonempty {A : Type} (s : option (list A)) (x : A) :
  exists l, l <> [] /\ append s x = Some l.
Proof.
  destruct s as [l|]; cbn; eexists; (split; [|reflexivity]).
  - destruct l; discriminate.
  - discriminate.
Qed.

Lemma AddCondition_built (s : Statement) (t key v : string) :
  builtStatement s ->
  exists s', AddCondition s t key v = Returns s' /\ builtStatement s'.
Proof.
  intros (HP & HA & HNP & HNA & g & Hg & Hnil).
  unfold AddCondition. rewrite Hg. cbn [map_get].
  assert (Hkeep : forall (h : gmap string (option (list string))) g',
             (forall t', g' !! t' <> Some None) ->
             builtStatement (setCondition s (Some (<[t:=Some h]> g')))).
  { intros h g' Hg'. unfold builtStatement.
    cbn [stPrincipal stAction stNotPrincipal stNotAction stCondition setCondition].
    repeat split; try assumption.
    eexists. split; [reflexivity|]. intros t'.
    destruct (decide (t = t')) as [->|Hne].
    - rewrite lookup_insert_eq. congruence.
    - rewrite lookup_insert_ne by exact Hne. apply Hg'. }
  destruct (g !! t) as [[h|]|] eqn:Egt.
  - cbn. rewrite Egt. cbn.
    destruct (h !! key) as [cur|] eqn:Ehk; cbn.
    + rewrite Ehk. cbn. eexists. split; [reflexivity|]. apply Hkeep, Hnil.
    + rewrite lookup_insert_eq. cbn. eexists. split; [reflexivity|].
      apply Hkeep, Hnil.
  - exfalso. apply (Hnil t). exact Egt.
  - cbn. rewrite lookup_insert_eq. cbn. rewrite lookup_empty. cbn.
    rewrite lookup_insert_eq. cbn. eexists. split; [reflexivity|].
    apply Hkeep. intros t'.
    destruct (decide (t = t')) as [->|Hne].
    + rewrite lookup_insert_eq. congruence.
    + rewrite lookup_insert_ne by exact Hne. apply Hnil.
Qed.

(** On a built statement every call returns, and the statement is still
    built. *)
Lemma applyOp_built (o : StatementOp) (s : Statement) :
  builtStatement s ->
  exists s', applyOp o s = Returns s' /\ builtStatement s'.
Proof.
  intros Hs.
  destruct o as [id|e|x|x|a|a|r|t key v]; cbn [applyOp];
    try apply AddCondition_built; try exact Hs;
    destruct Hs as (HP & HA & HNP & HNA & HC).
  - eexists. split; [reflexivity|]. repeat split; assumption.
  - eexists. split; [reflexivity|]. repeat split; assumption.
  - destruct HP as [l Hl]. unfold AddPrincipal. rewrite Hl.
    eexists. split; [reflexivity|].
    repeat split; try assumption. cbn. eauto.
  - eexists. split; [reflexivity|].
    repeat split; try assumption.
    unfold AddNotPrincipal.
    cbn [stPrincipal stAction stNotPrincipal stNotAction stCondition
         setNotPrincipal].
    right.
    destruct HNP as [-> | (l & Hl & ->)]; cbn [Aws NewPrincipal append].
    + exists [x]. split; [discriminate | reflexivity].
    + exists (l ++ [x]). split; [|reflexivity]. destruct l; discriminate.
  - eexists. split; [reflexivity|].
    repeat split; try assumption.
    unfold AddAction. cbn [stAction setAction].
    destruct HA as [l ->]. cbn. eauto.
  - eexists. split; [reflexivity|].
    repeat split; try assumption.
    unfold AddNotAction. cbn [stNotAction setNotAction]. right.
    destruct (append_nonempty (stNotAction s) a) as (l & Hl & ->). eauto.
  - eexists. split; [reflexivity|]. repeat split; assumption.
Qed.

Lemma Built_builtPolicy (p : Policy) : Built p -> builtPolicy p.
Proof.
  induction 1 as [|p id _ IH|p _ IH|p i o p' _ IH Hop].
  - exists []. split; [reflexivity | constructor].
  - destruct IH as (l & Hl & Hall). exists l. split; assumption.
  - destruct IH as (l & Hl & Hall). unfold AddStatement.
    cbn [fst polStatement]. rewrite Hl. cbn [append].
    eexists. split; [reflexivity|].
    apply Forall_app. split; [exact Hall|].
    constructor; [|constructor].
    exists newStatement. split; [reflexivity | apply newStatement_built].
  - destruct IH as (l & Hl & Hall). unfold onStatement in Hop.
    rewrite Hl in Hop.
    destruct (l !! i) as [[s|]|] eqn:Ei; try discriminate.
    assert (Hs : builtStatement s).
    { rewrite Forall_lookup in Hall.
      destruct (Hall i _ Ei) as (s0 & [= <-] & Hs0). exact Hs0. }
    destruct (applyOp_built o s Hs) as (s' & Es' & Hs').
    rewrite Es' in Hop. cbn in Hop. inversion Hop; subst.
    cbn [polStatement]. eexists. split; [reflexivity|].
    apply Forall_insert; [exact Hall|]. exists s'. auto.
Qed.

(** On a built policy every call on one of its statements returns. *)
Lemma Built_op_returns (p : Policy) (i : nat) (o : StatementOp) :
  Built p -> is_Some (statementAt p i) ->
  exists p', onStatement p i (applyOp o) = Returns p' /\ Built p'.
Proof.
  intros Hp [s Hs]. destruct (Built_builtPolicy p Hp) as (l & Hl & Hall).
  unfold statementAt in Hs. rewrite Hl in Hs.
  destruct (l !! i) as [[s0|]|] eqn:Ei; try discriminate. inversion Hs; subst.
  assert (Hb : builtStatement s).
  { rewrite Forall_lookup in Hall.
    destruct (Hall i _ Ei) as (s0 & [= <-] & Hs0). exact Hs0. }
  destruct (applyOp_built o s Hb) as (s' & Es' & _).
  assert (E : onStatement p i (applyOp o)
              = Returns (mkPolicy (polVersion p) (polId p)
                           (Some (<[i:=Some s']> l)))).
  { unfold onStatement. rewrite Hl, Ei, Es'. reflexivity. }
  eexists. split; [exact E|]. eapply Built_op; [exact Hp | exact E].
Qed.

Lemma builtStatement_normalize (s : Statement) :
  builtStatement s -> normalizeStatement s = dropEmptyCondition s.
Proof.
  intros (_ & _ & _ & HNA & _). unfold normalizeStatement, dropEmptyCondition.
  assert (E : (if (slice_len (stNotAction s) =? 0)%nat then None
               else stNotAction s) = stNotAction s).
  { destruct HNA as [-> | (l & Hl & ->)]; [reflexivity|].
    destruct l; [congruence | reflexivity]. }
  rewrite E. destruct s. cbn.
  destruct (map_len _ =? 0)%nat; reflexivity.
Qed.

Lemma Built_normalize (p : Policy) :
  Built p -> normalizePolicy p = dropEmptyConditions p.
Proof.
  intros Hp. destruct (Built_builtPolicy p Hp) as (l & Hl & Hall).
  unfold normalizePolicy, dropEmptyConditions. rewrite Hl. cbn [option_map].
  assert (E : map (option_map normalizeStatement) l
              = map (option_map dropEmptyCondition) l).
  { clear Hl. induction Hall as [|o l' (s & -> & Hs) _ IH]; [reflexivity|].
    cbn [map option_map]. rewrite (builtStatement_normalize s Hs), IH.
    reflexivity. }
  rewrite E. reflexivity.
Qed.

(** ** The round trip *)

Lemma Built_runOps (p p' : Policy) (i : nat) (ops : list StatementOp) :
  Built p -> runOps p i ops = Returns p' -> Built p'.
Proof.
  revert p. induction ops as [|o ops IH]; intros p Hp Hrun.
  - cbn in Hrun. inversion Hrun; subst. exact Hp.
  - cbn [runOps] in Hrun.
    destruct (onStatement p i (applyOp o)) as [p1|msg] eqn:E; [|discriminate].
    cbn [obind] in Hrun. apply (IH p1); [|exact Hrun].
    eapply Built_op; [exact Hp | exact E].
Qed.

Lemma examplePolicy_runs :
  runOps (fst (AddStatement (SetId NewPolicy "policy-id"))) 0 exampleOps
  = Returns examplePolicy.
Proof. vm_compute. reflexivity. Qed.

Lemma examplePolicy_Built : Built examplePolicy.
Proof.
  eapply Built_runOps; [|exact examplePolicy_runs].
  apply Built_AddStatement, Built_SetId, Built_NewPolicy.
Qed.

Lemma emptyStatementPolicy_Built : Built emptyStatementPolicy.
Proof. apply Built_AddStatement, Built_NewPolicy. Qed.

Lemma dropEmptyCondition_id (s : Statement) :
  map_len (stCondition s) <> 0 -> dropEmptyCondition s = s.
Proof.
  intros H. unfold dropEmptyCondition.
  destruct (Nat.eqb_spec (map_len (stCondition s)) 0); [contradiction|reflexivity].
Qed.

Lemma dropEmptyConditions_id (p : Policy) :
  (forall i s, statementAt p i = Some s -> map_len (stCondition s) <> 0) ->
  dropEmptyConditions p = p.
Proof.
  intros H. destruct p as [v id sts]. unfold dropEmptyConditions.
  cbn [polVersion polId polStatement]. f_equal.
  destruct sts as [l|]; [|reflexivity]. cbn [option_map]. f_equal.
  unfold statementAt in H. cbn [polStatement] in H.
  induction l as [|o l IH]; [reflexivity|].
  cbn [map]. f_equal.
  - destruct o as [s|]; [|reflexivity]. cbn [option_map].
    rewrite dropEmptyCondition_id; [reflexivity|].
    apply (H 0 s). reflexivity.
  - apply IH. intros i s Hi. apply (H (S i) s). exact Hi.
Qed.

(** C1 (as stated, refuted): the policy with one fresh statement is built
    and holds valid strings only, yet what [LoadPolicy] reads from its
    encoding is another policy: the statement read has a nil condition map,
    the statement written an empty one. *)
Lemma roundtrip_loses_empty_condition :
  Built emptyStatementPolicy
  /\ validPolicy emptyStatementPolicy = true
  /\ exists b p s s',
       Get emptyStatementPolicy = Ok b
       /\ LoadPolicy b = Ok p
       /\ p <> emptyStatementPolicy
       /\ statementAt emptyStatementPolicy 0 = Some s
       /\ statementAt p 0 = Some s'
       /\ stCondition s = Some ∅
       /\ stCondition s' = None.
Proof.
  split; [apply emptyStatementPolicy_Built|].
  split; [vm_compute; reflexivity|].
  eexists. eexists. eexists. eexists.
  split; [vm_compute; reflexivity|].
  split; [vm_compute; reflexivity|].
  split; [intros H; vm_compute in H; discriminate H|].
  split; [reflexivity|]. split; [reflexivity|].
  split; reflexivity.
Qed.

(** C1 (amended): for every built policy whose strings are valid UTF-8,
    [LoadPolicy] reads from the bytes [Get] returns the same policy, field
    for field, but for the statements whose condition map is empty, which
    are read with a nil condition map; when no statement has an empty
    condition map, the policy read is the policy written. *)
Theorem roundtrip_built (p : Policy) :
  Built p -> validPolicy p = true ->
  exists b,
    Get p = Ok b
    /\ LoadPolicy b = Ok (dropEmptyConditions p)
    /\ ((forall i s, statementAt p i = Some s -> map_len (stCondition s) <> 0) ->
        LoadPolicy b = Ok p).
Proof.
  intros Hb Hv. destruct (LoadPolicy_Get p Hv) as (b & HGet & HLoad).
  exists b. rewrite (Built_normalize p Hb) in HLoad.
  split; [exact HGet|]. split; [exact HLoad|].
  intros Hne. rewrite HLoad, (dropEmptyConditions_id p Hne). reflexivity.
Qed.

Lemma roundtrip_built_witness :
  Built examplePolicy /\ validPolicy examplePolicy = true
  /\ exists b,
       Get examplePolicy = Ok b
       /\ LoadPolicy b = Ok (dropEmptyConditions examplePolicy)
       /\ ((forall i s, statementAt examplePolicy i = Some s ->
                        map_len (stCondition s) <> 0) ->
           LoadPolicy b = Ok examplePolicy).
Proof.
  split; [apply examplePolicy_Built|].
  split; [vm_compute; reflexivity|].
  apply (roundtrip_built examplePolicy);
    [apply examplePolicy_Built | vm_compute; reflexivity].
Defined.

(** A string that is not valid UTF-8 is not read back: the round trip
    needs the validity of the strings. *)
Lemma roundtrip_needs_valid_strings :
  let p := SetId NewPolicy (String (ascii_of_N 255) EmptyString) in
  Built p /\ validPolicy p = false
  /\ exists b p', Get p = Ok b /\ LoadPolicy b = Ok p' /\ p' <> p.
Proof.
  split; [apply Built_SetId, Built_NewPolicy|].
  split; [vm_compute; reflexivity|].
  eexists. eexists.
  split; [vm_compute; reflexivity|].
  split; [vm_compute; reflexivity|].
  intros H. vm_compute in H. discriminate H.
Qed.

(** ** The members of an encoded statement *)

Lemma lookup_Principal (s : Statement) :
  tree.lookup "Principal" (tree.ofStatement s)
  = Some (tree.ofPtr tree.ofPrincipal (stPrincipal s)).
Proof.
  unfold tree.ofStatement. destruct (json.isNil (stSid s)); reflexivity.
Qed.

Lemma lookup_Action (s : Statement) :
  tree.lookup "Action" (tree.ofStatement s)
  = Some (tree.ofStrings (stAction s)).
Proof.
  unfold tree.ofStatement.
  destruct (json.isNil (stSid s)), (json.isNil (stNotPrincipal s));
    reflexivity.
Qed.

Lemma absent_Sid (s : Statement) :
  absent "Sid" (tree.ofStatement s) = json.isNil (stSid s).
Proof.
  unfold absent, tree.ofStatement.
  destruct (json.isNil (stSid s)), (json.isNil (stNotPrincipal s)),
    (slice_len (stNotAction s) =? 0)%nat, (map_len (stCondition s) =? 0)%nat;
    reflexivity.
Qed.

Lemma absent_NotPrincipal (s : Statement) :
  absent "NotPrincipal" (tree.ofStatement s) = json.isNil (stNotPrincipal s).
Proof.
  unfold absent, tree.ofStatement.
  destruct (json.isNil (stSid s)), (json.isNil (stNotPrincipal s)),
    (slice_len (stNotAction s) =? 0)%nat, (map_len (stCondition s) =? 0)%nat;
    reflexivity.
Qed.

Lemma absent_NotAction (s : Statement) :
  absent "NotAction" (tree.ofStatement s)
  = (slice_len (stNotAction s) =? 0)%nat.
Proof.
  unfold absent, tree.ofStatement.
  destruct (json.isNil (stSid s)), (json.isNil (stNotPrincipal s)),
    (slice_len (stNotAction s) =? 0)%nat, (map_len (stCondition s) =? 0)%nat;
    reflexivity.
Qed.

Lemma absent_Condition (s : Statement) :
  absent "Condition" (tree.ofStatement s)
  = (map_len (stCondition s) =? 0)%nat.
Proof.
  unfold absent, tree.ofStatement.
  destruct (json.isNil (stSid s)), (json.isNil (stNotPrincipal s)),
    (slice_len (stNotAction s) =? 0)%nat, (map_len (stCondition s) =? 0)%nat;
    reflexivity.
Qed.

Lemma absent_Id (p : Policy) :
  absent "Id" (tree.ofPolicy p) = json.isNil (polId p).
Proof.
  unfold absent, tree.ofPolicy. destruct (json.isNil (polId p)); reflexivity.
Qed.

Lemma statementsOf_ofPolicy (p : Policy) :
  statementsOf (tree.ofPolicy p)
  = map (tree.ofPtr tree.ofStatement) (default [] (polStatement p)).
Proof.
  unfold statementsOf, tree.ofPolicy.
  destruct (json.isNil (polId p)); destruct (polStatement p); reflexivity.
Qed.

(** In the encoding of any statement, also of one [LoadPolicy] returned,
    the members Principal and Action are present; each holds [null] exactly
    when the field is nil. *)
Lemma encoded_statement_members (s : Statement) :
  absent "Principal" (tree.ofStatement s) = false
  /\ absent "Action" (tree.ofStatement s) = false
  /\ holdsNull "Principal" (tree.ofStatement s) = json.isNil (stPrincipal s)
  /\ holdsNull "Action" (tree.ofStatement s) = json.isNil (stAction s).
Proof.
  unfold absent, holdsNull. rewrite lookup_Principal, lookup_Action.
  repeat split.
  - destruct (stPrincipal s); reflexivity.
  - destruct (stAction s); reflexivity.
Qed.

Lemma builtStatement_showsCollections (s : Statement) :
  builtStatement s -> showsCollections (tree.ofStatement s).
Proof.
  intros ((lp & HP) & (la & HA) & _).
  unfold showsCollections, hasCollections.
  rewrite lookup_Principal, lookup_Action, HP, HA.
  split; [reflexivity|]. split; eexists; reflexivity.
Qed.

Lemma showsStatement_tree (o : option Statement) :
  showsStatement o (tree.ofPtr tree.ofStatement o).
Proof.
  destruct o as [s|]; [|reflexivity]. cbn [showsStatement tree.ofPtr].
  destruct (encoded_statement_members s) as (H1 & H2 & H3 & H4).
  repeat split; try assumption.
  - apply absent_Sid.
  - apply absent_NotPrincipal.
  - apply absent_NotAction.
  - apply absent_Condition.
Qed.

(** C3 (as stated, refuted): the policy [LoadPolicy] reads from a document
    whose statement has no member is encoded by [Get] with Principal and
    Action holding [null]. *)
Lemma loaded_statement_encodes_null :
  exists p b doc,
    LoadPolicy (dq "{'Version':'2012-10-17','Statement':[{}]}") = Ok p
    /\ Get p = Ok b
    /\ b = dq "{'Version':'2012-10-17','Statement':[{'Effect':'Deny','Principal':null,'Action':null,'Resource':''}]}"
    /\ scanner.parse b = Some doc
    /\ forallb hasCollections (statementsOf doc) = false
    /\ forallb (holdsNull "Principal") (statementsOf doc) = true
    /\ forallb (holdsNull "Action") (statementsOf doc) = true
    /\ length (statementsOf doc) = 1.
Proof.
  eexists. eexists. eexists.
  split; [vm_compute; reflexivity|].
  split; [vm_compute; reflexivity|].
  split; [vm_compute; reflexivity|].
  split; [vm_compute; reflexivity|].
  repeat split; vm_compute; reflexivity.
Qed.

(** C3 (amended): the bytes [Get] returns for any policy, also for one
    [LoadPolicy] returned, are read as a tree in which every statement has
    the members Principal and Action, each holding [null] exactly when the
    field is nil, and has the members Sid, NotPrincipal, NotAction and
    Condition exactly when the field is not nil (for the slice and the map,
    not empty), as the tree has the member Id exactly when the policy has an
    id; for a built policy Principal holds an object whose member AWS is an
    array, and Action holds an array. *)
Theorem encoded_principal_action (p : Policy) :
  exists b doc,
    Get p = Ok b
    /\ scanner.parse b = Some doc
    /\ absent "Id" doc = json.isNil (polId p)
    /\ Forall2 showsStatement (default [] (polStatement p)) (statementsOf doc)
    /\ (Built p -> Forall showsCollections (statementsOf doc)).
Proof.
  destruct (Get_parse p) as (b & HGet & HParse).
  exists b, (tree.ofPolicy p).
  split; [exact HGet|]. split; [exact HParse|].
  split; [apply absent_Id|].
  rewrite statementsOf_ofPolicy. split.
  - induction (default [] (polStatement p)) as [|o l IH]; constructor;
      [apply showsStatement_tree | exact IH].
  - intros Hb. destruct (Built_builtPolicy p Hb) as (l & -> & Hall).
    cbn [default from_option id].
    induction Hall as [|o l' (s & -> & Hs) _ IH]; constructor;
      [apply builtStatement_showsCollections, Hs | exact IH].
Qed.

Lemma encoded_principal_action_witness :
  Built examplePolicy
  /\ exists b doc,
       Get examplePolicy = Ok b
       /\ scanner.parse b = Some doc
       /\ absent "Id" doc = json.isNil (polId examplePolicy)
       /\ Forall2 showsStatement (default [] (polStatement examplePolicy))
            (statementsOf doc)
       /\ Forall showsCollections (statementsOf doc).
Proof.
  split; [apply examplePolicy_Built|].
  destruct (encoded_principal_action examplePolicy)
    as (b & doc & H1 & H2 & H3 & H4 & H5).
  exists b, doc. repeat split; try assumption.
  apply H5, examplePolicy_Built.
Defined.



(** ** The version of an encoded policy *)

Lemma lookup_Version (p : Policy) :
  tree.lookup "Version" (tree.ofPolicy p) = Some (Literal (lit "2012-10-17")).
Proof. reflexivity. Qed.

(** C5: a version always encodes to the literal for 2012-10-17, and so
    does the version of every policy [Get] encodes; the legacy literal
    decodes without error into the one value the type has, as the current
    literal does, so that what was read cannot be told from the result; a
    document with the legacy literal is read, and is encoded with the
    current one. *)
Theorem version_encodes_current (v w : PolicyVersion) (p : Policy) :
  PolicyVersionJSON.MarshalJSON v = Ok (lit "2012-10-17")
  /\ (exists b doc,
        Get p = Ok b /\ scanner.parse b = Some doc
        /\ tree.lookup "Version" doc = Some (Literal (lit "2012-10-17")))
  /\ PolicyVersionJSON.UnmarshalJSON v (lit "2008-10-17") = None
  /\ v = w
  /\ decoder.decodePolicyVersion v (Literal (lit "2008-10-17")) = decode.ret v
  /\ decoder.decodePolicyVersion v (Literal (lit "2012-10-17")) = decode.ret v
  /\ LoadPolicy (dq "{'Version':'2008-10-17','Statement':[]}")
     = LoadPolicy (dq "{'Version':'2012-10-17','Statement':[]}")
  /\ (p' <- LoadPolicy (dq "{'Version':'2008-10-17','Statement':[]}") ;; Get p')
     = Ok (dq "{'Version':'2012-10-17','Statement':[]}").
Proof.
  split; [reflexivity|]. split.
  { destruct (Get_parse p) as (b & HGet & HParse).
    exists b, (tree.ofPolicy p). auto using lookup_Version. }
  destruct v, w. repeat split; reflexivity.
Qed.

(** ** The order of the keys of the conditions *)

#[local] Instance key_le_total {V : Type} : Total (@key_le V).
Proof. intros a b. unfold key_le. apply (total String.le). Qed.

#[local] Instance key_le_trans {V : Type} : Transitive (@key_le V).
Proof. intros a b c. unfold key_le. apply (transitivity (R := String.le)). Qed.




(** *** AddCondition in closed form *)

Lemma AddCondition_addToMap (s : Statement) (g : gmap string VariableMap)
    (t key v : string) :
  stCondition s = Some g -> g !! t <> Some None ->
  AddCondition s t key v = Returns (setCondition s (Some (addToMap g t key v))).
Proof.
  intros Hg Ht. unfold AddCondition, addToMap. rewrite Hg. cbn [map_get].
  destruct (g !! t) as [[h|]|] eqn:Egt; [|exfalso; apply Ht; reflexivity|].
  - cbn. rewrite Egt. cbn.
    destruct (h !! key) as [cur|] eqn:Ehk; cbn.
    + rewrite Ehk. cbn. reflexivity.
    + rewrite lookup_insert_eq. cbn. rewrite insert_insert_eq. reflexivity.
  - cbn. rewrite lookup_insert_eq. cbn. rewrite lookup_empty. cbn.
    rewrite lookup_insert_eq. cbn. rewrite !insert_insert_eq. reflexivity.
Qed.






(** The operators and variables added in decreasing order are written in
    increasing order. *)
Lemma condition_keys_sorted_example :
  exists p,
    runOps emptyStatementPolicy 0
      [OpAddCondition "StringLike" "aws:UserAgent" "curl*";
       OpAddCondition "ArnEquals" "aws:SourceIp" "10.0.0.0/8";
       OpAddCondition "ArnEquals" "aws:SourceArn" "arn:sns:foo";
       OpAddCondition "ArnEquals" "aws:SourceIp" "10.0.0.0/7"] = Returns p
    /\ Get p
       = Ok (dq "{'Version':'2012-10-17','Statement':[{'Effect':'Deny','Principal':{'AWS':[]},'Action':[],'Resource':'','Condition':{'ArnEquals':{'aws:SourceArn':['arn:sns:foo'],'aws:SourceIp':['10.0.0.0/8','10.0.0.0/7']},'StringLike':{'aws:UserAgent':['curl*']}}}]}").
Proof.
  eexists. split; [vm_compute; reflexivity|]. vm_compute. reflexivity.
Qed.

(** * Further properties of the package *)

(** ** What [Get] writes *)

(** [Get] returns no error, whatever the policy holds: nil fields, and
    strings with quotes, backslashes, control characters or bytes that are
    not UTF-8.  The bytes it returns are one well-formed JSON value, which
    the scanner reads as the tree of the policy, and they are the text of
    that tree: nothing is written around it. *)
Theorem Get_well_formed (p : Policy) :
  exists b doc,
    Get p = Ok b
    /\ scanner.parse b = Some doc
    /\ doc = tree.ofPolicy p
    /\ decode.rawOf doc = b
    /\ tree.isObject doc = true.
Proof.
  exists (decode.rawOf (tree.ofPolicy p)), (tree.ofPolicy p).
  split; [apply Get_tree|].
  split; [apply parse_ofPolicy|].
  repeat split.
Qed.

Lemma keys_ofStatement_sublist (s : Statement) :
  sublist (tree.keys (tree.ofStatement s)) (map lit decoder.statementFields).
Proof.
  unfold tree.ofStatement.
  destruct (json.isNil (stSid s)), (json.isNil (stNotPrincipal s)),
    (slice_len (stNotAction s) =? 0)%nat, (map_len (stCondition s) =? 0)%nat;
    cbn [omap tree.member id tree.mkObject tree.keys map fst mbind
         option_bind list_omap decoder.statementFields];
    repeat first [apply sublist_nil | apply sublist_skip | apply sublist_cons].
Qed.

(** The members of the encoded policy, and of every statement in it, are
    written in the order in which the fields are declared, each at most
    once: Version, Id, Statement, and Sid, Effect, Principal, NotPrincipal,
    Action, NotAction, Resource, Condition. *)
Theorem encoded_members_in_declaration_order (p : Policy) :
  exists b doc,
    Get p = Ok b
    /\ scanner.parse b = Some doc
    /\ sublist (tree.keys doc) (map lit decoder.policyFields)
    /\ Forall (fun v => sublist (tree.keys v) (map lit decoder.statementFields))
         (statementsOf doc).
Proof.
  destruct (Get_parse p) as (b & HGet & HParse).
  exists b, (tree.ofPolicy p). split; [exact HGet|]. split; [exact HParse|].
  split.
  - unfold tree.ofPolicy. destruct (json.isNil (polId p));
      cbn [omap tree.member id tree.mkObject tree.keys map fst mbind
           option_bind list_omap decoder.policyFields];
      repeat first [apply sublist_nil | apply sublist_skip | apply sublist_cons].
  - rewrite statementsOf_ofPolicy. apply Forall_map, Forall_forall.
    intros [s|] _; [apply keys_ofStatement_sublist|].
    cbn. apply sublist_nil_l.
Qed.

(** ** Encoding what was decoded *)

Lemma ofStatement_normalize (s : Statement) :
  tree.ofStatement (normalizeStatement s) = tree.ofStatement s.
Proof.
  destruct s as [sid e pr npr act nact res cond].
  unfold normalizeStatement, tree.ofStatement, setCondition, setNotAction.
  cbn [stSid stEffect stPrincipal stNotPrincipal stAction stNotAction
       stResource stCondition].
  destruct (slice_len nact =? 0)%nat eqn:En, (map_len cond =? 0)%nat eqn:Ec;
    cbn [slice_len map_len Nat.eqb]; rewrite ?En, ?Ec; reflexivity.
Qed.

Lemma ofPolicy_normalize (p : Policy) :
  tree.ofPolicy (normalizePolicy p) = tree.ofPolicy p.
Proof.
  destruct p as [v id sts]. unfold tree.ofPolicy, normalizePolicy.
  cbn [polVersion polId polStatement].
  assert (E : tree.ofSlice (tree.ofPtr tree.ofStatement)
                (option_map (map (option_map normalizeStatement)) sts)
              = tree.ofSlice (tree.ofPtr tree.ofStatement) sts).
  { destruct sts as [l|]; [|reflexivity]. cbn [option_map tree.ofSlice].
    f_equal. rewrite map_map. apply map_ext. intros [s|]; [|reflexivity].
    cbn [option_map tree.ofPtr]. apply ofStatement_normalize. }
  rewrite E. reflexivity.
Qed.

(** Encoding is stable under decoding: for every policy whose strings are
    valid UTF-8, the policy [LoadPolicy] reads from the bytes [Get] returns
    is encoded by [Get] to the same bytes, so that it is read back from its
    own encoding as it is. *)
Theorem Get_LoadPolicy_Get (p : Policy) :
  validPolicy p = true ->
  exists b p',
    Get p = Ok b
    /\ LoadPolicy b = Ok p'
    /\ Get p' = Ok b.
Proof.
  intros Hp. destruct (LoadPolicy_Get p Hp) as (b & HGet & HLoad).
  exists b, (normalizePolicy p). split; [exact HGet|]. split; [exact HLoad|].
  rewrite Get_tree, ofPolicy_normalize, <- Get_tree. exact HGet.
Qed.

Lemma Get_LoadPolicy_Get_witness :
  validPolicy examplePolicy = true
  /\ exists b p',
       Get examplePolicy = Ok b
       /\ LoadPolicy b = Ok p'
       /\ Get p' = Ok b.
Proof.
  split; [vm_compute; reflexivity|].
  apply (Get_LoadPolicy_Get examplePolicy). vm_compute. reflexivity.
Defined.

(** ** [AddStatement] *)

(** [AddStatement] appends one statement and returns it: the statement is
    the last of the policy, it is the fresh statement (Deny, an empty
    principal, no action, the empty resource, an empty condition map), every
    other statement and the Id are left as they were.  This also holds of a
    policy whose Statement slice is nil. *)
Theorem AddStatement_appends (p : Policy) :
  let p' := fst (AddStatement p) in
  let i := snd (AddStatement p) in
  i = slice_len (polStatement p)
  /\ slice_len (polStatement p') = S i
  /\ statementAt p' i = Some newStatement
  /\ (forall j, j <> i -> statementAt p' j = statementAt p j)
  /\ polId p' = polId p.
Proof.
  destruct p as [v id sts]. unfold AddStatement, statementAt.
  cbn [fst snd polStatement polId]. destruct sts as [l|]; cbn [append slice_len].
  - split; [reflexivity|]. split; [rewrite length_app; cbn; lia|].
    split; [rewrite list_lookup_middle by reflexivity; reflexivity|].
    split; [|reflexivity]. intros j Hj.
    destruct (Nat.lt_ge_cases j (length l)) as [Hlt | Hge].
    + rewrite lookup_app_l by exact Hlt. reflexivity.
    + rewrite (lookup_ge_None_2 (l ++ [Some newStatement]) j)
        by (rewrite length_app; cbn; lia).
      rewrite (lookup_ge_None_2 l j) by lia. reflexivity.
  - split; [reflexivity|]. split; [reflexivity|]. split; [reflexivity|].
    split; [|reflexivity]. intros [|j] Hj; [contradiction|reflexivity].
Qed.

(** ** The calls on a statement *)

Lemma sapp_inv_tail (s t u : string) : s +:+ u = t +:+ u -> s = t.
Proof.
  intros H.
  assert (L : String.length s = String.length t).
  { apply (f_equal String.length) in H. rewrite !slength_app in H. lia. }
  revert t H L. induction s as [|c s IH]; intros [|d t] H L; cbn in L;
    try discriminate L; [reflexivity|].
  rewrite !sapp_cons in H. injection H as -> H. f_equal. apply IH; [exact H|lia].
Qed.

Lemma lit_eqb (a b : string) : String.eqb (lit a) (lit b) = String.eqb a b.
Proof.
  destruct (String.eqb_spec a b) as [->|Hne]; [apply String.eqb_refl|].
  apply String.eqb_neq. intros H. apply Hne. unfold lit in H.
  injection H as H. exact (sapp_inv_tail _ _ _ H).
Qed.

Lemma lookup_cons_member (name n : string) (b : bool) (v : value)
    (fs : list (option (string * value))) :
  tree.lookup name (tree.mkObject (omap id (tree.member n b v :: fs)))
  = if negb b && String.eqb n name then Some v
    else tree.lookup name (tree.mkObject (omap id fs)).
Proof.
  unfold tree.member. destruct b; [reflexivity|].
  rewrite omap_cons_Some. cbn [tree.lookup tree.mkObject List.find fst negb andb].
  rewrite lit_eqb. destruct (String.eqb n name); reflexivity.
Qed.

Lemma lookup_no_member (name : string) :
  tree.lookup name (tree.mkObject (omap id [])) = None.
Proof. reflexivity. Qed.

(** The members of an encoded statement, by name. *)
Lemma lookup_ofStatement (s : Statement) (name : string) :
  tree.lookup name (tree.ofStatement s)
  = if negb (json.isNil (stSid s)) && String.eqb "Sid" name
    then Some (tree.ofPtr tree.str (stSid s))
    else if String.eqb "Effect" name then Some (tree.ofEffect (stEffect s))
    else if String.eqb "Principal" name
    then Some (tree.ofPtr tree.ofPrincipal (stPrincipal s))
    else if negb (json.isNil (stNotPrincipal s)) && String.eqb "NotPrincipal" name
    then Some (tree.ofPtr tree.ofPrincipal (stNotPrincipal s))
    else if String.eqb "Action" name then Some (tree.ofStrings (stAction s))
    else if negb (slice_len (stNotAction s) =? 0)%nat && String.eqb "NotAction" name
    then Some (tree.ofStrings (stNotAction s))
    else if String.eqb "Resource" name then Some (tree.str (stResource s))
    else if negb (map_len (stCondition s) =? 0)%nat && String.eqb "Condition" name
    then Some (tree.ofCondition (stCondition s))
    else None.
Proof.
  unfold tree.ofStatement. rewrite !lookup_cons_member, lookup_no_member.
  reflexivity.
Qed.

Lemma AddCondition_sets_Condition (s s' : Statement) (t key v : string) :
  AddCondition s t key v = Returns s' ->
  exists c, s' = setCondition s c.
Proof.
  unfold AddCondition, obind. intros H.
  repeat match type of H with
         | match ?x with _ => _ end = _ => destruct x; try discriminate H
         end.
  injection H as <-. eexists. reflexivity.
Qed.

(** A call on a statement changes one member of its encoding and no
    other: [SetSid] the member Sid, the assignment of the effect Effect,
    [AddPrincipal] Principal, [AddNotPrincipal] NotPrincipal, [AddAction]
    Action, [AddNotAction] NotAction, the assignment of the resource
    Resource and [AddCondition] Condition. *)
Theorem calls_write_one_member (o : StatementOp) (s s' : Statement)
    (name : string) :
  applyOp o s = Returns s' ->
  name <> opMember o ->
  tree.lookup name (tree.ofStatement s') = tree.lookup name (tree.ofStatement s).
Proof.
  intros H Hname. rewrite !lookup_ofStatement.
  assert (Hneq : String.eqb (opMember o) name = false).
  { apply String.eqb_neq. congruence. }
  destruct o; cbn [applyOp opMember] in H, Hneq.
  - injection H as <-. destruct s. cbn -[String.eqb Nat.eqb]. rewrite Hneq, !andb_false_r. reflexivity.
  - injection H as <-. destruct s. cbn -[String.eqb Nat.eqb]. rewrite Hneq. reflexivity.
  - unfold AddPrincipal in H. destruct (stPrincipal s); [|discriminate H].
    injection H as <-. destruct s. cbn -[String.eqb Nat.eqb]. rewrite Hneq. reflexivity.
  - injection H as <-. destruct s. cbn -[String.eqb Nat.eqb]. rewrite Hneq, !andb_false_r. reflexivity.
  - injection H as <-. destruct s. cbn -[String.eqb Nat.eqb]. rewrite Hneq. reflexivity.
  - injection H as <-. destruct s. cbn -[String.eqb Nat.eqb].
    rewrite Hneq, !andb_false_r. reflexivity.
  - injection H as <-. destruct s. cbn -[String.eqb Nat.eqb]. rewrite Hneq. reflexivity.
  - destruct (AddCondition_sets_Condition _ _ _ _ _ H) as (c & ->).
    destruct s. cbn -[String.eqb Nat.eqb]. rewrite Hneq, !andb_false_r. reflexivity.
Qed.

Lemma calls_write_one_member_witness :
  applyOp (OpAddNotPrincipal "*") newStatement
  = Returns (AddNotPrincipal newStatement "*")
  /\ "Principal" <> opMember (OpAddNotPrincipal "*")
  /\ tree.lookup "Principal" (tree.ofStatement (AddNotPrincipal newStatement "*"))
     = tree.lookup "Principal" (tree.ofStatement newStatement).
Proof.
  split; [reflexivity|]. split; [discriminate|].
  apply (calls_write_one_member (OpAddNotPrincipal "*") newStatement);
    [reflexivity | discriminate].
Defined.

Lemma AddCondition_writable (s s' : Statement) (t key v : string) :
  AddCondition s t key v = Returns s' -> writable s t.
Proof.
  unfold writable, AddCondition, ConditionType.
  destruct (stCondition s) as [g|] eqn:Hg; cbn [map_get]; [|discriminate].
  destruct (g !! t) as [[h|]|] eqn:Egt.
  - intros _. exists g. split; [reflexivity|]. rewrite Egt. congruence.
  - cbn. rewrite Egt. cbn. discriminate.
  - intros _. exists g. split; [reflexivity|]. rewrite Egt. congruence.
Qed.

(** [AddCondition] returns exactly on the statements under whose operator
    it can write; on any other statement, whose condition map is nil or
    holds a nil map under the operator, it panics on the assignment to an
    entry of a nil map. *)
Theorem AddCondition_returns_iff (s : Statement) (t key v : string) :
  ((exists s', AddCondition s t key v = Returns s') <-> writable s t)
  /\ (~ writable s t ->
      AddCondition s t key v = Panic "assignment to entry in nil map").
Proof.
  unfold writable, AddCondition, ConditionType.
  destruct (stCondition s) as [g|] eqn:Hg; cbn [map_get].
  - destruct (g !! t) as [[h|]|] eqn:Egt.
    + assert (Hw : exists g0, Some g = Some g0 /\ g0 !! t <> Some None).
      { exists g. split; [reflexivity|]. rewrite Egt. congruence. }
      split; [|intros Hn; contradiction].
      split; [intros _; exact Hw|]. intros _.
      destruct (AddCondition_returns s t key v) as (s' & Hs' & _).
      { exists g. split; [exact Hg|]. unfold ConditionType. rewrite Egt. congruence. }
      exists s'. unfold AddCondition in Hs'. rewrite Hg in Hs'. cbn [map_get] in Hs'.
      rewrite Egt in Hs'. exact Hs'.
    + cbn. rewrite Egt. cbn. split; [|reflexivity]. split.
      * intros (s' & Hs'). discriminate Hs'.
      * intros (g0 & Hg0 & Hn). injection Hg0 as <-. contradiction.
    + assert (Hw : exists g0, Some g = Some g0 /\ g0 !! t <> Some None).
      { exists g. split; [reflexivity|]. rewrite Egt. congruence. }
      split; [|intros Hn; contradiction].
      split; [intros _; exact Hw|]. intros _.
      destruct (AddCondition_returns s t key v) as (s' & Hs' & _).
      { exists g. split; [exact Hg|]. unfold ConditionType. rewrite Egt. congruence. }
      exists s'. unfold AddCondition in Hs'. rewrite Hg in Hs'. cbn [map_get] in Hs'.
      rewrite Egt in Hs'. exact Hs'.
  - split; [|reflexivity]. split.
    + intros (s' & Hs'). discriminate Hs'.
    + intros (g0 & Hg0 & _). discriminate Hg0.
Qed.

(** ** The calls that add to a list *)

Lemma append_default {A : Type} (s : option (list A)) (x : A) :
  default [] (append s x) = default [] s ++ [x].
Proof. destruct s; reflexivity. Qed.

Lemma AddActions_list (l : list string) (s : Statement) :
  default [] (stAction (fold_left AddAction l s)) = default [] (stAction s) ++ l.
Proof.
  revert s. induction l as [|a l IH]; intros s; cbn [fold_left].
  - rewrite app_nil_r. reflexivity.
  - rewrite IH. unfold AddAction. destruct s as [? ? ? ? act ? ? ?]. cbn [stAction setAction].
    rewrite append_default, <- app_assoc. reflexivity.
Qed.

Lemma AddNotActions_list (l : list string) (s : Statement) :
  default [] (stNotAction (fold_left AddNotAction l s))
  = default [] (stNotAction s) ++ l.
Proof.
  revert s. induction l as [|a l IH]; intros s; cbn [fold_left].
  - rewrite app_nil_r. reflexivity.
  - rewrite IH. unfold AddNotAction. destruct s as [? ? ? ? ? nact ? ?]. cbn [stNotAction setNotAction].
    rewrite append_default, <- app_assoc. reflexivity.
Qed.

Lemma AddNotPrincipals_list (l : list string) (s : Statement) :
  principals (stNotPrincipal (fold_left AddNotPrincipal l s))
  = principals (stNotPrincipal s) ++ l.
Proof.
  revert s. induction l as [|a l IH]; intros s; cbn [fold_left].
  - rewrite app_nil_r. reflexivity.
  - rewrite IH. unfold AddNotPrincipal. destruct s as [? ? ? [np|] ? ? ? ?];
      cbn [stNotPrincipal setNotPrincipal principals Aws NewPrincipal];
      rewrite append_default, <- app_assoc; reflexivity.
Qed.

Lemma AddPrincipals_list (l : list string) (s : Statement) :
  stPrincipal s <> None ->
  exists s',
    AddPrincipals s l = Returns s'
    /\ principals (stPrincipal s') = principals (stPrincipal s) ++ l.
Proof.
  revert s. induction l as [|a l IH]; intros s Hs; cbn [AddPrincipals].
  - exists s. rewrite app_nil_r. split; reflexivity.
  - unfold AddPrincipal at 1. destruct (stPrincipal s) as [pr|] eqn:E;
      [|contradiction].
    cbn [obind].
    destruct (IH (setPrincipal s (Some {| Aws := append (Aws pr) a |})))
      as (s' & Hs' & Hl).
    { destruct s as [? ? spr ? ? ? ? ?]. cbn. discriminate. }
    exists s'. split; [exact Hs'|]. rewrite Hl. destruct s as [? ? spr ? ? ? ? ?].
    cbn [stPrincipal setPrincipal principals Aws] in *.
    rewrite append_default, <- app_assoc. reflexivity.
Qed.

(** The calls that add to a list leave in it what it held, followed by
    what was added, in the order of the calls and with the repetitions.
    [AddAction], [AddNotAction] and [AddNotPrincipal] do so on every
    statement: a nil slice or principal is allocated by the first call.
    [AddPrincipal] does so when the principal is allocated, and panics on
    its first call when the principal is nil. *)
Theorem list_calls_accumulate (s : Statement) (l : list string) :
  default [] (stAction (fold_left AddAction l s)) = default [] (stAction s) ++ l
  /\ default [] (stNotAction (fold_left AddNotAction l s))
     = default [] (stNotAction s) ++ l
  /\ principals (stNotPrincipal (fold_left AddNotPrincipal l s))
     = principals (stNotPrincipal s) ++ l
  /\ match stPrincipal s, l with
     | None, _ :: _ =>
         AddPrincipals s l
         = Panic "invalid memory address or nil pointer dereference"
     | _, _ =>
         exists s',
           AddPrincipals s l = Returns s'
           /\ principals (stPrincipal s') = principals (stPrincipal s) ++ l
     end.
Proof.
  split; [apply AddActions_list|]. split; [apply AddNotActions_list|].
  split; [apply AddNotPrincipals_list|].
  destruct (stPrincipal s) as [pr|] eqn:E.
  - rewrite <- E. apply AddPrincipals_list. rewrite E. discriminate.
  - destruct l as [|a l].
    + exists s. rewrite E. split; reflexivity.
    + cbn [AddPrincipals]. unfold AddPrincipal. rewrite E. reflexivity.
Qed.

(** ** The calls on the statements of a policy that was written and read *)

Lemma normalizeStatement_Principal (s : Statement) :
  stPrincipal (normalizeStatement s) = stPrincipal s.
Proof. destruct s as [? ? spr ? ? nact ? c]. reflexivity. Qed.

(** After a built policy with valid strings went through [Get] and
    [LoadPolicy], [AddPrincipal] still returns on every statement of it: the
    principal is written even when it is empty, and so is read back
    allocated. *)
Theorem AddPrincipal_returns_after_load (p : Policy) (a : string) :
  Built p -> validPolicy p = true ->
  exists b p',
    Get p = Ok b
    /\ LoadPolicy b = Ok p'
    /\ slice_len (polStatement p') = slice_len (polStatement p)
    /\ forall i,
         i < slice_len (polStatement p) ->
         exists s s', statementAt p' i = Some s /\ AddPrincipal s a = Returns s'.
Proof.
  intros Hb Hv. destruct (LoadPolicy_Get p Hv) as (b & HGet & HLoad).
  exists b, (normalizePolicy p). split; [exact HGet|]. split; [exact HLoad|].
  destruct (Built_builtPolicy p Hb) as (l & Hl & Hall).
  unfold normalizePolicy, statementAt. rewrite Hl.
  cbn [polStatement option_map slice_len]. split; [apply length_map|].
  intros i Hi. destruct (lookup_lt_is_Some_2 l i Hi) as (o & Ho).
  rewrite list_lookup_fmap, Ho. cbn [fmap option_fmap option_map].
  rewrite Forall_lookup in Hall. destruct (Hall i o Ho) as (s & -> & Hs).
  cbn [option_map]. destruct Hs as ((lp & HP) & _).
  eexists. eexists. split; [reflexivity|].
  unfold AddPrincipal. rewrite normalizeStatement_Principal, HP. reflexivity.
Qed.

Lemma AddPrincipal_returns_after_load_witness :
  Built examplePolicy /\ validPolicy examplePolicy = true
  /\ exists b p',
       Get examplePolicy = Ok b
       /\ LoadPolicy b = Ok p'
       /\ slice_len (polStatement p') = slice_len (polStatement examplePolicy)
       /\ forall i,
            i < slice_len (polStatement examplePolicy) ->
            exists s s',
              statementAt p' i = Some s /\ AddPrincipal s "*" = Returns s'.
Proof.
  split; [apply examplePolicy_Built|].
  split; [vm_compute; reflexivity|].
  apply (AddPrincipal_returns_after_load examplePolicy "*");
    [apply examplePolicy_Built | vm_compute; reflexivity].
Defined.

(** ** What [LoadPolicy] does with a document that is no policy *)

(** A document that the scanner accepts (well-formed JSON, nowhere
    deeper than [maxNestingDepth]) but that is no object: [null] is read
    without error as the zero policy, whose Statement slice is nil; any
    other value (a string, a number, a boolean, an array) is refused with an
    [UnmarshalTypeError] that names the kind of value and the type
    [policy.Policy]. *)
Theorem LoadPolicy_not_an_object (data : string) (v : value) :
  scanner.parse data = Some v ->
  tree.isObject v = false ->
  LoadPolicy data
  = match v with
    | Literal item =>
        if decode.isNull item then Ok zeroPolicy
        else Err (UnmarshalTypeError (decode.describe v) "policy.Policy")
    | _ => Err (UnmarshalTypeError (decode.describe v) "policy.Policy")
    end.
Proof.
  intros HP Hv. unfold LoadPolicy, decoder.Unmarshal. rewrite HP.
  destruct v as [item|raw es|raw ms]; [| reflexivity | discriminate Hv].
  cbn [decoder.decodePolicy decoder.decodeStruct].
  destruct (decode.isNull item); reflexivity.
Qed.

Lemma LoadPolicy_not_an_object_witness :
  scanner.parse "null" = Some (Literal "null")
  /\ tree.isObject (Literal "null") = false
  /\ LoadPolicy "null" = Ok zeroPolicy
  /\ LoadPolicy "[]" = Err (UnmarshalTypeError "array" "policy.Policy").
Proof.
  split; [reflexivity|]. split; [reflexivity|]. split.
  - exact (LoadPolicy_not_an_object "null" (Literal "null") eq_refl eq_refl).
  - exact (LoadPolicy_not_an_object "[]" (Array "[]" []) eq_refl eq_refl).
Defined.

(** A document that the scanner accepts, whose first member is the
    version, under a key that selects the field Version, and holds anything
    but one of the two accepted literals (another string, a number, [null],
    an array) is refused, whatever members follow: the error is the
    [InvalidPolicyVersionError] of the text of the value as it stands in the
    document, with its quotes if it is a string, and [Version] returns that
    text. *)
Theorem LoadPolicy_invalid_version (data raw k key : string) (v : value)
    (ms : list (string * value)) :
  scanner.parse data = Some (Object raw ((k, v) :: ms)) ->
  decode.unquoteBytes k = Some key ->
  decoder.findField decoder.policyFields key = Some "Version" ->
  decode.rawOf v <> lit "2012-10-17" ->
  decode.rawOf v <> lit "2008-10-17" ->
  LoadPolicy data = Err (InvalidPolicyVersionError (decode.rawOf v))
  /\ (forall e, LoadPolicy data = Err e -> Version_of e = Some (decode.rawOf v)).
Proof.
  intros HP Hk Hf H1 H2.
  assert (E : LoadPolicy data = Err (InvalidPolicyVersionError (decode.rawOf v))).
  { unfold LoadPolicy, decoder.Unmarshal. rewrite HP.
    cbn [decoder.decodePolicy decoder.decodeStruct].
    rewrite (decodeMembers_cons _ _ _ _ _ _ Hk).
    unfold decode.bind, decoder.storeMember. rewrite Hf.
    unfold decoder.storePolicy. cbn [String.eqb Ascii.eqb Bool.eqb].
    unfold decode.bind, decoder.decodePolicyVersion,
      PolicyVersionJSON.UnmarshalJSON.
    destruct (String.eqb_spec (decode.rawOf v) (lit "2012-10-17")) as [E|_];
      [contradiction|].
    destruct (String.eqb_spec (decode.rawOf v) (lit "2008-10-17")) as [E|_];
      [contradiction|].
    reflexivity. }
  split; [exact E|]. intros e He. rewrite E in He. injection He as <-.
  reflexivity.
Qed.

Lemma LoadPolicy_invalid_version_witness :
  let data := dq "{'version':'2009-10-17','Statement':[]}" in
  LoadPolicy data = Err (InvalidPolicyVersionError (lit "2009-10-17"))
  /\ (forall e, LoadPolicy data = Err e -> Version_of e = Some (lit "2009-10-17")).
Proof.
  apply (LoadPolicy_invalid_version
           (dq "{'version':'2009-10-17','Statement':[]}")
           (dq "{'version':'2009-10-17','Statement':[]}")
           (lit "version") "version" (Literal (lit "2009-10-17"))
           [(lit "Statement", Array "[]" [])]);
    first [reflexivity | discriminate].
Defined.

(** ** Members that select no field *)

Lemma decodeMembers_skip {A : Type} (names : list string)
    (store : string -> A -> value -> decode.D A) (k key : string) (v : value)
    (ms1 ms2 : list (string * value)) :
  decode.unquoteBytes k = Some key ->
  decoder.findField names key = None ->
  forall cur saved,
    decoder.decodeMembers (decoder.storeMember names store) cur
      (ms1 ++ (k, v) :: ms2) saved
    = decoder.decodeMembers (decoder.storeMember names store) cur
        (ms1 ++ ms2) saved.
Proof.
  intros Hk Hf. induction ms1 as [|[k1 v1] ms1 IH]; intros cur saved.
  - cbn [app]. rewrite (decodeMembers_cons _ _ _ _ _ _ Hk).
    unfold decode.bind, decoder.storeMember at 1. rewrite Hf. reflexivity.
  - cbn [app decoder.decodeMembers]. destruct (decode.unquoteBytes k1);
      [|reflexivity].
    unfold decode.bind.
    destruct (decoder.storeMember names store cur s v1 saved) as [[cur' saved']|e];
      [apply IH | reflexivity].
Qed.

Lemma decodeElems_middle {A : Type} (zero : A)
    (dec : A -> value -> decode.D A) (x x' : value) (es1 es2 : list value) :
  (forall cur saved, dec cur x saved = dec cur x' saved) ->
  forall old saved,
    decoder.decodeElems zero dec old (es1 ++ x :: es2) saved
    = decoder.decodeElems zero dec old (es1 ++ x' :: es2) saved.
Proof.
  intros Hx. induction es1 as [|e es1 IH]; intros old saved.
  - cbn [app decoder.decodeElems]. unfold decode.bind. rewrite Hx. reflexivity.
  - cbn [app decoder.decodeElems]. unfold decode.bind.
    destruct (dec (hd zero old) e saved) as [[a saved']|err]; [|reflexivity].
    rewrite IH. reflexivity.
Qed.

Lemma decodeSlice_middle {A : Type} (type : string) (zero : A)
    (dec : A -> value -> decode.D A) (x x' : value) (raw raw' : string)
    (es1 es2 : list value) :
  (forall cur saved, dec cur x saved = dec cur x' saved) ->
  forall cur saved,
    decoder.decodeSlice type zero dec cur (Array raw (es1 ++ x :: es2)) saved
    = decoder.decodeSlice type zero dec cur (Array raw' (es1 ++ x' :: es2))
        saved.
Proof.
  intros Hx cur saved. unfold decoder.decodeSlice, decode.bind.
  rewrite (decodeElems_middle zero dec x x' es1 es2 Hx).
  rewrite !length_app. cbn [length]. destruct es1; reflexivity.
Qed.

Lemma decodeMembers_middle {A : Type}
    (step : A -> string -> value -> decode.D A) (k : string) (x x' : value)
    (ms1 ms2 : list (string * value)) :
  (forall key, decode.unquoteBytes k = Some key ->
     forall cur saved, step cur key x saved = step cur key x' saved) ->
  forall cur saved,
    decoder.decodeMembers step cur (ms1 ++ (k, x) :: ms2) saved
    = decoder.decodeMembers step cur (ms1 ++ (k, x') :: ms2) saved.
Proof.
  intros Hx. induction ms1 as [|[k1 v1] ms1 IH]; intros cur saved.
  - cbn [app decoder.decodeMembers].
    destruct (decode.unquoteBytes k) as [key|]; [|reflexivity].
    unfold decode.bind. rewrite (Hx key eq_refl). reflexivity.
  - cbn [app decoder.decodeMembers]. destruct (decode.unquoteBytes k1);
      [|reflexivity].
    unfold decode.bind.
    destruct (step cur s v1 saved) as [[cur' saved']|e]; [apply IH | reflexivity].
Qed.

(** A member whose key selects no field is skipped, with all it holds:
    [LoadPolicy] reads a document as it reads the document without the
    member, both being documents the scanner accepts (a member nested
    deeper than [maxNestingDepth] makes the document one it refuses).
    This holds of the members of the policy (first part) and of the members
    of a statement (second part), as NotResource is; what such a member
    held is not in the policy, nor in what [Get] writes of it. *)
Theorem unknown_members_are_skipped (data data' k key : string) (v : value) :
  decode.unquoteBytes k = Some key ->
  (forall raw raw' ms1 ms2,
      decoder.findField decoder.policyFields key = None ->
      scanner.parse data = Some (Object raw (ms1 ++ (k, v) :: ms2)) ->
      scanner.parse data' = Some (Object raw' (ms1 ++ ms2)) ->
      LoadPolicy data = LoadPolicy data')
  /\ (forall raw raw' pre post kS keyS rawA rawA' es1 es2 rawS rawS' ms1 ms2,
        decoder.findField decoder.statementFields key = None ->
        decode.unquoteBytes kS = Some keyS ->
        decoder.findField decoder.policyFields keyS = Some "Statement" ->
        scanner.parse data
        = Some (Object raw
                  (pre ++ (kS, Array rawA
                                 (es1 ++ Object rawS (ms1 ++ (k, v) :: ms2) :: es2))
                       :: post)) ->
        scanner.parse data'
        = Some (Object raw'
                  (pre ++ (kS, Array rawA'
                                 (es1 ++ Object rawS' (ms1 ++ ms2) :: es2))
                       :: post)) ->
        LoadPolicy data = LoadPolicy data').
Proof.
  intros Hk. split.
  - intros raw raw' ms1 ms2 Hf HP HP'.
    unfold LoadPolicy, decoder.Unmarshal. rewrite HP, HP'.
    cbn [decoder.decodePolicy decoder.decodeStruct].
    rewrite (decodeMembers_skip _ _ _ _ _ _ _ Hk Hf). reflexivity.
  - intros raw raw' pre post kS keyS rawA rawA' es1 es2 rawS rawS' ms1 ms2
      Hf HkS HfS HP HP'.
    unfold LoadPolicy, decoder.Unmarshal. rewrite HP, HP'.
    cbn [decoder.decodePolicy decoder.decodeStruct].
    rewrite (decodeMembers_middle _ kS
               (Array rawA (es1 ++ Object rawS (ms1 ++ (k, v) :: ms2) :: es2))
               (Array rawA' (es1 ++ Object rawS' (ms1 ++ ms2) :: es2)));
      [reflexivity|].
    intros key0 Hkey0 cur saved. rewrite HkS in Hkey0. injection Hkey0 as <-.
    unfold decoder.storeMember. rewrite HfS.
    unfold decoder.storePolicy. cbn [String.eqb Ascii.eqb Bool.eqb].
    unfold decode.bind.
    rewrite (decodeSlice_middle _ _ _ (Object rawS (ms1 ++ (k, v) :: ms2))
               (Object rawS' (ms1 ++ ms2)) rawA rawA'); [reflexivity|].
    intros cur0 saved0. unfold decoder.decodePtr, decode.bind.
    cbn [decoder.decodeStatement decoder.decodeStruct].
    rewrite (decodeMembers_skip _ _ _ _ _ _ _ Hk Hf). reflexivity.
Qed.

Lemma unknown_members_are_skipped_witness :
  LoadPolicy (dq "{'Version':'2012-10-17','Comment':[1,2],'Statement':[]}")
  = LoadPolicy (dq "{'Version':'2012-10-17','Statement':[]}")
  /\ LoadPolicy
       (dq "{'Statement':[{'Effect':'Allow','NotResource':'*','Resource':'a'}]}")
     = LoadPolicy (dq "{'Statement':[{'Effect':'Allow','Resource':'a'}]}").
Proof.
  split.
  - destruct (unknown_members_are_skipped
                (dq "{'Version':'2012-10-17','Comment':[1,2],'Statement':[]}")
                (dq "{'Version':'2012-10-17','Statement':[]}")
                (lit "Comment") "Comment"
                (Array "[1,2]" [Literal "1"; Literal "2"]) eq_refl) as [H _].
    eapply (H _ _ [(lit "Version", Literal (lit "2012-10-17"))]
              [(lit "Statement", Array "[]" [])]); reflexivity.
  - destruct (unknown_members_are_skipped
                (dq "{'Statement':[{'Effect':'Allow','NotResource':'*','Resource':'a'}]}")
                (dq "{'Statement':[{'Effect':'Allow','Resource':'a'}]}")
                (lit "NotResource") "NotResource"
                (Literal (lit "*")) eq_refl) as [_ H].
    eapply (H _ _ [] [] (lit "Statement") "Statement" _ _ [] [] _ _
              [(lit "Effect", Literal (lit "Allow"))]
              [(lit "Resource", Literal (lit "a"))]); reflexivity.
Defined.

(** ** [String]: the indented form of what [Get] writes *)

(** Induction on the trees [Marshal] writes. *)
Lemma compact_induction (P : value -> Prop) :
  P tree.null ->
  (forall s, P (tree.str s)) ->
  (forall es, Forall compact es -> Forall P es -> P (tree.mkArray es)) ->
  (forall ms, Forall compactMember ms -> Forall (fun m => P (snd m)) ms ->
              P (tree.mkObject ms)) ->
  forall v, compact v -> P v.
Proof.
  intros Hn Hs Ha Ho. fix IH 2. intros v [|s|es Hes|ms Hms].
  - exact Hn.
  - apply Hs.
  - apply Ha; [exact Hes|].
    revert es Hes. fix IHes 2. intros es [|e es' He Hes'].
    + constructor.
    + constructor; [apply IH, He | apply IHes, Hes'].
  - apply Ho; [exact Hms|].
    revert ms Hms. fix IHms 2. intros ms [|m ms' [Hk Hm] Hms'].
    + constructor.
    + constructor; [apply IH, Hm | apply IHms, Hms'].
Qed.

Section Indent.

Variables prefix ind : string.

Abbreviation loop := (indent.loop prefix ind).
Abbreviation newline := (indent.newline prefix ind).
Abbreviation due := (dueDst prefix ind).
Abbreviation text := (indented prefix ind).

Lemma loop_step (c : ascii) (rest : string) (s : scan.scanner)
    (needIndent : bool) (depth : Z) (dst : string) :
  loop (String c rest) s needIndent depth dst
  = let '(s1, v) := scan.stepWith s c in
    match v with
    | scan.scanSkipSpace => loop rest s1 needIndent depth dst
    | scan.scanError => (s1, dst)
    | _ =>
        let '(needIndent1, depth1, dst1) :=
          if needIndent && negb (indent.isEnd v) then
            (false, (depth + 1)%Z, dst +:+ newline (depth + 1))
          else (needIndent, depth, dst) in
        match v with
        | scan.scanContinue =>
            loop rest s1 needIndent1 depth1 (dst1 +:+ String c EmptyString)
        | _ =>
            if scan.byteIs c "{" || scan.byteIs c "[" then
              loop rest s1 true depth1 (dst1 +:+ String c EmptyString)
            else if scan.byteIs c "," then
              loop rest s1 needIndent1 depth1
                (dst1 +:+ String c EmptyString +:+ newline depth1)
            else if scan.byteIs c ":" then
              loop rest s1 needIndent1 depth1 (dst1 +:+ String c " ")
            else if scan.byteIs c "}" || scan.byteIs c "]" then
              if needIndent1 then
                loop rest s1 false depth1 (dst1 +:+ String c EmptyString)
              else
                loop rest s1 needIndent1 (depth1 - 1)%Z
                  (dst1 +:+ newline (depth1 - 1) +:+ String c EmptyString)
            else loop rest s1 needIndent1 depth1 (dst1 +:+ String c EmptyString)
        end
    end.
Proof. reflexivity. Qed.

(** A byte inside a string literal is copied. *)
Lemma loop_continue (c : ascii) (rest : string) (s s1 : scan.scanner)
    (depth : Z) (dst : string) :
  scan.stepWith s c = (s1, scan.scanContinue) ->
  loop (String c rest) s false depth dst
  = loop rest s1 false depth (dst +:+ String c EmptyString).
Proof. intros H. rewrite loop_step, H. reflexivity. Qed.

Lemma sapp_one (dst : string) (c : ascii) (l : string) :
  (dst +:+ String c EmptyString) +:+ l = dst +:+ String c l.
Proof. rewrite sapp_assoc. reflexivity. Qed.

(** The bytes of a string literal after its opening quote are copied,
    and leave the scanner at the end of a value. *)
Lemma loop_inString (n : nat) :
  forall t l r ps et er depth dst,
    String.length t < n ->
    scanner.scanString t = Some (l, r) ->
    loop t (scan.mkScanner scan.stateInString ps et er) false depth dst
    = loop r (scan.mkScanner scan.stateEndValue ps et er) false depth
        (dst +:+ l).
Proof.
  induction n as [|n IH]; intros t l r ps et er depth dst Hn H; [lia|].
  destruct t as [|c t]; [discriminate H|].
  cbn [scanner.scanString] in H.
  destruct (Ascii.eqb c quote_char) eqn:Eq.
  { injection H as <- <-.
    rewrite (loop_continue c t _ (scan.mkScanner scan.stateEndValue ps et er));
      [reflexivity|].
    unfold scan.stepWith. cbn [scan.step]. rewrite Eq. reflexivity. }
  destruct (Ascii.eqb c json.backslash) eqn:Eb.
  { destruct t as [|e t1]; [discriminate H|].
    rewrite (loop_continue c _ _ (scan.mkScanner scan.stateInStringEsc ps et er))
      by (unfold scan.stepWith; cbn [scan.step]; rewrite Eq, Eb; reflexivity).
    destruct (scanner.isEscape e) eqn:Ee.
    { destruct (scanner.scanString t1) as [[l1 r1]|] eqn:E1; [|discriminate H].
      injection H as <- <-.
      rewrite (loop_continue e _ _ (scan.mkScanner scan.stateInString ps et er))
        by (unfold scan.stepWith; cbn [scan.step]; rewrite Ee; reflexivity).
      rewrite (IH t1 l1 r1) by (cbn in Hn; first [lia | exact E1]).
      rewrite !sapp_one. reflexivity. }
    destruct (Ascii.eqb e "u") eqn:Eu; [|discriminate H].
    destruct t1 as [|h1 [|h2 [|h3 [|h4 t2]]]]; try discriminate H.
    destruct (scanner.isHex h1) eqn:E1; [|discriminate H].
    destruct (scanner.isHex h2) eqn:E2; [|discriminate H].
    destruct (scanner.isHex h3) eqn:E3; [|discriminate H].
    destruct (scanner.isHex h4) eqn:E4; [|discriminate H].
    cbn [andb] in H.
    destruct (scanner.scanString t2) as [[l1 r1]|] eqn:Et2; [|discriminate H].
    injection H as <- <-.
    rewrite (loop_continue e _ _ (scan.mkScanner scan.stateInStringEscU ps et er))
      by (unfold scan.stepWith, scan.byteIs; cbn [scan.step];
          rewrite Ee, Eu; reflexivity).
    rewrite (loop_continue h1 _ _ (scan.mkScanner scan.stateInStringEscU1 ps et er))
      by (unfold scan.stepWith, scan.hexTo; cbn [scan.step];
          rewrite E1; reflexivity).
    rewrite (loop_continue h2 _ _ (scan.mkScanner scan.stateInStringEscU12 ps et er))
      by (unfold scan.stepWith, scan.hexTo; cbn [scan.step];
          rewrite E2; reflexivity).
    rewrite (loop_continue h3 _ _ (scan.mkScanner scan.stateInStringEscU123 ps et er))
      by (unfold scan.stepWith, scan.hexTo; cbn [scan.step];
          rewrite E3; reflexivity).
    rewrite (loop_continue h4 _ _ (scan.mkScanner scan.stateInString ps et er))
      by (unfold scan.stepWith, scan.hexTo; cbn [scan.step];
          rewrite E4; reflexivity).
    rewrite (IH t2 l1 r1) by (cbn in Hn; first [lia | exact Et2]).
    rewrite !sapp_one. reflexivity. }
  destruct (N_of_ascii c <? 32)%N eqn:Ec; [discriminate H|].
  destruct (scanner.scanString t) as [[l1 r1]|] eqn:Et; [|discriminate H].
  injection H as <- <-.
  rewrite (loop_continue c _ _ (scan.mkScanner scan.stateInString ps et er))
    by (unfold scan.stepWith; cbn [scan.step]; rewrite Eq, Eb, Ec; reflexivity).
  rewrite (IH t l1 r1) by (cbn in Hn; first [lia | exact Et]).
  rewrite !sapp_one. reflexivity.
Qed.


(** *** The punctuation *)

Ltac begins b := intros [-> | ->]; destruct b; reflexivity.

Ltac pushes b H :=
  intros [-> | ->]; destruct b; rewrite loop_step;
  unfold scan.stepWith, scan.doBeginValue, scan.pushParseState;
  cbn [scan.step scan.setStep scan.parseState scan.endTop scan.err
       scanner.isSpace scan.byteIs];
  cbn -[N.leb N.of_nat length scanner.maxNestingDepth indent.loop
        indent.newline String.append];
  rewrite H; reflexivity.

Lemma loop_begin_array st ps et er needIndent depth dst rest :
  (N.of_nat (length (scan.parseArrayValue :: ps))
   <=? scanner.maxNestingDepth)%N = true ->
  st = scan.stateBeginValue \/ st = scan.stateBeginValueOrEmpty ->
  loop (String "[" rest) (scan.mkScanner st ps et er) needIndent depth dst
  = loop rest
      (scan.mkScanner scan.stateBeginValueOrEmpty (scan.parseArrayValue :: ps)
         et er)
      true (dueDepth needIndent depth) (due needIndent depth dst +:+ "[").
Proof. intros H. pushes needIndent H. Qed.

Lemma loop_begin_object st ps et er needIndent depth dst rest :
  (N.of_nat (length (scan.parseObjectKey :: ps))
   <=? scanner.maxNestingDepth)%N = true ->
  st = scan.stateBeginValue \/ st = scan.stateBeginValueOrEmpty ->
  loop (String "{" rest) (scan.mkScanner st ps et er) needIndent depth dst
  = loop rest
      (scan.mkScanner scan.stateBeginStringOrEmpty (scan.parseObjectKey :: ps)
         et er)
      true (dueDepth needIndent depth) (due needIndent depth dst +:+ "{").
Proof. intros H. pushes needIndent H. Qed.

Lemma loop_begin_string st ps et er needIndent depth dst rest :
  st = scan.stateBeginValue \/ st = scan.stateBeginValueOrEmpty ->
  loop (String quote_char rest) (scan.mkScanner st ps et er) needIndent depth dst
  = loop rest (scan.mkScanner scan.stateInString ps et er) false
      (dueDepth needIndent depth)
      (due needIndent depth dst +:+ String quote_char EmptyString).
Proof. begins needIndent. Qed.

Lemma loop_begin_key st ps et er needIndent depth dst rest :
  st = scan.stateBeginString \/ st = scan.stateBeginStringOrEmpty ->
  loop (String quote_char rest) (scan.mkScanner st ps et er) needIndent depth dst
  = loop rest (scan.mkScanner scan.stateInString ps et er) false
      (dueDepth needIndent depth)
      (due needIndent depth dst +:+ String quote_char EmptyString).
Proof. begins needIndent. Qed.

Lemma loop_null st ps et er needIndent depth dst rest :
  st = scan.stateBeginValue \/ st = scan.stateBeginValueOrEmpty ->
  loop ("null" +:+ rest) (scan.mkScanner st ps et er) needIndent depth dst
  = loop rest (scan.mkScanner scan.stateEndValue ps et er) false
      (dueDepth needIndent depth)
      ((((due needIndent depth dst +:+ "n") +:+ "u") +:+ "l") +:+ "l").
Proof. begins needIndent. Qed.

Lemma loop_empty_array ps et er depth dst rest :
  loop (String "]" rest)
    (scan.mkScanner scan.stateBeginValueOrEmpty (scan.parseArrayValue :: ps)
       et er) true depth dst
  = loop rest
      (scan.popParseState
         (scan.mkScanner scan.stateEndValue (scan.parseArrayValue :: ps) et er))
      false depth (dst +:+ "]").
Proof. reflexivity. Qed.

Lemma loop_empty_object ps et er depth dst rest :
  loop (String "}" rest)
    (scan.mkScanner scan.stateBeginStringOrEmpty (scan.parseObjectKey :: ps)
       et er) true depth dst
  = loop rest
      (scan.popParseState
         (scan.mkScanner scan.stateEndValue (scan.parseObjectValue :: ps) et er))
      false depth (dst +:+ "}").
Proof. reflexivity. Qed.

Lemma loop_end_array ps et er depth dst rest :
  loop (String "]" rest)
    (scan.mkScanner scan.stateEndValue (scan.parseArrayValue :: ps) et er)
    false depth dst
  = loop rest
      (scan.popParseState
         (scan.mkScanner scan.stateEndValue (scan.parseArrayValue :: ps) et er))
      false (depth - 1) (dst +:+ newline (depth - 1) +:+ "]").
Proof. reflexivity. Qed.

Lemma loop_end_object ps et er depth dst rest :
  loop (String "}" rest)
    (scan.mkScanner scan.stateEndValue (scan.parseObjectValue :: ps) et er)
    false depth dst
  = loop rest
      (scan.popParseState
         (scan.mkScanner scan.stateEndValue (scan.parseObjectValue :: ps) et er))
      false (depth - 1) (dst +:+ newline (depth - 1) +:+ "}").
Proof. reflexivity. Qed.

Lemma loop_comma_array ps et er depth dst rest :
  loop (String "," rest)
    (scan.mkScanner scan.stateEndValue (scan.parseArrayValue :: ps) et er)
    false depth dst
  = loop rest
      (scan.mkScanner scan.stateBeginValue (scan.parseArrayValue :: ps) et er)
      false depth (dst +:+ "," +:+ newline depth).
Proof. reflexivity. Qed.

Lemma loop_comma_object ps et er depth dst rest :
  loop (String "," rest)
    (scan.mkScanner scan.stateEndValue (scan.parseObjectValue :: ps) et er)
    false depth dst
  = loop rest
      (scan.mkScanner scan.stateBeginString (scan.parseObjectKey :: ps) et er)
      false depth (dst +:+ "," +:+ newline depth).
Proof. reflexivity. Qed.

Lemma loop_colon ps et er depth dst rest :
  loop (String ":" rest)
    (scan.mkScanner scan.stateEndValue (scan.parseObjectKey :: ps) et er)
    false depth dst
  = loop rest
      (scan.mkScanner scan.stateBeginValue (scan.parseObjectValue :: ps) et er)
      false depth (dst +:+ ": ").
Proof. reflexivity. Qed.

Lemma afterValue_inside (p : scan.parse) (ps : list scan.parse) (et er : bool)
    (v : value) :
  afterValue (p :: ps) et er v
  = scan.mkScanner scan.stateEndValue (p :: ps) et er.
Proof. destruct v; reflexivity. Qed.

Lemma dueDepth_false (depth : Z) : dueDepth false depth = depth.
Proof. reflexivity. Qed.

Lemma due_false (depth : Z) (dst : string) : due false depth dst = dst.
Proof. reflexivity. Qed.

(** *** Values *)

Lemma indents_null : indentsValue prefix ind tree.null.
Proof.
  intros rest st ps et er needIndent depth dst Hst _.
  change (decode.rawOf tree.null) with "null".
  rewrite (loop_null st ps et er needIndent depth dst rest Hst).
  cbn [afterValue tree.null indented]. rewrite !sapp_one. reflexivity.
Qed.

Lemma indents_str (s : string) : indentsValue prefix ind (tree.str s).
Proof.
  intros rest st ps et er needIndent depth dst Hst _.
  destruct (scanString_appendString s rest) as (body & Hbody & Hscan).
  cbn [tree.str decode.rawOf afterValue indented]. rewrite Hbody, sapp_cons.
  rewrite (loop_begin_string st ps et er needIndent depth _ _ Hst).
  rewrite (loop_inString (S (String.length (body +:+ rest))) _ body rest)
    by first [lia | exact Hscan].
  rewrite sapp_one. reflexivity.
Qed.


Lemma concat_cons2 (sep x y : string) (l : list string) :
  String.concat sep (x :: y :: l) = x +:+ sep +:+ String.concat sep (y :: l).
Proof. reflexivity. Qed.

Lemma indents_elems (es : list value) :
  es <> [] ->
  Forall (indentsValue prefix ind) es ->
  forall rest st ps et er needIndent depth dst,
    st = scan.stateBeginValue \/ st = scan.stateBeginValueOrEmpty ->
    Forall (fun e =>
              (N.of_nat (length (scan.parseArrayValue :: ps)) + nesting e
               <= scanner.maxNestingDepth)%N) es ->
    loop (elemsText es +:+ "]" +:+ rest)
      (scan.mkScanner st (scan.parseArrayValue :: ps) et er)
      needIndent depth dst
    = loop rest
        (scan.popParseState
           (scan.mkScanner scan.stateEndValue (scan.parseArrayValue :: ps)
              et er))
        false (dueDepth needIndent depth - 1)
        (due needIndent depth dst
         +:+ String.concat ("," +:+ newline (dueDepth needIndent depth))
               (map (text (dueDepth needIndent depth)) es)
         +:+ newline (dueDepth needIndent depth - 1) +:+ "]").
Proof.
  induction es as [|e es IH]; [contradiction|]. intros _ Hall.
  apply List.Forall_cons_iff in Hall as [He Hes].
  intros rest st ps et er needIndent depth dst Hst Hfit.
  apply List.Forall_cons_iff in Hfit as [Hfe Hfes].
  destruct es as [|e' es'].
  - change (elemsText [e]) with (decode.rawOf e).
    rewrite (He _ st _ et er needIndent depth dst Hst Hfe), afterValue_inside.
    change ("]" +:+ rest) with (String "]" rest).
    rewrite loop_end_array. cbn [map String.concat].
    rewrite !sapp_assoc. reflexivity.
  - unfold elemsText. cbn [map]. rewrite join_cons2, !sapp_assoc.
    rewrite (He _ st _ et er needIndent depth dst Hst Hfe), afterValue_inside.
    change ("," +:+ ?x) with (String "," x).
    rewrite sapp_cons, sapp_nil_l, loop_comma_array.
    specialize (IH ltac:(discriminate) Hes rest scan.stateBeginValue ps et er
                  false (dueDepth needIndent depth)).
    unfold elemsText in IH. cbn [map] in IH.
    rewrite IH by first [left; reflexivity | exact Hfes].
    rewrite dueDepth_false, due_false, concat_cons2, !sapp_assoc. reflexivity.
Qed.

Lemma indents_array (es : list value) :
  Forall (indentsValue prefix ind) es -> indentsValue prefix ind (tree.mkArray es).
Proof.
  intros Hes rest st ps et er needIndent depth dst Hst Hfit.
  destruct (nesting_Array _ _ _ Hfit) as [Hpush Hin].
  assert (Hp : (N.of_nat (length (scan.parseArrayValue :: ps))
                <=? scanner.maxNestingDepth)%N = true).
  { apply N.leb_le in Hpush. apply N.leb_le. cbn [length]. lia. }
  assert (Hfes : Forall (fun e =>
                           (N.of_nat (length (scan.parseArrayValue :: ps))
                            + nesting e <= scanner.maxNestingDepth)%N) es).
  { revert Hin. apply List.Forall_impl. intros e He. cbn [length]. lia. }
  cbn [tree.mkArray decode.rawOf]. unfold tree.arrayText.
  change ("[" +:+ ?x) with (String "[" x). rewrite sapp_cons.
  rewrite (loop_begin_array st ps et er needIndent depth dst _ Hp Hst).
  destruct es as [|e es].
  - cbn [map json.join String.concat]. rewrite sapp_nil_l.
    change ("]" +:+ rest) with (String "]" rest).
    rewrite loop_empty_array. cbn [indented afterValue scan.popParseState tl
                                   scan.parseState scan.endTop scan.err].
    rewrite sapp_assoc. destruct ps; reflexivity.
  - rewrite sapp_assoc.
    rewrite (indents_elems (e :: es) ltac:(discriminate) Hes rest
               scan.stateBeginValueOrEmpty ps et er true)
      by first [right; reflexivity | exact Hfes].
    cbn [dueDepth dueDst indented afterValue scan.popParseState tl
         scan.parseState scan.endTop scan.err].
    replace (dueDepth needIndent depth + 1 - 1)%Z with (dueDepth needIndent depth)
      by lia.
    rewrite !sapp_assoc. destruct ps; reflexivity.
Qed.

Lemma indents_members (ms : list (string * value)) :
  ms <> [] ->
  Forall compactMember ms ->
  Forall (fun m => indentsValue prefix ind (snd m)) ms ->
  forall rest st ps et er needIndent depth dst,
    st = scan.stateBeginString \/ st = scan.stateBeginStringOrEmpty ->
    Forall (fun m : string * value =>
              (N.of_nat (length (scan.parseObjectKey :: ps)) + nesting (snd m)
               <= scanner.maxNestingDepth)%N) ms ->
    loop (membersText ms +:+ "}" +:+ rest)
      (scan.mkScanner st (scan.parseObjectKey :: ps) et er)
      needIndent depth dst
    = loop rest
        (scan.popParseState
           (scan.mkScanner scan.stateEndValue (scan.parseObjectValue :: ps)
              et er))
        false (dueDepth needIndent depth - 1)
        (due needIndent depth dst
         +:+ String.concat ("," +:+ newline (dueDepth needIndent depth))
               (map (indentedMember prefix ind (dueDepth needIndent depth)) ms)
         +:+ newline (dueDepth needIndent depth - 1) +:+ "}").
Proof.
  induction ms as [|[k x] ms IH]; [contradiction|]. intros _ Hcs Hall.
  apply List.Forall_cons_iff in Hcs as [[[key Hkey] _] Hcs].
  apply List.Forall_cons_iff in Hall as [Hx Hms].
  cbn [fst snd] in Hkey, Hx. subst k.
  intros rest st ps et er needIndent depth dst Hst Hfit.
  apply List.Forall_cons_iff in Hfit as [Hfx Hfms]. cbn [snd] in Hfx.
  assert (Hmember :
    forall tail,
      loop (tree.memberText (json.appendString key, x) +:+ tail)
        (scan.mkScanner st (scan.parseObjectKey :: ps) et er)
        needIndent depth dst
      = loop tail
          (scan.mkScanner scan.stateEndValue (scan.parseObjectValue :: ps)
             et er)
          false (dueDepth needIndent depth)
          (due needIndent depth dst
           +:+ indentedMember prefix ind (dueDepth needIndent depth)
                 (json.appendString key, x))).
  { intros tail. unfold tree.memberText, indentedMember. cbn [fst snd].
    rewrite !sapp_assoc.
    destruct (scanString_appendString key
                (":" +:+ decode.rawOf x +:+ tail)) as (body & Hbody & Hscan).
    rewrite Hbody, sapp_cons.
    rewrite (loop_begin_key st _ et er needIndent depth dst _ Hst).
    rewrite (loop_inString (S (String.length
                                 (body +:+ ":" +:+ decode.rawOf x +:+ tail)))
               _ body (":" +:+ decode.rawOf x +:+ tail))
      by first [lia | exact Hscan].
    change (":" +:+ ?y) with (String ":" y).
    rewrite loop_colon.
    rewrite (Hx tail scan.stateBeginValue _ et er false)
      by first [left; reflexivity | exact Hfx].
    rewrite afterValue_inside, dueDepth_false, due_false.
    rewrite !sapp_assoc, !sapp_cons, !sapp_nil_l. reflexivity. }
  destruct ms as [|m' ms'].
  - unfold membersText. cbn [map json.join String.concat].
    rewrite Hmember. change ("}" +:+ rest) with (String "}" rest).
    rewrite loop_end_object. rewrite !sapp_assoc. reflexivity.
  - unfold membersText. cbn [map]. rewrite join_cons2, !sapp_assoc.
    rewrite Hmember.
    change ("," +:+ ?y) with (String "," y).
    rewrite loop_comma_object.
    specialize (IH ltac:(discriminate) Hcs Hms rest scan.stateBeginString ps
                  et er false (dueDepth needIndent depth)).
    unfold membersText in IH. cbn [map] in IH.
    rewrite IH by first [left; reflexivity | exact Hfms].
    rewrite dueDepth_false, due_false, concat_cons2, !sapp_assoc. reflexivity.
Qed.

Lemma indents_object (ms : list (string * value)) :
  Forall compactMember ms ->
  Forall (fun m => indentsValue prefix ind (snd m)) ms ->
  indentsValue prefix ind (tree.mkObject ms).
Proof.
  intros Hcs Hms rest st ps et er needIndent depth dst Hst Hfit.
  destruct (nesting_Object _ _ _ Hfit) as [Hpush Hin].
  assert (Hp : (N.of_nat (length (scan.parseObjectKey :: ps))
                <=? scanner.maxNestingDepth)%N = true).
  { apply N.leb_le in Hpush. apply N.leb_le. cbn [length]. lia. }
  assert (Hfms : Forall (fun m : string * value =>
                           (N.of_nat (length (scan.parseObjectKey :: ps))
                            + nesting (snd m) <= scanner.maxNestingDepth)%N)
                   ms).
  { revert Hin. apply List.Forall_impl. intros e He. cbn [length]. lia. }
  cbn [tree.mkObject decode.rawOf]. unfold tree.objectText.
  change ("{" +:+ ?x) with (String "{" x). rewrite sapp_cons.
  rewrite (loop_begin_object st ps et er needIndent depth dst _ Hp Hst).
  destruct ms as [|m ms].
  - cbn [map json.join String.concat]. rewrite sapp_nil_l.
    change ("}" +:+ rest) with (String "}" rest).
    rewrite loop_empty_object. cbn [indented afterValue scan.popParseState tl
                                    scan.parseState scan.endTop scan.err].
    rewrite sapp_assoc. destruct ps; reflexivity.
  - rewrite sapp_assoc.
    rewrite (indents_members (m :: ms) ltac:(discriminate) Hcs Hms rest
               scan.stateBeginStringOrEmpty ps et er true)
      by first [right; reflexivity | exact Hfms].
    cbn [dueDepth dueDst indented afterValue scan.popParseState tl
         scan.parseState scan.endTop scan.err].
    replace (dueDepth needIndent depth + 1 - 1)%Z with (dueDepth needIndent depth)
      by lia.
    rewrite !sapp_assoc. destruct ps; reflexivity.
Qed.

(** [Indent] copies the text of every tree [Marshal] writes, indented. *)
Lemma indents_compact (v : value) : compact v -> indentsValue prefix ind v.
Proof.
  apply compact_induction.
  - apply indents_null.
  - apply indents_str.
  - intros es _. apply indents_array.
  - apply indents_object.
Qed.

Lemma Indent_compact (v : value) :
  compact v -> (nesting v <= scanner.maxNestingDepth)%N ->
  indent.Indent (decode.rawOf v) prefix ind = Ok (indented prefix ind 0%Z v).
Proof.
  intros Hv Hn. unfold indent.Indent, scan.reset.
  rewrite <- (sapp_nil_r (decode.rawOf v)).
  rewrite (indents_compact v Hv "" scan.stateBeginValue [] false false false 0%Z "")
    by first [left; reflexivity | cbn [length]; lia].
  cbn [indent.loop dueDepth dueDst]. rewrite sapp_nil_l.
  destruct Hv; reflexivity.
Qed.

End Indent.

Lemma MarshalIndent_tree (p : Policy) (prefix ind : string) :
  indent.MarshalIndent p prefix ind
  = Ok (indented prefix ind 0 (tree.ofPolicy p)).
Proof.
  unfold indent.MarshalIndent, json.Marshal.
  rewrite encodePolicy_tree. cbn [rbind].
  apply Indent_compact; [apply compact_ofPolicy|].
  pose proof (nesting_ofPolicy p). unfold scanner.maxNestingDepth. lia.
Qed.

Lemma String_tree (p : Policy) :
  Policy_String p = indented "" "    " 0 (tree.ofPolicy p).
Proof. unfold Policy_String. rewrite MarshalIndent_tree. reflexivity. Qed.

(** [String] drops the error of [MarshalIndent], and there is none to
    drop: for every policy [MarshalIndent] returns the text [String]
    returns, which is the document [Get] writes with every member and
    every element on a line of its own, indented by four spaces for each
    object or array it is in, a space after every colon, and [[]] and [{}]
    for an array and an object that hold nothing.  It is never the empty
    string. *)
Theorem String_is_indented_Get (p : Policy) :
  exists b doc,
    Get p = Ok b
    /\ scanner.parse b = Some doc
    /\ indent.MarshalIndent p "" "    " = Ok (Policy_String p)
    /\ Policy_String p = indented "" "    " 0 doc
    /\ Policy_String p <> "".
Proof.
  destruct (Get_parse p) as (b & HGet & HParse).
  exists b, (tree.ofPolicy p). split; [exact HGet|]. split; [exact HParse|].
  split; [rewrite MarshalIndent_tree, String_tree; reflexivity|].
  split; [apply String_tree|].
  rewrite String_tree. unfold tree.ofPolicy.
  destruct (json.isNil (polId p)); discriminate.
Qed.

(** ** The decoders make nothing of the layout *)

Section LayoutFree.

Import decode decoder.

Lemma agree_refl {A : Type} (r : result A) : agree r r.
Proof. left. reflexivity. Qed.

Lemma agree_bind {A B : Type} (x x' : D A) (k : A -> D B) (saved : option error) :
  agree (x saved) (x' saved) ->
  agree (bind x k saved) (bind x' k saved).
Proof.
  unfold bind. intros [E | (e & e' & E & E')].
  - rewrite E. apply agree_refl.
  - rewrite E, E'. right. eauto.
Qed.

Lemma agree_bind_k {A B : Type} (x : D A) (k k' : A -> D B)
    (saved : option error) :
  (forall a s, agree (k a s) (k' a s)) ->
  agree (bind x k saved) (bind x k' saved).
Proof.
  unfold bind. intros H. destruct (x saved) as [[a s]|e]; [apply H|].
  apply agree_refl.
Qed.

Lemma agree_trans {A : Type} (r1 r2 r3 : result A) :
  agree r1 r2 -> agree r2 r3 -> agree r1 r3.
Proof.
  intros [-> | (e & e' & -> & ->)] [<- | (e2 & e3 & E2 & ->)].
  - apply agree_refl.
  - right. eauto.
  - right. eauto.
  - right. eauto.
Qed.

Lemma layoutFree_decodeString : layoutFree decodeString.
Proof. intros v v' [] cur saved; apply agree_refl. Qed.

Lemma layoutFree_decodePtr {A : Type} (zero : A) (dec : A -> value -> D A) :
  layoutFree dec -> layoutFree (decodePtr zero dec).
Proof.
  intros Hdec v v' Hv cur saved.
  destruct Hv as [item|raw raw' es es' Hr Hr' Hes|raw raw' ms ms' Hr Hr' Hms].
  - apply agree_refl.
  - unfold decodePtr. apply agree_bind, Hdec. constructor; assumption.
  - unfold decodePtr. apply agree_bind, Hdec. constructor; assumption.
Qed.

Lemma layoutFree_decodeElems {A : Type} (zero : A) (dec : A -> value -> D A)
    (es es' : list value) :
  layoutFree dec -> Forall2 sameShape es es' ->
  forall old saved,
    agree (decodeElems zero dec old es saved) (decodeElems zero dec old es' saved).
Proof.
  intros Hdec Hes. induction Hes as [|e e' es es' He _ IH]; intros old saved.
  - apply agree_refl.
  - cbn [decodeElems].
    eapply agree_trans; [apply agree_bind, (Hdec e e' He)|].
    apply agree_bind_k. intros a s. apply agree_bind, IH.
Qed.

Lemma layoutFree_decodeSlice {A : Type} (type : string) (zero : A)
    (dec : A -> value -> D A) :
  layoutFree dec -> layoutFree (decodeSlice type zero dec).
Proof.
  intros Hdec v v' Hv cur saved.
  destruct Hv as [item|raw raw' es es' Hr Hr' Hes|raw raw' ms ms' Hr Hr' Hms];
    try apply agree_refl.
  unfold decodeSlice.
  eapply agree_trans;
    [apply agree_bind, layoutFree_decodeElems; eassumption|].
  apply agree_bind_k. intros l s.
  rewrite (List.Forall2_length Hes).
  destruct Hes; apply agree_refl.
Qed.

Lemma layoutFree_decodeMembers {A : Type} (step : A -> string -> value -> D A)
    (ms ms' : list (string * value)) :
  (forall key, layoutFree (fun cur v => step cur key v)) ->
  Forall2 (fun m m' : string * value =>
             fst m = fst m' /\ sameShape (snd m) (snd m')) ms ms' ->
  forall cur saved,
    agree (decodeMembers step cur ms saved) (decodeMembers step cur ms' saved).
Proof.
  intros Hstep Hms.
  induction Hms as [|[k x] [k' x'] ms ms' [Hk Hx] _ IH]; intros cur saved.
  - apply agree_refl.
  - cbn [fst snd] in Hk, Hx. subst k'. cbn [decodeMembers].
    destruct (unquoteBytes k) as [key|]; [|apply agree_refl].
    eapply agree_trans; [apply agree_bind, (Hstep key x x' Hx)|].
    apply agree_bind_k. intros a s. apply IH.
Qed.

Lemma layoutFree_decodeMap {V : Type} (type : string) (zero : V)
    (dec : V -> value -> D V) :
  layoutFree dec -> layoutFree (decodeMap type zero dec).
Proof.
  intros Hdec v v' Hv cur saved.
  destruct Hv as [item|raw raw' es es' Hr Hr' Hes|raw raw' ms ms' Hr Hr' Hms];
    try apply agree_refl.
  unfold decodeMap. apply agree_bind, layoutFree_decodeMembers; [|exact Hms].
  intros key x x' Hx g saved'. unfold storeEntry. apply agree_bind, Hdec, Hx.
Qed.

Lemma layoutFree_decodeStruct {A : Type} (type : string) (names : list string)
    (store : string -> A -> value -> D A) :
  (forall f, layoutFree (store f)) -> layoutFree (decodeStruct type names store).
Proof.
  intros Hstore v v' Hv cur saved.
  destruct Hv as [item|raw raw' es es' Hr Hr' Hes|raw raw' ms ms' Hr Hr' Hms];
    try apply agree_refl.
  unfold decodeStruct. apply layoutFree_decodeMembers; [|exact Hms].
  intros key x x' Hx cur' saved'. unfold storeMember.
  destruct (findField names key); [apply Hstore, Hx | apply agree_refl].
Qed.

Lemma unquoted_not_lit (raw s : string) :
  unquoted raw = true -> String.eqb raw (lit s) = false.
Proof.
  destruct raw as [|c raw]; [reflexivity|]. cbn [unquoted].
  intros H. apply String.eqb_neq. intros E. unfold lit in E.
  injection E as -> _. rewrite Ascii.eqb_refl in H. discriminate H.
Qed.

Lemma layoutFree_decodeEffect : layoutFree decodeEffect.
Proof.
  intros v v' Hv cur saved.
  destruct Hv as [item|raw raw' es es' Hr Hr' Hes|raw raw' ms ms' Hr Hr' Hms];
    [apply agree_refl| |];
    unfold decodeEffect, EffectJSON.UnmarshalJSON; cbn [rawOf];
    rewrite !(unquoted_not_lit raw), !(unquoted_not_lit raw') by assumption;
    right; eexists; eexists; split; reflexivity.
Qed.

Lemma layoutFree_decodePolicyVersion : layoutFree decodePolicyVersion.
Proof.
  intros v v' Hv cur saved.
  destruct Hv as [item|raw raw' es es' Hr Hr' Hes|raw raw' ms ms' Hr Hr' Hms];
    [apply agree_refl| |];
    unfold decodePolicyVersion, PolicyVersionJSON.UnmarshalJSON; cbn [rawOf];
    rewrite !(unquoted_not_lit raw), !(unquoted_not_lit raw') by assumption;
    right; eexists; eexists; split; reflexivity.
Qed.

Lemma layoutFree_decodeStrings : layoutFree decodeStrings.
Proof. apply layoutFree_decodeSlice, layoutFree_decodeString. Qed.

Lemma layoutFree_decodeNewSlice {A : Type} (type : string) (zero : A)
    (dec : A -> value -> D A) :
  layoutFree dec -> layoutFree (decodeNewSlice type zero dec).
Proof.
  intros Hdec v v' Hv cur saved. unfold decodeNewSlice.
  apply agree_bind, layoutFree_decodeSlice; assumption.
Qed.

Lemma layoutFree_decodePrincipal : layoutFree decodePrincipal.
Proof.
  apply layoutFree_decodeStruct. intros f v v' Hv cur saved.
  unfold storePrincipal. destruct (String.eqb f "AWS"); [|apply agree_refl].
  apply agree_bind, layoutFree_decodeStrings, Hv.
Qed.

Lemma layoutFree_decodeCondition : layoutFree decodeCondition.
Proof.
  apply layoutFree_decodeMap, layoutFree_decodeMap, layoutFree_decodeNewSlice.
  apply layoutFree_decodeString.
Qed.

Lemma layoutFree_decodeStatement : layoutFree decodeStatement.
Proof.
  apply layoutFree_decodeStruct. intros f v v' Hv cur saved.
  unfold storeStatement.
  repeat match goal with
         | |- agree ((if ?b then _ else _) _) _ => destruct b
         end;
    try apply agree_refl; apply agree_bind.
  - apply layoutFree_decodePtr, Hv. apply layoutFree_decodeString.
  - apply layoutFree_decodeEffect, Hv.
  - apply layoutFree_decodePtr, Hv. apply layoutFree_decodePrincipal.
  - apply layoutFree_decodePtr, Hv. apply layoutFree_decodePrincipal.
  - apply layoutFree_decodeStrings, Hv.
  - apply layoutFree_decodeStrings, Hv.
  - apply layoutFree_decodeString, Hv.
  - apply layoutFree_decodeCondition, Hv.
Qed.

Lemma layoutFree_decodePolicy : layoutFree decodePolicy.
Proof.
  apply layoutFree_decodeStruct. intros f v v' Hv cur saved.
  unfold storePolicy.
  repeat match goal with
         | |- agree ((if ?b then _ else _) _) _ => destruct b
         end;
    try apply agree_refl; apply agree_bind.
  - apply layoutFree_decodePolicyVersion, Hv.
  - apply layoutFree_decodePtr, Hv. apply layoutFree_decodeString.
  - apply layoutFree_decodeSlice, Hv.
    apply layoutFree_decodePtr, layoutFree_decodeStatement.
Qed.

End LayoutFree.

(** Two documents that hold the same values are read alike by
    [LoadPolicy]: the same policy, or an error for both. *)
Lemma LoadPolicy_sameShape (data data' : string) (v v' : value) :
  scanner.parse data = Some v ->
  scanner.parse data' = Some v' ->
  sameShape v v' ->
  agree (LoadPolicy data) (LoadPolicy data').
Proof.
  intros HP HP' Hv. unfold LoadPolicy, decoder.Unmarshal. rewrite HP, HP'.
  destruct (layoutFree_decodePolicy v v' Hv decoder.zeroPolicyMem None)
    as [E | (e & e' & E & E')].
  - rewrite E. apply agree_refl.
  - rewrite E, E'. right. eauto.
Qed.

(** ** The scanner reads the indented text *)

Section ParseIndented.

Import scanner decode.

Variables prefix ind : string.
Hypothesis prefix_blank : blank prefix = true.
Hypothesis ind_blank : blank ind = true.

Abbreviation newline := (indent.newline prefix ind).
Abbreviation text := (indented prefix ind).
Abbreviation itree := (indentedTree prefix ind).

Lemma skipSpace_blank (s x : string) :
  blank s = true -> skipSpace (s +:+ x) = skipSpace x.
Proof.
  induction s as [|c s IH]; intros H; [apply (f_equal skipSpace), sapp_nil_l|].
  cbn [blank allChars] in H. apply andb_prop in H as [Hc Hs].
  rewrite sapp_cons. cbn [skipSpace]. rewrite Hc. apply IH, Hs.
Qed.

Lemma blank_app (s t : string) :
  blank s = true -> blank t = true -> blank (s +:+ t) = true.
Proof.
  induction s as [|c s IH]; intros Hs Ht; [rewrite sapp_nil_l; exact Ht|].
  cbn [blank allChars] in Hs. apply andb_prop in Hs as [Hc Hs].
  rewrite sapp_cons. cbn [blank allChars]. rewrite Hc. apply IH; assumption.
Qed.

Lemma blank_newline (d : Z) : blank (newline d) = true.
Proof.
  unfold indent.newline. cbn [blank allChars].
  change (isSpace (ascii_of_N 10)) with true. cbn [andb].
  apply blank_app; [exact prefix_blank|].
  induction (Z.to_nat d) as [|n IH]; [reflexivity|].
  cbn [repeat]. destruct n as [|n].
  - exact ind_blank.
  - change (String.concat "" (ind :: repeat ind (S n)))
      with (ind +:+ "" +:+ String.concat "" (repeat ind (S n))).
    rewrite sapp_nil_l. apply blank_app; [exact ind_blank | exact IH].
Qed.

Lemma skipSpace_newline (d : Z) (x : string) :
  skipSpace (newline d +:+ x) = skipSpace x.
Proof. apply skipSpace_blank, blank_newline. Qed.

Lemma skipSpace_value (s : string) : startsValue s = true -> skipSpace s = s.
Proof.
  intros H. destruct (startsValue_head s H) as (c & t & _ & Hs & _). exact Hs.
Qed.

Lemma startsValue_text (d : Z) (v : value) :
  compact v -> startsValue (text d v) = true.
Proof.
  intros []; try reflexivity.
  - cbn [indented tree.mkArray]. destruct es; reflexivity.
  - cbn [indented tree.mkObject]. destruct ms; reflexivity.
Qed.

(** The indented text of the elements of an array, and of the members
    of an object. *)
Lemma text_array (d : Z) (raw : string) (e : value) (es : list value) :
  text d (Array raw (e :: es))
  = "[" +:+ newline (d + 1)
    +:+ String.concat ("," +:+ newline (d + 1)) (map (text (d + 1)) (e :: es))
    +:+ newline d +:+ "]".
Proof. reflexivity. Qed.

Lemma text_object (d : Z) (raw : string) (m : string * value)
    (ms : list (string * value)) :
  text d (Object raw (m :: ms))
  = "{" +:+ newline (d + 1)
    +:+ String.concat ("," +:+ newline (d + 1))
          (map (indentedMember prefix ind (d + 1)) (m :: ms))
    +:+ newline d +:+ "}".
Proof. reflexivity. Qed.

Lemma concat_length_le (sep x : string) (l : list string) :
  String.length x <= String.length (String.concat sep (x :: l)).
Proof.
  destruct l; [cbn; lia|]. rewrite concat_cons2, !slength_app. lia.
Qed.

Lemma startsValue_concat (sep x : string) (l : list string) (rest : string) :
  startsValue x = true ->
  startsValue (String.concat sep (x :: l) +:+ rest) = true.
Proof.
  intros H. apply startsValue_sapp. destruct l; [exact H|].
  rewrite concat_cons2. apply startsValue_sapp, H.
Qed.

Lemma consumed_bracketed (o : ascii) (a b c d rest : string) :
  consumed (String o (a +:+ b +:+ c +:+ d +:+ rest)) rest
  = String o EmptyString +:+ a +:+ b +:+ c +:+ d.
Proof.
  replace (String o (a +:+ b +:+ c +:+ d +:+ rest))
    with ((String o EmptyString +:+ a +:+ b +:+ c +:+ d) +:+ rest)
    by (rewrite !sapp_assoc; reflexivity).
  apply consumed_app.
Qed.

Lemma parse_indented (fuel : nat) :
  (forall v rest d n,
      compact v -> String.length (text d v) < fuel ->
      (n + nesting v <= maxNestingDepth)%N ->
      parseValue fuel n (text d v +:+ rest) = Some (itree d v, rest))
  /\ (forall es rest d d0 n,
         es <> [] -> Forall compact es ->
         String.length
           (String.concat ("," +:+ newline d) (map (text d) es)) + 1 < fuel ->
         Forall (fun e => (n + nesting e <= maxNestingDepth)%N) es ->
         parseElems fuel n
           (String.concat ("," +:+ newline d) (map (text d) es)
            +:+ newline d0 +:+ "]" +:+ rest)
         = Some (map (itree d) es, rest))
  /\ (forall ms rest d d0 n,
         ms <> [] -> Forall compactMember ms ->
         String.length
           (String.concat ("," +:+ newline d)
              (map (indentedMember prefix ind d) ms)) + 1 < fuel ->
         Forall (fun m : string * value =>
                   (n + nesting (snd m) <= maxNestingDepth)%N) ms ->
         parseMembers fuel n
           (String.concat ("," +:+ newline d)
              (map (indentedMember prefix ind d) ms)
            +:+ newline d0 +:+ "}" +:+ rest)
         = Some (map (fun m : string * value => (fst m, itree d (snd m))) ms,
                 rest)).
Proof.
  induction fuel as [|fuel (IHv & IHe & IHm)].
  { repeat split; intros; lia. }
  split; [|split].
  - intros v rest d n Hv Hlen Hn. destruct Hv as [|s|es Hes|ms Hms].
    + apply parseValue_null.
    + cbn [indented indentedTree tree.str].
      destruct (scanString_appendString s rest) as (body & E & Hscan).
      rewrite E. rewrite sapp_cons, parseValue_string, Hscan. reflexivity.
    + unfold tree.mkArray in *.
      destruct (nesting_Array _ _ _ Hn) as [Hpush Hin].
      destruct es as [|e es].
      * cbn [indented indentedTree map]. 
        change ("[]" +:+ rest) with (String "[" (String "]" rest)).
        rewrite (parseValue_array _ _ _ Hpush). cbn [skipSpace].
        change (isSpace "]") with false. change (Ascii.eqb "]" "]") with true.
        cbv iota.
        change (String "[" (String "]" rest)) with ("[]" +:+ rest).
        rewrite consumed_app. reflexivity.
      * rewrite text_array in Hlen |- *. cbn [indentedTree].
        rewrite text_array. inversion Hes as [|? ? He Hes']; subst.
        rewrite !sapp_assoc, sapp_cons, sapp_nil_l.
        rewrite (parseValue_array _ _ _ Hpush), skipSpace_newline.
        assert (Hstart :
          startsValue
            (String.concat ("," +:+ newline (d + 1))
               (map (text (d + 1)) (e :: es))
             +:+ newline d +:+ "]" +:+ rest) = true).
        { cbn [map]. apply startsValue_concat, startsValue_text, He. }
        rewrite (skipSpace_value _ Hstart).
        destruct (startsValue_head _ Hstart) as (c1 & t1 & E & _ & Hc1 & _).
        rewrite E, Hc1, <- E.
        rewrite (IHe (e :: es) rest (d + 1)%Z d (n + 1)%N);
          [|discriminate|exact Hes| |exact Hin].
        -- rewrite consumed_bracketed. reflexivity.
        -- rewrite !slength_app in Hlen. cbn [String.length] in Hlen. lia.
    + unfold tree.mkObject in *.
      destruct (nesting_Object _ _ _ Hn) as [Hpush Hin].
      destruct ms as [|m ms].
      * cbn [indented indentedTree map].
        change ("{}" +:+ rest) with (String "{" (String "}" rest)).
        rewrite (parseValue_object _ _ _ Hpush). cbn [skipSpace].
        change (isSpace "}") with false. change (Ascii.eqb "}" "}") with true.
        cbv iota.
        change (String "{" (String "}" rest)) with ("{}" +:+ rest).
        rewrite consumed_app. reflexivity.
      * rewrite text_object in Hlen |- *. cbn [indentedTree].
        rewrite text_object. inversion Hms as [|? ? Hm Hms']; subst.
        rewrite !sapp_assoc, sapp_cons, sapp_nil_l.
        rewrite (parseValue_object _ _ _ Hpush), skipSpace_newline.
        assert (Hstart :
          startsValue
            (String.concat ("," +:+ newline (d + 1))
               (map (indentedMember prefix ind (d + 1)) (m :: ms))
             +:+ newline d +:+ "}" +:+ rest) = true).
        { cbn [map]. apply startsValue_concat.
          destruct Hm as [[k Hk] _]. destruct m as [key val]. cbn in Hk.
          subst key. reflexivity. }
        rewrite (skipSpace_value _ Hstart).
        destruct (startsValue_head _ Hstart) as (c1 & t1 & E & _ & _ & Hc1).
        rewrite E, Hc1, <- E.
        rewrite (IHm (m :: ms) rest (d + 1)%Z d (n + 1)%N);
          [|discriminate|exact Hms| |exact Hin].
        -- rewrite consumed_bracketed. reflexivity.
        -- rewrite !slength_app in Hlen. cbn [String.length] in Hlen. lia.
  - intros es rest d d0 n Hne Hes Hlen Hn.
    destruct es as [|e es]; [congruence|].
    inversion Hes as [|? ? He Hes']; subst.
    inversion Hn as [|? ? Hne0 Hn']; subst.
    rewrite parseElems_S.
    destruct es as [|e2 es].
    + cbn [map String.concat] in *.
      rewrite IHv; [|exact He|lia|exact Hne0].
      rewrite skipSpace_newline.
      change ("]" +:+ rest) with (String "]" rest). cbn [skipSpace].
      reflexivity.
    + cbn [map] in Hlen |- *. rewrite concat_cons2 in Hlen |- *.
      rewrite !sapp_assoc. rewrite !slength_app in Hlen.
      rewrite IHv; [|exact He|lia|exact Hne0].
      change ("," +:+ ?x) with (String "," x). cbn [skipSpace].
      change (isSpace ",") with false. change (Ascii.eqb "," ",") with true.
      cbv iota. rewrite skipSpace_newline.
      inversion Hes' as [|? ? He2 _]; subst.
      rewrite skipSpace_value
        by (apply startsValue_concat, startsValue_text, He2).
      change (text d e2 :: map (text d) es) with (map (text d) (e2 :: es)).
      rewrite (IHe (e2 :: es) rest d d0 n);
        [reflexivity|discriminate|exact Hes'| |exact Hn'].
      cbn [map]. cbn [String.length] in Hlen. lia.
  - intros ms rest d d0 n Hne Hms Hlen Hn.
    destruct ms as [|m ms]; [congruence|].
    inversion Hms as [|? ? Hm Hms']; subst.
    inversion Hn as [|? ? Hne0 Hn']; subst.
    destruct m as [key val]. destruct Hm as [[k Hk] Hval]. cbn in Hk, Hval.
    subst key.
    assert (Hmember : forall tail,
               String.length (text d val) < fuel ->
               parseMembers (S fuel) n
                 (indentedMember prefix ind d (json.appendString k, val) +:+ tail)
               = match skipSpace tail with
                 | EmptyString => None
                 | String c2 r3 =>
                     if Ascii.eqb c2 "," then
                       match parseMembers fuel n (skipSpace r3) with
                       | Some (ms', r') =>
                           Some ((json.appendString k, itree d val) :: ms', r')
                       | None => None
                       end
                     else if Ascii.eqb c2 "}" then
                       Some ([(json.appendString k, itree d val)], r3)
                     else None
                 end).
    { intros tail Hl. unfold indentedMember. cbn [fst snd].
      destruct (scanString_appendString k (": " +:+ text d val +:+ tail))
        as (body & E & Hscan).
      rewrite E, !sapp_assoc, sapp_cons.
      rewrite parseMembers_S, Hscan.
      change (": " +:+ ?x) with (String ":" (String " " x)).
      cbn [skipSpace]. change (isSpace ":") with false.
      change (Ascii.eqb ":" ":") with true. cbv iota.
      cbn [skipSpace]. change (isSpace " ") with true. cbv iota.
      rewrite skipSpace_value
        by (apply startsValue_sapp, startsValue_text, Hval).
      rewrite IHv; [reflexivity|exact Hval|exact Hl|exact Hne0]. }
    destruct ms as [|m2 ms].
    + cbn [map String.concat] in *.
      assert (Hl : String.length (text d val) < fuel).
      { unfold indentedMember in Hlen. cbn [fst snd] in Hlen.
        rewrite !slength_app in Hlen. lia. }
      rewrite (Hmember _ Hl), skipSpace_newline.
      change ("}" +:+ rest) with (String "}" rest). cbn [skipSpace].
      reflexivity.
    + cbn [map] in Hlen |- *. rewrite concat_cons2 in Hlen |- *.
      rewrite !sapp_assoc. rewrite !slength_app in Hlen.
      assert (Hl : String.length (text d val) < fuel).
      { unfold indentedMember at 1 in Hlen. cbn [fst snd] in Hlen.
        rewrite !slength_app in Hlen. lia. }
      rewrite (Hmember _ Hl).
      change ("," +:+ ?x) with (String "," x). cbn [skipSpace].
      change (isSpace ",") with false. change (Ascii.eqb "," ",") with true.
      cbv iota. rewrite skipSpace_newline.
      inversion Hms' as [|? ? Hm2 _]; subst.
      rewrite skipSpace_value.
      2:{ apply startsValue_concat.
          destruct Hm2 as [[k2 Hk2] _]. destruct m2 as [key2 val2].
          cbn in Hk2. subst key2. reflexivity. }
      change (indentedMember prefix ind d m2
              :: map (indentedMember prefix ind d) ms)
        with (map (indentedMember prefix ind d) (m2 :: ms)).
      rewrite (IHm (m2 :: ms) rest d d0 n);
        [reflexivity|discriminate|exact Hms'| |exact Hn'].
      cbn [map]. cbn [String.length] in Hlen. lia.
Qed.

End ParseIndented.

Lemma parse_indented_value (prefix ind : string) (v : value) :
  blank prefix = true -> blank ind = true -> compact v ->
  (nesting v <= scanner.maxNestingDepth)%N ->
  scanner.parse (indented prefix ind 0 v) = Some (indentedTree prefix ind 0 v).
Proof.
  intros Hp Hi Hv Hn. unfold scanner.parse.
  rewrite (skipSpace_value _ (startsValue_text prefix ind 0 v Hv)).
  rewrite <- (sapp_nil_r (indented prefix ind 0 v)) at 2.
  destruct (parse_indented prefix ind Hp Hi
              (S (String.length (indented prefix ind 0 v)))) as [H _].
  rewrite H; [reflexivity | exact Hv | lia | lia].
Qed.

Lemma unquoted_indented (prefix ind : string) (d : Z) (v : value) :
  tree.isObject v || tree.isArray v = true ->
  unquoted (indented prefix ind d v) = true.
Proof.
  destruct v as [item|raw [|e es]|raw [|m ms]]; try discriminate; reflexivity.
Qed.

Lemma sameShape_indentedTree (prefix ind : string) (v : value) :
  compact v -> forall d, sameShape (indentedTree prefix ind d v) v.
Proof.
  intros Hv. induction Hv as [|s|es _ IH|ms _ IH] using compact_induction;
    intros d.
  - constructor.
  - constructor.
  - unfold tree.mkArray. cbn [indentedTree]. constructor.
    + apply unquoted_indented. reflexivity.
    + reflexivity.
    + induction IH as [|e es He _ IHes]; constructor; [apply He | exact IHes].
  - unfold tree.mkObject. cbn [indentedTree]. constructor.
    + apply unquoted_indented. reflexivity.
    + reflexivity.
    + induction IH as [|m ms Hm _ IHms]; constructor; [|exact IHms].
      split; [reflexivity | apply Hm].
Qed.

(** [LoadPolicy] reads the text [String] returns as it reads the bytes
    [Get] returns: for every policy whose strings are valid UTF-8 it
    returns the policy as it is after encoding and decoding, with the empty
    NotAction and Condition read back as nil. *)
Theorem LoadPolicy_String (p : Policy) :
  validPolicy p = true ->
  LoadPolicy (Policy_String p) = Ok (normalizePolicy p)
  /\ exists b, Get p = Ok b /\ LoadPolicy b = LoadPolicy (Policy_String p).
Proof.
  intros Hp. destruct (LoadPolicy_Get p Hp) as (b & HGet & HLoad).
  assert (Hb : b = decode.rawOf (tree.ofPolicy p)).
  { rewrite Get_tree in HGet. injection HGet as <-. reflexivity. }
  assert (HS : LoadPolicy (Policy_String p) = LoadPolicy b).
  { destruct (LoadPolicy_sameShape (Policy_String p) b
                (indentedTree "" "    " 0 (tree.ofPolicy p)) (tree.ofPolicy p))
      as [E | (e & e' & _ & E)].
    - rewrite String_tree.
      apply parse_indented_value;
        [reflexivity | reflexivity | apply compact_ofPolicy|].
      pose proof (nesting_ofPolicy p). unfold scanner.maxNestingDepth. lia.
    - rewrite Hb. apply parse_ofPolicy.
    - apply sameShape_indentedTree, compact_ofPolicy.
    - exact E.
    - rewrite HLoad in E. discriminate E. }
  split; [rewrite HS; exact HLoad|].
  exists b. split; [exact HGet | symmetry; exact HS].
Qed.

Lemma LoadPolicy_String_witness :
  validPolicy examplePolicy = true
  /\ LoadPolicy (Policy_String examplePolicy) = Ok (normalizePolicy examplePolicy)
  /\ exists b,
       Get examplePolicy = Ok b
       /\ LoadPolicy b = LoadPolicy (Policy_String examplePolicy).
Proof.
  split; [vm_compute; reflexivity|].
  apply (LoadPolicy_String examplePolicy). vm_compute. reflexivity.
Defined.

(** ** The legacy version in any document *)

(** A document with the legacy literal under a key that selects the
    version is read as the same document with the current literal in its
    place, wherever the member stands and whatever else the document holds:
    the same policy, or the same error. *)
Theorem legacy_version_reads_as_current (data data' raw raw' k key : string)
    (ms1 ms2 : list (string * value)) :
  scanner.parse data
  = Some (Object raw (ms1 ++ (k, Literal (lit "2008-10-17")) :: ms2)) ->
  scanner.parse data'
  = Some (Object raw' (ms1 ++ (k, Literal (lit "2012-10-17")) :: ms2)) ->
  decode.unquoteBytes k = Some key ->
  decoder.findField decoder.policyFields key = Some "Version" ->
  LoadPolicy data = LoadPolicy data'.
Proof.
  intros HP HP' Hk Hf. unfold LoadPolicy, decoder.Unmarshal. rewrite HP, HP'.
  cbn [decoder.decodePolicy decoder.decodeStruct].
  rewrite (decodeMembers_middle _ k (Literal (lit "2008-10-17"))
             (Literal (lit "2012-10-17"))); [reflexivity|].
  intros key0 Hkey0 cur saved. rewrite Hk in Hkey0. injection Hkey0 as <-.
  unfold decoder.storeMember. rewrite Hf. reflexivity.
Qed.

Lemma legacy_version_reads_as_current_witness :
  LoadPolicy
    (dq "{'Id':'a','version':'2008-10-17','Statement':[{'Effect':'Allow'}]}")
  = LoadPolicy
      (dq "{'Id':'a','version':'2012-10-17','Statement':[{'Effect':'Allow'}]}").
Proof.
  eapply (legacy_version_reads_as_current _ _ _ _ (lit "version") "version"
            [(lit "Id", Literal (lit "a"))]
            [(lit "Statement",
              Array (dq "[{'Effect':'Allow'}]")
                [Object (dq "{'Effect':'Allow'}")
                   [(lit "Effect", Literal (lit "Allow"))]])]);
    reflexivity.
Defined.

(** ** Encoding loses nothing but the difference between empty and nil *)

(** Two policies with valid strings that [Get] encodes to the same bytes
    are the same, up to the fields with [omitempty] that hold an empty
    slice or map in one and nil in the other; two built policies are the
    same up to their empty condition maps. *)
Theorem Get_injective (p q : Policy) :
  validPolicy p = true -> validPolicy q = true ->
  Get p = Get q ->
  normalizePolicy p = normalizePolicy q
  /\ (Built p -> Built q -> dropEmptyConditions p = dropEmptyConditions q).
Proof.
  intros Hp Hq E.
  destruct (LoadPolicy_Get p Hp) as (b & HGet & HLoad).
  destruct (LoadPolicy_Get q Hq) as (b' & HGet' & HLoad').
  rewrite E, HGet' in HGet. injection HGet as ->.
  assert (HN : normalizePolicy q = normalizePolicy p) by congruence.
  split; [symmetry; exact HN|]. intros Bp Bq.
  rewrite <- (Built_normalize p Bp), <- (Built_normalize q Bq).
  symmetry. exact HN.
Qed.

Lemma Get_injective_witness :
  let p := emptyStatementPolicy in
  let q := normalizePolicy emptyStatementPolicy in
  Get p = Get q /\ p <> q /\ normalizePolicy p = normalizePolicy q.
Proof.
  split; [vm_compute; reflexivity|].
  split; [intros H; vm_compute in H; discriminate H|].
  destruct (Get_injective emptyStatementPolicy
              (normalizePolicy emptyStatementPolicy)) as [H _];
    [vm_compute; reflexivity | vm_compute; reflexivity
    | vm_compute; reflexivity | exact H].
Defined.

(** ** What [AddCondition] leaves alone *)

(** A call of [AddCondition] that returns leaves the values under every
    other operator, and under every other variable of its operator, as
    they were. *)
Theorem AddCondition_leaves_other_values (s s' : Statement)
    (t key v t' key' : string) :
  AddCondition s t key v = Returns s' ->
  (t', key') <> (t, key) ->
  conditionValues s' t' key' = conditionValues s t' key'.
Proof.
  intros H Hne. destruct (AddCondition_writable _ _ _ _ _ H) as (g & Hg & Ht).
  rewrite (AddCondition_addToMap s g t key v Hg Ht) in H. injection H as <-.
  unfold conditionValues. destruct s as [? ? ? ? ? ? ? c].
  cbn [stCondition setCondition] in *. subst c. cbn [map_get].
  unfold addToMap. destruct (decide (t = t')) as [<-|Htt].
  - rewrite lookup_insert_eq. cbn [default from_option id map_get].
    assert (Hk : key <> key') by congruence.
    rewrite lookup_insert_ne by exact Hk.
    unfold ConditionType in *.
    destruct (g !! t) as [[h|]|] eqn:Egt; cbn [default from_option id map_get].
    + reflexivity.
    + congruence.
    + rewrite lookup_empty. reflexivity.
  - rewrite lookup_insert_ne by exact Htt. reflexivity.
Qed.

Lemma AddCondition_leaves_other_values_witness :
  exists s',
    AddCondition newStatement ConditionArnEquals VarSourceArn "a" = Returns s'
    /\ conditionValues s' ConditionArnEquals VarSourceIp
       = conditionValues newStatement ConditionArnEquals VarSourceIp.
Proof.
  eexists. split; [reflexivity|].
  apply (AddCondition_leaves_other_values newStatement _ ConditionArnEquals
           VarSourceArn "a" ConditionArnEquals VarSourceIp);
    [reflexivity | discriminate].
Defined.

(** ** [SetId] *)

(** [SetId] sets the member Id of the encoded policy to the string, quoted
    by the encoder, and changes no other member; of two calls the last
    one counts. *)
Theorem SetId_writes_Id (p : Policy) (id id' name : string) :
  tree.lookup "Id" (tree.ofPolicy (SetId p id)) = Some (tree.str id)
  /\ (String.eqb "Id" name = false ->
      tree.lookup name (tree.ofPolicy (SetId p id))
      = tree.lookup name (tree.ofPolicy p))
  /\ SetId (SetId p id) id' = SetId p id'.
Proof.
  split; [reflexivity|]. split; [|reflexivity].
  intros Hname. unfold tree.ofPolicy. rewrite !lookup_cons_member. cbn [SetId polId polStatement json.isNil negb andb].
  rewrite Hname, andb_false_r. reflexivity.
Qed.

(** ** What [Get] writes is safe in HTML *)

Lemma allChars_app (P : ascii -> bool) (s t : string) :
  allChars P (s +:+ t) = allChars P s && allChars P t.
Proof.
  induction s as [|c s IH]; [rewrite sapp_nil_l; reflexivity|].
  rewrite sapp_cons. cbn [allChars]. rewrite IH, andb_assoc. reflexivity.
Qed.

Lemma allChars_join (P : ascii -> bool) (sep : string) (l : list string) :
  allChars P sep = true -> Forall (fun x => allChars P x = true) l ->
  allChars P (json.join sep l) = true.
Proof.
  intros Hsep Hl. induction Hl as [|x l Hx Hl IH]; [reflexivity|].
  destruct l as [|y l]; [exact Hx|].
  unfold json.join in *. rewrite concat_cons2, !allChars_app, Hx, Hsep, IH.
  reflexivity.
Qed.

Lemma safeByte_N (c : ascii) :
  safeByte c = true
  <-> (32 <= N_of_ascii c /\ N_of_ascii c <> 38 /\ N_of_ascii c <> 60
       /\ N_of_ascii c <> 62)%N.
Proof.
  unfold safeByte. rewrite !andb_true_iff, !negb_true_iff, N.leb_le, !N.eqb_neq.
  tauto.
Qed.

Lemma safeByte_htmlSafe (c : ascii) :
  json.htmlSafe (N_of_ascii c) = true -> safeByte c = true.
Proof.
  unfold json.htmlSafe. rewrite !andb_true_iff, !negb_true_iff, N.leb_le,
    !N.eqb_neq.
  intros H. apply safeByte_N. tauto.
Qed.

Lemma safeByte_high (c : ascii) : highChar c = true -> safeByte c = true.
Proof.
  unfold highChar. rewrite negb_true_iff, N.ltb_ge. intros H.
  apply safeByte_N. lia.
Qed.

Lemma safe_high (s : string) :
  allChars highChar s = true -> allChars safeByte s = true.
Proof.
  induction s as [|c s IH]; [reflexivity|]. cbn [allChars].
  rewrite !andb_true_iff. intros [Hc Hs]. split; [apply safeByte_high, Hc|].
  apply IH, Hs.
Qed.

Lemma safeByte_hexdigit (n : N) :
  (n < 16)%N -> safeByte (json.hexdigit n) = true.
Proof.
  apply (below_spec 16 (fun n => safeByte (json.hexdigit n))).
  vm_compute. reflexivity.
Qed.

Lemma safe_escapeByte (c : ascii) :
  (N_of_ascii c <? utf8.RuneSelf)%N = true ->
  allChars safeByte (json.escapeByte c) = true.
Proof.
  intros Hc. apply N.ltb_lt in Hc. unfold utf8.RuneSelf in Hc.
  unfold json.escapeByte.
  destruct ((N_of_ascii c =? 92) || (N_of_ascii c =? 34))%N eqn:E1.
  { cbn [allChars]. rewrite andb_true_r. apply andb_true_iff.
    split; [reflexivity|]. apply safeByte_N.
    apply orb_prop in E1 as [E|E]; apply N.eqb_eq in E; lia. }
  repeat match goal with
         | |- context [if ?b then _ else _] => destruct b; [reflexivity|]
         end.
  cbn [allChars]. rewrite sapp_cons, sapp_cons, sapp_cons, sapp_nil_l.
  cbn [allChars].
  rewrite (safeByte_hexdigit (N.shiftr (N_of_ascii c) 4)),
    (safeByte_hexdigit (N.land (N_of_ascii c) 15)).
  - reflexivity.
  - apply land_15_lt.
  - rewrite N.shiftr_div_pow2. change (2 ^ 4)%N with 16%N.
    apply N.Div0.div_lt_upper_bound. lia.
Qed.

Lemma safe_appendString_loop (fuel : nat) (s : string) :
  allChars safeByte (json.appendString_loop fuel s) = true.
Proof.
  revert s. induction fuel as [|fuel IH]; intros s; [reflexivity|].
  destruct s as [|c t]; [reflexivity|].
  rewrite appendString_loop_cons.
  destruct (N_of_ascii c <? utf8.RuneSelf)%N eqn:Hc.
  - destruct (json.htmlSafe (N_of_ascii c)) eqn:Hs.
    + cbn [allChars]. rewrite (safeByte_htmlSafe c Hs), IH. reflexivity.
    + rewrite allChars_app, (safe_escapeByte c Hc), IH. reflexivity.
  - destruct (utf8.DecodeRuneInString (String c t)) as [r size] eqn:D.
    destruct ((r =? utf8.RuneError)%N && (size =? 1)%nat) eqn:Herr.
    { rewrite allChars_app, IH. reflexivity. }
    destruct (decode_high c t r size Hc D) as [[-> ->] | (pre & rest & E & Hl & Henc)].
    { discriminate Herr. }
    destruct ((r =? 8232) || (r =? 8233))%N.
    + rewrite allChars_app, IH, andb_true_r.
      cbn [allChars]. rewrite sapp_cons, sapp_cons, sapp_cons, sapp_cons, sapp_nil_l.
      cbn [allChars]. rewrite (safeByte_hexdigit _ (land_15_lt r)). reflexivity.
    + rewrite allChars_app, IH, andb_true_r.
      rewrite E, <- Hl, string_take_app.
      destruct Henc as (_ & Hhigh & _). apply safe_high, Hhigh.
Qed.

Lemma safe_appendString (s : string) :
  allChars safeByte (json.appendString s) = true.
Proof.
  unfold json.appendString. cbn [allChars]. rewrite allChars_app.
  rewrite safe_appendString_loop. reflexivity.
Qed.

Lemma safe_compact (v : value) :
  compact v -> allChars safeByte (decode.rawOf v) = true.
Proof.
  intros Hv. induction Hv as [|s|es _ IH|ms Hms IH] using compact_induction.
  - reflexivity.
  - apply safe_appendString.
  - cbn [tree.mkArray decode.rawOf]. unfold tree.arrayText.
    rewrite !allChars_app, allChars_join; [reflexivity | reflexivity|].
    apply Forall_map. exact IH.
  - cbn [tree.mkObject decode.rawOf]. unfold tree.objectText.
    rewrite !allChars_app, allChars_join; [reflexivity | reflexivity|].
    apply Forall_map.
    induction Hms as [|m ms [[k Hk] _] _ IHms]; [constructor|].
    apply List.Forall_cons_iff in IH as [Hm IH].
    constructor; [|apply IHms, IH].
    unfold tree.memberText. rewrite !allChars_app, Hk, safe_appendString, Hm.
    reflexivity.
Qed.

(** Whatever the strings of a policy hold, the bytes [Get] returns hold
    no control character and none of [<], [>] and [&]: in the strings
    these are written as escapes, and the encoder writes none of them by
    itself. *)
Theorem Get_escapes_html (p : Policy) :
  exists b, Get p = Ok b /\ allChars safeByte b = true.
Proof.
  exists (decode.rawOf (tree.ofPolicy p)). split; [apply Get_tree|].
  apply safe_compact, compact_ofPolicy.
Qed.

(** ** The encodings the tests expect, for any strings *)

Lemma sortedEntries_singleton {V : Type} (k : string) (x : V) :
  tree.sortedEntries ({[k := x]} : gmap string V) = [(k, x)].
Proof. unfold tree.sortedEntries. rewrite map_to_list_singleton. reflexivity. Qed.

Lemma mapEncoder_singleton {V : Type} (enc : V -> result string) (k : string)
    (x : V) (b : string) :
  enc x = Ok b ->
  json.mapEncoder enc (Some ({[k := x]} : gmap string V))
  = Ok ("{" +:+ json.appendString k +:+ ":" +:+ b +:+ "}").
Proof.
  intros H. unfold json.mapEncoder. rewrite map_to_list_singleton.
  cbn [merge_sort]. change (merge_sort key_le [(k, x)]) with [(k, x)].
  cbn [map rsequence fst snd rbind]. rewrite H. cbn [rbind json.join String.concat].
  rewrite !sapp_assoc. reflexivity.
Qed.

Ltac sapp_norm :=
  repeat first [rewrite sapp_assoc | rewrite sapp_cons | rewrite sapp_nil_l].

Ltac encoders :=
  unfold json.field, json.structEncoder, json.encodeStrings,
    json.encodePrincipal, json.stringEncoder, json.sliceEncoder,
    json.arrayEncoder, json.ptrEncoder, json.marshalerEncoder,
    EffectJSON.MarshalJSON, NewPrincipal.

(** What [Get] writes of a policy with no Id and one statement. *)
Lemma Get_one_statement (v : PolicyVersion) (s : Statement) (b : string) :
  json.encodeStatement s = Ok b ->
  Get (mkPolicy v None (Some [Some s]))
  = Ok (dq "{'Version':'2012-10-17','Statement':[" +:+ b +:+ "]}").
Proof.
  intros H. unfold Get, json.Marshal, json.encodePolicy.
  cbn [polVersion polId polStatement json.isNil].
  unfold json.field, json.structEncoder, json.sliceEncoder, json.arrayEncoder,
    json.ptrEncoder, json.marshalerEncoder, PolicyVersionJSON.MarshalJSON.
  cbn [map rsequence rbind omap]. rewrite H.
  cbn -[String.append]. sapp_norm. reflexivity.
Qed.

Ltac fresh_flags :=
  match goal with
  | |- context [(map_len ?c =? 0)%nat] =>
      replace (map_len c =? 0)%nat with true by reflexivity
  end.

Lemma encode_fresh (o : StatementOp) (s : Statement) :
  applyOp o newStatement = Returns s ->
  json.encodeStatement s = Ok (expectedStatement o).
Proof.
  destruct o as [id|e|p|p|a|a|r|t key v]; cbn [applyOp]; intros H.
  - injection H as <-. unfold json.encodeStatement.
    fresh_flags.
    unfold SetSid, newStatement, setSid.
    cbn [stSid stEffect stPrincipal stNotPrincipal stAction stNotAction
         stResource stCondition append app json.isNil slice_len].
    encoders. unfold expectedStatement.
    cbn -[String.append json.appendString]. sapp_norm. reflexivity.
  - injection H as <-. unfold json.encodeStatement.
    fresh_flags.
    unfold newStatement, setEffect.
    cbn [stSid stEffect stPrincipal stNotPrincipal stAction stNotAction
         stResource stCondition append app json.isNil slice_len].
    encoders. unfold expectedStatement.
    destruct e; cbn -[String.append json.appendString]; sapp_norm; reflexivity.
  - injection H as <-. unfold json.encodeStatement.
    fresh_flags.
    unfold newStatement, setPrincipal.
    cbn [stSid stEffect stPrincipal stNotPrincipal stAction stNotAction
         stResource stCondition append app json.isNil slice_len Aws
         NewPrincipal].
    encoders. unfold expectedStatement.
    cbn -[String.append json.appendString]. sapp_norm. reflexivity.
  - injection H as <-. unfold json.encodeStatement.
    fresh_flags.
    unfold AddNotPrincipal, newStatement, setNotPrincipal.
    cbn [stSid stEffect stPrincipal stNotPrincipal stAction stNotAction
         stResource stCondition append app json.isNil slice_len Aws
         NewPrincipal].
    encoders. unfold expectedStatement.
    cbn -[String.append json.appendString]. sapp_norm. reflexivity.
  - injection H as <-. unfold json.encodeStatement.
    fresh_flags.
    unfold AddAction, newStatement, setAction.
    cbn [stSid stEffect stPrincipal stNotPrincipal stAction stNotAction
         stResource stCondition append app json.isNil slice_len].
    encoders. unfold expectedStatement.
    cbn -[String.append json.appendString]. sapp_norm. reflexivity.
  - injection H as <-. unfold json.encodeStatement.
    fresh_flags.
    unfold AddNotAction, newStatement, setNotAction.
    cbn [stSid stEffect stPrincipal stNotPrincipal stAction stNotAction
         stResource stCondition append app json.isNil slice_len].
    encoders. unfold expectedStatement.
    cbn -[String.append json.appendString]. sapp_norm. reflexivity.
  - injection H as <-. unfold json.encodeStatement.
    fresh_flags.
    unfold newStatement, setResource.
    cbn [stSid stEffect stPrincipal stNotPrincipal stAction stNotAction
         stResource stCondition append app json.isNil slice_len].
    encoders. unfold expectedStatement.
    cbn -[String.append json.appendString]. sapp_norm. reflexivity.
  - rewrite (AddCondition_addToMap newStatement ∅ t key v) in H;
      [|reflexivity|rewrite lookup_empty; discriminate].
    injection H as <-. unfold json.encodeStatement.
    unfold addToMap. rewrite lookup_empty.
    cbn [default from_option id]. rewrite lookup_empty.
    cbn [default from_option id append].
    rewrite !insert_empty.
    unfold newStatement, setCondition.
    cbn [stSid stEffect stPrincipal stNotPrincipal stAction stNotAction
         stResource stCondition app json.isNil slice_len map_len].
    rewrite map_size_singleton. unfold json.encodeCondition.
    rewrite (mapEncoder_singleton _ t _
               ("{" +:+ json.appendString key +:+ ":"
                +:+ ("[" +:+ json.appendString v +:+ "]") +:+ "}")).
    2:{ apply mapEncoder_singleton. reflexivity. }
    encoders. unfold expectedStatement.
    cbn -[String.append json.appendString]. sapp_norm. reflexivity.
Qed.

(** The encodings the tests expect after one call on a fresh statement
    hold for any strings: after any one call on the statement of a new
    policy, [Get] returns the document with the statement as the tests
    write it, the string of the call in its place as the encoder quotes
    it. *)
Theorem single_call_encodings (o : StatementOp) :
  exists p,
    afterCall o = Returns p
    /\ Get p
       = Ok (dq "{'Version':'2012-10-17','Statement':["
             +:+ expectedStatement o +:+ "]}").
Proof.
  assert (H : exists s, applyOp o newStatement = Returns s).
  { destruct o as [id|e|p|p|a|a|r|t key v]; cbn [applyOp];
      try (eexists; reflexivity).
    destruct (AddCondition_returns newStatement t key v
                (newStatement_writable t)) as (s & Hs & _).
    exists s. exact Hs. }
  destruct H as (s & Hs).
  exists (mkPolicy mkPolicyVersion None (Some [Some s])). split.
  - unfold afterCall, onStatement. cbn [AddStatement fst NewPolicy polStatement
      polVersion polId append app lookup list_lookup].
    rewrite Hs. reflexivity.
  - apply Get_one_statement, encode_fresh, Hs.
Qed.

(** ** The round trip of any policy *)

Lemma normalizeStatement_idem (s : Statement) :
  normalizeStatement (normalizeStatement s) = normalizeStatement s.
Proof.
  destruct s as [sid e pr npr act nact res cond].
  unfold normalizeStatement, setCondition, setNotAction.
  cbn [stSid stEffect stPrincipal stNotPrincipal stAction stNotAction
       stResource stCondition].
  destruct (slice_len nact =? 0)%nat eqn:En, (map_len cond =? 0)%nat eqn:Ec;
    cbn [slice_len map_len Nat.eqb]; rewrite ?En, ?Ec; reflexivity.
Qed.

Lemma normalizePolicy_idem (p : Policy) :
  normalizePolicy (normalizePolicy p) = normalizePolicy p.
Proof.
  destruct p as [v id [l|]]; [|reflexivity].
  unfold normalizePolicy. cbn [polVersion polId polStatement option_map].
  f_equal. f_equal. rewrite map_map. apply map_ext.
  intros [s|]; [|reflexivity]. cbn [option_map]. f_equal.
  apply normalizeStatement_idem.
Qed.

Lemma normalizeStatement_id (s : Statement) :
  stNotAction s <> Some [] -> map_len (stCondition s) <> 0 \/ stCondition s = None ->
  normalizeStatement s = s.
Proof.
  destruct s as [sid e pr npr act nact res cond].
  unfold normalizeStatement, setCondition, setNotAction.
  cbn [stSid stEffect stPrincipal stNotPrincipal stAction stNotAction
       stResource stCondition].
  intros Hn Hc. f_equal.
  - destruct nact as [[|x l]|]; [contradiction | reflexivity | reflexivity].
  - destruct Hc as [Hc | ->]; [|reflexivity].
    destruct (Nat.eqb_spec (map_len cond) 0); [contradiction | reflexivity].
Qed.

(** For every policy whose strings are valid UTF-8, built or not, with
    nil slices, nil pointers among its statements or not, [LoadPolicy]
    reads from the bytes [Get] returns the policy with the empty NotAction
    slices and the empty Condition maps set to nil, and nothing else
    changed; a policy that went through once goes through unchanged; a
    policy with no such empty slice or map is read back as it is. *)
Theorem roundtrip_any_policy (p : Policy) :
  validPolicy p = true ->
  exists b,
    Get p = Ok b
    /\ LoadPolicy b = Ok (normalizePolicy p)
    /\ normalizePolicy (normalizePolicy p) = normalizePolicy p
    /\ ((forall i s, statementAt p i = Some s ->
                     stNotAction s <> Some []
                     /\ (map_len (stCondition s) <> 0 \/ stCondition s = None)) ->
        LoadPolicy b = Ok p).
Proof.
  intros Hp. destruct (LoadPolicy_Get p Hp) as (b & HGet & HLoad).
  exists b. split; [exact HGet|]. split; [exact HLoad|].
  split; [apply normalizePolicy_idem|].
  intros H. rewrite HLoad. f_equal.
  destruct p as [v id sts]. unfold normalizePolicy.
  cbn [polVersion polId polStatement]. f_equal.
  destruct sts as [l|]; [|reflexivity]. cbn [option_map]. f_equal.
  unfold statementAt in H. cbn [polStatement] in H.
  clear HGet HLoad Hp. induction l as [|o l IH]; [reflexivity|].
  cbn [map]. f_equal.
  - destruct o as [s|]; [|reflexivity]. cbn [option_map]. f_equal.
    destruct (H 0 s eq_refl) as [Hn Hc]. apply normalizeStatement_id; assumption.
  - apply IH. intros i s Hi. apply (H (S i) s). exact Hi.
Qed.

Lemma roundtrip_any_policy_witness :
  let p := mkPolicy mkPolicyVersion None (Some [None; Some zeroStatement]) in
  validPolicy p = true
  /\ exists b,
       Get p = Ok b
       /\ LoadPolicy b = Ok (normalizePolicy p)
       /\ normalizePolicy (normalizePolicy p) = normalizePolicy p
       /\ ((forall i s, statementAt p i = Some s ->
                        stNotAction s <> Some []
                        /\ (map_len (stCondition s) <> 0
                            \/ stCondition s = None)) ->
           LoadPolicy b = Ok p).
Proof.
  split; [vm_compute; reflexivity|].
  apply (roundtrip_any_policy
           (mkPolicy mkPolicyVersion None (Some [None; Some zeroStatement]))).
  vm_compute. reflexivity.
Defined.

(** ** Keys in any letter case *)

Lemma injective_on_NoDup {A B : Type} (h : A -> B) (l : list A) (x y : A) :
  List.NoDup (map h l) -> In x l -> In y l -> h x = h y -> x = y.
Proof.
  induction l as [|a l IH]; [intros _ []|].
  cbn [map]. intros Hnd Hx Hy E. apply List.NoDup_cons_iff in Hnd as [Ha Hnd].
  destruct Hx as [<-|Hx], Hy as [<-|Hy].
  - reflexivity.
  - exfalso. apply Ha. rewrite E. apply in_map, Hy.
  - exfalso. apply Ha. rewrite <- E. apply in_map, Hx.
  - apply IH; assumption.
Qed.

(** When no two fields have the same folded name, a key selects the
    first field whose folded name is its own. *)
Lemma findField_folded (names : list string) (key : string) :
  List.NoDup (map decoder.foldName names) ->
  decoder.findField names key
  = List.find
      (fun f => String.eqb (decoder.foldName f) (decoder.foldName key)) names.
Proof.
  intros Hnd. unfold decoder.findField.
  destruct (List.find (String.eqb key) names) as [f|] eqn:E; [|reflexivity].
  apply List.find_some in E as [Hf Hk]. apply String.eqb_eq in Hk. subst f.
  destruct (List.find
              (fun f => String.eqb (decoder.foldName f) (decoder.foldName key))
              names) as [g|] eqn:Eg.
  - apply List.find_some in Eg as [Hg Hfold]. apply String.eqb_eq in Hfold.
    f_equal. symmetry.
    exact (injective_on_NoDup decoder.foldName names g key Hnd Hg Hf Hfold).
  - exfalso.
    pose proof (List.find_none _ _ Eg key Hf) as Hn. cbn in Hn.
    rewrite String.eqb_refl in Hn. discriminate Hn.
Qed.

Lemma findField_any_case (names : list string) (key key' : string) :
  List.NoDup (map decoder.foldName names) ->
  decoder.foldName key = decoder.foldName key' ->
  decoder.findField names key = decoder.findField names key'.
Proof.
  intros Hnd E. rewrite !findField_folded by exact Hnd. rewrite E. reflexivity.
Qed.

Lemma NoDup_policyFields :
  List.NoDup (map decoder.foldName decoder.policyFields).
Proof.
  vm_compute.
  repeat (apply List.NoDup_cons; [cbn; intuition discriminate|]).
  apply List.NoDup_nil.
Qed.

Lemma NoDup_statementFields :
  List.NoDup (map decoder.foldName decoder.statementFields).
Proof.
  vm_compute.
  repeat (apply List.NoDup_cons; [cbn; intuition discriminate|]).
  apply List.NoDup_nil.
Qed.

Lemma decodeMembers_rekey {A : Type}
    (step : A -> string -> value -> decode.D A) (k k' key key' : string)
    (x : value) (ms1 ms2 : list (string * value)) :
  decode.unquoteBytes k = Some key ->
  decode.unquoteBytes k' = Some key' ->
  (forall cur saved, step cur key x saved = step cur key' x saved) ->
  forall cur saved,
    decoder.decodeMembers step cur (ms1 ++ (k, x) :: ms2) saved
    = decoder.decodeMembers step cur (ms1 ++ (k', x) :: ms2) saved.
Proof.
  intros Hk Hk' Hx. induction ms1 as [|[k1 v1] ms1 IH]; intros cur saved.
  - cbn [app decoder.decodeMembers]. rewrite Hk, Hk'.
    unfold decode.bind. rewrite Hx. reflexivity.
  - cbn [app decoder.decodeMembers].
    destruct (decode.unquoteBytes k1) as [key1|]; [|reflexivity].
    unfold decode.bind.
    destruct (step cur key1 v1 saved) as [[cur' saved']|e];
      [apply IH | reflexivity].
Qed.

(** The keys of a document are matched with the names of the fields
    without regard to the case of the letters: a document is read as the
    document with one key written in another case.  This holds of the keys
    of the policy (first part) and of the keys of a statement (second
    part). *)
Theorem keys_match_in_any_case (data data' k k' key key' : string) (v : value) :
  decode.unquoteBytes k = Some key ->
  decode.unquoteBytes k' = Some key' ->
  decoder.foldName key = decoder.foldName key' ->
  (forall raw raw' ms1 ms2,
      scanner.parse data = Some (Object raw (ms1 ++ (k, v) :: ms2)) ->
      scanner.parse data' = Some (Object raw' (ms1 ++ (k', v) :: ms2)) ->
      LoadPolicy data = LoadPolicy data')
  /\ (forall raw raw' pre post kS keyS rawA rawA' es1 es2 rawS rawS' ms1 ms2,
        decode.unquoteBytes kS = Some keyS ->
        decoder.findField decoder.policyFields keyS = Some "Statement" ->
        scanner.parse data
        = Some (Object raw
                  (pre ++ (kS, Array rawA
                                 (es1 ++ Object rawS (ms1 ++ (k, v) :: ms2) :: es2))
                       :: post)) ->
        scanner.parse data'
        = Some (Object raw'
                  (pre ++ (kS, Array rawA'
                                 (es1 ++ Object rawS' (ms1 ++ (k', v) :: ms2) :: es2))
                       :: post)) ->
        LoadPolicy data = LoadPolicy data').
Proof.
  intros Hk Hk' Hfold. split.
  - intros raw raw' ms1 ms2 HP HP'.
    unfold LoadPolicy, decoder.Unmarshal. rewrite HP, HP'.
    cbn [decoder.decodePolicy decoder.decodeStruct].
    rewrite (decodeMembers_rekey _ k k' key key' v ms1 ms2 Hk Hk');
      [reflexivity|].
    intros cur saved. unfold decoder.storeMember.
    rewrite (findField_any_case _ key key' NoDup_policyFields Hfold).
    reflexivity.
  - intros raw raw' pre post kS keyS rawA rawA' es1 es2 rawS rawS' ms1 ms2
      HkS HfS HP HP'.
    unfold LoadPolicy, decoder.Unmarshal. rewrite HP, HP'.
    cbn [decoder.decodePolicy decoder.decodeStruct].
    rewrite (decodeMembers_middle _ kS
               (Array rawA (es1 ++ Object rawS (ms1 ++ (k, v) :: ms2) :: es2))
               (Array rawA' (es1 ++ Object rawS' (ms1 ++ (k', v) :: ms2) :: es2)));
      [reflexivity|].
    intros key0 Hkey0 cur saved. rewrite HkS in Hkey0. injection Hkey0 as <-.
    unfold decoder.storeMember. rewrite HfS.
    unfold decoder.storePolicy. cbn [String.eqb Ascii.eqb Bool.eqb].
    unfold decode.bind.
    rewrite (decodeSlice_middle _ _ _ (Object rawS (ms1 ++ (k, v) :: ms2))
               (Object rawS' (ms1 ++ (k', v) :: ms2)) rawA rawA');
      [reflexivity|].
    intros cur0 saved0. unfold decoder.decodePtr, decode.bind.
    cbn [decoder.decodeStatement decoder.decodeStruct].
    rewrite (decodeMembers_rekey _ k k' key key' v ms1 ms2 Hk Hk');
      [reflexivity|].
    intros cur1 saved1. unfold decoder.storeMember.
    rewrite (findField_any_case _ key key' NoDup_statementFields Hfold).
    reflexivity.
Qed.

Lemma keys_match_in_any_case_witness :
  LoadPolicy (dq "{'VERSION':'2012-10-17','Statement':[]}")
  = LoadPolicy (dq "{'Version':'2012-10-17','Statement':[]}")
  /\ LoadPolicy (dq "{'Statement':[{'effect':'Allow','Resource':'a'}]}")
     = LoadPolicy (dq "{'Statement':[{'Effect':'Allow','Resource':'a'}]}").
Proof.
  split.
  - destruct (keys_match_in_any_case
                (dq "{'VERSION':'2012-10-17','Statement':[]}")
                (dq "{'Version':'2012-10-17','Statement':[]}")
                (lit "VERSION") (lit "Version") "VERSION" "Version"
                (Literal (lit "2012-10-17")) eq_refl eq_refl eq_refl) as [H _].
    eapply (H _ _ [] [(lit "Statement", Array "[]" [])]); reflexivity.
  - destruct (keys_match_in_any_case
                (dq "{'Statement':[{'effect':'Allow','Resource':'a'}]}")
                (dq "{'Statement':[{'Effect':'Allow','Resource':'a'}]}")
                (lit "effect") (lit "Effect") "effect" "Effect"
                (Literal (lit "Allow")) eq_refl eq_refl eq_refl) as [_ H].
    eapply (H _ _ [] [] (lit "Statement") "Statement" _ _ [] [] _ _
              [] [(lit "Resource", Literal (lit "a"))]); reflexivity.
Defined.

(** ** What [EncodeRune] writes is valid UTF-8 *)

Lemma wellFormed_nil : wellFormed "".
Proof. intros [|fuel]; reflexivity. Qed.

Lemma wellFormed_ascii (c : ascii) (t : string) :
  (N_of_ascii c < 128)%N -> wellFormed t -> wellFormed (String c t).
Proof.
  intros Hc Ht [|fuel]; [reflexivity|]. cbn [utf8.ValidString_loop].
  replace (N_of_ascii c <? utf8.RuneSelf)%N with true
    by (symmetry; apply N.ltb_lt; exact Hc).
  apply Ht.
Qed.

Lemma wellFormed_decoded (c0 : ascii) (t0 t : string) (r : N) (size : nat) :
  (128 <= N_of_ascii c0)%N ->
  utf8.DecodeRuneInString (String c0 t0) = (r, S (S size)) ->
  string_drop (S (S size)) (String c0 t0) = t ->
  wellFormed t -> wellFormed (String c0 t0).
Proof.
  intros Hc D Hd Ht [|fuel]; [reflexivity|]. cbn [utf8.ValidString_loop].
  replace (N_of_ascii c0 <? utf8.RuneSelf)%N with false
    by (symmetry; apply N.ltb_ge; exact Hc).
  rewrite D, Hd. apply Ht.
Qed.

Lemma N_of_byte (n : N) : (n < 256)%N -> N_of_ascii (utf8.byte n) = n.
Proof. intros H. apply N_ascii_embedding. exact H. Qed.

Lemma first_2 (b : N) :
  (194 <= b < 224)%N -> utf8.first b = Some (2%nat, (128%N, 191%N)).
Proof.
  intros H. unfold utf8.first.
  replace (b <? 194)%N with false by (symmetry; apply N.ltb_ge; lia).
  replace (b <? 224)%N with true by (symmetry; apply N.ltb_lt; lia).
  reflexivity.
Qed.

Lemma first_3 (b : N) :
  (224 <= b < 240)%N ->
  exists lo hi,
    utf8.first b = Some (3%nat, (lo, hi))
    /\ lo = (if (b =? 224) then 160 else 128)%N
    /\ hi = (if (b =? 237) then 159 else 191)%N.
Proof.
  intros H. unfold utf8.first.
  replace (b <? 194)%N with false by (symmetry; apply N.ltb_ge; lia).
  replace (b <? 224)%N with false by (symmetry; apply N.ltb_ge; lia).
  destruct (N.eqb_spec b 224) as [->|H1]; [eexists; eexists; repeat split|].
  destruct (N.ltb_spec b 237) as [H2|H2].
  { replace (b =? 237)%N with false by (symmetry; apply N.eqb_neq; lia).
    eexists; eexists; repeat split. }
  destruct (N.eqb_spec b 237) as [->|H3]; [eexists; eexists; repeat split|].
  replace (b <? 240)%N with true by (symmetry; apply N.ltb_lt; lia).
  eexists; eexists; repeat split.
Qed.

Lemma first_4 (b : N) :
  (240 <= b <= 244)%N ->
  exists lo hi,
    utf8.first b = Some (4%nat, (lo, hi))
    /\ lo = (if (b =? 240) then 144 else 128)%N
    /\ hi = (if (b =? 244) then 143 else 191)%N.
Proof.
  intros H. unfold utf8.first.
  replace (b <? 194)%N with false by (symmetry; apply N.ltb_ge; lia).
  replace (b <? 224)%N with false by (symmetry; apply N.ltb_ge; lia).
  replace (b =? 224)%N with false by (symmetry; apply N.eqb_neq; lia).
  replace (b <? 237)%N with false by (symmetry; apply N.ltb_ge; lia).
  replace (b =? 237)%N with false by (symmetry; apply N.eqb_neq; lia).
  replace (b <? 240)%N with false by (symmetry; apply N.ltb_ge; lia).
  destruct (N.eqb_spec b 240) as [->|H1]; [eexists; eexists; repeat split|].
  destruct (N.ltb_spec b 244) as [H2|H2].
  { replace (b =? 244)%N with false by (symmetry; apply N.eqb_neq; lia).
    eexists; eexists; repeat split. }
  replace (b =? 244)%N with true by (symmetry; apply N.eqb_eq; lia).
  eexists; eexists; repeat split.
Qed.

Lemma wellFormed_2 (b0 b1 : N) (t : string) :
  (194 <= b0 < 224)%N -> (128 <= b1 <= 191)%N -> wellFormed t ->
  wellFormed (String (utf8.byte b0) (String (utf8.byte b1) t)).
Proof.
  intros H0 H1 Ht.
  assert (E0 : N_of_ascii (utf8.byte b0) = b0) by (apply N_of_byte; lia).
  assert (E1 : N_of_ascii (utf8.byte b1) = b1) by (apply N_of_byte; lia).
  eapply (wellFormed_decoded _ _ t _ 0); [rewrite E0; lia | | reflexivity | exact Ht].
  apply (decode2 _ _ _ 128 191).
  - rewrite E0. apply N.ltb_ge. unfold utf8.RuneSelf. lia.
  - rewrite E0. apply first_2, H0.
  - rewrite E1. exact H1.
Qed.

Lemma wellFormed_3 (b0 b1 b2 : N) (t : string) :
  (224 <= b0 < 240)%N ->
  ((if b0 =? 224 then 160 else 128) <= b1
   <= (if b0 =? 237 then 159 else 191))%N ->
  (128 <= b2 <= 191)%N -> wellFormed t ->
  wellFormed
    (String (utf8.byte b0) (String (utf8.byte b1) (String (utf8.byte b2) t))).
Proof.
  intros H0 H1 H2 Ht.
  assert (B1 : (b1 < 256)%N).
  { destruct (b0 =? 237)%N; lia. }
  assert (E0 : N_of_ascii (utf8.byte b0) = b0) by (apply N_of_byte; lia).
  assert (E1 : N_of_ascii (utf8.byte b1) = b1) by (apply N_of_byte; lia).
  assert (E2 : N_of_ascii (utf8.byte b2) = b2) by (apply N_of_byte; lia).
  destruct (first_3 b0 H0) as (lo & hi & F & -> & ->).
  eapply (wellFormed_decoded _ _ t _ 1); [rewrite E0; lia | | reflexivity | exact Ht].
  eapply decode3.
  - rewrite E0. apply N.ltb_ge. unfold utf8.RuneSelf. lia.
  - rewrite E0. exact F.
  - rewrite E1. exact H1.
  - rewrite E2. exact H2.
Qed.

Lemma wellFormed_4 (b0 b1 b2 b3 : N) (t : string) :
  (240 <= b0 <= 244)%N ->
  ((if b0 =? 240 then 144 else 128) <= b1
   <= (if b0 =? 244 then 143 else 191))%N ->
  (128 <= b2 <= 191)%N -> (128 <= b3 <= 191)%N -> wellFormed t ->
  wellFormed
    (String (utf8.byte b0)
       (String (utf8.byte b1) (String (utf8.byte b2) (String (utf8.byte b3) t)))).
Proof.
  intros H0 H1 H2 H3 Ht.
  assert (B1 : (b1 < 256)%N).
  { destruct (b0 =? 244)%N; lia. }
  assert (E0 : N_of_ascii (utf8.byte b0) = b0) by (apply N_of_byte; lia).
  assert (E1 : N_of_ascii (utf8.byte b1) = b1) by (apply N_of_byte; lia).
  assert (E2 : N_of_ascii (utf8.byte b2) = b2) by (apply N_of_byte; lia).
  assert (E3 : N_of_ascii (utf8.byte b3) = b3) by (apply N_of_byte; lia).
  destruct (first_4 b0 H0) as (lo & hi & F & -> & ->).
  eapply (wellFormed_decoded _ _ t _ 2); [rewrite E0; lia | | reflexivity | exact Ht].
  eapply decode4.
  - rewrite E0. apply N.ltb_ge. unfold utf8.RuneSelf. lia.
  - rewrite E0. exact F.
  - rewrite E1. exact H1.
  - rewrite E2. exact H2.
  - rewrite E3. exact H3.
Qed.

(** The bytes [EncodeRune] writes for any number are valid UTF-8 before
    any valid text. *)
Lemma wellFormed_EncodeRune (r : N) (t : string) :
  wellFormed t -> wellFormed (utf8.EncodeRune r +:+ t).
Proof.
  intros Ht. unfold utf8.EncodeRune.
  destruct (N.leb_spec r 127) as [H1|H1].
  { rewrite sapp_cons, sapp_nil_l. apply wellFormed_ascii; [|exact Ht].
    rewrite N_of_byte; lia. }
  destruct (N.leb_spec r 2047) as [H2|H2].
  { rewrite !sapp_cons, sapp_nil_l.
    rewrite shiftr_6, land_63, lor_192, lor_128 by nlia.
    apply wellFormed_2; [nlia | nlia | exact Ht]. }
  destruct ((1114111 <? r) || ((55296 <=? r) && (r <=? 57343)))%N eqn:Hbad.
  { rewrite !sapp_cons, sapp_nil_l.
    apply wellFormed_3; [lia | cbn; lia | lia | exact Ht]. }
  apply orb_false_elim in Hbad as [Hmax Hsur].
  apply N.ltb_ge in Hmax.
  assert (Hs : (r < 55296 \/ 57343 < r)%N).
  { apply andb_false_elim in Hsur as [H|H];
      [apply N.leb_gt in H | apply N.leb_gt in H]; lia. }
  destruct (N.leb_spec r 65535) as [H3|H3].
  { rewrite !sapp_cons, sapp_nil_l.
    rewrite shiftr_12, shiftr_6, !land_63.
    rewrite lor_224 by nlia. rewrite !lor_128 by nlia.
    apply wellFormed_3; [nlia | | nlia | exact Ht].
    destruct (N.eqb_spec (224 + r / 4096) 224) as [E|E];
      destruct (N.eqb_spec (224 + r / 4096) 237) as [E'|E']; nlia. }
  rewrite !sapp_cons, sapp_nil_l.
  rewrite shiftr_18, shiftr_12, shiftr_6, !land_63.
  rewrite lor_240 by nlia. rewrite !lor_128 by nlia.
  apply wellFormed_4; [nlia | | nlia | nlia | exact Ht].
  destruct (N.eqb_spec (240 + r / 262144) 240) as [E|E];
    destruct (N.eqb_spec (240 + r / 262144) 244) as [E'|E']; nlia.
Qed.

(** ** What is unquoted is valid UTF-8 *)

Lemma wellFormed_option_ascii (x : ascii) (o : option string) (out : string) :
  (N_of_ascii x < 128)%N ->
  (forall s, o = Some s -> wellFormed s) ->
  option_map (String x) o = Some out -> wellFormed out.
Proof.
  intros Hx Ho E. destruct o as [s|]; [|discriminate E].
  injection E as <-. apply wellFormed_ascii; [exact Hx | apply Ho; reflexivity].
Qed.

Lemma wellFormed_option_rune (r : N) (o : option string) (out : string) :
  (forall s, o = Some s -> wellFormed s) ->
  option_map (String.append (utf8.EncodeRune r)) o = Some out -> wellFormed out.
Proof.
  intros Ho E. destruct o as [s|]; [|discriminate E].
  injection E as <-. apply wellFormed_EncodeRune, Ho. reflexivity.
Qed.

Lemma eqb_N (c d : ascii) : Ascii.eqb c d = true -> N_of_ascii c = N_of_ascii d.
Proof. intros H. apply Ascii.eqb_eq in H. subst. reflexivity. Qed.

Lemma wellFormed_unquote_loop (fuel : nat) :
  forall s out, decode.unquote_loop fuel s = Some out -> wellFormed out.
Proof.
  induction fuel as [|fuel IH]; intros s out H.
  { destruct s; [|discriminate H]. injection H as <-. apply wellFormed_nil. }
  cbn [decode.unquote_loop] in H.
  destruct s as [|c t]; [injection H as <-; apply wellFormed_nil|].
  cbv beta iota zeta in H.
  destruct (Ascii.eqb c json.backslash) eqn:Eb.
  - destruct t as [|e t1]; [discriminate H|].
    cbv beta iota zeta in H.
    destruct (Ascii.eqb e quote_char || Ascii.eqb e json.backslash
              || Ascii.eqb e "/" || Ascii.eqb e "'") eqn:E1.
    { eapply wellFormed_option_ascii; [| |exact H]; [|intros s0; apply IH].
      repeat (apply orb_prop in E1 as [E1|E1]);
        apply eqb_N in E1; rewrite E1; reflexivity. }
    repeat match type of H with
           | (if Ascii.eqb e ?x then _ else _) = _ =>
               destruct (Ascii.eqb e x);
                 [eapply wellFormed_option_ascii; [| |exact H];
                    [reflexivity | intros s0; apply IH]|]
           end.
    destruct (Ascii.eqb e "u"); [|discriminate H].
    destruct (decode.getu4 (String c (String e t1))) as [rr|]; [|discriminate H].
    destruct (utf16.IsSurrogate rr).
    + destruct (decode.getu4 (string_drop 6 (String c (String e t1)))) as [rr1|].
      * destruct (negb (utf16.DecodeRune rr rr1 =? 65533)%N);
          (eapply wellFormed_option_rune; [intros s0; apply IH | exact H]).
      * eapply wellFormed_option_rune; [intros s0; apply IH | exact H].
    + eapply wellFormed_option_rune; [intros s0; apply IH | exact H].
  - destruct (Ascii.eqb c quote_char || (N_of_ascii c <? 32)%N);
      [discriminate H|].
    destruct (N_of_ascii c <? utf8.RuneSelf)%N eqn:Hc.
    + eapply wellFormed_option_ascii; [| |exact H]; [|intros s0; apply IH].
      apply N.ltb_lt in Hc. exact Hc.
    + destruct (utf8.DecodeRuneInString (String c t)) as [rr size].
      eapply wellFormed_option_rune; [intros s0; apply IH | exact H].
Qed.

(** Every string [unquoteBytes] returns is valid UTF-8. *)
Lemma ValidString_unquoteBytes (s out : string) :
  decode.unquoteBytes s = Some out -> utf8.ValidString out = true.
Proof.
  unfold decode.unquoteBytes. intros H.
  destruct (String.length s <? 2)%nat; [discriminate H|].
  destruct (_ || _); [discriminate H|].
  apply (wellFormed_unquote_loop _ _ _ H).
Qed.

(** ** The decoders store valid UTF-8 only *)

Section KeepsValid.

Import decode decoder.

Lemma typeError_Ok {A : Type} (v : value) (type : string) (cur a : A)
    (saved saved' : option error) :
  typeError v type cur saved = Ok (a, saved') -> a = cur.
Proof. unfold typeError, bind, saveError, ret. intros H. congruence. Qed.

Lemma bind_Ok {A B : Type} (x : D A) (k : A -> D B) (saved saved' : option error)
    (b : B) :
  bind x k saved = Ok (b, saved') ->
  exists a s, x saved = Ok (a, s) /\ k a s = Ok (b, saved').
Proof.
  unfold bind. destruct (x saved) as [[a s]|e]; [|discriminate].
  intros H. exists a, s. split; [reflexivity | exact H].
Qed.

Lemma ret_Ok {A : Type} (a b : A) (saved saved' : option error) :
  ret a saved = Ok (b, saved') -> b = a.
Proof. unfold ret. congruence. Qed.

Lemma keepsValid_decodeString : keepsValid utf8.ValidString decodeString.
Proof.
  intros cur v saved a saved' Hcur H. unfold decodeString in H.
  destruct v as [item|raw es|raw ms];
    [|apply typeError_Ok in H; subst; exact Hcur
     |apply typeError_Ok in H; subst; exact Hcur].
  destruct (isNull item); [apply ret_Ok in H; subst; exact Hcur|].
  destruct (String.prefix _ item);
    [|apply typeError_Ok in H; subst; exact Hcur].
  destruct (unquoteBytes item) as [s|] eqn:E; [|discriminate H].
  apply ret_Ok in H. subst. exact (ValidString_unquoteBytes _ _ E).
Qed.

Lemma keepsValid_decodePtr {A : Type} (valid : A -> bool) (zero : A)
    (dec : A -> value -> D A) :
  valid zero = true -> keepsValid valid dec ->
  keepsValid (fun o => match o with Some a => valid a | None => true end)
    (decodePtr zero dec).
Proof.
  intros Hzero Hdec cur v saved a saved' Hcur H.
  assert (Hd : valid (default zero cur) = true).
  { destruct cur; [exact Hcur | exact Hzero]. }
  unfold decodePtr in H.
  assert (Hgo : forall r,
             (x <<- dec (default zero cur) v ;; ret (Some x)) saved
             = Ok (r, saved') ->
             match r with Some a => valid a | None => true end = true).
  { intros r Hr. apply bind_Ok in Hr as (x & s & Hx & Hr).
    apply ret_Ok in Hr. subst r. exact (Hdec _ _ _ _ _ Hd Hx). }
  destruct v as [item|raw es|raw ms]; [|apply Hgo, H|apply Hgo, H].
  destruct (isNull item); [apply ret_Ok in H; subst; reflexivity|].
  apply Hgo, H.
Qed.

Lemma keepsValid_decodeElems {A : Type} (valid : A -> bool) (zero : A)
    (dec : A -> value -> D A) :
  valid zero = true -> keepsValid valid dec ->
  forall es old saved l saved',
    forallb valid old = true ->
    decodeElems zero dec old es saved = Ok (l, saved') ->
    forallb valid l = true.
Proof.
  intros Hzero Hdec es.
  induction es as [|e es IH]; intros old saved l saved' Hold H.
  - apply ret_Ok in H. subst. reflexivity.
  - cbn [decodeElems] in H.
    apply bind_Ok in H as (a & s & Ha & H).
    apply bind_Ok in H as (r & s' & Hr & H).
    apply ret_Ok in H. subst l. cbn [forallb]. apply andb_true_iff.
    assert (Hhd : valid (hd zero old) = true /\ forallb valid (tl old) = true).
    { destruct old as [|o old']; [split; [exact Hzero | reflexivity]|].
      cbn in Hold. apply andb_prop in Hold. exact Hold. }
    destruct Hhd as [Hh Ht]. split.
    + exact (Hdec _ _ _ _ _ Hh Ha).
    + exact (IH (tl old) s r s' Ht Hr).
Qed.

Lemma forallb_drop {A : Type} (f : A -> bool) (n : nat) (l : list A) :
  forallb f l = true -> forallb f (drop n l) = true.
Proof.
  revert l. induction n as [|n IH]; intros [|x l] H; try exact H.
  cbn [forallb] in H. apply andb_prop in H as [_ H]. apply IH, H.
Qed.

Lemma keepsValid_decodeSlice {A : Type} (valid : A -> bool) (type : string)
    (zero : A) (dec : A -> value -> D A) :
  valid zero = true -> keepsValid valid dec ->
  keepsValid (validSlice valid) (decodeSlice type zero dec).
Proof.
  intros Hzero Hdec cur v saved a saved' Hcur H. unfold decodeSlice in H.
  unfold validSlice in Hcur.
  destruct v as [item|raw es|raw ms].
  - destruct (isNull item); [apply ret_Ok in H; subst; reflexivity|].
    apply typeError_Ok in H. subst. exact Hcur.
  - apply bind_Ok in H as (l & s & Hl & H). apply ret_Ok in H. subst a.
    pose proof (keepsValid_decodeElems valid zero dec Hzero Hdec _ _ _ _ _
                  Hcur Hl) as Hvalid.
    destruct es as [|e es]; [reflexivity|].
    unfold validSlice, backing. cbn [upToLen pastLen default from_option id].
    rewrite forallb_app, Hvalid. apply forallb_drop, Hcur.
  - apply typeError_Ok in H. subst. exact Hcur.
Qed.

Lemma keepsValid_decodeNewSlice {A : Type} (valid : A -> bool) (type : string)
    (zero : A) (dec : A -> value -> D A) :
  valid zero = true -> keepsValid valid dec ->
  keepsValid (fun s => forallb valid (default [] s))
    (decodeNewSlice type zero dec).
Proof.
  intros Hzero Hdec cur v saved a saved' Hcur H. unfold decodeNewSlice in H.
  apply bind_Ok in H as (sl & s & Hsl & H). apply ret_Ok in H. subst a.
  apply (keepsValid_decodeSlice valid type zero dec Hzero Hdec) in Hsl.
  - unfold validSlice, backing in Hsl. rewrite forallb_app in Hsl.
    apply andb_prop in Hsl as [Hsl _]. exact Hsl.
  - unfold validSlice, backing. cbn [upToLen pastLen].
    rewrite app_nil_r. exact Hcur.
Qed.

Lemma keeps_decodeMembers {A : Type} (I : A -> Prop)
    (step : A -> string -> value -> D A) :
  (forall cur k key v saved a saved',
      unquoteBytes k = Some key -> I cur ->
      step cur key v saved = Ok (a, saved') -> I a) ->
  forall ms cur saved a saved',
    I cur -> decodeMembers step cur ms saved = Ok (a, saved') -> I a.
Proof.
  intros Hstep ms.
  induction ms as [|[k v] ms IH]; intros cur saved a saved' Hcur H.
  - apply ret_Ok in H. subst. exact Hcur.
  - cbn [decodeMembers] in H.
    destruct (unquoteBytes k) as [key|] eqn:Ek; [|discriminate H].
    apply bind_Ok in H as (cur' & s & Hc & H).
    apply (IH cur' s a saved'); [|exact H].
    exact (Hstep _ _ _ _ _ _ _ Ek Hcur Hc).
Qed.

Lemma validMap_spec {V : Type} (validV : V -> bool) (g : gmap string V) :
  validMap validV (Some g) = true
  <-> forall k x, g !! k = Some x ->
                  utf8.ValidString k = true /\ validV x = true.
Proof.
  unfold validMap. rewrite forallb_forall. split.
  - intros H k x Hk. apply andb_prop.
    apply (H (k, x)). apply list_elem_of_In, elem_of_map_to_list, Hk.
  - intros H [k x] Hin. apply list_elem_of_In, elem_of_map_to_list in Hin.
    apply andb_true_iff. apply (H k x Hin).
Qed.

Lemma validMap_insert {V : Type} (validV : V -> bool) (g : gmap string V)
    (k : string) (x : V) :
  validMap validV (Some g) = true -> utf8.ValidString k = true ->
  validV x = true -> validMap validV (Some (<[k:=x]> g)) = true.
Proof.
  rewrite !validMap_spec. intros Hg Hk Hx k' x' H.
  apply lookup_insert_Some in H as [[<- <-]|[_ H]]; [split; assumption|].
  apply (Hg k' x' H).
Qed.

Lemma validMap_empty {V : Type} (validV : V -> bool) :
  validMap validV (Some (∅ : gmap string V)) = true.
Proof. apply validMap_spec. intros k x H. rewrite lookup_empty in H. discriminate H. Qed.

Lemma keepsValid_decodeMap {V : Type} (validV : V -> bool) (type : string)
    (zero : V) (dec : V -> value -> D V) :
  validV zero = true -> keepsValid validV dec ->
  keepsValid (validMap validV) (decodeMap type zero dec).
Proof.
  intros Hzero Hdec cur v saved a saved' Hcur H. unfold decodeMap in H.
  destruct v as [item|raw es|raw ms].
  - destruct (isNull item); [apply ret_Ok in H; subst; reflexivity|].
    apply typeError_Ok in H. subst. exact Hcur.
  - apply typeError_Ok in H. subst. exact Hcur.
  - apply bind_Ok in H as (g & s & Hg & H). apply ret_Ok in H. subst a.
    apply (keeps_decodeMembers (fun g => validMap validV (Some g) = true)
             (storeEntry zero dec)) in Hg; [exact Hg| |].
    + intros g0 k key v0 s0 g1 s1 Ek Hg0 Hs. unfold storeEntry in Hs.
      apply bind_Ok in Hs as (x & s2 & Hx & Hs). apply ret_Ok in Hs. subst g1.
      apply validMap_insert; [exact Hg0| |].
      * exact (ValidString_unquoteBytes _ _ Ek).
      * exact (Hdec _ _ _ _ _ Hzero Hx).
    + destruct cur as [g0|]; [exact Hcur | apply validMap_empty].
Qed.

Lemma keepsValid_decodeStruct {A : Type} (valid : A -> bool) (type : string)
    (names : list string) (store : string -> A -> value -> D A) :
  (forall f, keepsValid valid (store f)) ->
  keepsValid valid (decodeStruct type names store).
Proof.
  intros Hstore cur v saved a saved' Hcur H. unfold decodeStruct in H.
  destruct v as [item|raw es|raw ms].
  - destruct (isNull item); [apply ret_Ok in H; subst; exact Hcur|].
    apply typeError_Ok in H. subst. exact Hcur.
  - apply typeError_Ok in H. subst. exact Hcur.
  - apply (keeps_decodeMembers (fun a => valid a = true)
             (storeMember names store)) in H; [exact H| |exact Hcur].
    intros c k key v0 s0 c1 s1 _ Hc Hs. unfold storeMember in Hs.
    destruct (findField names key) as [f|].
    + exact (Hstore f _ _ _ _ _ Hc Hs).
    + apply ret_Ok in Hs. subst. exact Hc.
Qed.

Lemma keepsValid_decodeStrings :
  keepsValid (validSlice utf8.ValidString) decodeStrings.
Proof.
  apply (keepsValid_decodeSlice utf8.ValidString); [reflexivity|].
  apply keepsValid_decodeString.
Qed.

Lemma keepsValid_decodeNewStrings :
  keepsValid validList (decodeNewSlice "[]string" EmptyString decodeString).
Proof.
  apply (keepsValid_decodeNewSlice utf8.ValidString); [reflexivity|].
  apply keepsValid_decodeString.
Qed.

Lemma keepsValid_decodePrincipal :
  keepsValid (fun p => validSlice utf8.ValidString (memAws p)) decodePrincipal.
Proof.
  apply keepsValid_decodeStruct. intros f cur v saved a saved' Hcur H.
  unfold storePrincipal in H. destruct (String.eqb f "AWS").
  - apply bind_Ok in H as (aws & s & Haws & H). apply ret_Ok in H. subst a.
    cbn [memAws]. exact (keepsValid_decodeStrings _ _ _ _ _ Hcur Haws).
  - apply ret_Ok in H. subst. exact Hcur.
Qed.

Lemma keepsValid_principalPtr :
  keepsValid validPrincipalMem (decodePtr zeroPrincipalMem decodePrincipal).
Proof.
  apply (keepsValid_decodePtr
           (fun p => validSlice utf8.ValidString (memAws p)));
    [reflexivity | apply keepsValid_decodePrincipal].
Qed.

Lemma keepsValid_stringPtr :
  keepsValid validOpt (decodePtr EmptyString decodeString).
Proof.
  apply (keepsValid_decodePtr utf8.ValidString);
    [reflexivity | apply keepsValid_decodeString].
Qed.

Lemma keepsValid_decodeCondition : keepsValid validCondition decodeCondition.
Proof.
  apply keepsValid_decodeMap; [reflexivity|].
  apply keepsValid_decodeMap; [reflexivity|].
  apply keepsValid_decodeNewStrings.
Qed.

Lemma validStatementMem_spec (s : StatementMem) :
  validStatementMem s = true
  <-> validOpt (memSid s) = true /\ validPrincipalMem (memPrincipal s) = true
      /\ validPrincipalMem (memNotPrincipal s) = true
      /\ validSlice utf8.ValidString (memAction s) = true
      /\ validSlice utf8.ValidString (memNotAction s) = true
      /\ utf8.ValidString (memResource s) = true
      /\ validCondition (memCondition s) = true.
Proof. unfold validStatementMem. rewrite !andb_true_iff. tauto. Qed.

Lemma keepsValid_decodeStatement :
  keepsValid validStatementMem decodeStatement.
Proof.
  apply keepsValid_decodeStruct. intros f cur v saved a saved' Hcur H.
  apply validStatementMem_spec in Hcur as (H1 & H2 & H3 & H4 & H5 & H6 & H7).
  unfold storeStatement in H.
  repeat match type of H with
         | (if ?b then _ else _) _ = _ => destruct b
         end;
    try (apply ret_Ok in H; subst a; apply validStatementMem_spec; tauto);
    apply bind_Ok in H as (x & s & Hx & H); apply ret_Ok in H; subst a;
    apply validStatementMem_spec;
    destruct cur as [sid e pr npr act nact res cond];
    cbn [memSid memEffect memPrincipal memNotPrincipal memAction memNotAction
         memResource memCondition putSid putEffect putPrincipal
         putNotPrincipal putAction putNotAction putResource putCondition]
      in *;
    repeat split; try assumption.
  - exact (keepsValid_stringPtr _ _ _ _ _ H1 Hx).
  - exact (keepsValid_principalPtr _ _ _ _ _ H2 Hx).
  - exact (keepsValid_principalPtr _ _ _ _ _ H3 Hx).
  - exact (keepsValid_decodeStrings _ _ _ _ _ H4 Hx).
  - exact (keepsValid_decodeStrings _ _ _ _ _ H5 Hx).
  - exact (keepsValid_decodeString _ _ _ _ _ H6 Hx).
  - exact (keepsValid_decodeCondition _ _ _ _ _ H7 Hx).
Qed.

Lemma keepsValid_decodePolicy : keepsValid validPolicyMem decodePolicy.
Proof.
  apply keepsValid_decodeStruct. intros f cur v saved a saved' Hcur H.
  unfold validPolicyMem in Hcur. apply andb_prop in Hcur as [H1 H2].
  unfold storePolicy in H.
  repeat match type of H with
         | (if ?b then _ else _) _ = _ => destruct b
         end;
    try (apply ret_Ok in H; subst a; unfold validPolicyMem; rewrite H1, H2;
         reflexivity);
    apply bind_Ok in H as (x & s & Hx & H); apply ret_Ok in H; subst a;
    unfold validPolicyMem; cbn [memId memStatement]; apply andb_true_iff;
    split; try assumption.
  - exact (keepsValid_stringPtr _ _ _ _ _ H1 Hx).
  - refine (keepsValid_decodeSlice
              (fun o => match o with
                        | Some s => validStatementMem s
                        | None => true
                        end)
              _ None _ eq_refl _ _ _ _ _ _ H2 Hx).
    apply (keepsValid_decodePtr validStatementMem); [reflexivity|].
    apply keepsValid_decodeStatement.
Qed.

(** What is valid in memory is valid in the value. *)
Lemma forallb_app_l {A : Type} (f : A -> bool) (l l' : list A) :
  forallb f (l ++ l') = true -> forallb f l = true.
Proof. rewrite forallb_app. intros H. apply andb_prop in H. apply H. Qed.

Lemma validPolicyMem_value (m : PolicyMem) :
  validPolicyMem m = true -> validPolicy (valueOfPolicy m) = true.
Proof.
  unfold validPolicyMem, validPolicy, validSlice, backing.
  intros H. apply andb_prop in H as [HId HSt]. apply forallb_app_l in HSt.
  cbn [valueOfPolicy polId polStatement]. rewrite HId. cbn [andb].
  destruct (upToLen (memStatement m)) as [l|]; [|reflexivity].
  cbn [option_map default from_option id] in *.
  rewrite forallb_forall in *. intros o Ho.
  apply in_map_iff in Ho as (om & <- & Hom). specialize (HSt om Hom).
  destruct om as [s|]; [|reflexivity]. cbn [option_map].
  apply validStatementMem_spec in HSt as (H1 & H2 & H3 & H4 & H5 & H6 & H7).
  unfold validStatement.
  cbn [valueOfStatement stSid stPrincipal stNotPrincipal stAction stNotAction
       stResource stCondition].
  rewrite H1, H6, H7.
  assert (HP : forall p, validPrincipalMem p = true ->
                         validPrincipal (option_map valueOfPrincipal p) = true).
  { intros [p|] Hp; [|reflexivity]. cbn. unfold validList.
    apply (forallb_app_l _ _ _ Hp). }
  rewrite (HP _ H2), (HP _ H3).
  unfold validList. rewrite (forallb_app_l _ _ _ H4), (forallb_app_l _ _ _ H5).
  reflexivity.
Qed.

Lemma LoadPolicy_valid (data : string) (p : Policy) :
  LoadPolicy data = Ok p -> validPolicy p = true.
Proof.
  unfold LoadPolicy, Unmarshal. intros H.
  destruct (scanner.parse data) as [v|]; [|discriminate H].
  destruct (decodePolicy zeroPolicyMem v None) as [[p' saved]|e] eqn:E;
    [|discriminate H].
  destruct saved; [discriminate H|].
  injection H as <-. apply validPolicyMem_value.
  exact (keepsValid_decodePolicy zeroPolicyMem _ _ _ _ eq_refl E).
Qed.

End KeepsValid.

(** ** Loaded policies can be written again *)

(** Whatever [LoadPolicy] returns can be written again: every string of a
    loaded policy is valid UTF-8 (the decoder replaces what is not), [Get]
    encodes the policy, and loading that text gives the policy back with
    its empty [NotAction] slices and [Condition] maps set to nil; the
    policy read back goes through [Get] and [LoadPolicy] unchanged. *)
Theorem loaded_policy_roundtrips (data : string) (p : Policy) :
  LoadPolicy data = Ok p ->
  validPolicy p = true
  /\ exists b q,
       Get p = Ok b /\ LoadPolicy b = Ok q /\ q = normalizePolicy p
       /\ exists b', Get q = Ok b' /\ LoadPolicy b' = Ok q.
Proof.
  intros H. pose proof (LoadPolicy_valid data p H) as Hv.
  split; [exact Hv|].
  destruct (LoadPolicy_Get p Hv) as (b & HGet & HLoad).
  exists b, (normalizePolicy p).
  split; [exact HGet|]. split; [exact HLoad|]. split; [reflexivity|].
  destruct (LoadPolicy_Get _ (LoadPolicy_valid b _ HLoad)) as (b' & HGet' & HLoad').
  exists b'. split; [exact HGet'|].
  rewrite HLoad'. f_equal. apply normalizePolicy_idem.
Qed.

Lemma loaded_policy_roundtrips_witness :
  exists p,
    LoadPolicy
      (dq "{'Id':'" +:+ String (ascii_of_N 255) (dq "\ud800','Statement':[{'Effect':'Allow','NotAction':[],'Condition':{}}]}"))
    = Ok p
    /\ validPolicy p = true
    /\ exists b q,
         Get p = Ok b /\ LoadPolicy b = Ok q /\ q = normalizePolicy p
         /\ exists b', Get q = Ok b' /\ LoadPolicy b' = Ok q.
Proof.
  eexists. split; [vm_compute; reflexivity|].
  apply (loaded_policy_roundtrips
           (dq "{'Id':'" +:+ String (ascii_of_N 255) (dq "\ud800','Statement':[{'Effect':'Allow','NotAction':[],'Condition':{}}]}"))).
  vm_compute. reflexivity.
Defined.

(** ** A statement without Effect denies *)

Lemma decodeMembers_middle_from {A : Type} (I : A -> Prop)
    (step : A -> string -> value -> decode.D A) (k : string) (x x' : value)
    (ms1 ms2 : list (string * value)) :
  (forall cur k1 key v saved a saved',
      List.In (k1, v) ms1 -> decode.unquoteBytes k1 = Some key -> I cur ->
      step cur key v saved = Ok (a, saved') -> I a) ->
  (forall key, decode.unquoteBytes k = Some key ->
     forall cur saved, I cur -> step cur key x saved = step cur key x' saved) ->
  forall cur saved,
    I cur ->
    decoder.decodeMembers step cur (ms1 ++ (k, x) :: ms2) saved
    = decoder.decodeMembers step cur (ms1 ++ (k, x') :: ms2) saved.
Proof.
  intros Hkeep Hx. induction ms1 as [|[k1 v1] ms1 IH]; intros cur saved Hcur.
  - cbn [app decoder.decodeMembers].
    destruct (decode.unquoteBytes k) as [key|]; [|reflexivity].
    unfold decode.bind. rewrite (Hx key eq_refl _ _ Hcur). reflexivity.
  - cbn [app decoder.decodeMembers].
    destruct (decode.unquoteBytes k1) as [key1|] eqn:E1; [|reflexivity].
    unfold decode.bind.
    destruct (step cur key1 v1 saved) as [[cur' saved']|e] eqn:Es;
      [|reflexivity].
    apply IH.
    + intros c k2 key2 v2 s2 a s2' Hin. apply Hkeep. right. exact Hin.
    + apply (Hkeep cur k1 key1 v1 saved cur' saved'); [left; reflexivity| | |];
        assumption.
Qed.

Lemma decodeElems_middle_new {A : Type} (zero : A)
    (dec : A -> value -> decode.D A) (x x' : value) (es1 es2 : list value) :
  (forall saved, dec zero x saved = dec zero x' saved) ->
  forall saved,
    decoder.decodeElems zero dec [] (es1 ++ x :: es2) saved
    = decoder.decodeElems zero dec [] (es1 ++ x' :: es2) saved.
Proof.
  intros Hx. induction es1 as [|e es1 IH]; intros saved.
  - cbn [app decoder.decodeElems hd]. unfold decode.bind. rewrite Hx.
    reflexivity.
  - cbn [app decoder.decodeElems hd tl]. unfold decode.bind.
    destruct (dec zero e saved) as [[a saved']|err]; [|reflexivity].
    rewrite IH. reflexivity.
Qed.

Lemma decodeSlice_middle_new {A : Type} (type : string) (zero : A)
    (dec : A -> value -> decode.D A) (x x' : value) (raw raw' : string)
    (es1 es2 : list value) :
  (forall saved, dec zero x saved = dec zero x' saved) ->
  forall saved,
    decoder.decodeSlice type zero dec decoder.nilSlice
      (Array raw (es1 ++ x :: es2)) saved
    = decoder.decodeSlice type zero dec decoder.nilSlice
        (Array raw' (es1 ++ x' :: es2)) saved.
Proof.
  intros Hx saved. unfold decoder.decodeSlice, decode.bind.
  change (decoder.backing (@decoder.nilSlice A)) with (@nil A).
  rewrite (decodeElems_middle_new zero dec x x' es1 es2 Hx).
  rewrite !length_app. cbn [length]. destruct es1; reflexivity.
Qed.

Lemma storePolicy_keeps_Statement (f : string) (cur a : decoder.PolicyMem)
    (v : value) (saved saved' : option error) :
  f <> "Statement" ->
  decoder.storePolicy f cur v saved = Ok (a, saved') ->
  decoder.memStatement a = decoder.memStatement cur.
Proof.
  intros Hf H. unfold decoder.storePolicy in H.
  destruct (String.eqb f "Version").
  { unfold decode.bind in H.
    destruct (decoder.decodePolicyVersion (decoder.memVersion cur) v saved)
      as [[x s]|e]; [|discriminate H].
    unfold decode.ret in H. injection H as <- _. reflexivity. }
  destruct (String.eqb f "Id").
  { unfold decode.bind in H.
    destruct (decoder.decodePtr EmptyString decoder.decodeString
                (decoder.memId cur) v saved) as [[x s]|e]; [|discriminate H].
    unfold decode.ret in H. injection H as <- _. reflexivity. }
  destruct (String.eqb_spec f "Statement") as [E|_]; [contradiction|].
  unfold decode.ret in H. injection H as <- _. reflexivity.
Qed.

(** A statement written without an Effect member is a Deny statement:
    [LoadPolicy] reads a document as it reads the same document with
    the member Effect of value Deny put in front of the members of one
    statement of the first Statement array. *)
Theorem missing_Effect_reads_as_Deny (data data' raw raw' kS keyS rawA rawA'
    rawS rawS' kE keyE : string) (pre post ms : list (string * value))
    (es1 es2 : list value) :
  decode.unquoteBytes kS = Some keyS ->
  decoder.findField decoder.policyFields keyS = Some "Statement" ->
  (forall k v key,
      List.In (k, v) pre -> decode.unquoteBytes k = Some key ->
      decoder.findField decoder.policyFields key <> Some "Statement") ->
  decode.unquoteBytes kE = Some keyE ->
  decoder.findField decoder.statementFields keyE = Some "Effect" ->
  scanner.parse data
  = Some (Object raw
            (pre ++ (kS, Array rawA (es1 ++ Object rawS ms :: es2)) :: post)) ->
  scanner.parse data'
  = Some (Object raw'
            (pre ++ (kS, Array rawA'
                           (es1 ++ Object rawS'
                                     ((kE, Literal (lit "Deny")) :: ms) :: es2))
                 :: post)) ->
  LoadPolicy data = LoadPolicy data'.
Proof.
  intros HkS HfS Hpre HkE HfE HP HP'.
  unfold LoadPolicy, decoder.Unmarshal. rewrite HP, HP'.
  cbn [decoder.decodePolicy decoder.decodeStruct].
  rewrite (decodeMembers_middle_from
             (fun p => decoder.memStatement p = decoder.nilSlice) _ kS
             (Array rawA (es1 ++ Object rawS ms :: es2))
             (Array rawA'
                (es1 ++ Object rawS' ((kE, Literal (lit "Deny")) :: ms) :: es2)));
    [reflexivity| | |reflexivity].
  - intros cur k1 key v saved a saved' Hin Hk1 Hcur Hs.
    unfold decoder.storeMember in Hs.
    pose proof (Hpre k1 v key Hin Hk1) as Hne.
    destruct (decoder.findField decoder.policyFields key) as [f|].
    + rewrite <- Hcur.
      apply (storePolicy_keeps_Statement f cur a v saved saved'); [|exact Hs].
      intros ->. apply Hne. reflexivity.
    + unfold decode.ret in Hs. injection Hs as <- _. exact Hcur.
  - intros key0 Hkey0 cur saved Hcur. rewrite HkS in Hkey0.
    injection Hkey0 as <-.
    unfold decoder.storeMember. rewrite HfS.
    unfold decoder.storePolicy. cbn [String.eqb Ascii.eqb Bool.eqb].
    rewrite Hcur. unfold decode.bind.
    rewrite (decodeSlice_middle_new _ _ _ (Object rawS ms)
               (Object rawS' ((kE, Literal (lit "Deny")) :: ms)) rawA rawA');
      [reflexivity|].
    intros saved0. unfold decoder.decodePtr.
    cbn [default from_option id decoder.decodeStatement decoder.decodeStruct].
    rewrite (decodeMembers_cons _ _ _ _ _ _ HkE).
    unfold decoder.storeMember at 2. rewrite HfE.
    reflexivity.
Qed.

Lemma missing_Effect_reads_as_Deny_witness :
  LoadPolicy (dq "{'Id':'a','Statement':[{'Resource':'r'}]}")
  = LoadPolicy (dq "{'Id':'a','Statement':[{'effect':'Deny','Resource':'r'}]}").
Proof.
  apply (missing_Effect_reads_as_Deny
           (dq "{'Id':'a','Statement':[{'Resource':'r'}]}")
           (dq "{'Id':'a','Statement':[{'effect':'Deny','Resource':'r'}]}")
           (dq "{'Id':'a','Statement':[{'Resource':'r'}]}")
           (dq "{'Id':'a','Statement':[{'effect':'Deny','Resource':'r'}]}")
           (lit "Statement") "Statement"
           (dq "[{'Resource':'r'}]") (dq "[{'effect':'Deny','Resource':'r'}]")
           (dq "{'Resource':'r'}") (dq "{'effect':'Deny','Resource':'r'}")
           (lit "effect") "effect"
           [(lit "Id", Literal (lit "a"))] []
           [(lit "Resource", Literal (lit "r"))] [] []);
    try reflexivity.
  intros k v key [H|[]] Hk. injection H as <- <-.
  vm_compute in Hk. injection Hk as <-. discriminate.
Defined.

(** ** Documents nested too deep *)

Lemma parse_opening_too_deep (fuel : nat) :
  (forall k d rest,
      (d <= scanner.maxNestingDepth)%N ->
      (scanner.maxNestingDepth < d + N.of_nat k)%N ->
      scanner.parseValue fuel d (opening k rest) = None)
  /\ (forall k d rest,
         (d <= scanner.maxNestingDepth)%N ->
         (scanner.maxNestingDepth < d + N.of_nat k)%N ->
         scanner.parseElems fuel d (opening k rest) = None).
Proof.
  induction fuel as [|fuel [IHv IHe]]; [split; reflexivity|].
  split; intros k d rest Hd Hk.
  - destruct k as [|k]; [lia|]. cbn [opening scanner.parseValue].
    change (Ascii.eqb "[" "{") with false.
    change (Ascii.eqb "[" "[") with true. cbv iota.
    destruct (scanner.mayPush d) eqn:Hp; [|reflexivity].
    apply N.leb_le in Hp.
    destruct k as [|k]; [lia|]. cbn [opening scanner.skipSpace].
    change (scanner.isSpace "[") with false.
    change (Ascii.eqb "[" "]") with false. cbv iota.
    change (String "[" (opening k rest)) with (opening (S k) rest).
    rewrite (IHe (S k) (d + 1)%N rest) by lia. reflexivity.
  - rewrite parseElems_S. rewrite (IHv k d rest Hd Hk). reflexivity.
Qed.

(** A document that opens more than [maxNestingDepth] arrays is refused
    before anything of it is stored, with the error of a text that is not
    JSON, whatever follows the brackets. *)
Theorem LoadPolicy_too_deep (k : nat) (rest : string) :
  (scanner.maxNestingDepth < N.of_nat k)%N ->
  LoadPolicy (opening k rest) = Err SyntaxError.
Proof.
  intros Hk. unfold LoadPolicy, decoder.Unmarshal, scanner.parse.
  destruct k as [|k]; [lia|].
  change (scanner.skipSpace (opening (S k) rest)) with (opening (S k) rest).
  destruct (parse_opening_too_deep
              (S (String.length (opening (S k) rest)))) as [H _].
  rewrite (H (S k) 0%N rest) by (unfold scanner.maxNestingDepth in *; lia).
  reflexivity.
Qed.

Lemma LoadPolicy_too_deep_witness :
  LoadPolicy (opening (N.to_nat 10001) "{}") = Err SyntaxError.
Proof.
  apply (LoadPolicy_too_deep (N.to_nat 10001) "{}").
  rewrite N2Nat.id. reflexivity.
Defined.

(** ** A key that is repeated *)

(** Of a key that the document holds three times with arrays of two,
    one and two elements, the second element read first is there again at
    the end: [null] stores nothing over the action [b], and the statement
    with no member keeps the Sid [b]. *)
Example LoadPolicy_repeated_key :
  LoadPolicy
    (dq "{'Statement':[{'Action':['a','b']}],'Statement':[{'Action':['c']}],'Statement':[{'Action':['c',null]}]}")
  = Ok (mkPolicy mkPolicyVersion None
          (Some [Some (mkStatement None Deny None None (Some ["c"; "b"]) None
                         "" None)]))
  /\ LoadPolicy
       (dq "{'Statement':[{'Sid':'a'},{'Sid':'b'}],'Statement':[{'Sid':'c'}],'Statement':[{'Sid':'d'},{}]}")
     = Ok (mkPolicy mkPolicyVersion None
             (Some [Some (mkStatement (Some "d") Deny None None None None
                            "" None);
                    Some (mkStatement (Some "b") Deny None None None None
                            "" None)]))
  /\ LoadPolicy
       (dq "{'Statement':[{'Sid':'a'},{'Sid':'b'}],'Statement':[],'Statement':[{'Sid':'d'},{}]}")
     = Ok (mkPolicy mkPolicyVersion None
             (Some [Some (mkStatement (Some "d") Deny None None None None
                            "" None);
                    Some zeroStatement])).
Proof. repeat split; vm_compute; reflexivity. Qed.
